(* ===== verification/_CoqProject ===== *)
-Q . S2P
Prelude.v
CInt.v
Utils.v
RbTree.v
ConfigParams.v
Statistics.v
Alarm.v
AlarmTree.v
RouteObj.v
Packet.v
World.v
Kernel.v
MshRoute.v
PacketsFifo.v
RoutingTable.v
RreqFifo.v
Blind.v
AodvPkt.v
Logic.v
Timers.v
NfqHeaders.v
Nfqueue.v
NfqLib.v
Startup.v
Comm.v
PacketPrint.v
Client.v
MainLoop.v
Boot.v
Network.v
Invariant.v
SepLogic.v
RbShape.v
RbTreeRep.v
RbTreeOps.v
RbInsert.v
RbErase.v
RbTreeSpec.v
AlarmTreeSpec.v
LinuxList.v
PacketList.v
RreqList.v
TableList.v
PrecursorList.v
LinuxListSpec.v
ListState.v
MshRouteSpec.v
PacketsFifoSpec.v
PacketListSpec.v
RoutingTableSpec.v
TableListSpec.v
PrecursorListSpec.v
RreqFifoSpec.v
RreqListSpec.v
AodvPktSpec.v
LogicSpec.v
ProcessSpec.v
ReceiveSpec.v
NfqueueSpec.v
NfqLibSpec.v
StartupSpec.v
Libipq.v
TimersSpec.v
ShutdownSpec.v
CommSpec.v
ClientSpec.v
MainLoopSpec.v
NetworkSpec.v
Witness.v
KernelProps.v
NetworkProps.v
DaemonProps.v
ProtocolProps.v
TableProps.v
WireProps.v
TimerProps.v
TreeProps.v
ListProps.v
NfqProps.v
StartupProps.v
