(* ===== verification/Prelude.v ===== *)
(** * A verification library for meshias, an AODV daemon for mesh networks

    meshias keeps a wireless node's kernel routing table up to date with the AODV
    protocol (RFC 3561).  It captures the packets of the node through a netfilter
    queue, holds those without a route while it broadcasts route requests (RREQ),
    answers and relays the requests of others, learns routes from route replies (RREP)
    and lets routes expire.  This library models the C code of the daemon under
    [src/meshias_daemon] and of the parts of [src/libmeshias] and
    [src/libnetfilter_queue] it links, and proves what the code does; where the code
    commits undefined behaviour or departs from what it documents, that is a theorem too.

    ** How the program is put together

    [main] (meshias.c) waits in [select] for three sockets and the next timer.
    A captured packet goes to [manage_packet] (nfqueue.c), which gives a verdict at once
    or puts the packet in the packet queue (packets_fifo.c) and starts a route discovery
    ([aodv_find_route], aodv/logic.c).  A datagram goes to [aodv_process_packet], which
    checks it (aodv/packet.c) and updates the routing table (routing_table.c), the route
    objects (msh_route.c) and the queue of RREQs (rreq_fifo.c), and may send messages.  A
    command goes to communication_interface.c.  Routes and RREQ entries embed timers
    (alarm/alarm.c) whose callbacks expire routes and repeat discoveries.  A route that
    enters the table releases the packets waiting for its destination.

    ** The model

    A C function is a function of the state-and-fault monad [M] below: it returns with a
    new state or commits one of the [fault]s.  The state [world] (World.v) holds the global
    [data] and [stats], the heap objects (routes, RREQ entries, AODV packets) as finite maps
    from addresses, the lists as sequences of addresses, the timers, and the log of what
    the daemon did to the outside: datagrams sent, verdicts given, libnl calls, answers to
    commands.  Addresses are never reused, so an access through a dangling pointer is always
    the fault [UseAfterFree].  The environment [Env] (clock, results of [sendto], libnl and
    the verdict call) is a parameter, constrained by [EnvOk] only in that the clock returns
    normalised times.  Integers are [Z] with every conversion and wrap-around written out
    (CInt.v); the host is little-endian with a 64-bit [long].  Output for humans ([printf],
    [debug], [puts]) is left out and allocation succeeds, except where a file says otherwise.

    Some components are modelled below that level, on pointers: the red-black tree and
    alarm.c on its nodes, the list macros, packets_fifo.c, rreq_fifo.c, routing_table.c and
    the precursors of msh_route.c on the nodes of their lists, and the queue handles of
    libnetfilter_queue.  Their
    memory is a finite map of its own; SepLogic gives it a separation logic (a [bi] for the
    proof mode of Iris, with total weakest preconditions for [M]).  The timer queue on
    the tree ([AlarmTree]) is shown to implement the sequence of [Alarm] that the daemon is
    verified against ([alarm_tree_implements_the_sequence]).  A block freed while it is in the
    queue stays linked in the tree, where any later descent or rebalancing may read it: on the
    sequence, every operation that reads nodes of the tree is the fault [UseAfterFree] as soon
    as one of them is freed ([tree_alive]).  Only [routing_table_delete] frees such blocks
    ([freed_alarm_is_read] in TreeProps), so [shutdown_settles_the_packets] is about states in
    which the timers of routes are not armed beside others ([timers_apart]).  In the same way the packet queue, the RREQ queue, the routing table and
    the precursors of the routes on list nodes ([PacketList], [RreqList], [TableList],
    [PrecursorList]) implement the sequences of [PacketsFifo], [RreqFifo], [RoutingTable] and
    [RouteObj] ([packet_queue_implements_the_sequence] and the three theorems after it): no
    node is used after it is freed, though [routing_table_delete] frees routes that are still
    in the list.  Each of these models has one kind of node in its memory and the rest of the
    program as a [world], whose own sequence is hidden from it.

    Files, with the sources they model (names are those of the C functions):
    - Prelude: faults, the monad, total weakest preconditions, list lemmas, tactics;
    - CInt: widths, byte order;  Utils: utils.c and <sys/time.h>;
    - ConfigParams: aodv/configuration_parameters.c;  Statistics: statistics.c, .h;
    - Alarm: alarm/alarm.c on the in-order sequence of the tree, against the interface
      [AlarmHost] that any program state with a clock and an alarm queue implements;
    - RouteObj, MshRoute: msh_route.c, .h, and the update callback of routing_table.c;
    - Packet: aodv/packet.h and the pure part of packet.c;  AodvPkt: packets on the heap;
    - World: msh_data.h, the effects;  Kernel: the routes in the kernel, read off the log of
      the libnl calls (objects, requests granted);  PacketsFifo, RoutingTable, RreqFifo: the queues
      and the table;  Logic: aodv/logic.c;
    - Timers: the alarm callbacks;  NfqHeaders, Nfqueue: header access and nfqueue.c;
    - Comm: communication_interface.c;  MainLoop: msh_data.c, meshias.c, aodv_socket.c;
    - RbTree: alarm/rbtree.c and linux_rbtree.h, parent and colour in one word;
      AlarmTree: alarm/alarm.c through those functions;
    - LinuxList: alarm/linux_list.h, lists, hash lists and their loops, also those of a
      program that has lists in its state ([ListHost]);  PacketList, RreqList, TableList,
      PrecursorList: the two queues, the routing table (with the functions of msh_route.c that
      allocate and destroy routes) and the precursors on list nodes;
    - NfqLib: libnetfilter_queue.c, against the interface [Nfnetlink] of libnfnetlink and
      [malloc];  Startup: sockets/fds.c and the set-up and end of the sockets in nfqueue.c,
      aodv_socket.c, communication_interface.c and msh_data.c, against the system calls [Os];
      Boot: msh_data_init, msh_data_shutdown and main as a whole, libnl's caches being the
      class [Rtnl];  PacketPrint: [nfqueue_packet_print] on the getters of NfqLib;
      Libipq: libipq_compat.c on NfqLib, with its properties;
    - Client: meshias-tools.c, the command line client;
    - Network: several daemons, each a [world] of its own, and the datagrams between them.

    The network of Network.v is a step relation [net_step] on the list of the hosts' states:
    an event at one host, or the delivery of any datagram in the log of a host that [sendto]
    took (its result is in the log) to a host near it.  Nothing is assumed on order or number of deliveries, so datagrams are lost, late or
    repeated.  Assumed is what the socket API documents: a datagram arrives whole or cut at
    the size of the receiver's buffer ([BUF_SIZE]), with the sender's own address as source
    and the time to live it was sent with, and one of time to live 0 does not arrive; it
    reaches the host it is addressed to, or all hosts near when it is addressed to the
    broadcast address.  Schedules ([net_do_all]) are runs as lists, for concrete networks;
    [lossless] says of one that every datagram was delivered once to every host in reach.

    ** The theorems

    - Invariant defines [world_ok]: pointers live, lists without repetitions, one route per
      destination in the table, timers consistent with their owners, fields in range; the
      relations between states that the operations guarantee, ordered by [Finer] (all of
      them keep the agreement [in_kernel] of kernel and table, and log only messages); and
      [rwp], the total specification of an operation that keeps [world_ok].
    - MshRouteSpec to CommSpec: the specification of each operation, bottom up (the files
      are named after the component); each is total: the operation returns.
    - NetworkSpec: deliveries, the invariant of the network, one hop of a RREQ or RREP, and
      the induction along a line of hosts;
    - MainLoopSpec: the start state, the step relation [daemon_step] of the events, its
      runs, the events of the wake-ups of [select] ([round_events]), and that the loop of
      [main] is the run of these events, up to the one that ends the daemon.
    - Witness: a concrete daemon and the states it reaches.
    - RbShape (trees, contexts, the red-black conditions), RbTreeRep (trees in memory),
      RbTreeOps, RbInsert, RbErase, RbTreeSpec: specifications of the functions of rbtree.c
      and the step from assertions to states;  AlarmTreeSpec: the simulation.
    - LinuxListSpec: the list functions and rules for the loops;  ListState:
      the same on states, and the simulation of a loop over a sequence by a loop over nodes;
      Blind: operations that do not see a sequence of the program;  PacketListSpec,
      RreqListSpec, TableListSpec, PrecursorListSpec: the simulations for the lists on nodes,
      and that every [world_ok] state has such a memory (the last two).
    - NfqLibSpec: the list of queue handles and the table it stands for;  StartupSpec:
      start-up and end against the class [System] (the calls return; any of them may fail),
      with the calls made and their answers ([performed]);  ClientSpec: the client's sessions.
    - ShutdownSpec: what [msh_data_shutdown] does to a well-formed state.
    - NetworkProps (C3-C5, C7): several daemons together: what they send each other, a
      discovery from end to end, and a routing loop they can build;
      KernelProps (C2, C6, C8): the routes in the kernel, and the end of the daemon;
      DaemonProps (C1, C9-C15): safety of all runs and accounting of packets, verdicts,
      timers, discoveries;  ProtocolProps (C16-C21): what RREQs and RREPs lead to;
      TreeProps (C22-C25): the timer queue on the tree, balance and order;
      TimerProps (C26, C39, C40): the main loop, the timer queue, the command socket;
      ListProps (C27-C31): lists, queues, table, precursors;  NfqProps (C32), StartupProps (C33, C34);
      TableProps (C35, C36): lookups, insertion, lifetimes;
      WireProps (C37, C38): formats, round trips, undefined behaviour on messages.

    Fuel: the loops of the daemon run over lists that are in the state, and the main loop is
    given the wake-ups it handles.  The loops over pointers get as fuel the size of the memory
    they walk in plus one ([rounds], [list_rounds], [q_rounds]), and those of the client the
    length of the input plus one ([input_rounds]); running out is the fault [Diverges], and
    the specifications, being total, show that it does not happen, but for the client, which
    does loop for ever when its input ends before a word that quits.

    ** Not modelled

    The caches of libnl, the log (output only), the client library
    (libmeshias.c, unfinished: it does not compile), test
    and example programs.  The copies of utils.c, msh_route.c and
    configuration_parameters.c under meshias_daemon are identical to the ones under
    libmeshias.  The components on nodes are related to their sequences one at a time; a
    daemon that has all of them on nodes at once, and the whole shutdown on the tree, are
    not put together. *)

From stdpp Require Export base tactics numbers option list gmap strings.
From Stdlib Require Export ZArith Lia.

Declare Scope meshias_scope.
Delimit Scope meshias_scope with msh.
Open Scope Z_scope.

(** ** Faults and outcomes

    A C function either returns with a new state or commits an operation with
    undefined behaviour.  The faults are the kinds of undefined behaviour the
    modelled code can commit. *)

Inductive fault :=
  | NullDeref      (* dereference of a null pointer *)
  | UseAfterFree   (* access through a pointer whose object was freed *)
  | OutOfBounds    (* access outside the object the pointer points to *)
  | ShiftUB        (* shift by a negative amount or by the width or more *)
  | ListCorrupt    (* list_del or rb_erase of a node that is in no list or tree *)
  | Uninitialised  (* use of a variable that was never assigned *)
  | Diverges.      (* a loop that does not end: its fuel is used up *)

#[export] Instance fault_eq_dec : EqDecision fault.
Proof. solve_decision. Defined.

Inductive outcome (S A : Type) :=
  | Ok (a : A) (s : S)
  | Fault (f : fault).
Arguments Ok {S A} a s.
Arguments Fault {S A} f.

(** ** The state-and-fault monad *)

Definition M (S A : Type) : Type := S → outcome S A.

#[export] Instance M_ret {S} : MRet (M S) := λ A a s, Ok a s.
#[export] Instance M_bind {S} : MBind (M S) := λ A B f m s,
  match m s with
  | Ok a s' => f a s'
  | Fault e => Fault e
  end.

Section combinators.
Context {S : Type}.

Definition gets {A} (f : S → A) : M S A := λ s, Ok (f s) s.
Definition modify (f : S → S) : M S unit := λ s, Ok tt (f s).
Definition abort {A} (e : fault) : M S A := λ _, Fault e.

(** A partial read: [None] is the fault [e]. *)
Definition demand {A} (e : fault) (o : option A) : M S A :=
  match o with Some a => mret a | None => abort e end.

(** [if (b) m] as a statement. *)
Definition when (b : bool) (m : M S unit) : M S unit :=
  if b then m else mret tt.

(** A loop that runs its body once per element, in order. *)
Fixpoint for_each {A} (l : list A) (body : A → M S unit) : M S unit :=
  match l with
  | [] => mret tt
  | x :: l' => body x;; for_each l' body
  end.
End combinators.

(** ** Total weakest preconditions

    [wp m Q s]: run from [s], [m] returns (no fault) and [Q] holds of its result
    and final state. [fails m e s]: run from [s], [m] commits the fault [e]. *)

Definition wp {S A} (m : M S A) (Q : A → S → Prop) (s : S) : Prop :=
  match m s with Ok a s' => Q a s' | Fault _ => False end.

Definition fails {S A} (m : M S A) (e : fault) (s : S) : Prop := m s = Fault e.

Section wp_rules.
Context {S : Type}.
Implicit Types s : S.

Lemma wp_ret {A} (a : A) (Q : A → S → Prop) s : Q a s → wp (mret a) Q s.
Proof. done. Qed.

Lemma wp_bind {A B} (m : M S A) (k : A → M S B) Q s :
  wp m (λ a, wp (k a) Q) s → wp (m ≫= k) Q s.
Proof. unfold wp, mbind, M_bind. by destruct (m s). Qed.

Lemma wp_mono {A} (m : M S A) (P Q : A → S → Prop) s :
  wp m P s → (∀ a s', P a s' → Q a s') → wp m Q s.
Proof. unfold wp. destruct (m s); naive_solver. Qed.

Lemma wp_conj {A} (m : M S A) (P Q : A → S → Prop) s :
  wp m P s → wp m Q s → wp m (λ a s', P a s' ∧ Q a s') s.
Proof. unfold wp. by destruct (m s). Qed.

Lemma wp_gets {A} (f : S → A) (Q : A → S → Prop) s : Q (f s) s → wp (gets f) Q s.
Proof. done. Qed.

Lemma wp_modify (f : S → S) (Q : unit → S → Prop) s :
  Q tt (f s) → wp (modify f) Q s.
Proof. done. Qed.

Lemma wp_demand {A} e (o : option A) (Q : A → S → Prop) s a :
  o = Some a → Q a s → wp (demand e o) Q s.
Proof. by intros ->. Qed.

Lemma wp_when (b : bool) (m : M S unit) Q s :
  (b = true → wp m Q s) → (b = false → Q tt s) → wp (when b m) Q s.
Proof. destruct b; intros Ht Hf; [by apply Ht | by apply wp_ret, Hf]. Qed.

(** The loop rule: [I done rest] relates the elements already visited and the
    ones still to come to the state. *)
Lemma wp_for_each {A} (I : list A → list A → S → Prop) (l : list A) body Q s :
  I [] l s →
  (∀ pre x post s', l = pre ++ x :: post → I pre (x :: post) s' →
    wp (body x) (λ _, I (pre ++ [x]) post) s') →
  (∀ s', I l [] s' → Q tt s') →
  wp (for_each l body) Q s.
Proof.
  intros H0 Hstep Hend.
  enough (∀ post pre s', l = pre ++ post → I pre post s' →
            wp (for_each post body) Q s') as Hgen by (by apply (Hgen l [])).
  induction post as [|x post IH]; intros pre s' -> HI; simpl.
  - apply wp_ret, Hend. by rewrite app_nil_r.
  - apply wp_bind. eapply wp_mono; [by eapply Hstep|].
    intros [] s'' HI'. apply (IH (pre ++ [x])); [|done].
    by rewrite <-app_assoc.
Qed.

Lemma wp_run {A} (m : M S A) Q s :
  wp m Q s ↔ ∃ a s', m s = Ok a s' ∧ Q a s'.
Proof. unfold wp. destruct (m s); split; [eauto|naive_solver|done|naive_solver]. Qed.

Lemma bind_eq {A B} (m : M S A) (k : A → M S B) s a s' :
  m s = Ok a s' → (m ≫= k) s = k a s'.
Proof. unfold mbind, M_bind. by intros ->. Qed.

Lemma bind_ok {A B} (m : M S A) (k : A → M S B) s b s' :
  (m ≫= k) s = Ok b s' → ∃ a t, m s = Ok a t ∧ k a t = Ok b s'.
Proof. unfold mbind, M_bind. destruct (m s) as [a t|]; [by exists a, t|done]. Qed.

Lemma fails_bind {A B} (m : M S A) (k : A → M S B) e s :
  wp m (λ a s', fails (k a) e s') s → fails (m ≫= k) e s.
Proof. unfold wp, fails, mbind, M_bind. by destruct (m s). Qed.

Lemma fails_first {A B} (m : M S A) (k : A → M S B) e s :
  fails m e s → fails (m ≫= k) e s.
Proof. unfold fails, mbind, M_bind. by intros ->. Qed.
End wp_rules.

(** ** Automation

    [wp_steps] drives a goal [wp prog Q s] through the monadic combinators and
    stops at the first operation that has no rule; the specifications of the
    components' operations are applied by hand or through the [msh] database. *)

Create HintDb msh discriminated.
Create Rewrite HintDb msh_rw.

Ltac wp_step :=
  lazymatch goal with
  | |- wp (mbind _ _) _ _ => apply wp_bind
  | |- wp (mret _) _ _ => apply wp_ret
  | |- wp (gets _) _ _ => apply wp_gets
  | |- wp (modify _) _ _ => apply wp_modify
  | |- wp (when _ _) _ _ => apply wp_when; intros ?
  | |- wp (let _ := _ in _) _ _ => cbv zeta
  end.
Ltac wp_steps := repeat wp_step.

(** [wp_use H]: close the current operation with the specification [H] and go on
    with the continuation. *)
Tactic Notation "wp_use" uconstr(H) := eapply wp_mono; [eapply H|].

(** ** Lists *)

Section list_lemmas.
Context {A : Type} `{EqDecision A}.
Implicit Types (x y : A) (l : list A).

(** Unlinking the node [x] from a list of distinct nodes. *)
Definition unlink (x : A) (l : list A) : list A := filter (λ y, y ≠ x) l.

Lemma elem_of_unlink x y l : y ∈ unlink x l ↔ y ≠ x ∧ y ∈ l.
Proof. unfold unlink. by rewrite list_elem_of_filter. Qed.

Lemma unlink_NoDup x l : NoDup l → NoDup (unlink x l).
Proof. apply NoDup_filter. Qed.

Lemma unlink_notin x l : x ∉ l → unlink x l = l.
Proof.
  unfold unlink. induction l as [|y l IH]; intros Hx; [done|].
  rewrite filter_cons_True by set_solver. f_equal. apply IH. set_solver.
Qed.

Lemma unlink_split x l1 l2 : NoDup (l1 ++ x :: l2) → unlink x (l1 ++ x :: l2) = l1 ++ l2.
Proof.
  intros (_ & Hx1 & Hx2)%NoDup_app. apply NoDup_cons in Hx2 as [Hx2 _].
  unfold unlink. rewrite filter_app, filter_cons_False by (intros Hn; by apply Hn).
  fold (unlink x l1) (unlink x l2). rewrite !unlink_notin; [done| |]; [done|].
  intros ?. eapply Hx1; [done|]. left.
Qed.

Lemma unlink_perm x l : NoDup l → x ∈ l → l ≡ₚ x :: unlink x l.
Proof.
  intros Hnd (l1 & l2 & ->)%list_elem_of_split.
  rewrite unlink_split by done. by rewrite Permutation_middle.
Qed.
End list_lemmas.

Lemma filter_ext_in {A} (P Q : A → Prop) `{∀ x, Decision (P x), ∀ x, Decision (Q x)} (l : list A) :
  (∀ x, x ∈ l → P x ↔ Q x) → filter P l = filter Q l.
Proof.
  induction l as [|x l IH]; intros Hl; [done|].
  rewrite !filter_cons, IH by set_solver. pose proof (Hl x).
  repeat case_decide; set_solver.
Qed.

(** The two halves of a partition. *)
Lemma filter_all {A} (P : A → Prop) `{∀ x, Decision (P x)} (l : list A) :
  (∀ x, x ∈ l → P x) → filter P l = l.
Proof.
  induction l as [|x l IH]; intros Hl; [done|].
  rewrite filter_cons_True by (apply Hl; left). f_equal. apply IH. intros y Hy. apply Hl. by right.
Qed.
Lemma filter_none {A} (P : A → Prop) `{∀ x, Decision (P x)} (l : list A) :
  (∀ x, x ∈ l → ¬ P x) → filter P l = [].
Proof.
  induction l as [|x l IH]; intros Hl; [done|].
  rewrite filter_cons_False by (apply Hl; left). apply IH. intros y Hy. apply Hl. by right.
Qed.
Lemma filter_left {A} (P : A → Prop) `{∀ x, Decision (P x)} (l1 l2 : list A) :
  (∀ x, x ∈ l1 → P x) → (∀ x, x ∈ l2 → ¬ P x) → filter P (l1 ++ l2) = l1.
Proof. intros. by rewrite filter_app, filter_all, filter_none, app_nil_r. Qed.
Lemma filter_right {A} (P : A → Prop) `{∀ x, Decision (P x)} (l1 l2 : list A) :
  (∀ x, x ∈ l1 → ¬ P x) → (∀ x, x ∈ l2 → P x) → filter P (l1 ++ l2) = l2.
Proof. intros. by rewrite filter_app, filter_none, filter_all. Qed.

#[export] Hint Resolve unlink_NoDup : msh.
