(* ===== verification/CInt.v ===== *)
(** * C integers

    The fixed-width integers of the code as [Z] with the conversions written out:
    [u8], [u16], [u32], [u64] reduce modulo the width (C's conversion to an
    unsigned type), [s8] and [s32] are the two's-complement reading.  [unsigned
    long] and [size_t] are 64 bits wide and the host is little-endian, as on the
    x86-64 machines the daemon is built for. *)

From S2P Require Export Prelude.

Definition u8 (z : Z) : Z := z mod 2 ^ 8.
Definition u16 (z : Z) : Z := z mod 2 ^ 16.
Definition u32 (z : Z) : Z := z mod 2 ^ 32.
Definition u64 (z : Z) : Z := z mod 2 ^ 64.
Definition s8 (z : Z) : Z := (z + 2 ^ 7) mod 2 ^ 8 - 2 ^ 7.
Definition s32 (z : Z) : Z := (z + 2 ^ 31) mod 2 ^ 32 - 2 ^ 31.

(** Ranges. *)
Definition is_u8 (z : Z) : Prop := 0 ≤ z < 2 ^ 8.
Definition is_u16 (z : Z) : Prop := 0 ≤ z < 2 ^ 16.
Definition is_u32 (z : Z) : Prop := 0 ≤ z < 2 ^ 32.
Definition is_s8 (z : Z) : Prop := - 2 ^ 7 ≤ z < 2 ^ 7.

Lemma u8_range z : is_u8 (u8 z).
Proof. by apply Z.mod_pos_bound. Qed.
Lemma u16_range z : is_u16 (u16 z).
Proof. by apply Z.mod_pos_bound. Qed.
Lemma u32_range z : is_u32 (u32 z).
Proof. by apply Z.mod_pos_bound. Qed.
Lemma s8_range z : is_s8 (s8 z).
Proof. unfold is_s8, s8. pose proof (Z.mod_pos_bound (z + 2 ^ 7) (2 ^ 8)). lia. Qed.

Lemma u8_id z : is_u8 z → u8 z = z.
Proof. apply Z.mod_small. Qed.
Lemma u16_id z : is_u16 z → u16 z = z.
Proof. apply Z.mod_small. Qed.
Lemma u32_id z : is_u32 z → u32 z = z.
Proof. apply Z.mod_small. Qed.
Lemma u64_id z : 0 ≤ z < 2 ^ 64 → u64 z = z.
Proof. apply Z.mod_small. Qed.
Lemma s8_id z : is_s8 z → s8 z = z.
Proof. unfold is_s8, s8. intros. rewrite Z.mod_small; lia. Qed.
Lemma s32_id z : - 2 ^ 31 ≤ z < 2 ^ 31 → s32 z = z.
Proof. unfold s32. intros. rewrite Z.mod_small; lia. Qed.

(** Intermediate reductions do not matter. *)
Lemma u32_u64 z : u32 (u64 z) = u32 z.
Proof.
  unfold u32, u64. apply Z.mod_mod_divide. by exists (2 ^ 32).
Qed.
Lemma u64_add_r a b : u64 (a + u64 b) = u64 (a + b).
Proof. apply Zplus_mod_idemp_r. Qed.
Lemma u64_mul_l a b : u64 (u64 a * b) = u64 (a * b).
Proof. apply Z.mul_mod_idemp_l. lia. Qed.
Lemma u32_add_l a b : u32 (u32 a + b) = u32 (a + b).
Proof. apply Zplus_mod_idemp_l. Qed.

#[export] Hint Resolve u8_range u16_range u32_range s8_range : msh.

(** ** Bytes and network byte order *)

Abbreviation bytes := (list Z).

Definition bytes_ok (bs : bytes) : Prop := Forall is_u8 bs.

(** The four bytes of a [uint32_t] in memory on a little-endian host, and back. *)
Definition le32 (z : Z) : bytes :=
  [z mod 256; z / 256 mod 256; z / 65536 mod 256; z / 16777216 mod 256].

Definition of_le32 (bs : bytes) : Z :=
  match bs with
  | [b0; b1; b2; b3] => b0 + 256 * b1 + 65536 * b2 + 16777216 * b3
  | _ => 0
  end.

(** The same in network byte order (most significant byte first). *)
Definition be32 (z : Z) : bytes := reverse (le32 z).
Definition of_be32 (bs : bytes) : Z := of_le32 (reverse bs).

(** [htonl] and [ntohl] on a little-endian host: reverse the bytes. *)
Definition htonl (z : Z) : Z := of_be32 (le32 z).
Definition ntohl (z : Z) : Z := htonl z.
Definition ntohs (z : Z) : Z := z / 256 mod 256 + 256 * (z mod 256).
Definition htons (z : Z) : Z := ntohs z.

Lemma le32_length z : length (le32 z) = 4%nat.
Proof. done. Qed.

Lemma le32_ok z : bytes_ok (le32 z).
Proof.
  unfold le32, bytes_ok, is_u8. repeat apply Forall_cons_2; try apply Forall_nil_2;
    change 256 with (2 ^ 8); by apply Z.mod_pos_bound.
Qed.

Lemma of_le32_le32 z : of_le32 (le32 z) = u32 z.
Proof. unfold of_le32, le32, u32. change (2 ^ 32) with 4294967296. Z.to_euclidean_division_equations; lia. Qed.

Lemma le32_of_le32 bs : bytes_ok bs → length bs = 4%nat → le32 (of_le32 bs) = bs.
Proof.
  intros Hok Hlen. do 5 (destruct bs as [|? bs]; try done).
  unfold bytes_ok in Hok. rewrite !Forall_cons in Hok. unfold is_u8 in Hok.
  destruct Hok as (?&?&?&?&_). unfold le32, of_le32.
  repeat apply (f_equal2 cons); try done; Z.to_euclidean_division_equations; lia.
Qed.

Lemma htonl_bytes b0 b1 b2 b3 :
  bytes_ok [b0; b1; b2; b3] →
  htonl (of_le32 [b0; b1; b2; b3]) = of_le32 [b3; b2; b1; b0].
Proof. intros Hok. unfold htonl. by rewrite le32_of_le32. Qed.

Lemma htonl_range z : is_u32 (htonl z).
Proof.
  pose proof (le32_ok z) as Hok. unfold htonl, of_be32, le32 in *. simpl.
  unfold bytes_ok in Hok. rewrite !Forall_cons in Hok. unfold is_u8, is_u32 in *. lia.
Qed.

(** Byte order conversion is an involution on 32-bit values. *)
Lemma htonl_involutive z : htonl (htonl z) = u32 z.
Proof.
  rewrite <-of_le32_le32. pose proof (le32_ok z) as Hok.
  unfold htonl at 2, of_be32. change (reverse (le32 z)) with
    [z / 16777216 mod 256; z / 65536 mod 256; z / 256 mod 256; z mod 256].
  rewrite htonl_bytes; [done|].
  unfold bytes_ok, le32 in *. rewrite !Forall_cons in *. naive_solver.
Qed.

Lemma ntohl_htonl z : is_u32 z → ntohl (htonl z) = z.
Proof. intros. unfold ntohl. by rewrite htonl_involutive, u32_id. Qed.

Lemma htonl_ntohl z : is_u32 z → htonl (ntohl z) = z.
Proof. apply ntohl_htonl. Qed.

(** What [htonl] stores is the network byte order of its argument. *)
Lemma le32_htonl z : le32 (htonl z) = be32 z.
Proof.
  unfold htonl, of_be32, be32. apply le32_of_le32; [|done].
  apply Forall_reverse, le32_ok.
Qed.

#[export] Hint Resolve htonl_range le32_ok : msh.
#[export] Hint Rewrite of_le32_le32 le32_htonl u32_u64 u64_add_r u64_mul_l : msh_rw.
