(* ===== verification/Utils.v ===== *)
(** * utils.c: times and addresses

    [set_alarm_time]/[get_alarm_time] convert between milliseconds and the
    seconds/microseconds pair of the timers; [inet_htoa] and [in_addr2nl_addr]
    build the text libnl parses.  [timeval] and the timer macros of
    <sys/time.h> are modelled here too, and the clock is the interface [Clock]
    that any state with a [gettimeofday] implements. *)

From S2P Require Export CInt.
From Stdlib Require Import Ascii.

(** ** struct timeval and the macros of <sys/time.h> *)

Record timeval := Timeval { tv_sec : Z; tv_usec : Z }.

#[export] Instance timeval_eq_dec : EqDecision timeval.
Proof. solve_decision. Defined.

(** [timercmp(a, b, <)] and [timercmp(a, b, >)]. *)
Definition timer_lt (a b : timeval) : bool :=
  if tv_sec a =? tv_sec b then tv_usec a <? tv_usec b else tv_sec a <? tv_sec b.
Definition timer_gt (a b : timeval) : bool := timer_lt b a.
Definition timer_ne (a b : timeval) : bool :=
  negb ((tv_sec a =? tv_sec b) && (tv_usec a =? tv_usec b)).
Definition timerisset (a : timeval) : bool :=
  negb ((tv_sec a =? 0) && (tv_usec a =? 0)).

Definition timeradd (a b : timeval) : timeval :=
  let sec := tv_sec a + tv_sec b in
  let usec := tv_usec a + tv_usec b in
  if 1000000 <=? usec then Timeval (sec + 1) (usec - 1000000) else Timeval sec usec.

Definition timersub (a b : timeval) : timeval :=
  let sec := tv_sec a - tv_sec b in
  let usec := tv_usec a - tv_usec b in
  if usec <? 0 then Timeval (sec - 1) (usec + 1000000) else Timeval sec usec.

(** A normalised time: what [gettimeofday] returns. *)
Definition timeval_ok (t : timeval) : Prop := 0 ≤ tv_usec t < 1000000.

(** The time in microseconds, against which the macros are specified. *)
Definition usecs (t : timeval) : Z := tv_sec t * 1000000 + tv_usec t.

Lemma timer_lt_spec a b : timeval_ok a → timeval_ok b → timer_lt a b = true ↔ usecs a < usecs b.
Proof. unfold timer_lt, timeval_ok, usecs. intros. case_match; lia. Qed.

Lemma timer_lt_irrefl a : timer_lt a a = false.
Proof. unfold timer_lt. rewrite Z.eqb_refl. lia. Qed.

Lemma timer_lt_trans a b c :
  timer_lt a b = true → timer_lt b c = true → timer_lt a c = true.
Proof. unfold timer_lt. repeat case_match; lia. Qed.

(** The order is total: not less one way composes. *)
Lemma timer_le_trans a b c :
  timer_lt b a = false → timer_lt c b = false → timer_lt c a = false.
Proof. unfold timer_lt. repeat case_match; lia. Qed.

Lemma timer_lt_le a b : timer_lt a b = true → timer_lt b a = false.
Proof. unfold timer_lt. repeat case_match; lia. Qed.

Lemma timeradd_usecs a b : usecs (timeradd a b) = usecs a + usecs b.
Proof. unfold timeradd, usecs. case_match; simpl; lia. Qed.

Lemma timersub_usecs a b : usecs (timersub a b) = usecs a - usecs b.
Proof. unfold timersub, usecs. case_match; simpl; lia. Qed.

Lemma timeradd_ok a b : timeval_ok a → timeval_ok b → timeval_ok (timeradd a b).
Proof. unfold timeradd, timeval_ok. intros. case_match; simpl; lia. Qed.

Lemma timersub_ok a b : timeval_ok a → timeval_ok b → timeval_ok (timersub a b).
Proof. unfold timersub, timeval_ok. intros. case_match; simpl; lia. Qed.

(** ** The clock *)

Class Clock (S : Type) := gettimeofday : M S timeval.

(** ** Milliseconds and seconds/microseconds *)

(** The two results that the C function stores through [sc] and [usc]. *)
Definition set_alarm_time (miliseconds : Z) : Z * Z :=
  (miliseconds / 1000, miliseconds mod 1000 * 1000).

(** [(uint32_t)usc / 1000 + sc * 1000], computed in [unsigned long] and returned
    as [uint32_t]. *)
Definition get_alarm_time (sc usc : Z) : Z :=
  u32 (u64 (u32 usc / 1000 + u64 (u64 sc * 1000))).

(** ** Addresses as text *)

Definition digit (d : Z) : string :=
  String (ascii_of_nat (48 + Z.to_nat d)) EmptyString.

(** The decimal text of a byte, as printed by [inet_ntoa] and [%d]. *)
Definition string_of_byte (b : Z) : string :=
  (if 100 <=? b then digit (b / 100) +:+ digit (b / 10 mod 10)
   else if 10 <=? b then digit (b / 10) else "") +:+ digit (b mod 10).

(** [inet_ntoa] prints the bytes of [s_addr] in memory order. *)
Definition inet_ntoa (s_addr : Z) : string :=
  String.concat "." (string_of_byte <$> le32 s_addr).

Definition inet_htoa (addr : Z) : string := inet_ntoa (htonl addr).

(** The text given to [nl_addr_parse]; an [nl_addr] is identified with the text it
    was parsed from. *)
Definition in_addr2nl_addr (addr prefix_sz : Z) : string :=
  if 0 <? prefix_sz
  then inet_htoa addr +:+ "/" +:+ string_of_byte prefix_sz
  else inet_htoa addr.

Example inet_htoa_ex : inet_htoa 3232235522 = "192.168.0.2".
Proof. reflexivity. Qed.
Example in_addr2nl_addr_ex : in_addr2nl_addr 3232235520 24 = "192.168.0.0/24".
Proof. reflexivity. Qed.

(** ** Facts *)

Lemma set_alarm_time_ok ms sc usc :
  set_alarm_time ms = (sc, usc) → timeval_ok (Timeval sc usc).
Proof.
  unfold timeval_ok. intros [= <- <-]. simpl.
  pose proof (Z.mod_pos_bound ms 1000). lia.
Qed.

Lemma set_alarm_time_usecs ms sc usc :
  set_alarm_time ms = (sc, usc) → usecs (Timeval sc usc) = ms * 1000.
Proof.
  unfold usecs. intros [= <- <-]. simpl.
  Z.to_euclidean_division_equations; lia.
Qed.

(** [get_alarm_time] of a normalised time is its number of whole milliseconds,
    modulo 2{^32}, for negative times too. *)
Lemma get_alarm_time_spec t :
  timeval_ok t → get_alarm_time (tv_sec t) (tv_usec t) = u32 (usecs t / 1000).
Proof.
  unfold timeval_ok, usecs, get_alarm_time. destruct t as [s us]; simpl. intros Hus.
  replace ((s * 1000000 + us) / 1000) with (us / 1000 + s * 1000)
    by (Z.to_euclidean_division_equations; lia).
  rewrite (u32_id us) by (unfold is_u32; lia).
  autorewrite with msh_rw. done.
Qed.
