(* ===== verification/RbTree.v ===== *)
(** * libmeshias/alarm/rbtree.c and linux_rbtree.h: red-black trees

    The pointer level of the tree under the timer queue.  The nodes are structures in
    memory, reached by addresses of any countable type; the parent's address and the
    colour share one word.  The two mirrored halves of the functions are one definition
    with the [side] as a parameter. *)

From S2P Require Export CInt.

(** [RB_RED] and [RB_BLACK]. *)
Definition RB_RED : Z := 0.
Definition RB_BLACK : Z := 1.

(** The pointer that is followed; [opp] is the other one. *)
Inductive side := Lft | Rgt.
Definition opp (d : side) : side := match d with Lft => Rgt | Rgt => Lft end.

#[export] Instance side_eq_dec : EqDecision side.
Proof. solve_decision. Defined.

Section rbtree.
Context {A : Type} `{Countable A}.

(** ** Nodes *)

Record rb_node := RbNode {
  rb_parent_color : Z;
  rb_right : option A;
  rb_left : option A }.

(** A pointer as an [unsigned long] and back: nodes are aligned, the two lowest bits of
    their addresses are clear. *)
Definition ptr (p : option A) : Z :=
  match p with Some a => 4 * Z.pos (encode a) | None => 0 end.
Definition of_ptr (z : Z) : option A :=
  match z / 4 with Z.pos x => decode x | _ => None end.

Definition rb_parent (n : rb_node) : option A := of_ptr (Z.land (rb_parent_color n) (Z.lnot 3)).
Definition rb_color (n : rb_node) : Z := Z.land (rb_parent_color n) 1.
Definition rb_is_red (n : rb_node) : bool := rb_color n =? 0.
Definition rb_is_black (n : rb_node) : bool := negb (rb_color n =? 0).

Definition with_parent_color (pc : Z) (n : rb_node) : rb_node := RbNode pc (rb_right n) (rb_left n).
Definition rb_set_red (n : rb_node) : rb_node :=
  with_parent_color (Z.land (rb_parent_color n) (Z.lnot 1)) n.
Definition rb_set_black (n : rb_node) : rb_node :=
  with_parent_color (Z.lor (rb_parent_color n) 1) n.
Definition rb_set_parent (p : option A) (n : rb_node) : rb_node :=
  with_parent_color (Z.lor (Z.land (rb_parent_color n) 3) (ptr p)) n.
Definition rb_set_color (color : Z) (n : rb_node) : rb_node :=
  with_parent_color (Z.lor (Z.land (rb_parent_color n) (Z.lnot 1)) color) n.

(** [node->rb_left] or [node->rb_right]. *)
Definition rb_child (d : side) (n : rb_node) : option A :=
  match d with Lft => rb_left n | Rgt => rb_right n end.
Definition rb_set_child (d : side) (x : option A) (n : rb_node) : rb_node :=
  match d with
  | Lft => RbNode (rb_parent_color n) (rb_right n) x
  | Rgt => RbNode (rb_parent_color n) x (rb_left n)
  end.

(** ** Memory *)

Record rb_state := RbState {
  rs_nodes : gmap A rb_node;
  rs_root : option A }.       (* root->rb_node *)

Definition load (a : A) : M rb_state rb_node := λ s, demand UseAfterFree (rs_nodes s !! a) s.
Definition store (a : A) (n : rb_node) : M rb_state unit :=
  modify (λ s, RbState (<[a := n]> (rs_nodes s)) (rs_root s)).
Definition change (a : A) (f : rb_node → rb_node) : M rb_state unit :=
  n ← load a; store a (f n).
Definition set_root (x : option A) : M rb_state unit :=
  modify (λ s, RbState (rs_nodes s) x).
Definition deref (p : option A) : M rb_state A := demand NullDeref p.

(** [if (x) f(x)] *)
Definition change_if (x : option A) (f : rb_node → rb_node) : M rb_state unit :=
  match x with Some a => change a f | None => mret tt end.

(** More rounds than any loop over the nodes of a tree takes. *)
Definition rounds : M rb_state nat := gets (λ s, S (size (rs_nodes s))).

(** [RB_EMPTY_NODE] and [RB_CLEAR_NODE]. *)
Definition RB_EMPTY_NODE (node : A) : M rb_state bool :=
  n ← load node; mret (bool_decide (rb_parent n = Some node)).
Definition RB_CLEAR_NODE (node : A) : M rb_state unit := change node (rb_set_parent (Some node)).

(** A [struct rb_node **] into the tree. *)
Inductive rb_link := LinkRoot | LinkChild (d : side) (parent : A).
Definition read_link (link : rb_link) : M rb_state (option A) :=
  match link with
  | LinkRoot => gets rs_root
  | LinkChild d parent => n ← load parent; mret (rb_child d n)
  end.
Definition write_link (link : rb_link) (x : option A) : M rb_state unit :=
  match link with
  | LinkRoot => set_root x
  | LinkChild d parent => change parent (rb_set_child d x)
  end.

Definition rb_link_node (node : A) (parent : option A) (link : rb_link) : M rb_state unit :=
  store node (RbNode (ptr parent) None None);;
  write_link link (Some node).

(** ** Rotations *)

(** The parent's pointer to [node] becomes [x]; without a parent, the root.  [d] is the
    side the code looks at first. *)
Definition replace_child (d : side) (parent : option A) (node : A) (x : option A) : M rb_state unit :=
  match parent with
  | Some p =>
      pn ← load p;
      if decide (rb_child d pn = Some node)
      then change p (rb_set_child d x)
      else change p (rb_set_child (opp d) x)
  | None => set_root x
  end.

(** [__rb_rotate_left] for [Lft], [__rb_rotate_right] for [Rgt]. *)
Definition rb_rotate (d : side) (node : A) : M rb_state unit :=
  n ← load node;
  right ← deref (rb_child (opp d) n);
  let parent := rb_parent n in
  r ← load right;
  change node (rb_set_child (opp d) (rb_child d r));;
  change_if (rb_child d r) (rb_set_parent (Some node));;
  change right (rb_set_child d (Some node));;
  change right (rb_set_parent parent);;
  replace_child d parent node (Some right);;
  change node (rb_set_parent (Some right)).
Definition __rb_rotate_left : A → M rb_state unit := rb_rotate Lft.
Definition __rb_rotate_right : A → M rb_state unit := rb_rotate Rgt.

(** ** Insertion *)

(** [x && rb_is_red(x)] and [!x || rb_is_black(x)]. *)
Definition red_node (x : option A) : M rb_state bool :=
  match x with Some a => n ← load a; mret (rb_is_red n) | None => mret false end.
Definition black_or_null (x : option A) : M rb_state bool :=
  match x with Some a => n ← load a; mret (rb_is_black n) | None => mret true end.

(** One round with a red parent on the side [d] of the grandparent; the node to go on
    with. *)
Definition rb_insert_case (d : side) (node parent gparent : A) : M rb_state A :=
  gn ← load gparent;
  let uncle := rb_child (opp d) gn in
  red ← red_node uncle;
  if (red : bool) then
    uncle ← deref uncle;
    change uncle rb_set_black;;
    change parent rb_set_black;;
    change gparent rb_set_red;;
    mret gparent
  else
    pn ← load parent;
    swapped ← (if decide (rb_child (opp d) pn = Some node)
               then rb_rotate d parent;; mret (node, parent)
               else mret (parent, node));
    let '(parent, node) := swapped in
    change parent rb_set_black;;
    change gparent rb_set_red;;
    rb_rotate (opp d) gparent;;
    mret node.

Fixpoint rb_insert_loop (fuel : nat) (node : A) : M rb_state unit :=
  match fuel with
  | O => abort Diverges
  | S fuel =>
      n ← load node;
      match rb_parent n with
      | None => mret tt
      | Some parent =>
          pn ← load parent;
          if negb (rb_is_red pn) then mret tt
          else
            gparent ← deref (rb_parent pn);
            gn ← load gparent;
            node ← rb_insert_case (if decide (rb_left gn = Some parent) then Lft else Rgt)
                     node parent gparent;
            rb_insert_loop fuel node
      end
  end.

Definition rb_insert_color (node : A) : M rb_state unit :=
  fuel ← rounds;
  rb_insert_loop fuel node;;
  root ← gets rs_root;
  root ← deref root;
  change root rb_set_black.

(** ** Deletion *)

(** One round with a sibling [other] of [node] on the side [opp d] of [parent]: the node
    and parent to go on with, or [None] after the [break]. *)
Definition rb_erase_case (d : side) (parent : A) : M rb_state (option (A * option A)) :=
  pn ← load parent;
  other ← deref (rb_child (opp d) pn);
  on ← load other;
  other ← (if rb_is_red on then
             change other rb_set_black;;
             change parent rb_set_red;;
             rb_rotate d parent;;
             pn ← load parent;
             deref (rb_child (opp d) pn)
           else mret other);
  on ← load other;
  near ← black_or_null (rb_child d on);
  far ← black_or_null (rb_child (opp d) on);
  if (near : bool) && (far : bool) then
    change other rb_set_red;;
    pn ← load parent;
    mret (Some (parent, rb_parent pn))
  else
    other ← (if (far : bool) then
               change_if (rb_child d on) rb_set_black;;
               change other rb_set_red;;
               rb_rotate (opp d) other;;
               pn ← load parent;
               deref (rb_child (opp d) pn)
             else mret other);
    pn ← load parent;
    change other (rb_set_color (rb_color pn));;
    change parent rb_set_black;;
    on ← load other;
    change_if (rb_child (opp d) on) rb_set_black;;
    rb_rotate d parent;;
    mret None.

(** The loop of [__rb_erase_color]; the result is [node] after it. *)
Fixpoint rb_erase_loop (fuel : nat) (node parent : option A) : M rb_state (option A) :=
  match fuel with
  | O => abort Diverges
  | S fuel =>
      black ← black_or_null node;
      root ← gets rs_root;
      if (black : bool) && negb (bool_decide (node = root)) then
        parent ← deref parent;
        pn ← load parent;
        next ← rb_erase_case (if decide (rb_left pn = node) then Lft else Rgt) parent;
        match next with
        | Some (node, parent) => rb_erase_loop fuel (Some node) parent
        | None => gets rs_root
        end
      else mret node
  end.

Definition __rb_erase_color (node parent : option A) : M rb_state unit :=
  fuel ← rounds;
  node ← rb_erase_loop fuel node parent;
  change_if node rb_set_black.

(** [while (node->d) node = node->d] *)
Fixpoint rb_descend (fuel : nat) (d : side) (node : A) : M rb_state A :=
  match fuel with
  | O => abort Diverges
  | S fuel =>
      n ← load node;
      match rb_child d n with Some x => rb_descend fuel d x | None => mret node end
  end.

(** The part after the label [color]. *)
Definition rb_erase_finish (color : Z) (child parent : option A) : M rb_state unit :=
  when (color =? RB_BLACK) (__rb_erase_color child parent).

(** A node with at most one child. *)
Definition rb_erase_single (node : A) (child : option A) : M rb_state unit :=
  n ← load node;
  let parent := rb_parent n in
  let color := rb_color n in
  change_if child (rb_set_parent parent);;
  replace_child Lft parent node child;;
  rb_erase_finish color child parent.

(** A node with two children: its successor takes its place. *)
Definition rb_erase_double (old right : A) : M rb_state unit :=
  fuel ← rounds;
  node ← rb_descend fuel Lft right;
  n ← load node;
  let child := rb_right n in
  let color := rb_color n in
  parent ← deref (rb_parent n);
  change_if child (rb_set_parent (Some parent));;
  parent ← (if decide (parent = old)
            then change parent (rb_set_child Rgt child);; mret node
            else change parent (rb_set_child Lft child);; mret parent);
  o ← load old;
  store node (RbNode (rb_parent_color o) (rb_right o) (rb_left o));;
  o ← load old;
  replace_child Lft (rb_parent o) old (Some node);;
  o ← load old;
  left ← deref (rb_left o);
  change left (rb_set_parent (Some node));;
  o ← load old;
  change_if (rb_right o) (rb_set_parent (Some node));;
  rb_erase_finish color child (Some parent).

Definition rb_erase (node : A) : M rb_state unit :=
  n ← load node;
  match rb_left n, rb_right n with
  | None, child => rb_erase_single node child
  | child, None => rb_erase_single node child
  | Some _, Some next => rb_erase_double node next
  end.

(** ** Traversal *)

Definition rb_extreme (d : side) : M rb_state (option A) :=
  root ← gets rs_root;
  match root with
  | None => mret None
  | Some n => fuel ← rounds; n ← rb_descend fuel d n; mret (Some n)
  end.
Definition rb_first : M rb_state (option A) := rb_extreme Lft.
Definition rb_last : M rb_state (option A) := rb_extreme Rgt.

(** [while ((parent = rb_parent(node)) && node == parent->d) node = parent;] *)
Fixpoint rb_ascend (fuel : nat) (d : side) (node : A) : M rb_state (option A) :=
  match fuel with
  | O => abort Diverges
  | S fuel =>
      n ← load node;
      match rb_parent n with
      | None => mret None
      | Some parent =>
          pn ← load parent;
          if decide (rb_child d pn = Some node) then rb_ascend fuel d parent
          else mret (Some parent)
      end
  end.

(** [rb_next] for [Rgt], [rb_prev] for [Lft]. *)
Definition rb_step (d : side) (node : A) : M rb_state (option A) :=
  n ← load node;
  if decide (rb_parent n = Some node) then mret None
  else
    fuel ← rounds;
    match rb_child d n with
    | Some x => x ← rb_descend fuel (opp d) x; mret (Some x)
    | None => rb_ascend fuel d node
    end.
Definition rb_next : A → M rb_state (option A) := rb_step Rgt.
Definition rb_prev : A → M rb_state (option A) := rb_step Lft.

Definition rb_replace_node (victim new : A) : M rb_state unit :=
  v ← load victim;
  replace_child Lft (rb_parent v) victim (Some new);;
  v ← load victim;
  change_if (rb_left v) (rb_set_parent (Some new));;
  v ← load victim;
  change_if (rb_right v) (rb_set_parent (Some new));;
  v ← load victim;
  store new v.
End rbtree.

Arguments rb_node A : clear implicits.
Arguments rb_state A {_ _}.
Arguments rb_link A : clear implicits.
