(* ===== verification/ConfigParams.v ===== *)
(** * aodv/configuration_parameters.c: the protocol's constants and timers

    The AODV parameters of RFC 3561 section 10 as the daemon fixes them, the
    retry timer ([binary_exponential_backoff_time]), the time-to-live of the
    expanding ring search and the minimal lifetime of a reverse route. *)

From S2P Require Export Utils.

Definition ACTIVE_ROUTE_TIMEOUT : Z := 3000.
Definition ALLOWED_HELLO_LOSS : Z := 2.
Definition RREQ_RETRIES : Z := 2.
Definition HELLO_INTERVAL : Z := 1000.
Definition LOCAL_ADD_TTL : Z := 2.
Definition NET_DIAMETER : Z := 35.
Definition RERR_RATELIMIT : Z := 10.
Definition RREQ_RATELIMIT : Z := 10.
Definition TIMEOUT_BUFFER : Z := 2.
Definition TTL_START : Z := 3.
Definition TTL_INCREMENT : Z := 2.
Definition TTL_THRESHOLD : Z := 7.
Definition NODE_TRAVERSAL_TIME : Z := 40.
Definition NEXT_HOP_WAIT : Z := NODE_TRAVERSAL_TIME + 10.
(** [0.3 * NET_DIAMETER()] truncated to an integer. *)
Definition MAX_REPAIR_TTL : Z := 3 * NET_DIAMETER / 10.
Definition MY_ROUTE_TIMEOUT : Z := 2 * ACTIVE_ROUTE_TIMEOUT.
Definition NET_TRAVERSAL_TIME : Z := 2 * NODE_TRAVERSAL_TIME * NET_DIAMETER.
Definition BLACKLIST_TIMEOUT : Z := RREQ_RETRIES * NET_TRAVERSAL_TIME.
Definition PATH_DISCOVERY_TIME : Z := 2 * NET_TRAVERSAL_TIME.
Definition DELETE_PERIOD : Z := ALLOWED_HELLO_LOSS * HELLO_INTERVAL.
Definition MIN_REPAIR_TTL : Z := 0.
Definition TTL_VALUE : Z := 0.
Definition RING_TRAVERSAL_TIME : Z := 2 * NODE_TRAVERSAL_TIME * (TTL_VALUE + TIMEOUT_BUFFER).

(** [(1 << prev_tries) * NET_TRAVERSAL_TIME()]: the shift is an [int] shift, defined
    for 0 to 30 only ([None] otherwise); the product is a [uint32_t]. *)
Definition binary_exponential_backoff_time (prev_tries : Z) : option Z :=
  if (0 <=? prev_tries) && (prev_tries <? 31)
  then Some (u32 (Z.shiftl 1 prev_tries * NET_TRAVERSAL_TIME))
  else None.

Definition expanding_ring_search_ttl (hop_count prev_tries : Z) : Z :=
  if prev_tries =? 0 then u32 (hop_count + TTL_START)
  else
    let ret := u32 (u32 (hop_count + TTL_START) + u32 (u32 prev_tries * TTL_INCREMENT)) in
    if TTL_THRESHOLD <? ret then NET_DIAMETER else ret.

(** The value computed from the clock reading [now]. *)
Definition minimal_lifetime_at (now : timeval) (hop_count : Z) : Z :=
  let current_time := get_alarm_time (tv_sec now) (tv_usec now) in
  u32 (u32 (current_time + u32 (2 * NET_TRAVERSAL_TIME)) -
       u32 (2 * hop_count * NODE_TRAVERSAL_TIME)).

Definition minimal_lifetime {St} `{Clock St} (hop_count : Z) : M St Z :=
  now ← gettimeofday; mret (minimal_lifetime_at now hop_count).

(** ** Facts *)

(** The retry timer is exact (no wrap-around) up to the twentieth retry. *)
Lemma backoff_exact n :
  0 ≤ n ≤ 20 → binary_exponential_backoff_time n = Some (2 ^ n * NET_TRAVERSAL_TIME).
Proof.
  intros Hn. unfold binary_exponential_backoff_time.
  rewrite andb_true_intro by lia. rewrite Z.shiftl_1_l, u32_id; [done|].
  assert (0 < 2 ^ n ≤ 2 ^ 20) by (split; [lia|apply Z.pow_le_mono_r; lia]).
  unfold is_u32, NET_TRAVERSAL_TIME, NODE_TRAVERSAL_TIME, NET_DIAMETER. lia.
Qed.

Lemma backoff_defined n :
  is_Some (binary_exponential_backoff_time n) ↔ 0 ≤ n < 31.
Proof.
  unfold binary_exponential_backoff_time. destruct (_ && _) eqn:E.
  - split; [lia|eauto].
  - split; [intros [? [=]]|lia].
Qed.

Lemma ring_ttl_spec hop tries :
  is_u8 hop → 0 < tries < 128 →
  expanding_ring_search_ttl hop tries =
    if hop + 3 + 2 * tries <=? 7 then hop + 3 + 2 * tries else 35.
Proof.
  unfold is_u8, expanding_ring_search_ttl, TTL_START, TTL_INCREMENT, TTL_THRESHOLD, NET_DIAMETER.
  intros Hh Ht. destruct (Z.eqb_spec tries 0); [lia|].
  rewrite (u32_id tries), (u32_id (hop + 3)), (u32_id (tries * 2)), u32_id
    by (unfold is_u32; lia).
  cbv zeta. repeat case_match; lia.
Qed.

Lemma ring_ttl_first hop : is_u8 hop → expanding_ring_search_ttl hop 0 = hop + 3.
Proof. unfold is_u8, expanding_ring_search_ttl, TTL_START. intros. apply u32_id. unfold is_u32. lia. Qed.
