(* ===== verification/Statistics.v ===== *)
(** * statistics.c and statistics.h: the counters

    [struct statistics_t] is one [uint32_t] per event; a counter is named by [stat]
    and [stats.x++] is [stats_incr x], modulo 2{^32}. *)

From S2P Require Export CInt.

Module Stat.
(** The fields of [struct statistics_t]. *)
Inductive field :=
  | packets_dropped
  | no_address_received
  | no_payload_received
  | no_ttl_received
  | send_aodv_errors
  | send_aodv_incomplete
  | aodv_incorrect_type
  | rreq_incorrect_size
  | rrep_incorrect_size
  | rerr_incorrect_size
  | rrep_ack_incorrect_size
  | rerr_dest_cont_zero
  | error_aodv_recv
  | error_nfq_recv
  | error_unix_recv
  | invalid_route.
End Stat.
Notation stat := Stat.field.

#[export] Instance stat_eq_dec : EqDecision stat.
Proof. solve_decision. Defined.

Record statistics_t := Statistics {
  st_packets_dropped : Z;
  st_no_address_received : Z;
  st_no_payload_received : Z;
  st_no_ttl_received : Z;
  st_send_aodv_errors : Z;
  st_send_aodv_incomplete : Z;
  st_aodv_incorrect_type : Z;
  st_rreq_incorrect_size : Z;
  st_rrep_incorrect_size : Z;
  st_rerr_incorrect_size : Z;
  st_rrep_ack_incorrect_size : Z;
  st_rerr_dest_cont_zero : Z;
  st_error_aodv_recv : Z;
  st_error_nfq_recv : Z;
  st_error_unix_recv : Z;
  st_invalid_route : Z }.

Definition stat_get (f : stat) (s : statistics_t) : Z :=
  match f with
  | Stat.packets_dropped => st_packets_dropped s
  | Stat.no_address_received => st_no_address_received s
  | Stat.no_payload_received => st_no_payload_received s
  | Stat.no_ttl_received => st_no_ttl_received s
  | Stat.send_aodv_errors => st_send_aodv_errors s
  | Stat.send_aodv_incomplete => st_send_aodv_incomplete s
  | Stat.aodv_incorrect_type => st_aodv_incorrect_type s
  | Stat.rreq_incorrect_size => st_rreq_incorrect_size s
  | Stat.rrep_incorrect_size => st_rrep_incorrect_size s
  | Stat.rerr_incorrect_size => st_rerr_incorrect_size s
  | Stat.rrep_ack_incorrect_size => st_rrep_ack_incorrect_size s
  | Stat.rerr_dest_cont_zero => st_rerr_dest_cont_zero s
  | Stat.error_aodv_recv => st_error_aodv_recv s
  | Stat.error_nfq_recv => st_error_nfq_recv s
  | Stat.error_unix_recv => st_error_unix_recv s
  | Stat.invalid_route => st_invalid_route s
  end.

(** The structure whose fields are given by [v]. *)
Definition stats_of (v : stat → Z) : statistics_t := Statistics
  (v Stat.packets_dropped) (v Stat.no_address_received) (v Stat.no_payload_received)
  (v Stat.no_ttl_received) (v Stat.send_aodv_errors) (v Stat.send_aodv_incomplete)
  (v Stat.aodv_incorrect_type) (v Stat.rreq_incorrect_size) (v Stat.rrep_incorrect_size)
  (v Stat.rerr_incorrect_size) (v Stat.rrep_ack_incorrect_size) (v Stat.rerr_dest_cont_zero)
  (v Stat.error_aodv_recv) (v Stat.error_nfq_recv) (v Stat.error_unix_recv)
  (v Stat.invalid_route).

(** [stats.f++]. *)
Definition stats_incr (f : stat) (s : statistics_t) : statistics_t :=
  stats_of (λ g, if decide (f = g) then u32 (stat_get g s + 1) else stat_get g s).

(** [stats_init] and [stats_reset] are the same [memset]. *)
Definition stats_init : statistics_t := stats_of (λ _, 0).
Definition stats_reset (s : statistics_t) : statistics_t := stats_of (λ _, 0).

Lemma stat_get_of v f : stat_get f (stats_of v) = v f.
Proof. by destruct f. Qed.

Lemma stat_get_incr f g s :
  stat_get g (stats_incr f s) = if decide (f = g) then u32 (stat_get g s + 1) else stat_get g s.
Proof. apply stat_get_of. Qed.

Lemma stat_get_reset s g : stat_get g (stats_reset s) = 0.
Proof. apply stat_get_of. Qed.
