(* ===== verification/Alarm.v ===== *)
(** * libmeshias/alarm/alarm.c: the timer queue

    Alarms are [alarm_block] structures embedded in the objects they time out and
    kept in a red-black tree ordered by expiry time.  The state of this component
    is the memory of the blocks ([al_blocks]) and the in-order sequence of the
    nodes of the tree ([al_root]).  The component is written against the
    interface [AlarmHost]: any state that holds an [alarms] and has a clock. *)

From S2P Require Export Utils.
From Stdlib Require Export Sorted.

Definition addr := positive.

(** The address of an alarm block: the object it is embedded in. *)
Inductive alarm_id :=
  | AL_route (route : addr)    (* &route->alarm *)
  | AL_rreq (entry : addr)     (* &entry->alarm *)
  | AL_flush.                  (* &data.rreq_flush_alarm *)

#[export] Instance alarm_id_eq_dec : EqDecision alarm_id.
Proof. solve_decision. Defined.

#[export] Instance alarm_id_countable : Countable alarm_id.
Proof.
  refine (inj_countable' (λ i, match i with
      | AL_route a => inl (inl a) | AL_rreq a => inl (inr a) | AL_flush => inr () end)
    (λ s, match s with
      | inl (inl a) => AL_route a | inl (inr a) => AL_rreq a | inr _ => AL_flush end) _).
  by intros [].
Defined.

(** The callbacks the daemon installs. *)
Inductive alarm_fn :=
  | fn_msh_route_alarm_cb
  | fn_rreq_fifo_alarm_cb
  | fn_process_wait_queue_cb.

Record alarm_block := AlarmBlock {
  ab_linked : bool;          (* the node is in the tree: !RB_EMPTY_NODE(&node) *)
  ab_tv : timeval;
  ab_data : option addr;
  ab_function : alarm_fn }.

Record alarms := Alarms {
  al_blocks : gmap alarm_id alarm_block;
  al_root : list alarm_id }.

(** A block out of the tree, and a block in the tree at time [tv]. *)
Definition unlinked (b : alarm_block) : alarm_block :=
  AlarmBlock false (ab_tv b) (ab_data b) (ab_function b).
Definition linked_at (tv : timeval) (b : alarm_block) : alarm_block :=
  AlarmBlock true tv (ab_data b) (ab_function b).
Definition with_tv (tv : timeval) (b : alarm_block) : alarm_block :=
  AlarmBlock (ab_linked b) tv (ab_data b) (ab_function b).

(** ** Operations on the blocks and the tree *)

Definition read_block (id : alarm_id) : M alarms alarm_block := λ A,
  demand UseAfterFree (al_blocks A !! id) A.

Definition write_block (id : alarm_id) (b : alarm_block) : M alarms unit :=
  modify (λ A, Alarms (<[id := b]> (al_blocks A)) (al_root A)).

(** The memory of a block goes away with the object it is embedded in. *)
Definition free_block (id : alarm_id) : M alarms unit :=
  modify (λ A, Alarms (delete id (al_blocks A)) (al_root A)).

(** [init_alarm]: the block leaves the function unlinked, with a cleared time. *)
Definition init_alarm_ (id : alarm_id) (data : option addr) (fcn : alarm_fn) :
    M alarms unit :=
  write_block id (AlarmBlock false (Timeval 0 0) data fcn).

(** The nodes of the tree are alive.  Which nodes an operation on the tree reads depends on
    the shape of the tree, which the sequence leaves open: here every operation that
    follows its links is the fault [UseAfterFree] when any node has been freed.  (On the
    tree itself, [AlarmTree.v], it is one when such a node is read.) *)
Definition tree_alive (A : alarms) : bool :=
  forallb (λ id, bool_decide (is_Some (al_blocks A !! id))) (al_root A).
Definition in_live_tree {X} (A : alarms) (x : option X) : option X :=
  if tree_alive A then x else None.

(** [rb_erase] of a node that is in no tree corrupts memory. *)
Definition rb_erase (id : alarm_id) : M alarms unit := λ A,
  if decide (id ∈ al_root A)
  then if tree_alive A
       then Ok tt (Alarms (al_blocks A) (unlink id (al_root A)))
       else Fault UseAfterFree
  else Fault ListCorrupt.

(** [rb_erase(&alarm->node, &alarm_root); RB_CLEAR_NODE(&alarm->node);] *)
Definition erase_and_clear (id : alarm_id) : M alarms unit :=
  b ← read_block id;
  rb_erase id;;
  write_block id (unlinked b).

Definition del_alarm_ (id : alarm_id) : M alarms unit :=
  b ← read_block id;
  when (ab_linked b) (erase_and_clear id).

(** The descent of [__add_alarm] from the root, on the in-order sequence: left of
    the first node that is later, right of every node that is not. *)
Fixpoint insert_node (blocks : gmap alarm_id alarm_block) (tv : timeval)
    (id : alarm_id) (root : list alarm_id) : option (list alarm_id) :=
  match root with
  | [] => Some [id]
  | this :: rest =>
      b ← blocks !! this;
      if timer_lt tv (ab_tv b) then Some (id :: this :: rest)
      else (this ::.) <$> insert_node blocks tv id rest
  end.

Definition __add_alarm (id : alarm_id) : M alarms unit :=
  b ← read_block id;
  A ← gets (λ A, A);
  root ← demand UseAfterFree (in_live_tree A (insert_node (al_blocks A) (ab_tv b) id (al_root A)));
  modify (λ A, Alarms (<[id := linked_at (ab_tv b) b]> (al_blocks A)) root).

(** [LONG_MAX] of a 64-bit [long]. *)
Definition LONG_MAX : Z := 2 ^ 63 - 1.

Definition calculate_next_run (cand tv : timeval) : option timeval :=
  if negb (tv_sec cand =? LONG_MAX)
  then Some (if timer_gt cand tv then timersub cand tv else Timeval 0 0)
  else None.

(** The alarms [do_alarm_run] collects: the in-order prefix that is not later than
    [tv]. *)
Fixpoint collect_expired (blocks : gmap alarm_id alarm_block) (tv : timeval)
    (root : list alarm_id) : option (list alarm_id) :=
  match root with
  | [] => Some []
  | this :: rest =>
      b ← blocks !! this;
      if timer_gt (ab_tv b) tv then Some [] else (this ::.) <$> collect_expired blocks tv rest
  end.

(** ** The interface to the program that uses the alarms *)

Class AlarmHost (St : Type) `{Clock St} := {
  host_alarms : St → alarms;
  host_set_alarms : alarms → St → St }.

(** What the component relies on: the state of the alarms is a field of the host
    that the clock does not touch, and the clock returns normalised times. *)
Class AlarmHostLaws (St : Type) `{AlarmHost St} : Prop := {
  host_get_set A s : host_alarms (host_set_alarms A s) = A;
  host_set_set A B s : host_set_alarms A (host_set_alarms B s) = host_set_alarms A s;
  host_set_get s : host_set_alarms (host_alarms s) s = s;
  host_clock s : ∃ t s', gettimeofday s = Ok t s' ∧ timeval_ok t ∧
    (∀ A, gettimeofday (host_set_alarms A s) = Ok t (host_set_alarms A s')) }.

Section ops.
Context {St : Type} `{AlarmHost St}.

Definition on_alarms {A} (m : M alarms A) : M St A := λ s,
  match m (host_alarms s) with
  | Ok a al => Ok a (host_set_alarms al s)
  | Fault f => Fault f
  end.

Definition init_alarm (id : alarm_id) (data : option addr) (fcn : alarm_fn) : M St unit :=
  on_alarms (init_alarm_ id data fcn).

Definition del_alarm (id : alarm_id) : M St unit := on_alarms (del_alarm_ id).

Definition add_alarm (id : alarm_id) (sc usc : Z) : M St unit :=
  del_alarm id;;
  b ← on_alarms (read_block id);
  on_alarms (write_block id (with_tv (Timeval sc usc) b));;
  tv ← gettimeofday;
  on_alarms (write_block id (with_tv (timeradd (Timeval sc usc) tv) b));;
  on_alarms (__add_alarm id).

Definition alarm_pending (id : alarm_id) : M St bool :=
  b ← on_alarms (read_block id); mret (ab_linked b).

Definition get_next_alarm_run : M St (option timeval) :=
  tv ← gettimeofday;
  A ← gets host_alarms;
  root ← demand UseAfterFree (in_live_tree A (Some (al_root A)));
  match root with
  | [] => mret None
  | this :: _ =>
      b ← on_alarms (read_block this);
      mret (calculate_next_run (ab_tv b) tv)
  end.

(** [run id f data]: the call [f(alarm, data)]. *)
Context (run : alarm_fn → alarm_id → option addr → M St unit).

(** The loop collects with [list_add], so the queue is run latest first. *)
Definition do_alarm_run : M St (option timeval) :=
  tv ← gettimeofday;
  A ← gets host_alarms;
  queue ← demand UseAfterFree (in_live_tree A (collect_expired (al_blocks A) tv (al_root A)));
  for_each (reverse queue) (λ this,
    on_alarms (erase_and_clear this);;
    b ← on_alarms (read_block this);
    run (ab_function b) this (ab_data b));;
  get_next_alarm_run.

Definition process_alarms (next : timeval) : M St (option timeval) :=
  if negb (timerisset next) then do_alarm_run else mret None.
End ops.

(** ** The invariant of the queue *)

(** The time a node is sorted by. *)
Definition key (A : alarms) (id : alarm_id) : timeval :=
  from_option ab_tv (Timeval 0 0) (al_blocks A !! id).

Record alarms_ok (A : alarms) : Prop := {
  ok_nodup : NoDup (al_root A);
  ok_linked id : id ∈ al_root A ↔ ∃ b, al_blocks A !! id = Some b ∧ ab_linked b = true;
  ok_times id b : al_blocks A !! id = Some b → timeval_ok (ab_tv b);
  ok_sorted : StronglySorted (λ x y, timer_lt (key A y) (key A x) = false) (al_root A) }.

(** ** Facts about the queue *)

Lemma unlinked_id b : ab_linked b = false → unlinked b = b.
Proof. destruct b; simpl. by intros ->. Qed.

Lemma ok_root_block A id : alarms_ok A → id ∈ al_root A → ∃ b, al_blocks A !! id = Some b.
Proof. intros Hok (b & Hb & _)%Hok. by exists b. Qed.

Lemma tree_alive_true A :
  tree_alive A = true ↔ ∀ id, id ∈ al_root A → is_Some (al_blocks A !! id).
Proof.
  unfold tree_alive. rewrite forallb_forall. split; intros Ha id Hid.
  - apply (bool_decide_unpack _), Is_true_true, Ha, list_elem_of_In, Hid.
  - apply bool_decide_eq_true, Ha, list_elem_of_In, Hid.
Qed.

Lemma ok_tree_alive A : alarms_ok A → tree_alive A = true.
Proof. intros Hok. apply tree_alive_true. intros id [b Hb]%(ok_root_block A id Hok). by exists b. Qed.

Lemma in_live_tree_ok {X} A (x : option X) : alarms_ok A → in_live_tree A x = x.
Proof. intros Hok. unfold in_live_tree. by rewrite ok_tree_alive. Qed.

Lemma ok_unlinked A id b :
  alarms_ok A → al_blocks A !! id = Some b → ab_linked b = false → id ∉ al_root A.
Proof. intros Hok Hb Hl (b' & ? & ?)%Hok. congruence. Qed.

Lemma sorted_ext {X} (R R' : X → X → Prop) (l : list X) :
  (∀ x y, x ∈ l → y ∈ l → R x y → R' x y) → StronglySorted R l → StronglySorted R' l.
Proof.
  intros Himp Hs. induction Hs as [|x l Hs IH Hx]; [constructor|].
  constructor; [apply IH; set_solver|].
  rewrite Forall_forall in Hx |- *. set_solver.
Qed.

Lemma sorted_filter {X} (R : X → X → Prop) P `{∀ x, Decision (P x)} (l : list X) :
  StronglySorted R l → StronglySorted R (filter P l).
Proof.
  induction 1 as [|x l Hs IH Hx]; [constructor|]. rewrite filter_cons. case_decide; [|done].
  constructor; [done|]. rewrite Forall_forall in Hx |- *.
  intros y [_ ?]%list_elem_of_filter. by apply Hx.
Qed.

Lemma sorted_app_inv {X} (R : X → X → Prop) (l1 l2 : list X) :
  StronglySorted R (l1 ++ l2) →
  StronglySorted R l1 ∧ StronglySorted R l2 ∧ ∀ x y, x ∈ l1 → y ∈ l2 → R x y.
Proof.
  induction l1 as [|z l1 IH]; simpl; intros Hs.
  - repeat split; [constructor|done|set_solver].
  - inversion_clear Hs as [|? ? Hs' Hz]. destruct (IH Hs') as (?&?&?).
    rewrite Forall_app, !Forall_forall in Hz. destruct Hz as [Hz1 Hz2]. repeat split.
    + constructor; [done|by apply Forall_forall].
    + done.
    + intros x y [->|?]%elem_of_cons ?; eauto.
Qed.

Lemma sorted_insert {X} (R : X → X → Prop) (l1 l2 : list X) z :
  StronglySorted R (l1 ++ l2) → (∀ x, x ∈ l1 → R x z) → (∀ y, y ∈ l2 → R z y) →
  StronglySorted R (l1 ++ z :: l2).
Proof.
  induction l1 as [|w l1 IH]; simpl; intros Hs H1 H2.
  - constructor; [done|by apply Forall_forall].
  - inversion_clear Hs as [|? ? Hs' Hw]. constructor; [apply IH; set_solver|].
    rewrite Forall_app, !Forall_forall in Hw. apply Forall_forall. set_solver.
Qed.

(** *** del_alarm *)

(** The queue without [id]. *)
Definition disarm (id : alarm_id) (b : alarm_block) (A : alarms) : alarms :=
  Alarms (<[id := unlinked b]> (al_blocks A)) (unlink id (al_root A)).

Lemma erase_and_clear_eq A id b :
  al_blocks A !! id = Some b → id ∈ al_root A → tree_alive A = true →
  erase_and_clear id A = Ok tt (disarm id b A).
Proof.
  intros Hb Hin Hlive. unfold erase_and_clear, read_block, rb_erase, mbind, M_bind. rewrite Hb. simpl.
  by rewrite decide_True, Hlive.
Qed.

Lemma del_alarm_eq A id b :
  alarms_ok A → al_blocks A !! id = Some b → del_alarm_ id A = Ok tt (disarm id b A).
Proof.
  intros Hok Hb. unfold del_alarm_, read_block, mbind, M_bind. rewrite Hb. simpl.
  destruct (ab_linked b) eqn:Hl; simpl.
  - apply erase_and_clear_eq; [done| |by apply ok_tree_alive]. apply Hok. eauto.
  - unfold disarm. rewrite (unlinked_id b), insert_id, unlink_notin; try done.
    + by destruct A.
    + by eapply ok_unlinked.
Qed.

Lemma disarm_key A id b x :
  al_blocks A !! id = Some b → key (disarm id b A) x = key A x.
Proof.
  intros Hb. unfold key, disarm; simpl. rewrite lookup_insert. case_decide; [|done].
  subst. by rewrite Hb.
Qed.

Lemma disarm_ok A id b :
  alarms_ok A → al_blocks A !! id = Some b → alarms_ok (disarm id b A).
Proof.
  intros Hok Hb. split; simpl.
  - apply unlink_NoDup, Hok.
  - intros x. rewrite elem_of_unlink, (ok_linked _ Hok), lookup_insert. split.
    + intros (Hne & b' & Hb' & Hl). rewrite decide_False by done. by exists b'.
    + intros (b' & Hb' & Hl). case_decide as Hd; [by simplify_eq/=|].
      split; [by intros ->|by exists b'].
  - intros x b'. rewrite lookup_insert. case_decide; [|apply Hok].
    intros [= <-]. exact (ok_times _ Hok id b Hb).
  - eapply sorted_ext; [|apply sorted_filter, Hok].
    intros x y _ _. by rewrite !disarm_key.
Qed.

(** *** add_alarm *)

(** [A'] is [A] with [id] (re)armed at [tv]: placed after every alarm that is not
    later and before every later one. *)
Definition armed (id : alarm_id) (tv : timeval) (b : alarm_block) (A A' : alarms) : Prop :=
  al_blocks A' = <[id := linked_at tv b]> (al_blocks A) ∧
  ∃ l1 l2, unlink id (al_root A) = l1 ++ l2 ∧ al_root A' = l1 ++ id :: l2 ∧
    (∀ x, x ∈ l1 → timer_lt tv (key A x) = false) ∧
    (∀ x, x ∈ l2 → timer_lt tv (key A x) = true).

Lemma insert_node_spec blocks tv id root :
  (∀ x, x ∈ root → is_Some (blocks !! x)) →
  StronglySorted (λ x y, timer_lt (from_option ab_tv (Timeval 0 0) (blocks !! y))
                           (from_option ab_tv (Timeval 0 0) (blocks !! x)) = false) root →
  ∃ l1 l2, root = l1 ++ l2 ∧ insert_node blocks tv id root = Some (l1 ++ id :: l2) ∧
    (∀ x, x ∈ l1 → timer_lt tv (from_option ab_tv (Timeval 0 0) (blocks !! x)) = false) ∧
    (∀ x, x ∈ l2 → timer_lt tv (from_option ab_tv (Timeval 0 0) (blocks !! x)) = true).
Proof.
  intros Hin Hs. induction Hs as [|x l Hs IH Hx].
  - exists [], []. set_solver.
  - destruct (Hin x) as [b Hb]; [left|]. simpl. rewrite Hb. simpl.
    destruct (timer_lt tv (ab_tv b)) eqn:Hlt.
    + exists [], (x :: l). split_and!; [done|done|set_solver|].
      rewrite Forall_forall in Hx. intros y [->|Hy]%elem_of_cons; [by rewrite Hb|].
      specialize (Hx _ Hy). rewrite Hb in Hx. simpl in Hx.
      revert Hx Hlt. unfold timer_lt. repeat case_match; lia.
    + destruct IH as (l1 & l2 & -> & -> & H1 & H2); [set_solver|].
      exists (x :: l1), l2. split_and!; [done|done| |done].
      intros y [->|Hy]%elem_of_cons; [by rewrite Hb|by apply H1].
Qed.

(** Linking the block of a disarmed alarm, its time already written, arms it. *)
Lemma link_armed A id tv b :
  alarms_ok A → al_blocks A !! id = Some b →
  wp (__add_alarm id) (λ _ A', armed id tv b A A')
     (Alarms (<[id := with_tv tv (unlinked b)]> (al_blocks A)) (unlink id (al_root A))).
Proof.
  intros Hok Hb. unfold __add_alarm.
  apply wp_bind. unfold wp at 1, read_block; simpl. rewrite lookup_insert_eq. simpl.
  assert (∀ x, x ∈ unlink id (al_root A) →
    from_option ab_tv (Timeval 0 0) (<[id:=with_tv tv (unlinked b)]> (al_blocks A) !! x) =
    key A x) as Hkey by (intros x [? _]%elem_of_unlink; by rewrite lookup_insert_ne).
  edestruct (insert_node_spec (<[id := with_tv tv (unlinked b)]> (al_blocks A)) tv id
               (unlink id (al_root A))) as (l1 & l2 & Hl & Hins & H1 & H2).
  { intros x [Hne Hx]%elem_of_unlink. rewrite lookup_insert_ne by done.
    by eapply ok_root_block. }
  { eapply sorted_ext; [|apply sorted_filter, (ok_sorted _ Hok)].
    intros x y Hx Hy. by rewrite !Hkey. }
  assert (tree_alive (Alarms (<[id := with_tv tv (unlinked b)]> (al_blocks A)) (unlink id (al_root A))) = true)
    as Hlive.
  { apply tree_alive_true. simpl. intros x [Hne Hx]%elem_of_unlink. rewrite lookup_insert_ne by done.
    destruct (ok_root_block _ _ Hok Hx) as [bx Hbx]. by exists bx. }
  apply wp_bind, wp_gets, wp_bind. unfold in_live_tree. rewrite Hlive. simpl.
  eapply wp_demand; [exact Hins|].
  apply wp_modify. simpl. rewrite insert_insert_eq.
  split; [done|]. exists l1, l2. split_and!; [done|done| |].
  - intros x Hx. rewrite <-(H1 x Hx), Hkey; [done|]. rewrite Hl. set_solver.
  - intros x Hx. rewrite <-(H2 x Hx), Hkey; [done|]. rewrite Hl. set_solver.
Qed.

(** Arming a block keeps the queue well formed. *)
Lemma armed_ok id tv b A A' :
  alarms_ok A → al_blocks A !! id = Some b → timeval_ok tv → armed id tv b A A' →
  alarms_ok A'.
Proof.
  intros Hok Hb Htv (Hbl & l1 & l2 & Hun & Hroot & H1 & H2).
  assert (∀ x, x ∈ al_root A' ↔ x = id ∨ x ∈ unlink id (al_root A)) as Hmem
    by (intros x; rewrite Hroot, Hun; set_solver).
  assert (id ∉ l1 ++ l2) as Hni by (rewrite <-Hun, elem_of_unlink; by intros []).
  assert (∀ x, x ≠ id → key A' x = key A x) as Hk
    by (intros x Hx; unfold key; by rewrite Hbl, lookup_insert_ne).
  assert (key A' id = tv) as Hkid by (unfold key; by rewrite Hbl, lookup_insert_eq).
  split.
  - rewrite Hroot, <-Permutation_middle, <-Hun. apply NoDup_cons.
    split; [by rewrite Hun|apply unlink_NoDup, Hok].
  - intros x. rewrite Hmem, elem_of_unlink, (ok_linked _ Hok), Hbl, lookup_insert. split.
    + intros [->|(Hne & b' & Hb' & Hl)]; [rewrite decide_True by done; by eexists|].
      rewrite decide_False by done. by exists b'.
    + intros (b' & Hb' & Hl). case_decide as Hd; [by left|]. right.
      split; [by intros ->|by exists b'].
  - intros x b'. rewrite Hbl, lookup_insert. case_decide; [|apply Hok]. by intros [= <-].
  - rewrite Hroot. apply sorted_insert.
    + eapply sorted_ext; [|rewrite <-Hun; apply sorted_filter, Hok].
      intros x y Hx Hy. rewrite <-Hun, elem_of_unlink in Hx, Hy. by rewrite !Hk by naive_solver.
    + intros x Hx. rewrite Hkid, Hk by set_solver. by apply H1.
    + intros x Hx. rewrite Hkid, Hk by set_solver. by apply timer_lt_le, H2.
Qed.

(** *** Running the queue *)

Lemma collect_expired_spec A tv :
  alarms_ok A →
  ∃ l1 l2, al_root A = l1 ++ l2 ∧
    collect_expired (al_blocks A) tv (al_root A) = Some l1 ∧
    (∀ x, x ∈ l1 → timer_lt tv (key A x) = false) ∧
    (∀ x, x ∈ l2 → timer_lt tv (key A x) = true).
Proof.
  intros Hok. pose proof (ok_sorted _ Hok) as Hs.
  assert (∀ x, x ∈ al_root A → ∃ b, al_blocks A !! x = Some b) as Hin
    by (intros x; by apply ok_root_block).
  induction Hs as [|x l Hs IH Hx]; [exists [], []; set_solver|].
  destruct (Hin x) as [b Hb]; [left|]. simpl. rewrite Hb. simpl. unfold timer_gt.
  assert (key A x = ab_tv b) as Hkx by (unfold key; by rewrite Hb).
  destruct (timer_lt tv (ab_tv b)) eqn:Hlt.
  - exists [], (x :: l). split_and!; [done|done|set_solver|].
    intros y [->|Hy]%elem_of_cons; [by rewrite Hkx|].
    rewrite Forall_forall in Hx. specialize (Hx _ Hy). rewrite Hkx in Hx.
    revert Hx Hlt. unfold timer_lt. repeat case_match; lia.
  - destruct IH as (l1 & l2 & -> & -> & H1 & H2); [set_solver|].
    exists (x :: l1), l2. split_and!; [done|done| |done].
    intros y [->|Hy]%elem_of_cons; [by rewrite Hkx|by apply H1].
Qed.

(** *** The operations seen from the host *)

Section host.
Context {St : Type} {Clk : Clock St} {Host : AlarmHost St} {Laws : AlarmHostLaws St}.
Implicit Types s : St.

Lemma wp_on_alarms {A} (m : M alarms A) Q s :
  wp m (λ a al, Q a (host_set_alarms al s)) (host_alarms s) → wp (on_alarms m) Q s.
Proof. unfold wp, on_alarms. by destruct (m (host_alarms s)). Qed.

Lemma wp_del_alarm id b Q s :
  alarms_ok (host_alarms s) → al_blocks (host_alarms s) !! id = Some b →
  Q tt (host_set_alarms (disarm id b (host_alarms s)) s) → wp (del_alarm id) Q s.
Proof.
  intros Hok Hb HQ. apply wp_on_alarms. unfold wp. by erewrite del_alarm_eq.
Qed.

Lemma wp_init_alarm id d f Q s :
  Q tt (host_set_alarms (Alarms (<[id := AlarmBlock false (Timeval 0 0) d f]>
          (al_blocks (host_alarms s))) (al_root (host_alarms s))) s) →
  wp (init_alarm id d f) Q s.
Proof. intros HQ. by apply wp_on_alarms. Qed.

(** [add_alarm] reads the clock once and (re)arms the block that much later. *)
Lemma wp_add_alarm id sc usc b Q s :
  alarms_ok (host_alarms s) → al_blocks (host_alarms s) !! id = Some b →
  timeval_ok (Timeval sc usc) →
  (∀ now s' A', gettimeofday s = Ok now s' → timeval_ok now →
     armed id (timeradd (Timeval sc usc) now) b (host_alarms s) A' → alarms_ok A' →
     Q tt (host_set_alarms A' s')) →
  wp (add_alarm id sc usc) Q s.
Proof.
  intros Hok Hb Htv HQ. unfold add_alarm.
  apply wp_bind, (wp_del_alarm id b); [done|done|].
  apply wp_bind, wp_on_alarms. rewrite host_get_set.
  unfold wp at 1, read_block; simpl. rewrite lookup_insert_eq. simpl.
  apply wp_bind, wp_on_alarms, wp_modify. rewrite host_get_set, !host_set_set. simpl.
  destruct (host_clock s) as (now & s' & Hclk & Hnow & Hset).
  apply wp_bind. unfold wp at 1. rewrite Hset.
  apply wp_bind, wp_on_alarms, wp_modify. rewrite !host_set_set, host_get_set. simpl.
  rewrite !insert_insert_eq.
  set (tv := timeradd (Timeval sc usc) now).
  apply wp_on_alarms. rewrite host_get_set. eapply wp_mono.
  - by apply (link_armed _ id tv b Hok).
  - intros [] A' Harm. rewrite host_set_set. apply (HQ now); [done..|].
    eapply armed_ok; [exact Hok|exact Hb| |exact Harm]. by apply timeradd_ok.
Qed.
End host.
