(* ===== verification/AlarmTree.v ===== *)
(** * libmeshias/alarm/alarm.c on the nodes of the tree

    [Alarm] describes the timer queue by the in-order sequence of its nodes.  Here the same
    functions work on the memory of the [rb_node]s, through the functions of rbtree.c and
    with the descent of [__add_alarm] from pointer to pointer.  [AlarmTreeSpec] shows that
    the two agree. *)

From S2P Require Export RbTree Alarm.

(** The fields of an [alarm_block] besides [node]. *)
Record alarm_body := AlarmBody {
  bd_tv : timeval;
  bd_data : option addr;
  bd_function : alarm_fn }.

(** The memory of the blocks, [&alarm->node] standing for [alarm], and [alarm_root]. *)
Record tree_alarms := TreeAlarms {
  ta_tree : rb_state alarm_id;
  ta_bodies : gmap alarm_id alarm_body }.

(** A call into rbtree.c. *)
Definition on_tree {X} (m : M (rb_state alarm_id) X) : M tree_alarms X := λ T,
  match m (ta_tree T) with
  | Ok x tree => Ok x (TreeAlarms tree (ta_bodies T))
  | Fault f => Fault f
  end.

Definition read_body (id : alarm_id) : M tree_alarms alarm_body := λ T,
  demand UseAfterFree (ta_bodies T !! id) T.
Definition write_body (id : alarm_id) (b : alarm_body) : M tree_alarms unit :=
  modify (λ T, TreeAlarms (ta_tree T) (<[id := b]> (ta_bodies T))).

(** The memory of a block comes and goes with the object it is embedded in; a new node has
    any contents. *)
Definition new_block (id : alarm_id) (n : rb_node alarm_id) : M tree_alarms unit :=
  on_tree (store id n).
Definition free_block (id : alarm_id) : M tree_alarms unit :=
  modify (λ T, TreeAlarms (RbState (delete id (rs_nodes (ta_tree T))) (rs_root (ta_tree T)))
                          (delete id (ta_bodies T))).

Definition init_alarm_ (id : alarm_id) (data : option addr) (fcn : alarm_fn) : M tree_alarms unit :=
  on_tree (RB_CLEAR_NODE id);;
  write_body id (AlarmBody (Timeval 0 0) data fcn).

(** The loop of [__add_alarm]: the pointers [parent] and [new]. *)
Fixpoint add_descend (bodies : gmap alarm_id alarm_body) (tv : timeval) (fuel : nat)
    (parent : option alarm_id) (new : rb_link alarm_id) :
    M (rb_state alarm_id) (option alarm_id * rb_link alarm_id) :=
  match fuel with
  | O => abort Diverges
  | S fuel =>
      x ← read_link new;
      match x with
      | None => mret (parent, new)
      | Some this =>
          b ← demand UseAfterFree (bodies !! this);
          add_descend bodies tv fuel (Some this)
            (LinkChild (if timer_lt tv (bd_tv b) then Lft else Rgt) this)
      end
  end.

Definition __add_alarm (id : alarm_id) : M tree_alarms unit :=
  b ← read_body id;
  bodies ← gets ta_bodies;
  on_tree (
    fuel ← rounds;
    place ← add_descend bodies (bd_tv b) fuel None LinkRoot;
    rb_link_node id place.1 place.2;;
    rb_insert_color id).

Definition erase_and_clear (id : alarm_id) : M tree_alarms unit :=
  on_tree (RbTree.rb_erase id;; RB_CLEAR_NODE id).

Definition del_alarm_ (id : alarm_id) : M tree_alarms unit :=
  empty ← on_tree (RB_EMPTY_NODE id);
  when (negb empty) (erase_and_clear id).

Definition alarm_pending_ (id : alarm_id) : M tree_alarms bool :=
  empty ← on_tree (RB_EMPTY_NODE id);
  mret (negb empty).

(** The first loop of [do_alarm_run]: [list_add] puts the expired blocks in front of
    [queue]. *)
Fixpoint collect_loop (bodies : gmap alarm_id alarm_body) (tv : timeval) (fuel : nat)
    (node : option alarm_id) (queue : list alarm_id) : M (rb_state alarm_id) (list alarm_id) :=
  match node with
  | None => mret queue
  | Some this =>
      match fuel with
      | O => abort Diverges
      | S fuel =>
          b ← demand UseAfterFree (bodies !! this);
          if timer_gt (bd_tv b) tv then mret queue
          else
            node ← rb_next this;
            collect_loop bodies tv fuel node (this :: queue)
      end
  end.

Definition collect (tv : timeval) : M tree_alarms (list alarm_id) :=
  bodies ← gets ta_bodies;
  on_tree (
    fuel ← rounds;
    node ← rb_first;
    collect_loop bodies tv fuel node []).

(** ** The functions of alarm.h *)

Class TreeHost (St : Type) `{Clock St} := {
  host_tree : St → tree_alarms;
  host_set_tree : tree_alarms → St → St }.

Section ops.
Context {St : Type} `{TreeHost St}.

Definition on_tree_alarms {X} (m : M tree_alarms X) : M St X := λ s,
  match m (host_tree s) with
  | Ok x T => Ok x (host_set_tree T s)
  | Fault f => Fault f
  end.

Definition init_alarm (id : alarm_id) (data : option addr) (fcn : alarm_fn) : M St unit :=
  on_tree_alarms (init_alarm_ id data fcn).

Definition del_alarm (id : alarm_id) : M St unit := on_tree_alarms (del_alarm_ id).

(** [alarm->tv = tv] *)
Definition set_tv (id : alarm_id) (tv : timeval) : M tree_alarms unit :=
  b ← read_body id;
  write_body id (AlarmBody tv (bd_data b) (bd_function b)).

Definition add_alarm (id : alarm_id) (sc usc : Z) : M St unit :=
  del_alarm id;;
  on_tree_alarms (set_tv id (Timeval sc usc));;
  tv ← gettimeofday;
  on_tree_alarms (set_tv id (timeradd (Timeval sc usc) tv));;
  on_tree_alarms (__add_alarm id).

Definition alarm_pending (id : alarm_id) : M St bool := on_tree_alarms (alarm_pending_ id).

Definition get_next_alarm_run : M St (option timeval) :=
  tv ← gettimeofday;
  node ← on_tree_alarms (on_tree rb_first);
  match node with
  | None => mret None
  | Some this =>
      b ← on_tree_alarms (read_body this);
      mret (calculate_next_run (bd_tv b) tv)
  end.

Context (run : alarm_fn → alarm_id → option addr → M St unit).

Definition do_alarm_run : M St (option timeval) :=
  tv ← gettimeofday;
  queue ← on_tree_alarms (collect tv);
  for_each queue (λ this,
    on_tree_alarms (erase_and_clear this);;
    b ← on_tree_alarms (read_body this);
    run (bd_function b) this (bd_data b));;
  get_next_alarm_run.

Definition process_alarms (next : timeval) : M St (option timeval) :=
  if negb (timerisset next) then do_alarm_run else mret None.
End ops.
