(* ===== verification/RouteObj.v ===== *)
(** * msh_route.c: the route object, without its environment

    [struct msh_route] (the embedded [alarm_block] is a block of the alarm queue,
    [AL_route]), the flag operations, the precursor list and the attribute
    comparison [msh_route_compare].  These are the parts of msh_route.c that touch
    nothing but the object; [MshRoute] has the rest. *)

From S2P Require Export Alarm ConfigParams.

Definition RTFLAG_VALID_DEST_SEQ_NUM : Z := 0x0001.
Definition RTFLAG_VALID_ENTRY : Z := 0x0002.
Definition RTFLAG_HAS_NEXTHOP : Z := 0x0004.
Definition RTFLAG_UNMANAGED : Z := 0x0008.

Definition RTATTR_DST_IP : Z := 0x0001.
Definition RTATTR_NEXTHOP_IP : Z := 0x0002.
Definition RTATTR_PREFIX_SZ : Z := 0x0004.
Definition RTATTR_DEST_SEQ_NUM : Z := 0x0008.
Definition RTATTR_FLAGS : Z := 0x0010.
Definition RTATTR_HOP_COUNT : Z := 0x0020.
Definition RTATTR_NET_IFACE : Z := 0x0080.
Definition RTATTR_LIFETIME : Z := 0x0100.
Definition RTATTR_UPDATED_CB : Z := 0x0200.
Definition RTATTR_CB_DATA : Z := 0x0400.
Definition RTFIND_BY_DEST_LONGEST_PREFIX_MATCHING : Z := 0x1000.

(** Every attribute [msh_route_compare] looks at. *)
Definition RTATTR_ALL : Z := 0x17bf.

Definition RTACTION_UNSET_VALID_ENTRY : Z := 0x0008.
Definition RTACTION_DESTROY : Z := 0x0010.
Definition RTACTION_CHANGE_NEXTHOP_IP : Z := 0x0020.

(** [x & flag] as a condition. *)
Definition has_flag (x flag : Z) : bool := negb (Z.land x flag =? 0).

(** The functions that can be installed as [updated_cb]. *)
Inductive updated_fn := fn_routing_table_route_updated_cb.

#[export] Instance updated_fn_eq_dec : EqDecision updated_fn.
Proof. solve_decision. Defined.

Record msh_route := MshRoute {
  rt_dst_ip : Z;  (* host byte order *)
  rt_prefix_sz : Z;  (* uint8_t *)
  rt_dest_seq_num : Z;  (* uint32_t *)
  rt_flags : Z;  (* uint16_t *)
  rt_hop_count : Z;  (* uint8_t *)
  rt_next_hop : Z;  (* host byte order *)
  rt_net_iface : Z;  (* uint32_t *)
  rt_precursors : list Z;  (* addresses, head of the list first *)
  rt_updated_cb : option updated_fn;
  rt_cb_data : option addr;
  rt_nlroute : option addr;
  rt_alarm_action : Z }.  (* uint32_t *)

Definition set_rt_dst_ip (x : Z) (s : msh_route) : msh_route :=
  MshRoute x (rt_prefix_sz s) (rt_dest_seq_num s) (rt_flags s) (rt_hop_count s) (rt_next_hop s)
    (rt_net_iface s) (rt_precursors s) (rt_updated_cb s) (rt_cb_data s) (rt_nlroute s)
    (rt_alarm_action s).
Definition set_rt_prefix_sz (x : Z) (s : msh_route) : msh_route :=
  MshRoute (rt_dst_ip s) x (rt_dest_seq_num s) (rt_flags s) (rt_hop_count s) (rt_next_hop s)
    (rt_net_iface s) (rt_precursors s) (rt_updated_cb s) (rt_cb_data s) (rt_nlroute s)
    (rt_alarm_action s).
Definition set_rt_dest_seq_num (x : Z) (s : msh_route) : msh_route :=
  MshRoute (rt_dst_ip s) (rt_prefix_sz s) x (rt_flags s) (rt_hop_count s) (rt_next_hop s)
    (rt_net_iface s) (rt_precursors s) (rt_updated_cb s) (rt_cb_data s) (rt_nlroute s)
    (rt_alarm_action s).
Definition set_rt_flags (x : Z) (s : msh_route) : msh_route :=
  MshRoute (rt_dst_ip s) (rt_prefix_sz s) (rt_dest_seq_num s) x (rt_hop_count s) (rt_next_hop s)
    (rt_net_iface s) (rt_precursors s) (rt_updated_cb s) (rt_cb_data s) (rt_nlroute s)
    (rt_alarm_action s).
Definition set_rt_hop_count (x : Z) (s : msh_route) : msh_route :=
  MshRoute (rt_dst_ip s) (rt_prefix_sz s) (rt_dest_seq_num s) (rt_flags s) x (rt_next_hop s)
    (rt_net_iface s) (rt_precursors s) (rt_updated_cb s) (rt_cb_data s) (rt_nlroute s)
    (rt_alarm_action s).
Definition set_rt_next_hop (x : Z) (s : msh_route) : msh_route :=
  MshRoute (rt_dst_ip s) (rt_prefix_sz s) (rt_dest_seq_num s) (rt_flags s) (rt_hop_count s) x
    (rt_net_iface s) (rt_precursors s) (rt_updated_cb s) (rt_cb_data s) (rt_nlroute s)
    (rt_alarm_action s).
Definition set_rt_net_iface (x : Z) (s : msh_route) : msh_route :=
  MshRoute (rt_dst_ip s) (rt_prefix_sz s) (rt_dest_seq_num s) (rt_flags s) (rt_hop_count s)
    (rt_next_hop s) x (rt_precursors s) (rt_updated_cb s) (rt_cb_data s) (rt_nlroute s)
    (rt_alarm_action s).
Definition set_rt_precursors (x : list Z) (s : msh_route) : msh_route :=
  MshRoute (rt_dst_ip s) (rt_prefix_sz s) (rt_dest_seq_num s) (rt_flags s) (rt_hop_count s)
    (rt_next_hop s) (rt_net_iface s) x (rt_updated_cb s) (rt_cb_data s) (rt_nlroute s)
    (rt_alarm_action s).
Definition set_rt_updated_cb (x : option updated_fn) (s : msh_route) : msh_route :=
  MshRoute (rt_dst_ip s) (rt_prefix_sz s) (rt_dest_seq_num s) (rt_flags s) (rt_hop_count s)
    (rt_next_hop s) (rt_net_iface s) (rt_precursors s) x (rt_cb_data s) (rt_nlroute s)
    (rt_alarm_action s).
Definition set_rt_cb_data (x : option addr) (s : msh_route) : msh_route :=
  MshRoute (rt_dst_ip s) (rt_prefix_sz s) (rt_dest_seq_num s) (rt_flags s) (rt_hop_count s)
    (rt_next_hop s) (rt_net_iface s) (rt_precursors s) (rt_updated_cb s) x (rt_nlroute s)
    (rt_alarm_action s).
Definition set_rt_nlroute (x : option addr) (s : msh_route) : msh_route :=
  MshRoute (rt_dst_ip s) (rt_prefix_sz s) (rt_dest_seq_num s) (rt_flags s) (rt_hop_count s)
    (rt_next_hop s) (rt_net_iface s) (rt_precursors s) (rt_updated_cb s) (rt_cb_data s) x
    (rt_alarm_action s).
Definition set_rt_alarm_action (x : Z) (s : msh_route) : msh_route :=
  MshRoute (rt_dst_ip s) (rt_prefix_sz s) (rt_dest_seq_num s) (rt_flags s) (rt_hop_count s)
    (rt_next_hop s) (rt_net_iface s) (rt_precursors s) (rt_updated_cb s) (rt_cb_data s)
    (rt_nlroute s) x.

(** [calloc]: all fields zero; the precursor list is initialised empty. *)
Definition zero_route : msh_route := MshRoute 0 0 0 0 0 0 0 [] None None None 0.

(** ** Flags *)

Definition known_flag (flag : Z) : bool :=
  (flag =? RTFLAG_VALID_DEST_SEQ_NUM) || (flag =? RTFLAG_VALID_ENTRY) ||
  (flag =? RTFLAG_HAS_NEXTHOP) || (flag =? RTFLAG_UNMANAGED).

(** [msh_route_set_flag]: exactly one known flag is set, anything else is ignored. *)
Definition set_flag (flag : Z) (r : msh_route) : msh_route :=
  if flag =? RTFLAG_VALID_DEST_SEQ_NUM then
    set_rt_flags (Z.lor (rt_flags r) RTFLAG_VALID_DEST_SEQ_NUM) r
  else if flag =? RTFLAG_VALID_ENTRY then
    set_rt_flags (Z.lor (rt_flags r) RTFLAG_VALID_ENTRY) r
  else if flag =? RTFLAG_HAS_NEXTHOP then
    set_rt_flags (Z.lor (rt_flags r) RTFLAG_HAS_NEXTHOP) r
  else if flag =? RTFLAG_UNMANAGED then
    set_rt_flags (Z.lor (rt_flags r) RTFLAG_UNMANAGED) r
  else r.

(** [flags &= ~F]: [~F] is an [int], the result is stored in a [uint16_t]. *)
Definition unset_flag (flag : Z) (r : msh_route) : msh_route :=
  if flag =? RTFLAG_VALID_DEST_SEQ_NUM then
    set_rt_flags (u16 (Z.land (rt_flags r) (Z.lnot RTFLAG_VALID_DEST_SEQ_NUM))) r
  else if flag =? RTFLAG_VALID_ENTRY then
    set_rt_flags (u16 (Z.land (rt_flags r) (Z.lnot RTFLAG_VALID_ENTRY))) r
  else if flag =? RTFLAG_HAS_NEXTHOP then
    set_rt_flags (u16 (Z.land (rt_flags r) (Z.lnot RTFLAG_HAS_NEXTHOP))) r
  else if flag =? RTFLAG_UNMANAGED then
    set_rt_flags (u16 (Z.land (rt_flags r) (Z.lnot RTFLAG_UNMANAGED))) r
  else r.

(** ** Precursors *)

(** [msh_route_add_precursor]: no duplicates; [list_add] puts it first. *)
Definition add_precursor (ip : Z) (r : msh_route) : msh_route :=
  if decide (ip ∈ rt_precursors r) then r
  else set_rt_precursors (ip :: rt_precursors r) r.

(** [msh_route_del_precursor]: the first entry with that address goes. *)
Fixpoint remove_first (ip : Z) (l : list Z) : list Z :=
  match l with
  | [] => []
  | x :: l' => if x =? ip then l' else x :: remove_first ip l'
  end.
Definition del_precursor (ip : Z) (r : msh_route) : msh_route :=
  set_rt_precursors (remove_first ip (rt_precursors r)) r.

(** ** Comparison *)

Definition INADDR_BROADCAST : Z := 0xffffffff.

(** [INADDR_BROADCAST << prefix_sz], a 32-bit shift: undefined from 32 on. *)
Definition prefix_mask (prefix_sz : Z) : option Z :=
  if (0 <=? prefix_sz) && (prefix_sz <? 32)
  then Some (u32 (Z.shiftl INADDR_BROADCAST prefix_sz)) else None.

(** [msh_route_compare]: 0 when the routes agree on the selected attributes, 1 when
    they do not; [tv1] and [tv2] are the expiry times of the two alarms. *)
Definition compare_routes (r1 r2 : msh_route) (tv1 tv2 : timeval) (attr : Z) : option Z :=
  mask ← (if has_flag attr RTFIND_BY_DEST_LONGEST_PREFIX_MATCHING
          then prefix_mask (rt_prefix_sz r2) else Some 0);
  let check (flag : Z) (differ : bool) := has_flag attr flag && differ in
  let diff :=
    check RTFIND_BY_DEST_LONGEST_PREFIX_MATCHING
      (negb (Z.land (rt_dst_ip r1) mask =? Z.land (rt_dst_ip r2) mask)) ||
    check RTATTR_DST_IP (negb (rt_dst_ip r1 =? rt_dst_ip r2)) ||
    check RTATTR_PREFIX_SZ (negb (rt_prefix_sz r1 =? rt_prefix_sz r2)) ||
    check RTATTR_DEST_SEQ_NUM (negb (rt_dest_seq_num r1 =? rt_dest_seq_num r2)) ||
    check RTATTR_FLAGS (negb (rt_flags r1 =? rt_flags r2)) ||
    check RTATTR_HOP_COUNT (negb (rt_hop_count r1 =? rt_hop_count r2)) ||
    check RTATTR_NEXTHOP_IP (negb (rt_next_hop r1 =? rt_next_hop r2)) ||
    check RTATTR_NET_IFACE (negb (rt_net_iface r1 =? rt_net_iface r2)) ||
    check RTATTR_LIFETIME (timer_ne tv1 tv2) ||
    check RTATTR_UPDATED_CB (negb (bool_decide (rt_updated_cb r1 = rt_updated_cb r2))) ||
    check RTATTR_CB_DATA (negb (bool_decide (rt_cb_data r1 = rt_cb_data r2))) in
  Some (if diff then 1 else 0).

(** ** Facts *)

Lemma has_flag_lor x y f : has_flag (Z.lor x y) f = has_flag x f || has_flag y f.
Proof.
  unfold has_flag. rewrite Z.land_lor_distr_l.
  destruct (Z.eqb_spec (Z.land x f) 0) as [->|Hx]; [done|]. simpl.
  destruct (Z.eqb_spec (Z.lor (Z.land x f) (Z.land y f)) 0) as [E|]; [|done].
  apply Z.lor_eq_0_iff in E. tauto.
Qed.

(** Lookups by destination compare with the mask of the route in the table: with
    prefix size 0, the only one the daemon ever creates, the whole address. *)
Lemma compare_exact r1 r2 tv1 tv2 :
  is_u32 (rt_dst_ip r1) → is_u32 (rt_dst_ip r2) → rt_prefix_sz r2 = 0 →
  compare_routes r1 r2 tv1 tv2 RTFIND_BY_DEST_LONGEST_PREFIX_MATCHING =
    Some (if rt_dst_ip r1 =? rt_dst_ip r2 then 0 else 1).
Proof.
  intros H1 H2 Hp. unfold compare_routes. rewrite Hp. simpl.
  change (u32 (Z.shiftl INADDR_BROADCAST 0)) with (Z.ones 32).
  rewrite !Z.land_ones by lia. unfold is_u32 in *. rewrite !Z.mod_small by lia.
  by destruct (rt_dst_ip r1 =? rt_dst_ip r2).
Qed.

(** The two routes describe the same path: they differ in bookkeeping only. *)
Record same_path (r r' : msh_route) : Prop := {
  sp_dst_ip : rt_dst_ip r' = rt_dst_ip r;
  sp_next_hop : rt_next_hop r' = rt_next_hop r;
  sp_hop_count : rt_hop_count r' = rt_hop_count r;
  sp_dest_seq_num : rt_dest_seq_num r' = rt_dest_seq_num r;
  sp_valid_seq : has_flag (rt_flags r') RTFLAG_VALID_DEST_SEQ_NUM =
                 has_flag (rt_flags r) RTFLAG_VALID_DEST_SEQ_NUM }.

#[export] Instance same_path_preorder : PreOrder same_path.
Proof. split; [done|]. intros r1 r2 r3 [] []. split; congruence. Qed.
