(* ===== verification/Packet.v ===== *)
(** * aodv/packet.h and packet.c: the AODV messages

    The message structures with their bit-fields laid out as gcc lays them out on a
    little-endian host (the [__LITTLE_ENDIAN_BITFIELD] branch), the functions that
    build outgoing messages, the conversion between host and network byte order of
    [aodv_pkt_check]/[aodv_pkt_prepare_*], and the [aodv_pkt] object that carries a
    payload.  Everything here is a function of the object alone; the operations that
    allocate, receive and send are in [AodvPkt]. *)

From S2P Require Export CInt Statistics.

Definition AODV_RREQ : Z := 1.
Definition AODV_RREP : Z := 2.
Definition AODV_RERR : Z := 3.
Definition AODV_RREP_ACK : Z := 4.

Definition JOIN_FLAG : Z := 16.
Definition RREQ_REPAIR_FLAG : Z := 8.
Definition RREQ_GRATUITOUS_RREP_FLAG : Z := 4.
Definition RREQ_DEST_ONLY_FLAG : Z := 2.
Definition RREQ_UNKNOWN_SEQ_NUM_FLAG : Z := 1.
Definition RREP_REPAIR_FLAG : Z := 2.
Definition RREP_ACK_REQUIRED_FLAG : Z := 1.
Definition RERR_NO_DELETE_FLAG : Z := 1.

Definition AODV_UDP_PORT : Z := 654.
Definition DEFAULT_TTL : Z := 64.
Definition AF_INET : Z := 2.

Definition sizeof_rreq : Z := 24.
Definition sizeof_rrep : Z := 20.
Definition sizeof_rrep_ack : Z := 2.
Definition sizeof_rerr : Z := 4.
Definition sizeof_unrecheable_dest : Z := 8.

(** ** The structures *)

Record aodv_rreq := AodvRreq {
  rq_type : Z;  (* 8 bits *)
  rq_reserved2 : Z;  (* 3 bits *)
  rq_flags : Z;  (* 5 bits *)
  rq_reserved : Z;  (* 8 bits *)
  rq_hop_count : Z;  (* 8 bits *)
  rq_rreq_id : Z;
  rq_dest_ip_addr : Z;
  rq_dest_seq_num : Z;
  rq_orig_ip_addr : Z;
  rq_orig_seq_num : Z }.

Definition set_rq_hop_count (x : Z) (s : aodv_rreq) : aodv_rreq :=
  AodvRreq (rq_type s) (rq_reserved2 s) (rq_flags s) (rq_reserved s) x (rq_rreq_id s)
    (rq_dest_ip_addr s) (rq_dest_seq_num s) (rq_orig_ip_addr s) (rq_orig_seq_num s).
Definition set_rq_dest_seq_num (x : Z) (s : aodv_rreq) : aodv_rreq :=
  AodvRreq (rq_type s) (rq_reserved2 s) (rq_flags s) (rq_reserved s) (rq_hop_count s)
    (rq_rreq_id s) (rq_dest_ip_addr s) x (rq_orig_ip_addr s) (rq_orig_seq_num s).

Record aodv_rrep := AodvRrep {
  rp_type : Z;  (* 8 bits *)
  rp_reserved2 : Z;  (* 6 bits *)
  rp_flags : Z;  (* 2 bits *)
  rp_prefix_sz : Z;  (* 5 bits *)
  rp_reserved : Z;  (* 3 bits *)
  rp_hop_count : Z;  (* 8 bits *)
  rp_dest_ip_addr : Z;
  rp_dest_seq_num : Z;
  rp_orig_ip_addr : Z;
  rp_lifetime : Z }.

Definition set_rp_hop_count (x : Z) (s : aodv_rrep) : aodv_rrep :=
  AodvRrep (rp_type s) (rp_reserved2 s) (rp_flags s) (rp_prefix_sz s) (rp_reserved s) x
    (rp_dest_ip_addr s) (rp_dest_seq_num s) (rp_orig_ip_addr s) (rp_lifetime s).

(** The header word of a RERR; the unreachable destinations follow it. *)
Record aodv_rerr := AodvRerr {
  er_type : Z; er_reserved2 : Z; er_flag : Z; er_reserved : Z; er_dest_count : Z }.

Record aodv_rrep_ack := AodvRrepAck { ack_type : Z; ack_reserved : Z }.

Record unrecheable_dest := UnrecheableDest { ud_ip_addr : Z; ud_seq_num : Z }.

(** ** The structures in memory *)

Definition u8_at (off : nat) (bs : bytes) : Z := nth off bs 0.
Definition u32_at (off : nat) (bs : bytes) : Z := of_le32 (take 4 (drop off bs)).

(** Reading the structure the pointer points to; [None]: the buffer is too short. *)
Definition rreq_of_bytes (bs : bytes) : option aodv_rreq :=
  if (Z.of_nat (length bs) <? sizeof_rreq) then None else Some {|
    rq_type := u8_at 0 bs;
    rq_reserved2 := u8_at 1 bs mod 8; rq_flags := u8_at 1 bs / 8;
    rq_reserved := u8_at 2 bs;
    rq_hop_count := u8_at 3 bs;
    rq_rreq_id := u32_at 4 bs;
    rq_dest_ip_addr := u32_at 8 bs; rq_dest_seq_num := u32_at 12 bs;
    rq_orig_ip_addr := u32_at 16 bs; rq_orig_seq_num := u32_at 20 bs |}.

Definition bytes_of_rreq (r : aodv_rreq) : bytes :=
  [rq_type r; rq_reserved2 r + 8 * rq_flags r; rq_reserved r; rq_hop_count r] ++
  le32 (rq_rreq_id r) ++ le32 (rq_dest_ip_addr r) ++ le32 (rq_dest_seq_num r) ++
  le32 (rq_orig_ip_addr r) ++ le32 (rq_orig_seq_num r).

Definition rrep_of_bytes (bs : bytes) : option aodv_rrep :=
  if (Z.of_nat (length bs) <? sizeof_rrep) then None else Some {|
    rp_type := u8_at 0 bs;
    rp_reserved2 := u8_at 1 bs mod 64; rp_flags := u8_at 1 bs / 64;
    rp_prefix_sz := u8_at 2 bs mod 32; rp_reserved := u8_at 2 bs / 32;
    rp_hop_count := u8_at 3 bs;
    rp_dest_ip_addr := u32_at 4 bs; rp_dest_seq_num := u32_at 8 bs;
    rp_orig_ip_addr := u32_at 12 bs; rp_lifetime := u32_at 16 bs |}.

Definition bytes_of_rrep (r : aodv_rrep) : bytes :=
  [rp_type r; rp_reserved2 r + 64 * rp_flags r; rp_prefix_sz r + 32 * rp_reserved r;
   rp_hop_count r] ++
  le32 (rp_dest_ip_addr r) ++ le32 (rp_dest_seq_num r) ++
  le32 (rp_orig_ip_addr r) ++ le32 (rp_lifetime r).

Definition rerr_of_bytes (bs : bytes) : option aodv_rerr :=
  if (Z.of_nat (length bs) <? sizeof_rerr) then None else Some {|
    er_type := u8_at 0 bs;
    er_reserved2 := u8_at 1 bs mod 128; er_flag := u8_at 1 bs / 128;
    er_reserved := u8_at 2 bs;
    er_dest_count := u8_at 3 bs |}.

Definition bytes_of_rerr (r : aodv_rerr) : bytes :=
  [er_type r; er_reserved2 r + 128 * er_flag r; er_reserved r; er_dest_count r].

(** Writing through a pointer into a buffer; [None]: outside the buffer. *)
Definition write_at (off : nat) (new bs : bytes) : option bytes :=
  if (off + length new <=? length bs)%nat
  then Some (take off bs ++ new ++ drop (off + length new) bs) else None.

(** Updating the structure at the start of the payload in place. *)
Definition update_rreq (f : aodv_rreq → aodv_rreq) (bs : bytes) : option bytes :=
  r ← rreq_of_bytes bs; write_at 0 (bytes_of_rreq (f r)) bs.
Definition update_rrep (f : aodv_rrep → aodv_rrep) (bs : bytes) : option bytes :=
  r ← rrep_of_bytes bs; write_at 0 (bytes_of_rrep (f r)) bs.

(** ** Byte order of the fields *)

(** [aodv_pkt_prepare_rreq] and the RREQ case of [aodv_pkt_check] (on a
    little-endian host [htonl] and [ntohl] are the same function). *)
Definition aodv_pkt_prepare_rreq (r : aodv_rreq) : aodv_rreq :=
  AodvRreq (rq_type r) (rq_reserved2 r) (rq_flags r) (rq_reserved r) (rq_hop_count r)
    (htonl (rq_rreq_id r)) (htonl (rq_dest_ip_addr r)) (htonl (rq_dest_seq_num r))
    (htonl (rq_orig_ip_addr r)) (htonl (rq_orig_seq_num r)).

Definition aodv_pkt_prepare_rrep (r : aodv_rrep) : aodv_rrep :=
  AodvRrep (rp_type r) (rp_reserved2 r) (rp_flags r) (rp_prefix_sz r) (rp_reserved r)
    (rp_hop_count r) (htonl (rp_dest_ip_addr r)) (htonl (rp_dest_seq_num r))
    (htonl (rp_orig_ip_addr r)) (htonl (rp_lifetime r)).

Definition rreq_ntoh (r : aodv_rreq) : aodv_rreq :=
  AodvRreq (rq_type r) (rq_reserved2 r) (rq_flags r) (rq_reserved r) (rq_hop_count r)
    (ntohl (rq_rreq_id r)) (ntohl (rq_dest_ip_addr r)) (ntohl (rq_dest_seq_num r))
    (ntohl (rq_orig_ip_addr r)) (ntohl (rq_orig_seq_num r)).

Definition rrep_ntoh (r : aodv_rrep) : aodv_rrep :=
  AodvRrep (rp_type r) (rp_reserved2 r) (rp_flags r) (rp_prefix_sz r) (rp_reserved r)
    (rp_hop_count r) (ntohl (rp_dest_ip_addr r)) (ntohl (rp_dest_seq_num r))
    (ntohl (rp_orig_ip_addr r)) (ntohl (rp_lifetime r)).

(** ** The packet object *)

Record aodv_pkt := AodvPkt {
  pk_payload : option bytes;  (* None is NULL *)
  pk_payload_len : Z;  (* size_t *)
  pk_family : Z;
  pk_port : Z;  (* network byte order *)
  pk_address : Z;  (* sin_addr.s_addr, network byte order *)
  pk_ttl : Z }.  (* uint8_t *)

Definition set_pk_payload (x : option bytes) (s : aodv_pkt) : aodv_pkt :=
  AodvPkt x (pk_payload_len s) (pk_family s) (pk_port s) (pk_address s) (pk_ttl s).
Definition set_pk_payload_len (x : Z) (s : aodv_pkt) : aodv_pkt :=
  AodvPkt (pk_payload s) x (pk_family s) (pk_port s) (pk_address s) (pk_ttl s).
Definition set_pk_address (x : Z) (s : aodv_pkt) : aodv_pkt :=
  AodvPkt (pk_payload s) (pk_payload_len s) (pk_family s) (pk_port s) x (pk_ttl s).
Definition set_pk_ttl (x : Z) (s : aodv_pkt) : aodv_pkt :=
  AodvPkt (pk_payload s) (pk_payload_len s) (pk_family s) (pk_port s) (pk_address s) x.

(** ** Building messages

    Assigning to a bit-field keeps the low bits; [calloc] zeroes the rest. *)

Definition aodv_pkt_build_rreq (flags hop_count rreq_id dest_ip_addr dest_seq_num
    orig_ip_addr orig_seq_num : Z) (p : aodv_pkt) : aodv_pkt :=
  let rreq := AodvRreq AODV_RREQ 0 (flags mod 32) 0 hop_count (htonl rreq_id)
    (htonl dest_ip_addr) (htonl dest_seq_num) (htonl orig_ip_addr) (htonl orig_seq_num) in
  set_pk_payload (Some (bytes_of_rreq rreq)) (set_pk_payload_len sizeof_rreq p).

Definition aodv_pkt_build_rrep (flags prefix_sz hop_count dest_ip_addr dest_seq_num
    orig_ip_addr lifetime : Z) (p : aodv_pkt) : aodv_pkt :=
  let rrep := AodvRrep AODV_RREP 0 (flags mod 4) (prefix_sz mod 32) 0 hop_count
    (htonl dest_ip_addr) (htonl dest_seq_num) (htonl orig_ip_addr) (htonl lifetime) in
  set_pk_payload (Some (bytes_of_rrep rrep)) (set_pk_payload_len sizeof_rrep p).

Definition aodv_pkt_build_rrep_ack (p : aodv_pkt) : aodv_pkt :=
  set_pk_payload (Some [AODV_RREP_ACK; 0]) (set_pk_payload_len sizeof_rrep_ack p).

(** The loop of [aodv_pkt_build_rerr]: [aux] starts [sizeof(struct aodv_rerr)]
    elements of type [struct unrecheable_dest] after [rerr], i.e. 32 bytes. *)
Fixpoint write_dests (off : nat) (dests : list unrecheable_dest) (bs : bytes) : option bytes :=
  match dests with
  | [] => Some bs
  | d :: dests' =>
      bs' ← write_at off (le32 (htonl (ud_ip_addr d)) ++ le32 (htonl (ud_seq_num d))) bs;
      write_dests (off + 8) dests' bs'
  end.

(** [None]: [dests] is read or the message is written out of bounds; the count is a
    [uint8_t]. *)
Definition aodv_pkt_build_rerr (flag dest_count : Z) (dests : list unrecheable_dest)
    (p : aodv_pkt) : option aodv_pkt :=
  let dest_count := u8 dest_count in
  let len := sizeof_rerr + dest_count * sizeof_unrecheable_dest in
  let rerr := bytes_of_rerr (AodvRerr AODV_RERR 0 (flag mod 2) 0 dest_count) in
  let buf := rerr ++ replicate (Z.to_nat len - 4) 0 in
  if Z.of_nat (length dests) <? dest_count then None else
  bs ← write_dests (Z.to_nat (sizeof_rerr * sizeof_unrecheable_dest))
         (take (Z.to_nat dest_count) dests) buf;
  Some (set_pk_payload (Some bs) (set_pk_payload_len len p)).

(** ** Address and time to live *)

Definition aodv_pkt_get_address (p : aodv_pkt) : Z := ntohl (pk_address p).
Definition aodv_pkt_set_address (a : Z) (p : aodv_pkt) : aodv_pkt :=
  set_pk_address (htonl a) p.
Definition aodv_pkt_set_ttl (ttl : Z) (p : aodv_pkt) : aodv_pkt := set_pk_ttl (u8 ttl) p.
Definition aodv_pkt_decrease_ttl (p : aodv_pkt) : aodv_pkt := set_pk_ttl (u8 (pk_ttl p - 1)) p.
Definition aodv_pkt_get_payload_len (p : aodv_pkt) : Z := s32 (pk_payload_len p).

(** [(int)(char)payload[0]]; [None]: the payload has no byte. *)
Definition aodv_pkt_get_type (bs : bytes) : option Z := s8 <$> bs !! 0%nat.

(** ** aodv_pkt_check

    The result, the payload with the fields brought to host byte order, and the
    counter that is incremented; [None]: a read outside the payload. Lengths are
    compared as [size_t]. *)
Definition aodv_pkt_check_payload (p : aodv_pkt) (bs : bytes) :
    option (Z * bytes * option stat) :=
  let len := u64 (aodv_pkt_get_payload_len p) in
  type ← aodv_pkt_get_type bs;
  if type =? AODV_RREQ then
    if sizeof_rreq <=? len then
      bs' ← update_rreq rreq_ntoh bs; Some (1, bs', None)
    else Some (0, bs, Some Stat.rreq_incorrect_size)
  else if type =? AODV_RREP then
    if sizeof_rrep <=? len then
      bs' ← update_rrep rrep_ntoh bs; Some (1, bs', None)
    else Some (0, bs, Some Stat.rrep_incorrect_size)
  else if type =? AODV_RERR then
    if 4 + sizeof_unrecheable_dest <=? len then
      rerr ← rerr_of_bytes bs;
      if er_dest_count rerr =? 0 then Some (0, bs, Some Stat.rerr_dest_cont_zero)
      else if len =? 4 + sizeof_unrecheable_dest * er_dest_count rerr
      then Some (1, bs, None)
      else Some (0, bs, Some Stat.rerr_incorrect_size)
    else Some (0, bs, Some Stat.rerr_incorrect_size)
  else if type =? AODV_RREP_ACK then
    if sizeof_rrep_ack <=? len then Some (1, bs, None)
    else Some (0, bs, Some Stat.rrep_ack_incorrect_size)
  else Some (0, bs, None).

(** ** Well-formed structures: every field fits its width *)

Record rreq_ok (r : aodv_rreq) : Prop := {
  rqo_type : is_u8 (rq_type r);
  rqo_reserved2 : 0 ≤ rq_reserved2 r < 8;
  rqo_flags : 0 ≤ rq_flags r < 32;
  rqo_reserved : is_u8 (rq_reserved r);
  rqo_hop_count : is_u8 (rq_hop_count r);
  rqo_words : Forall is_u32 [rq_rreq_id r; rq_dest_ip_addr r; rq_dest_seq_num r;
                             rq_orig_ip_addr r; rq_orig_seq_num r] }.

Record rrep_ok (r : aodv_rrep) : Prop := {
  rpo_type : is_u8 (rp_type r);
  rpo_reserved2 : 0 ≤ rp_reserved2 r < 64;
  rpo_flags : 0 ≤ rp_flags r < 4;
  rpo_prefix_sz : 0 ≤ rp_prefix_sz r < 32;
  rpo_reserved : 0 ≤ rp_reserved r < 8;
  rpo_hop_count : is_u8 (rp_hop_count r);
  rpo_words : Forall is_u32 [rp_dest_ip_addr r; rp_dest_seq_num r;
                             rp_orig_ip_addr r; rp_lifetime r] }.

(** *** Reading back what was written *)

Lemma of_le32_u32 z : is_u32 z → of_le32 (le32 z) = z.
Proof. intros. by rewrite of_le32_le32, u32_id. Qed.

(** A bit-field pair packed in a byte. *)
Lemma unpack_low lo hi w : 0 < w → 0 ≤ lo < w → (lo + w * hi) mod w = lo.
Proof. intros. rewrite (Z.mul_comm w), Z.mod_add by lia. by apply Z.mod_small. Qed.
Lemma unpack_high lo hi w : 0 < w → 0 ≤ lo < w → (lo + w * hi) / w = hi.
Proof. intros. rewrite (Z.mul_comm w), Z.div_add by lia. by rewrite Z.div_small. Qed.

Lemma rreq_of_bytes_of r rest : rreq_ok r → rreq_of_bytes (bytes_of_rreq r ++ rest) = Some r.
Proof.
  intros [Ht H2 Hf Hr Hh Hw]. unfold rreq_of_bytes.
  destruct (Z.ltb_spec (Z.of_nat (length (bytes_of_rreq r ++ rest))) sizeof_rreq) as [Hlt|_].
  { rewrite length_app in Hlt. simpl in Hlt. unfold sizeof_rreq in Hlt. lia. }
  rewrite !Forall_cons in Hw. destruct Hw as (?&?&?&?&?&_).
  unfold u8_at, u32_at, bytes_of_rreq. cbn [nth app take drop le32].
  rewrite unpack_low, unpack_high by lia.
  destruct r; cbn in *. f_equal. f_equal; by apply of_le32_u32.
Qed.

Lemma rrep_of_bytes_of r rest : rrep_ok r → rrep_of_bytes (bytes_of_rrep r ++ rest) = Some r.
Proof.
  intros [Ht H2 Hf Hp Hr Hh Hw]. unfold rrep_of_bytes.
  destruct (Z.ltb_spec (Z.of_nat (length (bytes_of_rrep r ++ rest))) sizeof_rrep) as [Hlt|_].
  { rewrite length_app in Hlt. simpl in Hlt. unfold sizeof_rrep in Hlt. lia. }
  rewrite !Forall_cons in Hw. destruct Hw as (?&?&?&?&_).
  unfold u8_at, u32_at, bytes_of_rrep. cbn [nth app take drop le32].
  rewrite !unpack_low, !unpack_high by lia.
  destruct r; cbn in *. f_equal. f_equal; by apply of_le32_u32.
Qed.

(** *** Writing back what was read *)

Lemma repack b w : 0 < w → b mod w + w * (b / w) = b.
Proof. intros. Z.to_euclidean_division_equations; lia. Qed.

Lemma u32_at_ok bs off :
  bytes_ok bs → (off + 4 <= length bs)%nat →
  le32 (u32_at off bs) = take 4 (drop off bs) ∧ is_u32 (u32_at off bs).
Proof.
  intros Hok Hlen. unfold u32_at.
  assert (bytes_ok (take 4 (drop off bs))) as Hok' by by apply Forall_take, Forall_drop.
  assert (length (take 4 (drop off bs)) = 4%nat) as Hl
    by (rewrite length_take, length_drop; lia).
  split; [by apply le32_of_le32|].
  revert Hok' Hl. generalize (take 4 (drop off bs)). intros l Hok' Hl.
  do 5 (destruct l as [|? l]; try done).
  unfold bytes_ok in Hok'. rewrite !Forall_cons in Hok'. unfold is_u8, is_u32 in *. simpl. lia.
Qed.

Lemma u8_at_ok bs off : bytes_ok bs → is_u8 (u8_at off bs).
Proof.
  intros Hok. unfold u8_at. destruct (nth_in_or_default off bs 0) as [Hin| ->]; [|done].
  unfold bytes_ok in Hok. rewrite List.Forall_forall in Hok. by apply Hok.
Qed.

(** A buffer of at least [n] bytes, byte by byte. *)
Tactic Notation "explode_bytes" hyp(bs) integer(n) :=
  do n (destruct bs as [|? bs]; [cbn [length] in *; lia|]).

Lemma bytes_of_rreq_of bs r :
  bytes_ok bs → rreq_of_bytes bs = Some r → bytes_of_rreq r ++ drop 24 bs = bs ∧ rreq_ok r.
Proof.
  unfold rreq_of_bytes. intros Hok Hr. case_match eqn:Hlen; [done|].
  unfold sizeof_rreq in Hlen. apply Z.ltb_ge in Hlen. injection Hr as <-.
  pose proof (λ off, u8_at_ok bs off Hok) as H8.
  pose proof (λ off, u32_at_ok bs off Hok) as H32.
  split.
  - unfold bytes_of_rreq. cbn -[le32 u32_at u8_at Z.mul Z.div Z.modulo drop app].
    rewrite !(λ off Hoff, proj1 (H32 off Hoff)), repack by lia. clear H8 H32 Hok.
    explode_bytes bs 24. done.
  - pose proof (H8 1%nat) as H1. unfold is_u8 in H1.
    split; simpl; try done; try (Z.to_euclidean_division_equations; lia).
    repeat apply Forall_cons_2; try apply Forall_nil_2; apply H32; lia.
Qed.

Lemma bytes_of_rrep_of bs r :
  bytes_ok bs → rrep_of_bytes bs = Some r → bytes_of_rrep r ++ drop 20 bs = bs ∧ rrep_ok r.
Proof.
  unfold rrep_of_bytes. intros Hok Hr. case_match eqn:Hlen; [done|].
  unfold sizeof_rrep in Hlen. apply Z.ltb_ge in Hlen. injection Hr as <-.
  pose proof (λ off, u8_at_ok bs off Hok) as H8.
  pose proof (λ off, u32_at_ok bs off Hok) as H32.
  split.
  - unfold bytes_of_rrep. cbn -[le32 u32_at u8_at Z.mul Z.div Z.modulo drop app].
    rewrite !(λ off Hoff, proj1 (H32 off Hoff)), !repack by lia. clear H8 H32 Hok.
    explode_bytes bs 20. done.
  - pose proof (H8 1%nat) as H1. pose proof (H8 2%nat) as H2. unfold is_u8 in H1, H2.
    split; simpl; try done; try (Z.to_euclidean_division_equations; lia).
    repeat apply Forall_cons_2; try apply Forall_nil_2; apply H32; lia.
Qed.

(** *** In-place updates *)

Lemma rreq_of_bytes_some bs :
  24 ≤ Z.of_nat (length bs) → ∃ r, rreq_of_bytes bs = Some r.
Proof. intros. unfold rreq_of_bytes, sizeof_rreq. case_match; [lia|eauto]. Qed.

Lemma rrep_of_bytes_some bs :
  20 ≤ Z.of_nat (length bs) → ∃ r, rrep_of_bytes bs = Some r.
Proof. intros. unfold rrep_of_bytes, sizeof_rrep. case_match; [lia|eauto]. Qed.

Lemma rreq_of_bytes_length bs r : rreq_of_bytes bs = Some r → 24 ≤ Z.of_nat (length bs).
Proof. unfold rreq_of_bytes, sizeof_rreq. case_match; [done|lia]. Qed.

Lemma rrep_of_bytes_length bs r : rrep_of_bytes bs = Some r → 20 ≤ Z.of_nat (length bs).
Proof. unfold rrep_of_bytes, sizeof_rrep. case_match; [done|lia]. Qed.

Lemma update_rreq_eq f bs r :
  rreq_of_bytes bs = Some r → update_rreq f bs = Some (bytes_of_rreq (f r) ++ drop 24 bs).
Proof.
  intros Hr. pose proof (rreq_of_bytes_length _ _ Hr). unfold update_rreq. rewrite Hr. simpl.
  unfold write_at. destruct (Nat.leb_spec (0 + length (bytes_of_rreq (f r))) (length bs)) as [|Hlt];
    [done|]. simpl in Hlt. lia.
Qed.

Lemma update_rrep_eq f bs r :
  rrep_of_bytes bs = Some r → update_rrep f bs = Some (bytes_of_rrep (f r) ++ drop 20 bs).
Proof.
  intros Hr. pose proof (rrep_of_bytes_length _ _ Hr). unfold update_rrep. rewrite Hr. simpl.
  unfold write_at. destruct (Nat.leb_spec (0 + length (bytes_of_rrep (f r))) (length bs)) as [|Hlt];
    [done|]. simpl in Hlt. lia.
Qed.

Lemma bytes_of_rreq_ok r : rreq_ok r → bytes_ok (bytes_of_rreq r).
Proof.
  intros []. unfold bytes_of_rreq, bytes_ok. rewrite !Forall_app.
  split_and!; try apply le32_ok.
  repeat apply Forall_cons_2; try apply Forall_nil_2; unfold is_u8 in *; lia.
Qed.

Lemma bytes_of_rrep_ok r : rrep_ok r → bytes_ok (bytes_of_rrep r).
Proof.
  intros []. unfold bytes_of_rrep, bytes_ok. rewrite !Forall_app.
  split_and!; try apply le32_ok.
  repeat apply Forall_cons_2; try apply Forall_nil_2; unfold is_u8 in *; lia.
Qed.

(** *** Byte order *)

Lemma rreq_ntoh_ok r : rreq_ok r → rreq_ok (rreq_ntoh r).
Proof. intros []. split; simpl; try done. repeat constructor; apply htonl_range. Qed.

Lemma rrep_ntoh_ok r : rrep_ok r → rrep_ok (rrep_ntoh r).
Proof. intros []. split; simpl; try done. repeat constructor; apply htonl_range. Qed.

Lemma prepare_rreq_ntoh r : rreq_ok r → aodv_pkt_prepare_rreq (rreq_ntoh r) = r.
Proof.
  intros [_ _ _ _ _ Hw]. rewrite !Forall_cons in Hw. destruct Hw as (?&?&?&?&?&_).
  destruct r; unfold aodv_pkt_prepare_rreq, rreq_ntoh; simpl in *. f_equal; by apply htonl_ntohl.
Qed.

Lemma prepare_rrep_ntoh r : rrep_ok r → aodv_pkt_prepare_rrep (rrep_ntoh r) = r.
Proof.
  intros [_ _ _ _ _ _ Hw]. rewrite !Forall_cons in Hw. destruct Hw as (?&?&?&?&_).
  destruct r; unfold aodv_pkt_prepare_rrep, rrep_ntoh; simpl in *. f_equal; by apply htonl_ntohl.
Qed.

#[export] Hint Resolve rreq_ntoh_ok rrep_ntoh_ok bytes_of_rreq_ok bytes_of_rrep_ok : msh.
