(* ===== verification/World.v ===== *)
(** * The daemon's state and its effects

    [world] is everything the daemon's code reads and writes: the global [data]
    (msh_data.h), [stats], the objects it allocates, the queues and the timers;
    [w_trace] records what it does to the outside.  The outside answers through the
    functions of [Env], indexed by the number of external calls made so far.
    Pointers are [addr]; an address is never reused, so that an access through a
    pointer to a freed object is always the fault [UseAfterFree]. *)

From S2P Require Export RouteObj Packet.

(** ** The environment: the kernel and the libraries that are not under src/ *)

Class Env := {
  env_now : nat → timeval;             (* gettimeofday *)
  env_sendto : nat → Z;                (* sendto: bytes sent, or -1 *)
  env_rtnl_route_add : nat → Z;        (* libnl: 0, or a negative error *)
  env_rtnl_route_del : nat → Z;
  env_nfq_set_verdict : nat → Z }.

(** [gettimeofday] returns normalised times. *)
Class EnvOk (E : Env) : Prop := env_now_ok n : timeval_ok (env_now n).

(** ** Observable actions *)

(** Calls of libnl on a route object. *)
Inductive nl_call :=
  | NL_set_oif (oif : Z)
  | NL_set_dst (dst : string)
  | NL_set_scope (scope : Z)
  | NL_set_gateway (gw : string)
  | NL_route_add (result : Z)
  | NL_route_del (result : Z)
  | NL_route_put.

Inductive event :=
  | EvSend (numbytes address port ttl : Z) (payload : option bytes)
    (* [sendto] returned [numbytes]; address in network order *)
  | EvVerdict (id verdict : Z)
  | EvReply (chunk : string)   (* send on the connection of a command *)
  | EvNl (nlroute : option addr) (call : nl_call).

Definition NF_DROP : Z := 0.
Definition NF_ACCEPT : Z := 1.
Definition RT_SCOPE_UNIVERSE : Z := 0.

(** ** The state *)

Record msh_data_t := MshData {
  md_end : bool;  (* data.end *)
  md_net_iface : Z;
  md_ip_addr : Z;  (* host byte order *)
  md_broadcast_addr : Z;  (* host byte order *)
  md_seq_num : Z;
  md_rreq_id : Z;
  md_num_rreq_sent : Z }.

Definition set_md_end (x : bool) (s : msh_data_t) : msh_data_t :=
  MshData x (md_net_iface s) (md_ip_addr s) (md_broadcast_addr s) (md_seq_num s) (md_rreq_id s)
    (md_num_rreq_sent s).
Definition set_md_seq_num (x : Z) (s : msh_data_t) : msh_data_t :=
  MshData (md_end s) (md_net_iface s) (md_ip_addr s) (md_broadcast_addr s) x (md_rreq_id s)
    (md_num_rreq_sent s).
Definition set_md_rreq_id (x : Z) (s : msh_data_t) : msh_data_t :=
  MshData (md_end s) (md_net_iface s) (md_ip_addr s) (md_broadcast_addr s) (md_seq_num s) x
    (md_num_rreq_sent s).
Definition set_md_num_rreq_sent (x : Z) (s : msh_data_t) : msh_data_t :=
  MshData (md_end s) (md_net_iface s) (md_ip_addr s) (md_broadcast_addr s) (md_seq_num s)
    (md_rreq_id s) x.

(** An entry of the RREQ queue (the alarm is the block [AL_rreq]). *)
Record rreq_fifo := RreqFifo {
  rf_rreq_id : Z;
  rf_dst : Z;
  rf_prev_tries : Z }.  (* int8_t; negative: not sent by us *)

Definition set_rf_rreq_id (x : Z) (s : rreq_fifo) : rreq_fifo :=
  RreqFifo x (rf_dst s) (rf_prev_tries s).
Definition set_rf_prev_tries (x : Z) (s : rreq_fifo) : rreq_fifo :=
  RreqFifo (rf_rreq_id s) (rf_dst s) x.

(** An entry of the packet queue; [pf_addr] is its address. *)
Record packets_fifo := PacketsFifo { pf_addr : addr; pf_id : Z; pf_dest : Z }.

Record world := World {
  w_tick : nat;  (* external calls made so far *)
  w_brk : addr;  (* every allocated address is below *)
  w_trace : list event;  (* what the daemon did, oldest first *)
  w_stats : statistics_t;  (* stats *)
  w_data : msh_data_t;  (* data, the scalar fields *)
  w_alarms : alarms;  (* alarm_root and the alarm blocks *)
  w_routes : gmap addr msh_route;  (* the live routes *)
  w_table : list addr;  (* data.routing_table->route_list, head first *)
  w_find_route : addr;  (* data.routing_table->find_route *)
  w_rreqs : gmap addr rreq_fifo;  (* the live entries of the RREQ queue *)
  w_rreq_queue : list addr;  (* data.rreq_queue->list, head first *)
  w_packets : list packets_fifo;  (* data.packets_queue->list, head first *)
  w_pkts : gmap addr aodv_pkt }.  (* the live AODV packets *)

Definition set_w_tick (x : nat) (s : world) : world :=
  World x (w_brk s) (w_trace s) (w_stats s) (w_data s) (w_alarms s) (w_routes s) (w_table s)
    (w_find_route s) (w_rreqs s) (w_rreq_queue s) (w_packets s) (w_pkts s).
Definition set_w_brk (x : addr) (s : world) : world :=
  World (w_tick s) x (w_trace s) (w_stats s) (w_data s) (w_alarms s) (w_routes s) (w_table s)
    (w_find_route s) (w_rreqs s) (w_rreq_queue s) (w_packets s) (w_pkts s).
Definition set_w_trace (x : list event) (s : world) : world :=
  World (w_tick s) (w_brk s) x (w_stats s) (w_data s) (w_alarms s) (w_routes s) (w_table s)
    (w_find_route s) (w_rreqs s) (w_rreq_queue s) (w_packets s) (w_pkts s).
Definition set_w_stats (x : statistics_t) (s : world) : world :=
  World (w_tick s) (w_brk s) (w_trace s) x (w_data s) (w_alarms s) (w_routes s) (w_table s)
    (w_find_route s) (w_rreqs s) (w_rreq_queue s) (w_packets s) (w_pkts s).
Definition set_w_data (x : msh_data_t) (s : world) : world :=
  World (w_tick s) (w_brk s) (w_trace s) (w_stats s) x (w_alarms s) (w_routes s) (w_table s)
    (w_find_route s) (w_rreqs s) (w_rreq_queue s) (w_packets s) (w_pkts s).
Definition set_w_alarms (x : alarms) (s : world) : world :=
  World (w_tick s) (w_brk s) (w_trace s) (w_stats s) (w_data s) x (w_routes s) (w_table s)
    (w_find_route s) (w_rreqs s) (w_rreq_queue s) (w_packets s) (w_pkts s).
Definition set_w_routes (x : gmap addr msh_route) (s : world) : world :=
  World (w_tick s) (w_brk s) (w_trace s) (w_stats s) (w_data s) (w_alarms s) x (w_table s)
    (w_find_route s) (w_rreqs s) (w_rreq_queue s) (w_packets s) (w_pkts s).
Definition set_w_table (x : list addr) (s : world) : world :=
  World (w_tick s) (w_brk s) (w_trace s) (w_stats s) (w_data s) (w_alarms s) (w_routes s) x
    (w_find_route s) (w_rreqs s) (w_rreq_queue s) (w_packets s) (w_pkts s).
Definition set_w_find_route (x : addr) (s : world) : world :=
  World (w_tick s) (w_brk s) (w_trace s) (w_stats s) (w_data s) (w_alarms s) (w_routes s)
    (w_table s) x (w_rreqs s) (w_rreq_queue s) (w_packets s) (w_pkts s).
Definition set_w_rreqs (x : gmap addr rreq_fifo) (s : world) : world :=
  World (w_tick s) (w_brk s) (w_trace s) (w_stats s) (w_data s) (w_alarms s) (w_routes s)
    (w_table s) (w_find_route s) x (w_rreq_queue s) (w_packets s) (w_pkts s).
Definition set_w_rreq_queue (x : list addr) (s : world) : world :=
  World (w_tick s) (w_brk s) (w_trace s) (w_stats s) (w_data s) (w_alarms s) (w_routes s)
    (w_table s) (w_find_route s) (w_rreqs s) x (w_packets s) (w_pkts s).
Definition set_w_packets (x : list packets_fifo) (s : world) : world :=
  World (w_tick s) (w_brk s) (w_trace s) (w_stats s) (w_data s) (w_alarms s) (w_routes s)
    (w_table s) (w_find_route s) (w_rreqs s) (w_rreq_queue s) x (w_pkts s).
Definition set_w_pkts (x : gmap addr aodv_pkt) (s : world) : world :=
  World (w_tick s) (w_brk s) (w_trace s) (w_stats s) (w_data s) (w_alarms s) (w_routes s)
    (w_table s) (w_find_route s) (w_rreqs s) (w_rreq_queue s) (w_packets s) x.

(** ** Effects *)

Section effects.
Context `{E : Env}.

(** An external call: the environment answers. *)
Definition ext {A} (f : nat → A) : M world A := λ w,
  Ok (f (w_tick w)) (set_w_tick (S (w_tick w)) w).

Definition emit (ev : event) : M world unit :=
  modify (λ w, set_w_trace (w_trace w ++ [ev]) w).

#[export] Instance world_clock : Clock world := ext env_now.

#[export] Instance world_alarm_host : AlarmHost world := {
  host_alarms := w_alarms;
  host_set_alarms := set_w_alarms }.

#[export] Instance world_alarm_laws `{!EnvOk E} : AlarmHostLaws world.
Proof.
  split; try done.
  - by intros [].
  - intros w. eexists _, _. split_and!; [done| |done]. apply env_now_ok.
Qed.

(** [calloc] and [malloc] (which the code assumes to succeed). *)
Definition fresh_addr : M world addr := λ w,
  Ok (w_brk w) (set_w_brk (Pos.succ (w_brk w)) w).

Definition stat_incr (f : stat) : M world unit :=
  modify (λ w, set_w_stats (stats_incr f (w_stats w)) w).

Definition data {A} (f : msh_data_t → A) : M world A := gets (λ w, f (w_data w)).
Definition upd_data (f : msh_data_t → msh_data_t) : M world unit :=
  modify (λ w, set_w_data (f (w_data w)) w).

(** Access through pointers. *)
Definition read_route (a : addr) : M world msh_route := λ w,
  demand UseAfterFree (w_routes w !! a) w.
Definition write_route (a : addr) (r : msh_route) : M world unit :=
  modify (λ w, set_w_routes (<[a := r]> (w_routes w)) w).
Definition upd_route (a : addr) (f : msh_route → msh_route) : M world unit :=
  r ← read_route a; write_route a (f r).

Definition read_rreq (a : addr) : M world rreq_fifo := λ w,
  demand UseAfterFree (w_rreqs w !! a) w.
Definition write_rreq (a : addr) (r : rreq_fifo) : M world unit :=
  modify (λ w, set_w_rreqs (<[a := r]> (w_rreqs w)) w).

Definition read_pkt (a : addr) : M world aodv_pkt := λ w,
  demand UseAfterFree (w_pkts w !! a) w.
Definition write_pkt (a : addr) (p : aodv_pkt) : M world unit :=
  modify (λ w, set_w_pkts (<[a := p]> (w_pkts w)) w).
Definition upd_pkt (a : addr) (f : aodv_pkt → aodv_pkt) : M world unit :=
  p ← read_pkt a; write_pkt a (f p).
End effects.

(** *** Rules *)

Section rules.
Context `{E : Env}.
Implicit Types w : world.

Lemma wp_ext {A} (f : nat → A) (Q : A → world → Prop) w :
  Q (f (w_tick w)) (set_w_tick (S (w_tick w)) w) → wp (ext f) Q w.
Proof. done. Qed.

Lemma wp_read_route a r (Q : msh_route → world → Prop) w :
  w_routes w !! a = Some r → Q r w → wp (read_route a) Q w.
Proof. intros Ha HQ. unfold wp, read_route. by rewrite Ha. Qed.

Lemma wp_upd_route a r f (Q : unit → world → Prop) w :
  w_routes w !! a = Some r →
  Q tt (set_w_routes (<[a := f r]> (w_routes w)) w) → wp (upd_route a f) Q w.
Proof. intros Ha HQ. apply wp_bind. by apply (wp_read_route a r). Qed.

Lemma wp_read_rreq a r (Q : rreq_fifo → world → Prop) w :
  w_rreqs w !! a = Some r → Q r w → wp (read_rreq a) Q w.
Proof. intros Ha HQ. unfold wp, read_rreq. by rewrite Ha. Qed.

Lemma wp_read_pkt a p (Q : aodv_pkt → world → Prop) w :
  w_pkts w !! a = Some p → Q p w → wp (read_pkt a) Q w.
Proof. intros Ha HQ. unfold wp, read_pkt. by rewrite Ha. Qed.

Lemma wp_upd_pkt a p f (Q : unit → world → Prop) w :
  w_pkts w !! a = Some p →
  Q tt (set_w_pkts (<[a := f p]> (w_pkts w)) w) → wp (upd_pkt a f) Q w.
Proof. intros Ha HQ. apply wp_bind. by apply (wp_read_pkt a p). Qed.
End rules.
