(* ===== verification/Kernel.v ===== *)
(** * The routes in the kernel

    What the log says of the kernel's routing table.  libnl keeps the attributes of a route
    in an object of the process; [rtnl_route_add] and [rtnl_route_del] send a request with
    the attributes the object has then.  [installed] is what was added and not deleted:
    setting an attribute later has no effect on it. *)

From S2P Require Export World.

Record nl_route := NlRoute {
  nr_oif : option Z;
  nr_dst : option string;
  nr_gateway : option string }.
Definition new_nl_route : nl_route := NlRoute None None None.

(** The objects in use and the requests granted. *)
Record nl_state := NlState {
  nl_objects : gmap addr nl_route;
  nl_installed : gmap addr nl_route }.

Definition nl_object (s : nl_state) (n : addr) : nl_route := default new_nl_route (nl_objects s !! n).
Definition nl_set (n : addr) (f : nl_route → nl_route) (s : nl_state) : nl_state :=
  NlState (<[n := f (nl_object s n)]> (nl_objects s)) (nl_installed s).

(** Results that count as success: the code takes EEXIST (17) for one, and so does this
    reading of the log, although the kernel then keeps the route it had. *)
Definition granted (result : Z) : bool := negb ((result <? 0) && negb (result =? -17)).

(** The effect of a call on the requests made.  This interprets libnl, which is not part of
    the repository: a request to delete counts as the route asked back whatever its result,
    as the code looks at none of these results. *)
Definition nl_step (n : addr) (call : nl_call) (s : nl_state) : nl_state :=
  match call with
  | NL_set_oif oif => nl_set n (λ r, NlRoute (Some oif) (nr_dst r) (nr_gateway r)) s
  | NL_set_dst dst => nl_set n (λ r, NlRoute (nr_oif r) (Some dst) (nr_gateway r)) s
  | NL_set_scope _ => s
  | NL_set_gateway gw => nl_set n (λ r, NlRoute (nr_oif r) (nr_dst r) (Some gw)) s
  | NL_route_add result =>
      if granted result then NlState (nl_objects s) (<[n := nl_object s n]> (nl_installed s)) else s
  | NL_route_del _ => NlState (nl_objects s) (delete n (nl_installed s))
  | NL_route_put => NlState (delete n (nl_objects s)) (nl_installed s)
  end.

Definition nl_event (s : nl_state) (ev : event) : nl_state :=
  match ev with EvNl (Some n) call => nl_step n call s | _ => s end.

Definition nl_after (t : list event) : nl_state := foldl nl_event (NlState ∅ ∅) t.
Definition installed (t : list event) : gmap addr nl_route := nl_installed (nl_after t).

(** ** Events that ask the kernel for nothing *)

Definition asks (ev : event) : bool :=
  match ev with
  | EvNl (Some _) (NL_route_add result) => granted result
  | EvNl (Some _) (NL_route_del _) => true
  | _ => false
  end.

Lemma nl_after_app t t' : nl_after (t ++ t') = foldl nl_event (nl_after t) t'.
Proof. apply foldl_app. Qed.
Lemma nl_after_snoc t ev : nl_after (t ++ [ev]) = nl_event (nl_after t) ev.
Proof. apply nl_after_app. Qed.

Lemma nl_event_silent s ev : asks ev = false → nl_installed (nl_event s ev) = nl_installed s.
Proof. destruct ev as [| | |[n|] []]; try done. simpl. by intros ->. Qed.

Lemma installed_silent t evs : Forall (λ ev, asks ev = false) evs → installed (t ++ evs) = installed t.
Proof.
  unfold installed. rewrite nl_after_app. generalize (nl_after t).
  induction evs as [|ev evs IH]; intros s; [done|]. intros [Hev Hevs]%Forall_cons. simpl.
  rewrite IH by done. by apply nl_event_silent.
Qed.

(** A granted request enters the attributes the object has. *)
Lemma installed_add t n result :
  granted result = true →
  installed (t ++ [EvNl (Some n) (NL_route_add result)]) = <[n := nl_object (nl_after t) n]> (installed t).
Proof. intros Hg. unfold installed. rewrite nl_after_snoc. simpl. by rewrite Hg. Qed.
Lemma installed_del t n result :
  installed (t ++ [EvNl (Some n) (NL_route_del result); EvNl (Some n) NL_route_put]) = delete n (installed t).
Proof. unfold installed. by rewrite nl_after_app. Qed.

(** Destination and interface of an object. *)
Definition describes (t : list event) (n : addr) (dst : string) (oif : Z) : Prop :=
  nr_dst (nl_object (nl_after t) n) = Some dst ∧ nr_oif (nl_object (nl_after t) n) = Some oif.

Lemma describes_oif t n oif :
  nr_oif (nl_object (nl_after (t ++ [EvNl (Some n) (NL_set_oif oif)])) n) = Some oif.
Proof. rewrite nl_after_snoc. unfold nl_object. simpl. by rewrite lookup_insert_eq. Qed.
Lemma describes_dst t n dst oif :
  nr_oif (nl_object (nl_after t) n) = Some oif → describes (t ++ [EvNl (Some n) (NL_set_dst dst)]) n dst oif.
Proof.
  unfold describes. rewrite nl_after_snoc. unfold nl_object at 2 3. simpl. by rewrite lookup_insert_eq.
Qed.
(** Scope and gateway change neither. *)
Lemma describes_later t n dst oif call :
  match call with NL_set_scope _ | NL_set_gateway _ => True | _ => False end →
  describes t n dst oif → describes (t ++ [EvNl (Some n) call]) n dst oif.
Proof.
  intros Hc [Hd Ho]. unfold describes. rewrite nl_after_snoc. destruct call; try done.
  unfold nl_object at 1 2. simpl. by rewrite lookup_insert_eq.
Qed.

(** ** The kernel and the table agree

    Every route of the table is in the kernel, with its destination and the interface of
    the daemon, and nothing else is. *)

Definition handle (routes : gmap addr msh_route) (a : addr) : option addr := routes !! a ≫= rt_nlroute.

(** The object [n] and the attributes [k] for the route [a] of the table. *)
Record entry_for (routes : gmap addr msh_route) (kernel : gmap addr nl_route) (iface : Z)
    (a n : addr) (k : nl_route) : Prop := {
  ef_handle : handle routes a = Some n;
  ef_kernel : kernel !! n = Some k;
  ef_dst : nr_dst k = (λ r, in_addr2nl_addr (rt_dst_ip r) 0) <$> routes !! a;
  ef_oif : nr_oif k = Some iface }.

Record kernel_ok (routes : gmap addr msh_route) (table : list addr) (kernel : gmap addr nl_route)
    (iface : Z) : Prop := {
  ko_table a : a ∈ table → ∃ n k, entry_for routes kernel iface a n k;
  ko_kernel n : is_Some (kernel !! n) → ∃ a, a ∈ table ∧ handle routes a = Some n;
  ko_distinct a b n : a ∈ table → b ∈ table → handle routes a = Some n → handle routes b = Some n → a = b }.

Lemma kernel_ok_empty routes iface : kernel_ok routes [] ∅ iface.
Proof. split; [by intros a ?%elem_of_nil|by intros n [? ?]|by intros ??? ?%elem_of_nil]. Qed.

(** Nothing about the routes of the table changes that the kernel knows. *)
Lemma kernel_ok_ext routes routes' table kernel iface :
  (∀ a, a ∈ table → handle routes' a = handle routes a ∧
     rt_dst_ip <$> routes' !! a = rt_dst_ip <$> routes !! a) →
  kernel_ok routes table kernel iface → kernel_ok routes' table kernel iface.
Proof.
  intros Hr [H1 H2 H3]. split.
  - intros a Ha. destruct (H1 a Ha) as (n & k & [E1 E2 E3 E4]), (Hr a Ha) as [Hh Hd].
    exists n, k. split; [congruence|done| |done]. rewrite E3.
    destruct (routes' !! a), (routes !! a); simpl in *; congruence.
  - intros n Hn. destruct (H2 n Hn) as (a & Ha & Hh). exists a. split; [done|]. by rewrite (proj1 (Hr a Ha)).
  - intros a b n Ha Hb'. rewrite (proj1 (Hr a Ha)), (proj1 (Hr b Hb')). by apply H3.
Qed.

(** The route [a] enters the table and the kernel. *)
Lemma kernel_ok_link routes table kernel iface a r n k :
  kernel_ok routes table kernel iface → a ∉ table → (∀ b, handle routes b ≠ Some n) →
  rt_nlroute r = Some n → nr_dst k = Some (in_addr2nl_addr (rt_dst_ip r) 0) → nr_oif k = Some iface →
  kernel_ok (<[a := r]> routes) (a :: table) (<[n := k]> kernel) iface.
Proof.
  intros [H1 H2 H3] Ha Hn Hr Hd Ho.
  assert (∀ b, b ∈ table → <[a := r]> routes !! b = routes !! b ∧ handle (<[a := r]> routes) b = handle routes b)
    as Hold.
  { intros b Hb. unfold handle. rewrite lookup_insert_ne by (by intros ->). done. }
  assert (handle (<[a := r]> routes) a = Some n) as Hnew by (unfold handle; by rewrite lookup_insert_eq).
  split.
  - intros b [->|Hb]%elem_of_cons.
    + exists n, k. split; [done|apply lookup_insert_eq| |done]. by rewrite lookup_insert_eq.
    + destruct (H1 b Hb) as (m & k' & [E1 E2 E3 E4]), (Hold b Hb) as [Hb1 Hb2].
      exists m, k'. split; [congruence| |by rewrite Hb1|done].
      rewrite lookup_insert_ne; [done|]. intros ->. by apply (Hn b).
  - intros m. rewrite lookup_insert_is_Some'. intros [<-|Hm]; [exists a; split; [left|done]|].
    destruct (H2 m Hm) as (b & Hb & Hh). exists b. split; [by right|]. by rewrite (proj2 (Hold b Hb)).
  - intros b c m [->|Hb]%elem_of_cons [->|Hc]%elem_of_cons; [done| | |].
    + rewrite Hnew, (proj2 (Hold c Hc)). by intros [= <-] []%Hn.
    + rewrite Hnew, (proj2 (Hold b Hb)). by intros Hm [= <-]; destruct (Hn _ Hm).
    + rewrite (proj2 (Hold b Hb)), (proj2 (Hold c Hc)). by apply H3.
Qed.

(** The route [a] leaves both. *)
Lemma kernel_ok_unlink routes routes' table table' kernel iface a n :
  kernel_ok routes table kernel iface → a ∈ table → handle routes a = Some n →
  (∀ b, b ∈ table' ↔ b ≠ a ∧ b ∈ table) → (∀ b, b ≠ a → routes' !! b = routes !! b) →
  kernel_ok routes' table' (delete n kernel) iface.
Proof.
  intros [H1 H2 H3] Ha Hn Ht Hr.
  assert (∀ b, b ≠ a → handle routes' b = handle routes b) as Hh by (intros b Hb; unfold handle; by rewrite Hr).
  split.
  - intros b [Hba Hb]%Ht. destruct (H1 b Hb) as (m & k & [E1 E2 E3 E4]). exists m, k.
    split; [by rewrite Hh| |by rewrite Hr|done]. rewrite lookup_delete_ne; [done|]. intros ->.
    apply Hba. by eapply H3.
  - intros m [Hnm Hm]%lookup_delete_is_Some. destruct (H2 m Hm) as (b & Hb & Hbm).
    assert (b ≠ a) as Hba by congruence. exists b. rewrite Ht, Hh; done.
  - intros b c m [Hb1 Hb2]%Ht [Hc1 Hc2]%Ht. rewrite !Hh by done. by apply H3.
Qed.
