(* ===== verification/MshRoute.v ===== *)
(** * msh_route.c: the operations on route objects

    Allocation, attributes, lifetime, the expiry callback and destruction of a
    route, and the callback [__routing_table_route_updated_cb] (routing_table.c)
    through which a route in the table keeps the list and the kernel up to date. *)

From S2P Require Export World.

Section msh_route.
Context `{E : Env}.

(** ** Allocation and attributes *)

Definition msh_route_alloc : M world addr :=
  route ← fresh_addr;
  write_route route zero_route;;
  init_alarm (AL_route route) (Some route) fn_msh_route_alarm_cb;;
  mret route.

Definition msh_route_set_dst_ip (route : addr) (dst_ip : Z) : M world unit :=
  upd_route route (set_rt_dst_ip dst_ip).
Definition msh_route_get_dst_ip (route : addr) : M world Z :=
  r ← read_route route; mret (rt_dst_ip r).
Definition msh_route_set_prefix_sz (route : addr) (prefix_sz : Z) : M world unit :=
  upd_route route (set_rt_prefix_sz prefix_sz).
Definition msh_route_get_prefix_sz (route : addr) : M world Z :=
  r ← read_route route; mret (rt_prefix_sz r).
Definition msh_route_set_flag (route : addr) (flag : Z) : M world unit :=
  upd_route route (set_flag flag).
Definition msh_route_unset_flag (route : addr) (flag : Z) : M world unit :=
  upd_route route (unset_flag flag).
Definition msh_route_get_flags (route : addr) : M world Z :=
  r ← read_route route; mret (rt_flags r).
Definition msh_route_set_hop_count (route : addr) (hop_count : Z) : M world unit :=
  upd_route route (set_rt_hop_count hop_count).
Definition msh_route_get_hop_count (route : addr) : M world Z :=
  r ← read_route route; mret (rt_hop_count r).
Definition msh_route_get_next_hop (route : addr) : M world Z :=
  r ← read_route route; mret (rt_next_hop r).
Definition msh_route_set_net_iface (route : addr) (net_iface : Z) : M world unit :=
  upd_route route (set_rt_net_iface net_iface).
Definition msh_route_get_net_iface (route : addr) : M world Z :=
  r ← read_route route; mret (rt_net_iface r).
Definition msh_route_set_dest_seq_num (route : addr) (dest_seq_num : Z) : M world unit :=
  upd_route route (set_rt_dest_seq_num dest_seq_num).
Definition msh_route_get_dest_seq_num (route : addr) : M world Z :=
  r ← read_route route; mret (rt_dest_seq_num r).
Definition msh_route_set_rtnl_route (route : addr) (nlroute : option addr) : M world unit :=
  upd_route route (set_rt_nlroute nlroute).
Definition msh_route_get_rtnl_route (route : addr) : M world (option addr) :=
  r ← read_route route; mret (rt_nlroute r).
Definition msh_route_set_updated_callback (route : addr) (updated_cb : updated_fn)
    (data : option addr) : M world unit :=
  upd_route route (λ r, set_rt_cb_data data (set_rt_updated_cb (Some updated_cb) r)).
Definition msh_route_add_precursor (route : addr) (dst_ip : Z) : M world unit :=
  upd_route route (add_precursor dst_ip).
Definition msh_route_del_precursor (route : addr) (dst_ip : Z) : M world unit :=
  upd_route route (del_precursor dst_ip).
Definition msh_route_foreach_precursor (route : addr)
    (callback_func : addr → Z → M world unit) : M world unit :=
  r ← read_route route; for_each (rt_precursors r) (callback_func route).

(** Without a known attribute the function reads neither route and returns 0. *)
Definition msh_route_compare (first second : addr) (attr_flags : Z) : M world Z :=
  if has_flag attr_flags RTATTR_ALL then
    r1 ← read_route first;
    r2 ← read_route second;
    b1 ← on_alarms (read_block (AL_route first));
    b2 ← on_alarms (read_block (AL_route second));
    demand ShiftUB (compare_routes r1 r2 (ab_tv b1) (ab_tv b2) attr_flags)
  else mret 0.

(** ** The update callback *)

(** [list_del(&route->list)] of a route in the table's list. *)
Definition table_list_del (route : addr) : M world unit := λ w,
  if decide (route ∈ w_table w)
  then Ok tt (set_w_table (unlink route (w_table w)) w)
  else Fault ListCorrupt.

Definition __routing_table_route_updated_cb (route : addr) (change_flag : Z) : M world unit :=
  if has_flag change_flag RTACTION_DESTROY then
    table_list_del route;;
    nlroute ← msh_route_get_rtnl_route route;
    msh_route_set_rtnl_route route None;;
    match nlroute with
    | None => mret tt
    | Some nl =>
        ret ← ext env_rtnl_route_del;
        emit (EvNl (Some nl) (NL_route_del ret));;
        emit (EvNl (Some nl) NL_route_put)
    end
  else if has_flag change_flag RTACTION_CHANGE_NEXTHOP_IP then
    nlroute ← msh_route_get_rtnl_route route;
    match nlroute with
    | None => mret tt
    | Some nl =>
        dst_len ← msh_route_get_prefix_sz route;
        next_hop_addr ← msh_route_get_next_hop route;
        flags ← msh_route_get_flags route;
        when (has_flag flags RTFLAG_HAS_NEXTHOP)
          (emit (EvNl (Some nl) (NL_set_gateway (in_addr2nl_addr next_hop_addr dst_len))))
    end
  else mret tt.

(** [if (route->updated_cb) ( *route->updated_cb)(route, change_flag, cb_data)] *)
Definition __msh_route_updated (route : addr) (change_flag : Z) : M world unit :=
  r ← read_route route;
  match rt_updated_cb r with
  | Some fn_routing_table_route_updated_cb => __routing_table_route_updated_cb route change_flag
  | None => mret tt
  end.

Definition msh_route_set_next_hop (route : addr) (next_hop : Z) : M world unit :=
  msh_route_set_flag route RTFLAG_HAS_NEXTHOP;;
  upd_route route (set_rt_next_hop next_hop);;
  __msh_route_updated route RTACTION_CHANGE_NEXTHOP_IP.

(** [free(route)]: the object goes, and the alarm block inside it. *)
Definition free_route (route : addr) : M world unit :=
  modify (λ w, set_w_routes (delete route (w_routes w)) w);;
  on_alarms (free_block (AL_route route)).

Definition msh_route_destroy (route : addr) : M world unit :=
  __msh_route_updated route RTACTION_DESTROY;;
  del_alarm (AL_route route);;
  upd_route route (set_rt_precursors []);;
  free_route route.

(** ** Lifetime *)

Definition msh_route_set_lifetime (route : addr) (lifetime : Z) : M world unit :=
  r ← read_route route;
  if has_flag (rt_flags r) RTFLAG_UNMANAGED then mret tt
  else
    msh_route_set_flag route RTFLAG_VALID_ENTRY;;
    upd_route route (set_rt_alarm_action RTACTION_UNSET_VALID_ENTRY);;
    let '(sc, usc) := set_alarm_time lifetime in
    add_alarm (AL_route route) sc usc.

(** The value for an alarm due at [tv], the clock reading [now]: note the order of
    the operands of [timersub]. *)
Definition lifetime_left (tv now : timeval) : Z :=
  let d := timersub now tv in get_alarm_time (tv_sec d) (tv_usec d).

Definition msh_route_get_lifetime (route : addr) : M world Z :=
  now ← gettimeofday;
  r ← read_route route;
  b ← on_alarms (read_block (AL_route route));
  if negb (has_flag (rt_flags r) RTFLAG_VALID_ENTRY) || negb (timer_gt (ab_tv b) now)
  then mret 0
  else mret (lifetime_left (ab_tv b) now).

(** The expiry callback: first the route becomes invalid, [DELETE_PERIOD] later it
    is destroyed. *)
Definition __msh_route_alarm_cb (alarm : alarm_id) (qdata : addr) : M world unit :=
  r ← read_route qdata;
  if rt_alarm_action r =? RTACTION_UNSET_VALID_ENTRY then
    msh_route_unset_flag qdata RTFLAG_VALID_ENTRY;;
    upd_route qdata (set_rt_alarm_action RTACTION_DESTROY);;
    let '(sc, usc) := set_alarm_time DELETE_PERIOD in
    add_alarm alarm sc usc
  else if rt_alarm_action r =? RTACTION_DESTROY then msh_route_destroy qdata
  else mret tt.
End msh_route.
