(* ===== verification/PacketsFifo.v ===== *)
(** * packets_fifo.c: packets waiting for a route

    Packets that the kernel queued and for which there is no route yet.  A packet
    leaves the queue with a verdict: accepted when a route to its destination
    appears, dropped when the route discovery is given up. *)

From S2P Require Export MshRoute.

Section packets_fifo.
Context `{E : Env}.

(** [nfq_set_verdict(data.queue, id, verdict, 0, NULL)] *)
Definition nfq_set_verdict (id verdict : Z) : M world Z :=
  ret ← ext env_nfq_set_verdict;
  emit (EvVerdict id verdict);;
  mret ret.

(** [list_del(&packet_obj->list); free(packet_obj);] *)
Definition packets_list_del (a : addr) : M world unit := λ w,
  if decide (a ∈ pf_addr <$> w_packets w)
  then Ok tt (set_w_packets (filter (λ e, pf_addr e ≠ a) (w_packets w)) w)
  else Fault ListCorrupt.

Definition packet_obj_accept (packet_obj : packets_fifo) : M world unit :=
  nfq_set_verdict (pf_id packet_obj) NF_ACCEPT;;
  packets_list_del (pf_addr packet_obj).

Definition packet_obj_drop (packet_obj : packets_fifo) : M world unit :=
  nfq_set_verdict (pf_id packet_obj) NF_DROP;;
  packets_list_del (pf_addr packet_obj);;
  stat_incr Stat.packets_dropped.

(** [list_add] puts the new packet first. *)
Definition packets_fifo_push (id dest : Z) : M world unit :=
  a ← fresh_addr;
  modify (λ w, set_w_packets (PacketsFifo a id dest :: w_packets w) w).

(** The loops visit the entries that were in the list when they started; their
    bodies unlink only the entry they visit. *)
Definition packets_fifo_delete : M world unit :=
  queue ← gets w_packets;
  for_each queue packet_obj_drop.

Definition packets_fifo_drop_packets (dest : Z) : M world unit :=
  queue ← gets w_packets;
  for_each queue (λ entry, when (pf_dest entry =? dest) (packet_obj_drop entry)).

Definition packets_fifo_process_route (route : addr) : M world unit :=
  first ← msh_route_alloc;
  queue ← gets w_packets;
  for_each queue (λ entry,
    msh_route_set_dst_ip first (pf_dest entry);;
    diff ← msh_route_compare first route RTFIND_BY_DEST_LONGEST_PREFIX_MATCHING;
    when (diff =? 0) (packet_obj_accept entry));;
  msh_route_destroy first.

Definition packets_fifo_is_empty : M world bool :=
  queue ← gets w_packets; mret (bool_decide (queue = [])).
End packets_fifo.
