(* ===== verification/RoutingTable.v ===== *)
(** * routing_table.c: the routing table

    The list of the routes the daemon manages, kept in step with the kernel's
    table through libnl, and the lookup by destination. *)

From S2P Require Export PacketsFifo.

Section routing_table.
Context `{E : Env}.

Definition routing_table_alloc : M world unit :=
  modify (set_w_table []);;
  find_route ← msh_route_alloc;
  modify (set_w_find_route find_route).

(** The first entry that does not differ from [route]. *)
Fixpoint find_in (entries : list addr) (route : addr) (attr_flags : Z) :
    M world (option addr) :=
  match entries with
  | [] => mret None
  | entry :: entries' =>
      diff ← msh_route_compare route entry attr_flags;
      if diff =? 0 then mret (Some entry) else find_in entries' route attr_flags
  end.

Definition routing_table_find (route : addr) (attr_flags : Z) : M world (option addr) :=
  entries ← gets w_table; find_in entries route attr_flags.

Definition routing_table_find_by_ip (ip : Z) : M world (option addr) :=
  find_route ← gets w_find_route;
  msh_route_set_dst_ip find_route ip;;
  routing_table_find find_route RTFIND_BY_DEST_LONGEST_PREFIX_MATCHING.

(** The kernel route of [route], as built before [rtnl_route_add]. *)
Definition build_nlroute (route : addr) : M world addr :=
  nlroute ← fresh_addr;
  dst_len ← msh_route_get_prefix_sz route;
  dst_ip ← msh_route_get_dst_ip route;
  oif ← data md_net_iface;
  emit (EvNl (Some nlroute) (NL_set_oif oif));;
  emit (EvNl (Some nlroute) (NL_set_dst (in_addr2nl_addr dst_ip dst_len)));;
  emit (EvNl (Some nlroute) (NL_set_scope RT_SCOPE_UNIVERSE));;
  flags ← msh_route_get_flags route;
  when (has_flag flags RTFLAG_HAS_NEXTHOP) (
    next_hop_addr ← msh_route_get_next_hop route;
    when (negb (dst_ip =? next_hop_addr))
      (emit (EvNl (Some nlroute) (NL_set_gateway (in_addr2nl_addr next_hop_addr 0)))));;
  mret nlroute.

Definition routing_table_add (route : addr) : M world Z :=
  found ← routing_table_find route RTFIND_BY_DEST_LONGEST_PREFIX_MATCHING;
  match found with
  | Some _ => mret 1
  | None =>
      nlroute ← build_nlroute route;
      errno ← ext env_rtnl_route_add;
      emit (EvNl (Some nlroute) (NL_route_add errno));;
      if (errno <? 0) && negb (errno =? -17) then mret (-1)
      else
        msh_route_set_rtnl_route route (Some nlroute);;
        msh_route_set_lifetime route ACTIVE_ROUTE_TIMEOUT;;
        msh_route_set_updated_callback route fn_routing_table_route_updated_cb None;;
        modify (λ w, set_w_table (route :: w_table w) w);;
        packets_fifo_process_route route;;
        mret 0
  end.

(** Past the test [found] is null, and the next statement reads [found->flags]. *)
Definition routing_table_del (route : addr) : M world Z :=
  found ← routing_table_find route 0;
  match found with
  | Some _ => mret 1
  | None => abort NullDeref
  end.

Definition routing_table_delete : M world unit :=
  entries ← gets w_table;
  for_each entries (λ entry, routing_table_del entry;; free_route entry);;
  find_route ← gets w_find_route;
  msh_route_destroy find_route.

(** The lifetime of the route to [ip] and of the route to its next hop are set
    anew; used for both ends of a packet. *)
Definition refresh_route (route : addr) (ip : Z) : M world unit :=
  msh_route_set_lifetime route ACTIVE_ROUTE_TIMEOUT;;
  hop ← msh_route_get_next_hop route;
  when (negb (hop =? ip)) (
    hop_route ← routing_table_find_by_ip hop;
    match hop_route with
    | Some r => msh_route_set_lifetime r ACTIVE_ROUTE_TIMEOUT
    | None => mret tt    (* "BUG: no route to next_hop found!" *)
    end).

(** The second half, for the route back to the originator. *)
Definition refresh_orig (orig_ip : Z) : M world unit :=
  when (negb (orig_ip =? 0)) (
    orig_route ← routing_table_find_by_ip orig_ip;
    match orig_route with
    | Some r => refresh_route r orig_ip
    | None => mret tt    (* "BUG: no route to orig found!" *)
    end).

(** The result and the value of the caller's [*invalid_route] afterwards: the
    assignment [invalid_route = &dst_route] changes the parameter only. *)
Definition routing_table_update_route (dst_ip : Z) (invalid_route : option addr)
    (orig_ip : Z) : M world (Z * option addr) :=
  our_ip ← data md_ip_addr;
  if negb (dst_ip =? our_ip) then
    dst_route ← routing_table_find_by_ip dst_ip;
    match dst_route with
    | None => mret (0, invalid_route)
    | Some r =>
        flags ← msh_route_get_flags r;
        if negb (has_flag flags RTFLAG_VALID_ENTRY) then
          stat_incr Stat.invalid_route;;
          mret (0, invalid_route)
        else
          refresh_route r dst_ip;;
          refresh_orig orig_ip;;
          mret (1, invalid_route)
    end
  else
    refresh_orig orig_ip;;
    mret (1, invalid_route).

Definition routing_table_foreach (callback_func : addr → M world unit) : M world unit :=
  entries ← gets w_table; for_each entries callback_func.
End routing_table.
