(* ===== verification/RreqFifo.v ===== *)
(** * rreq_fifo.c: the queue of RREQs seen or sent

    An entry remembers a RREQ, received ([prev_tries] negative) or sent by the
    daemon, until its alarm fires.  The alarm callback is in [Timers]. *)

From S2P Require Export RoutingTable.

Section rreq_fifo.
Context `{E : Env}.

Definition rreq_list_del (entry : addr) : M world unit := λ w,
  if decide (entry ∈ w_rreq_queue w)
  then Ok tt (set_w_rreq_queue (unlink entry (w_rreq_queue w)) w)
  else Fault ListCorrupt.

(** [free(entry)], with the alarm block inside it. *)
Definition free_rreq (entry : addr) : M world unit :=
  modify (λ w, set_w_rreqs (delete entry (w_rreqs w)) w);;
  on_alarms (free_block (AL_rreq entry)).

Definition __rreq_fifo_entry_delete (entry : addr) : M world unit :=
  del_alarm (AL_rreq entry);;
  rreq_list_del entry;;
  free_rreq entry.

Definition rreq_fifo_alloc : M world unit := modify (set_w_rreq_queue []).

Definition rreq_fifo_delete : M world unit :=
  entries ← gets w_rreq_queue;
  for_each entries __rreq_fifo_entry_delete.

(** A new entry, its alarm due in [time] milliseconds, first in the list. *)
Definition rreq_fifo_insert (rreq_id dst prev_tries time : Z) : M world unit :=
  entry ← fresh_addr;
  write_rreq entry (RreqFifo rreq_id dst prev_tries);;
  let '(sc, usc) := set_alarm_time time in
  init_alarm (AL_rreq entry) (Some entry) fn_rreq_fifo_alarm_cb;;
  add_alarm (AL_rreq entry) sc usc;;
  modify (λ w, set_w_rreq_queue (entry :: w_rreq_queue w) w).

Definition rreq_fifo_push (rreq_id dst : Z) : M world unit :=
  rreq_fifo_insert rreq_id dst (-1) PATH_DISCOVERY_TIME.

Definition rreq_fifo_push_owned (rreq_id dst prev_tries : Z) : M world unit :=
  time ← demand ShiftUB (binary_exponential_backoff_time prev_tries);
  rreq_fifo_insert rreq_id dst prev_tries time.

(** The first entry of the list that satisfies the test. *)
Fixpoint first_rreq (test : rreq_fifo → bool) (entries : list addr) : M world (option addr) :=
  match entries with
  | [] => mret None
  | entry :: entries' =>
      e ← read_rreq entry;
      if test e then mret (Some entry) else first_rreq test entries'
  end.

Definition rreq_fifo_contains (rreq_id dst : Z) : M world bool :=
  entries ← gets w_rreq_queue;
  found ← first_rreq (λ e, (rf_rreq_id e =? rreq_id) && (rf_dst e =? dst)) entries;
  mret (bool_decide (is_Some found)).

Definition rreq_fifo_waiting_response_for (dst : Z) : M world bool :=
  entries ← gets w_rreq_queue;
  found ← first_rreq (λ e, (0 <=? rf_prev_tries e) && (rf_dst e =? dst)) entries;
  mret (bool_decide (is_Some found)).

Definition rreq_fifo_del (rreq_id dst : Z) : M world unit :=
  entries ← gets w_rreq_queue;
  found ← first_rreq (λ e, (rf_rreq_id e <=? rreq_id) && (rf_dst e =? dst)) entries;
  match found with
  | Some entry => __rreq_fifo_entry_delete entry
  | None => mret tt
  end.
End rreq_fifo.
