(* ===== verification/Blind.v ===== *)
(** * Operations that do not see a sequence of the program

    A queue that is moved from its sequence in [world] to the memory of list nodes
    ([PacketList], [RreqList]) leaves the operations of the other components alone: they
    neither read nor change the sequence.  [Hidden] names a part of the world, [Blind] is
    what holds of the operations that do not see it. *)

From S2P Require Export MshRoute RreqFifo.

(** A part of the world: [hide t] puts [t] in its place. *)
Class Hidden (T : Type) := {
  hide : T → world → world;
  seen : world → T }.

(** A field of the world outside the part. *)
Definition outside T `{Hidden T} {F} (get : world → F) (set : F → world → world) : Prop :=
  (∀ t v w, hide t (set v w) = set v (hide t w)) ∧ (∀ v w, seen (set v w) = seen w) ∧
  ∀ t w, get (hide t w) = get w.

Class HiddenLaws T `{Hidden T} : Prop := {
  hidden_tick : outside T w_tick set_w_tick;
  hidden_brk : outside T w_brk set_w_brk;
  hidden_trace : outside T w_trace set_w_trace;
  hidden_stats : outside T w_stats set_w_stats;
  hidden_alarms : outside T w_alarms set_w_alarms;
  hidden_rreqs : outside T w_rreqs set_w_rreqs;
  hidden_data : outside T w_data set_w_data;
  hidden_find_route : outside T w_find_route set_w_find_route }.

(** What holds of some parts only. *)
Class HiddenRoutesRead T `{Hidden T} : Prop := hidden_routes_read t w : w_routes (hide t w) = w_routes w.
Class HiddenRoutes T `{Hidden T} : Prop := hidden_routes : outside T w_routes set_w_routes.
Class HiddenTable T `{Hidden T} : Prop := hidden_table : outside T w_table set_w_table.

#[export] Instance hidden_routes_routes_read T `{Hidden T} : HiddenRoutes T → HiddenRoutesRead T.
Proof. by intros (_ & _ & Hr) t w. Qed.

Class Blind T `{Hidden T} {X} (m : M world X) : Prop := blind t w :
  match m w with
  | Ok x w' => m (hide t w) = Ok x (hide t w') ∧ seen w' = seen w ∧ (w_brk w ≤ w_brk w')%positive
  | Fault _ => True
  end.

(** The same of a change to a route. *)
Class BlindUpdate `{E : Env} T `{Hidden T} (f : msh_route → msh_route) : Prop :=
  blind_update a : Blind T (upd_route a f).

Section blind.
Context {T : Type} `{HT : Hidden T} {Laws : HiddenLaws T} `{E : Env}.
Implicit Types w : world.

#[export] Instance ret_blind {X} (x : X) : Blind T (mret x).
Proof. intros ps w. split_and!; reflexivity. Qed.

#[export] Instance bind_blind {X Y} (m : M world X) (k : X → M world Y) :
  Blind T m → (∀ x, Blind T (k x)) → Blind T (m ≫= k).
Proof.
  intros Hm Hk ps w. unfold mbind, M_bind. pose proof (Hm ps w) as Hw.
  destruct (m w) as [x w1|]; [|done]. destruct Hw as (-> & Hp & Hb).
  pose proof (Hk x ps w1) as Hw1. destruct (k x w1) as [y w2|]; [|done].
  destruct Hw1 as (-> & Hp1 & Hb1). split_and!; [done|congruence|lia].
Qed.

#[export] Instance when_blind b (m : M world unit) : Blind T m → Blind T (when b m).
Proof. intros Hm. destruct b; [exact Hm|apply ret_blind]. Qed.
#[export] Instance demand_blind {X} f (o : option X) : Blind T (demand f o).
Proof. intros ps w. destruct o; [apply (ret_blind x)|exact I]. Qed.
#[export] Instance match_blind {X Y} (o : option X) (k : X → M world Y) m :
  (∀ x, Blind T (k x)) → Blind T m → Blind T (match o with Some x => k x | None => m end).
Proof. intros Hk Hm. by destruct o. Qed.
#[export] Instance if_blind {X} (b : bool) (m m' : M world X) :
  Blind T m → Blind T m' → Blind T (if b then m else m').
Proof. by destruct b. Qed.

(** A read and a write of a field. *)
Lemma read_blind {F X} (get : world → F) (f : F → option X) e :
  (∀ t w, get (hide t w) = get w) → Blind T (λ w, demand e (f (get w)) w).
Proof. intros Hget t w. rewrite Hget. destruct (f (get w)); [by split_and!|exact I]. Qed.
Lemma gets_blind {X} (get : world → X) : (∀ t w, get (hide t w) = get w) → Blind T (gets get).
Proof. intros Hget t w. unfold gets. rewrite Hget. by split_and!. Qed.
Lemma write_blind {F} (get : world → F) set (f : F → F) :
  outside T get set → (∀ v w, w_brk w ≤ w_brk (set v w))%positive →
  Blind T (modify (λ w, set (f (get w)) w)).
Proof.
  intros (Hset & Hseen & Hget) Hbrk t w. unfold modify. rewrite Hget, Hset, Hseen. by split_and!.
Qed.

#[export] Instance ext_blind {X} (f : nat → X) : Blind T (ext f).
Proof.
  intros t w. destruct hidden_tick as (Hset & Hseen & Hget). unfold ext. rewrite Hget, Hset, Hseen.
  by split_and!.
Qed.
#[export] Instance emit_blind ev : Blind T (emit ev).
Proof. by apply (write_blind w_trace set_w_trace (λ tr, tr ++ [ev]) hidden_trace). Qed.
#[export] Instance fresh_blind : Blind T fresh_addr.
Proof.
  intros t w. destruct hidden_brk as (Hset & Hseen & Hget). unfold fresh_addr. rewrite Hget, Hset, Hseen.
  split_and!; simpl; [done|done|lia].
Qed.
#[export] Instance stat_incr_blind f : Blind T (stat_incr f).
Proof. by apply (write_blind w_stats set_w_stats (stats_incr f) hidden_stats). Qed.
#[export] Instance on_alarms_blind {X} (m : M alarms X) : Blind T (on_alarms m).
Proof.
  intros t w. destruct hidden_alarms as (Hset & Hseen & Hget). unfold on_alarms. simpl.
  rewrite Hget. destruct (m (w_alarms w)); [|exact I]. rewrite Hset, Hseen. by split_and!.
Qed.
#[export] Instance data_blind {X} (f : msh_data_t → X) : Blind T (data f).
Proof. apply gets_blind. intros t w. by rewrite (proj2 (proj2 hidden_data)). Qed.
#[export] Instance find_route_blind : Blind T (gets w_find_route).
Proof. apply gets_blind, hidden_find_route. Qed.
#[export] Instance read_route_blind `{!HiddenRoutesRead T} a : Blind T (read_route a).
Proof. apply (read_blind w_routes (.!! a)), hidden_routes_read. Qed.
#[export] Instance write_route_blind `{!HiddenRoutes T} a r : Blind T (write_route a r).
Proof. by apply (write_blind w_routes set_w_routes <[a := r]> hidden_routes). Qed.
#[export] Instance any_update_blind `{!HiddenRoutes T} f : BlindUpdate T f.
Proof. intros a. unfold upd_route. apply _. Qed.
#[export] Instance upd_route_blind a f : BlindUpdate T f → Blind T (upd_route a f).
Proof. by intros Hf. Qed.
#[export] Instance free_route_blind `{!HiddenRoutes T} a : Blind T (free_route a).
Proof. apply bind_blind; [by apply (write_blind w_routes set_w_routes (delete a) hidden_routes)|intros _; apply _]. Qed.
#[export] Instance table_list_del_blind `{!HiddenTable T} a : Blind T (table_list_del a).
Proof.
  intros t w. destruct hidden_table as (Hset & Hseen & Hget). unfold table_list_del. rewrite Hget.
  case_decide; [|exact I]. rewrite Hset, Hseen. by split_and!.
Qed.
#[export] Instance read_rreq_blind a : Blind T (read_rreq a).
Proof. apply (read_blind w_rreqs (.!! a)), hidden_rreqs. Qed.
#[export] Instance write_rreq_blind a r : Blind T (write_rreq a r).
Proof. by apply (write_blind w_rreqs set_w_rreqs <[a := r]> hidden_rreqs). Qed.
#[export] Instance free_rreq_blind a : Blind T (free_rreq a).
Proof. apply bind_blind; [by apply (write_blind w_rreqs set_w_rreqs (delete a) hidden_rreqs)|intros _; apply _]. Qed.

(** *** Alarms and routes *)

#[export] Instance init_alarm_blind id d fcn : Blind T (init_alarm id d fcn).
Proof. unfold init_alarm. apply _. Qed.
#[export] Instance del_alarm_blind id : Blind T (del_alarm id).
Proof. unfold del_alarm. apply _. Qed.
#[export] Instance add_alarm_blind id sc usc : Blind T (add_alarm id sc usc).
Proof. unfold add_alarm, gettimeofday, world_clock. apply _. Qed.

#[export] Instance alloc_blind `{!HiddenRoutes T} : Blind T msh_route_alloc.
Proof. unfold msh_route_alloc. apply _. Qed.
#[export] Instance set_dst_ip_blind `{!BlindUpdate T (set_rt_dst_ip ip)} a : Blind T (msh_route_set_dst_ip a ip).
Proof. unfold msh_route_set_dst_ip. apply _. Qed.
#[export] Instance compare_blind `{!HiddenRoutesRead T} a b flags : Blind T (msh_route_compare a b flags).
Proof. unfold msh_route_compare. apply _. Qed.
#[export] Instance updated_blind `{!HiddenRoutes T, !HiddenTable T} a flag : Blind T (__msh_route_updated a flag).
Proof.
  unfold __msh_route_updated. apply bind_blind; [apply _|]. intros r.
  destruct (rt_updated_cb r) as [[]|]; [|apply _].
  unfold __routing_table_route_updated_cb, msh_route_get_rtnl_route, msh_route_set_rtnl_route,
    msh_route_get_prefix_sz, msh_route_get_next_hop, msh_route_get_flags. apply _.
Qed.
#[export] Instance destroy_blind `{!HiddenRoutes T, !HiddenTable T} a : Blind T (msh_route_destroy a).
Proof. unfold msh_route_destroy. apply _. Qed.
#[export] Instance verdict_blind id v : Blind T (nfq_set_verdict id v).
Proof. unfold nfq_set_verdict. apply _. Qed.
End blind.
