(* ===== verification/AodvPkt.v ===== *)
(** * packet.c: packets on the heap

    Allocation and release of [struct aodv_pkt], reception from a [msghdr],
    transmission, and the check of a received packet.  A payload is owned by its
    packet, so it is part of the packet object. *)

From S2P Require Export RreqFifo.

(** What [recvmsg] leaves in a [msghdr]. *)
Record cmsghdr := CMsg { cmsg_level : Z; cmsg_type : Z; cmsg_data : bytes }.
Record sockaddr_in := SockAddr { sin_family : Z; sin_port : Z; sin_addr : Z }.
Record msghdr := MsgHdr {
  msg_name : option sockaddr_in;      (* None: msg_namelen is 0 *)
  msg_iov : option bytes;             (* None: msg_iovlen is 0; the buffer otherwise *)
  msg_control : list cmsghdr }.       (* empty: msg_controllen is 0 *)

Definition SOL_IP : Z := 0.
Definition IP_TTL : Z := 2.

(** The first control message that carries the time to live; 255 without one. *)
Fixpoint receive_ttl (control : list cmsghdr) : option Z :=
  match control with
  | [] => Some (u8 (-1))
  | c :: control' =>
      if (cmsg_level c =? SOL_IP) && (cmsg_type c =? IP_TTL)
      then cmsg_data c !! 0%nat else receive_ttl control'
  end.

(** The [payload_len] bytes at [payload]; [None]: they are not all there. *)
Definition payload_bytes (p : aodv_pkt) : option bytes :=
  match pk_payload p with
  | Some bs => if pk_payload_len p <=? Z.of_nat (length bs)
               then Some (take (Z.to_nat (pk_payload_len p)) bs) else None
  | None => if pk_payload_len p =? 0 then Some [] else None
  end.

Section aodv_pkt.
Context `{E : Env}.

Definition aodv_pkt_alloc : M world addr :=
  pkt ← fresh_addr;
  broadcast_addr ← data md_broadcast_addr;
  write_pkt pkt (AodvPkt None 0 AF_INET (htons AODV_UDP_PORT) broadcast_addr DEFAULT_TTL);;
  mret pkt.

Definition aodv_pkt_receive_ttl (msg : msghdr) : M world Z :=
  demand OutOfBounds (receive_ttl (msg_control msg)).

Definition aodv_pkt_get (msg : msghdr) (received : Z) : M world addr :=
  pkt ← fresh_addr;
  write_pkt pkt (AodvPkt None 0 0 0 0 0);;
  match msg_name msg with
  | Some a => upd_pkt pkt (λ p, AodvPkt (pk_payload p) (pk_payload_len p)
                (sin_family a) (sin_port a) (sin_addr a) (pk_ttl p))
  | None => stat_incr Stat.no_address_received
  end;;
  match msg_iov msg with
  | Some iov_base =>
      buf ← demand OutOfBounds
        (if received <=? Z.of_nat (length iov_base)
         then Some (take (Z.to_nat received) iov_base) else None);
      upd_pkt pkt (λ p, set_pk_payload (Some buf) (set_pk_payload_len received p))
  | None => stat_incr Stat.no_payload_received
  end;;
  match msg_control msg with
  | [] => stat_incr Stat.no_ttl_received
  | _ => ttl ← aodv_pkt_receive_ttl msg; upd_pkt pkt (set_pk_ttl ttl)
  end;;
  mret pkt.

Definition aodv_pkt_send (pkt : addr) : M world Z :=
  p ← read_pkt pkt;
  bs ← demand OutOfBounds (payload_bytes p);
  numbytes ← ext env_sendto;
  emit (EvSend numbytes (pk_address p) (pk_port p) (pk_ttl p) (Some bs));;
  (if numbytes =? -1 then stat_incr Stat.send_aodv_errors
   else when (negb (u64 numbytes =? pk_payload_len p)) (stat_incr Stat.send_aodv_incomplete));;
  upd_pkt pkt (λ p, set_pk_address (htonl (pk_address p)) p);;
  mret numbytes.

(** [free(pkt->payload); free(pkt);] *)
Definition aodv_pkt_destroy (pkt : addr) : M world unit :=
  read_pkt pkt;;
  modify (λ w, set_w_pkts (delete pkt (w_pkts w)) w).

Definition aodv_pkt_address (pkt : addr) : M world Z :=
  p ← read_pkt pkt; mret (aodv_pkt_get_address p).
Definition aodv_pkt_get_ttl (pkt : addr) : M world Z :=
  p ← read_pkt pkt; mret (pk_ttl p).

(** The payload the packet points to. *)
Definition aodv_pkt_get_payload (pkt : addr) : M world bytes :=
  p ← read_pkt pkt; demand NullDeref (pk_payload p).

Definition pkt_get_type (pkt : addr) : M world Z :=
  bs ← aodv_pkt_get_payload pkt; demand OutOfBounds (aodv_pkt_get_type bs).

Definition aodv_pkt_check (pkt : addr) : M world Z :=
  bs ← aodv_pkt_get_payload pkt;
  p ← read_pkt pkt;
  res ← demand OutOfBounds (aodv_pkt_check_payload p bs);
  let '(ok, bs', st) := res in
  match st with Some f => stat_incr f | None => mret tt end;;
  upd_pkt pkt (set_pk_payload (Some bs'));;
  mret ok.

(** The message structures seen through [aodv_pkt_get_payload]: [rreq->field] and
    [rreq->field = ...] read and write the payload itself. *)
Definition read_rreq_msg (pkt : addr) : M world aodv_rreq :=
  bs ← aodv_pkt_get_payload pkt; demand OutOfBounds (rreq_of_bytes bs).
Definition upd_rreq_msg (pkt : addr) (f : aodv_rreq → aodv_rreq) : M world unit :=
  bs ← aodv_pkt_get_payload pkt;
  bs' ← demand OutOfBounds (update_rreq f bs);
  upd_pkt pkt (set_pk_payload (Some bs')).
Definition read_rrep_msg (pkt : addr) : M world aodv_rrep :=
  bs ← aodv_pkt_get_payload pkt; demand OutOfBounds (rrep_of_bytes bs).
Definition upd_rrep_msg (pkt : addr) (f : aodv_rrep → aodv_rrep) : M world unit :=
  bs ← aodv_pkt_get_payload pkt;
  bs' ← demand OutOfBounds (update_rrep f bs);
  upd_pkt pkt (set_pk_payload (Some bs')).
End aodv_pkt.
