(* ===== verification/Logic.v ===== *)
(** * aodv/logic.c: the protocol

    Route discovery ([aodv_find_route]) and the processing of received messages.
    The functions keep the names and the order of statements of the source; a
    pointer into a packet's payload is the packet's address. *)

From S2P Require Export AodvPkt.

Section logic.
Context `{E : Env}.

Definition aodv_find_route (dest : Z) (invalid_route : option addr) (prev_tries : Z) :
    M world unit :=
  upd_data (λ d, set_md_seq_num (u32 (md_seq_num d + 1)) d);;
  upd_data (λ d, set_md_rreq_id (u32 (md_rreq_id d + 1)) d);;
  rreq_id ← data md_rreq_id;
  when (prev_tries =? 0) (rreq_fifo_push_owned rreq_id dest (s8 prev_tries));;
  pkt ← aodv_pkt_alloc;
  hop_count ← match invalid_route with
              | Some r => msh_route_get_hop_count r | None => mret 0 end;
  dest_seq_num ← match invalid_route with
                 | Some r => msh_route_get_dest_seq_num r | None => mret 0 end;
  let flags := Z.lor RREQ_GRATUITOUS_RREP_FLAG
    (if invalid_route then 0 else RREQ_UNKNOWN_SEQ_NUM_FLAG) in
  upd_pkt pkt (aodv_pkt_set_ttl (expanding_ring_search_ttl hop_count (s8 prev_tries)));;
  ip_addr ← data md_ip_addr;
  seq_num ← data md_seq_num;
  upd_pkt pkt (aodv_pkt_build_rreq flags hop_count rreq_id dest dest_seq_num ip_addr seq_num);;
  broadcast_addr ← data md_broadcast_addr;
  upd_pkt pkt (aodv_pkt_set_address broadcast_addr);;
  upd_data (λ d, set_md_num_rreq_sent (u32 (md_num_rreq_sent d + 1)) d);;
  aodv_pkt_send pkt;;
  aodv_pkt_destroy pkt.

(** The answer to a RREQ: 1 when the node considers it answered. *)
Definition aodv_answer_to_rreq (rreq_pkt : addr) (prev_hop : Z) (route_to_orig : addr) :
    M world Z :=
  rreq ← read_rreq_msg rreq_pkt;
  let dest_addr := rq_dest_ip_addr rreq in
  ip_addr ← data md_ip_addr;
  if dest_addr =? ip_addr then
    pkt ← aodv_pkt_alloc;
    seq ← data md_seq_num;
    when (rq_dest_seq_num rreq =? seq)
      (upd_data (λ d, set_md_seq_num (u32 (md_seq_num d + 1)) d));;
    upd_pkt pkt (aodv_pkt_set_address prev_hop);;
    seq_num ← data md_seq_num;
    upd_pkt pkt (aodv_pkt_build_rrep 0 0 0 ip_addr seq_num (rq_orig_ip_addr rreq)
                   MY_ROUTE_TIMEOUT);;
    aodv_pkt_send pkt;;
    aodv_pkt_destroy pkt;;
    mret 1
  else
    route_to_dest ← routing_table_find_by_ip dest_addr;
    seq_num ← data md_seq_num;
    match route_to_dest with
    | Some route_to_dest =>
        if (s32 seq_num <=? s32 (rq_dest_seq_num rreq)) &&
           negb (has_flag (rq_flags rreq) RREQ_DEST_ONLY_FLAG)
        then
          msh_route_add_precursor route_to_dest prev_hop;;
          next_hop ← msh_route_get_next_hop route_to_dest;
          msh_route_add_precursor route_to_orig next_hop;;
          pkt ← aodv_pkt_alloc;
          known_dest_seq_num ← msh_route_get_dest_seq_num route_to_dest;
          dest_hop_count ← msh_route_get_hop_count route_to_dest;
          now ← gettimeofday;
          left ← msh_route_get_lifetime route_to_dest;
          let lifetime := u32 (left - get_alarm_time (tv_sec now) (tv_usec now)) in
          upd_pkt pkt (aodv_pkt_set_address (rq_orig_ip_addr rreq));;
          upd_pkt pkt (aodv_pkt_build_rrep 0 0 (u8 dest_hop_count) dest_addr
                         known_dest_seq_num (rq_orig_ip_addr rreq) lifetime);;
          aodv_pkt_destroy pkt;;
          when (has_flag (rq_flags rreq) RREQ_GRATUITOUS_RREP_FLAG) (
            pkt ← aodv_pkt_alloc;
            orig_hop_count ← msh_route_get_hop_count route_to_orig;
            orig_lifetime ← msh_route_get_lifetime route_to_orig;
            upd_pkt pkt (aodv_pkt_set_address dest_addr);;
            upd_pkt pkt (aodv_pkt_build_rrep 0 0 (u8 orig_hop_count) (rq_orig_ip_addr rreq)
                           (rq_orig_seq_num rreq) dest_addr orig_lifetime);;
            aodv_pkt_destroy pkt);;
          mret 1
        else mret 0
    | None => mret 0
    end.

(** The route to the node the message came from: its lifetime is reset, or the
    route is created (and offered to the table).  Processing a RREP also clears the
    sequence number flag of the new route. *)
Definition route_to_previous_hop (from_rrep : bool) (prev_hop : Z) : M world addr :=
  route ← routing_table_find_by_ip prev_hop;
  match route with
  | Some r => msh_route_set_lifetime r ACTIVE_ROUTE_TIMEOUT;; mret r
  | None =>
      r ← msh_route_alloc;
      msh_route_set_dst_ip r prev_hop;;
      msh_route_set_next_hop r prev_hop;;
      when from_rrep (msh_route_unset_flag r RTFLAG_VALID_DEST_SEQ_NUM);;
      routing_table_add r;;
      mret r
  end.

(** The reverse route of a RREQ, updated or created from its originator fields. *)
Definition reverse_route (addr_orig seq_num_new hop_count prev_hop : Z) : M world addr :=
  route ← routing_table_find_by_ip addr_orig;
  min_lifetime ← minimal_lifetime hop_count;
  match route with
  | Some r =>
      seq_num_old ← msh_route_get_dest_seq_num r;
      lifetime_old ← msh_route_get_lifetime r;
      msh_route_set_flag r RTFLAG_VALID_DEST_SEQ_NUM;;
      msh_route_set_next_hop r prev_hop;;
      msh_route_set_hop_count r hop_count;;
      when (s32 seq_num_old <? s32 seq_num_new) (msh_route_set_dest_seq_num r seq_num_new);;
      when (lifetime_old <? min_lifetime) (msh_route_set_lifetime r min_lifetime);;
      mret r
  | None =>
      r ← msh_route_alloc;
      msh_route_set_dst_ip r addr_orig;;
      msh_route_set_dest_seq_num r seq_num_new;;
      msh_route_set_next_hop r prev_hop;;
      msh_route_set_hop_count r hop_count;;
      msh_route_set_lifetime r min_lifetime;;
      msh_route_set_flag r RTFLAG_VALID_DEST_SEQ_NUM;;
      routing_table_add r;;
      mret r
  end.

(** The RREQ goes on to the neighbours. *)
Definition forward_rreq (pkt : addr) (dest_addr : Z) : M world unit :=
  broadcast_addr ← data md_broadcast_addr;
  upd_pkt pkt (aodv_pkt_set_address broadcast_addr);;
  upd_pkt pkt aodv_pkt_decrease_ttl;;
  route_to_dest ← routing_table_find_by_ip dest_addr;
  match route_to_dest with
  | Some r =>
      flags ← msh_route_get_flags r;
      when (negb (has_flag flags RTFLAG_VALID_ENTRY) &&
            has_flag flags RTFLAG_VALID_DEST_SEQ_NUM) (
        dest_seq_num_old ← msh_route_get_dest_seq_num r;
        rreq ← read_rreq_msg pkt;
        let dest_seq_num_new := rq_dest_seq_num rreq in
        when (dest_seq_num_old <? dest_seq_num_new)
          (upd_rreq_msg pkt (set_rq_dest_seq_num dest_seq_num_new)))
  | None => mret tt
  end;;
  upd_data (λ d, set_md_num_rreq_sent (u32 (md_num_rreq_sent d + 1)) d);;
  upd_rreq_msg pkt aodv_pkt_prepare_rreq;;
  aodv_pkt_send pkt;;
  mret tt.

Definition aodv_process_rreq (pkt : addr) : M world unit :=
  prev_hop ← aodv_pkt_address pkt;
  route_to_previous_hop false prev_hop;;
  rreq ← read_rreq_msg pkt;
  let dest_addr := rq_dest_ip_addr rreq in
  seen ← rreq_fifo_contains (rq_rreq_id rreq) dest_addr;
  if (seen : bool) then mret tt
  else
    rreq_fifo_push (rq_rreq_id rreq) dest_addr;;
    let hop_count := rq_hop_count rreq in
    upd_rreq_msg pkt (set_rq_hop_count (u8 (hop_count + 1)));;
    route_to_orig ← reverse_route (rq_orig_ip_addr rreq) (rq_orig_seq_num rreq)
                      hop_count prev_hop;
    answered ← aodv_answer_to_rreq pkt prev_hop route_to_orig;
    ttl ← aodv_pkt_get_ttl pkt;
    when ((answered =? 0) && (1 <? ttl)) (forward_rreq pkt dest_addr).

(** The forward route of a RREP and whether it was created here. *)
Definition forward_route (dest_addr prev_hop dest_seq_num : Z) : M world (addr * bool) :=
  route ← routing_table_find_by_ip dest_addr;
  match route with
  | Some r => mret (r, false)
  | None =>
      r ← msh_route_alloc;
      msh_route_set_dst_ip r dest_addr;;
      msh_route_set_next_hop r prev_hop;;
      msh_route_set_dest_seq_num r dest_seq_num;;
      msh_route_set_flag r RTFLAG_VALID_DEST_SEQ_NUM;;
      routing_table_add r;;
      mret (r, true)
  end.

(** The test that lets a RREP update the forward route. *)
Definition rrep_updates (created : bool) (r : msh_route) (rrep : aodv_rrep) : bool :=
  created ||
  negb (has_flag (rt_flags r) RTFLAG_VALID_DEST_SEQ_NUM) ||
  (s32 (rt_dest_seq_num r) <? s32 (rp_dest_seq_num rrep)) ||
  ((s32 (rp_dest_seq_num rrep) =? s32 (rt_dest_seq_num r)) &&
    negb (has_flag (rt_flags r) RTFLAG_VALID_ENTRY)) ||
  (s32 (rp_hop_count rrep) =? s32 (rt_hop_count r)).

(** The RREP goes on towards its originator. *)
Definition forward_rrep (pkt : addr) (rrep : aodv_rrep) (now : timeval)
    (route_to_dest route_to_prev_hop : addr) : M world unit :=
  route_to_orig ← routing_table_find_by_ip (rp_orig_ip_addr rrep);
  match route_to_orig with
  | None => mret tt
  | Some route_to_orig =>
      next_hop ← msh_route_get_next_hop route_to_orig;
      upd_pkt pkt (aodv_pkt_set_address next_hop);;
      upd_pkt pkt aodv_pkt_decrease_ttl;;
      upd_rrep_msg pkt aodv_pkt_prepare_rrep;;
      aodv_pkt_send pkt;;
      when (negb (rp_dest_ip_addr rrep =? next_hop))
        (msh_route_add_precursor route_to_dest next_hop);;
      route_to_next_hop ← routing_table_find_by_ip next_hop;
      match route_to_next_hop with
      | Some r =>
          lifetime ← msh_route_get_lifetime r;
          let timeout := u32 (get_alarm_time (tv_sec now) (tv_usec now) +
                              ACTIVE_ROUTE_TIMEOUT) in
          when (lifetime <? timeout) (msh_route_set_lifetime r lifetime)
      | None => mret tt    (* "BUG: no route towards next hop for RREP being forwaded" *)
      end;;
      msh_route_add_precursor route_to_prev_hop next_hop
  end.

Definition aodv_process_rrep (pkt : addr) : M world unit :=
  prev_hop ← aodv_pkt_address pkt;
  route_to_prev_hop ← route_to_previous_hop true prev_hop;
  rrep0 ← read_rrep_msg pkt;
  upd_rrep_msg pkt (set_rp_hop_count (u8 (rp_hop_count rrep0 + 1)));;
  rrep ← read_rrep_msg pkt;
  let dest_addr := rp_dest_ip_addr rrep in
  forward ← forward_route dest_addr prev_hop (rp_dest_seq_num rrep);
  let '(route_to_dest, created) := forward in
  r ← read_route route_to_dest;
  when (rrep_updates created r rrep) (
    msh_route_set_dest_seq_num route_to_dest (rp_dest_seq_num rrep);;
    msh_route_set_flag route_to_dest RTFLAG_VALID_DEST_SEQ_NUM;;
    msh_route_set_next_hop route_to_dest prev_hop;;
    msh_route_set_hop_count route_to_dest (rp_hop_count rrep);;
    now ← gettimeofday;
    let lifetime := u32 (get_alarm_time (tv_sec now) (tv_usec now) + rp_lifetime rrep) in
    msh_route_set_lifetime route_to_dest lifetime;;
    ip_addr ← data md_ip_addr;
    if ip_addr =? rp_orig_ip_addr rrep then
      rreq_id ← data md_rreq_id;
      rreq_fifo_del rreq_id dest_addr
    else forward_rrep pkt rrep now route_to_dest route_to_prev_hop).

Definition aodv_process_rerr (pkt : addr) : M world unit := mret tt.
Definition aodv_process_rrep_ack (pkt : addr) : M world unit := mret tt.

Definition aodv_process_packet (msg : msghdr) (numbytes : Z) : M world unit :=
  pkt ← aodv_pkt_get msg numbytes;
  ok ← aodv_pkt_check pkt;
  if ok =? 0 then mret tt
  else
    sender ← aodv_pkt_address pkt;
    ip_addr ← data md_ip_addr;
    if sender =? ip_addr then mret tt
    else
      type ← pkt_get_type pkt;
      (if type =? AODV_RREQ then aodv_process_rreq pkt
       else if type =? AODV_RREP then aodv_process_rrep pkt
       else if type =? AODV_RERR then aodv_process_rerr pkt
       else if type =? AODV_RREP_ACK then aodv_process_rrep_ack pkt
       else stat_incr Stat.aodv_incorrect_type);;
      aodv_pkt_destroy pkt.
End logic.
