(* ===== verification/Timers.v ===== *)
(** * The alarm callbacks

    [__rreq_fifo_alarm_cb] (rreq_fifo.c), [__msh_data_process_wait_queue_cb]
    (msh_data.c) and the dispatch of [this->function(this, this->data)]. *)

From S2P Require Export Logic.

Section timers.
Context `{E : Env}.

(** A RREQ that times out: a foreign one is forgotten, our own is sent again or
    given up.  When it is given up, [entry->dst] is read after [free(entry)]. *)
Definition __rreq_fifo_alarm_cb (alarm : alarm_id) (entry : addr) : M world unit :=
  e ← read_rreq entry;
  let dst := rf_dst e in
  if rf_prev_tries e <? 0 then __rreq_fifo_entry_delete entry
  else
    let prev_tries := s8 (rf_prev_tries e + 1) in
    write_rreq entry (set_rf_prev_tries prev_tries e);;
    if RREQ_RETRIES <? u32 prev_tries then
      __rreq_fifo_entry_delete entry;;
      freed ← read_rreq entry;
      packets_fifo_drop_packets (rf_dst freed);;
      stat_incr Stat.packets_dropped
    else
      found ← routing_table_update_route dst None 0;
      time ← demand ShiftUB (binary_exponential_backoff_time prev_tries);
      let '(sc, usc) := set_alarm_time time in
      add_alarm (AL_rreq entry) sc usc;;
      e ← read_rreq entry;
      aodv_find_route dst (snd found) (u8 (rf_prev_tries e));;
      rreq_id ← data md_rreq_id;
      e ← read_rreq entry;
      write_rreq entry (set_rf_rreq_id rreq_id e).

Definition __msh_data_process_wait_queue_cb (alarm : alarm_id) : M world unit :=
  upd_data (set_md_num_rreq_sent 0);;
  add_alarm alarm 1 0.

Definition run_alarm (f : alarm_fn) (alarm : alarm_id) (qdata : option addr) : M world unit :=
  match f, qdata with
  | fn_msh_route_alarm_cb, Some route => __msh_route_alarm_cb alarm route
  | fn_rreq_fifo_alarm_cb, Some entry => __rreq_fifo_alarm_cb alarm entry
  | fn_process_wait_queue_cb, _ => __msh_data_process_wait_queue_cb alarm
  | _, None => abort NullDeref
  end.

Definition run_alarms (next : timeval) : M world (option timeval) :=
  process_alarms run_alarm next.
End timers.
