(* ===== verification/NfqHeaders.v ===== *)
(** * libnetfilter_queue_headers.c: IP, TCP and UDP headers of a queued packet

    The structures overlay the payload of the packet; a field is read at its offset
    ([None]: outside the payload) and, where the getter does it, brought to host
    byte order.  The transport header is taken to start right after the 20 bytes of
    [struct nfq_iphdr]. *)

From S2P Require Export CInt.

(** What the attributes of a queued packet hold ([None]: attribute absent). *)
Record nfqnl_msg_packet_hdr := PacketHdr { ph_packet_id : Z; ph_hw_protocol : Z; ph_hook : Z }.
Record nfq_data := NfqData {
  nfqa_packet_hdr : option nfqnl_msg_packet_hdr;
  nfqa_payload : option bytes }.

Definition sizeof_nfq_iphdr : nat := 20.

Definition rd8 (bs : bytes) (off : nat) : option Z := bs !! off.
Definition rd16 (bs : bytes) (off : nat) : option Z :=
  b0 ← bs !! off; b1 ← bs !! (off + 1)%nat; Some (b0 + 256 * b1).
Definition rd32 (bs : bytes) (off : nat) : option Z :=
  b0 ← bs !! off; b1 ← bs !! (off + 1)%nat; b2 ← bs !! (off + 2)%nat; b3 ← bs !! (off + 3)%nat;
  Some (of_le32 [b0; b1; b2; b3]).

(** [nfq_get_payload] fails without the attribute. *)
Definition nfq_get_iphdr (nfad : nfq_data) : option bytes := nfqa_payload nfad.

(** [version:4, ihl:4] in this order: on a little-endian host the first bit-field is
    the low half of the byte. *)
Definition nfq_get_ip_version (hdr : bytes) : option Z := (λ b, b mod 16) <$> rd8 hdr 0.
Definition nfq_get_ip_ihl (hdr : bytes) : option Z := (λ b, b / 16) <$> rd8 hdr 0.
Definition nfq_get_ip_tos (hdr : bytes) : option Z := rd8 hdr 1.
Definition nfq_get_ip_tot_len (hdr : bytes) : option Z := ntohs <$> rd16 hdr 2.
Definition nfq_get_ip_id (hdr : bytes) : option Z := ntohs <$> rd16 hdr 4.
Definition nfq_get_ip_fragoff (hdr : bytes) : option Z := ntohs <$> rd16 hdr 6.
Definition nfq_get_ip_ttl (hdr : bytes) : option Z := rd8 hdr 8.
Definition nfq_get_ip_protocol (hdr : bytes) : option Z := rd8 hdr 9.
Definition nfq_get_ip_check (hdr : bytes) : option Z := ntohs <$> rd16 hdr 10.
Definition nfq_get_ip_saddr (hdr : bytes) : option Z := ntohl <$> rd32 hdr 12.
Definition nfq_get_ip_daddr (hdr : bytes) : option Z := ntohl <$> rd32 hdr 16.

Definition nfq_get_tcphdr (nfad : nfq_data) : option bytes :=
  drop sizeof_nfq_iphdr <$> nfqa_payload nfad.
Definition nfq_get_tcp_source (hdr : bytes) : option Z := ntohs <$> rd16 hdr 0.
Definition nfq_get_tcp_dest (hdr : bytes) : option Z := ntohs <$> rd16 hdr 2.
Definition nfq_get_tcp_seq (hdr : bytes) : option Z := ntohl <$> rd32 hdr 4.
Definition nfq_get_tcp_ack_seq (hdr : bytes) : option Z := ntohl <$> rd32 hdr 8.
(** The function returns the source port. *)
Definition nfq_get_tcp_flags (hdr : bytes) : option Z := ntohs <$> rd16 hdr 0.
Definition nfq_get_tcp_window (hdr : bytes) : option Z := ntohs <$> rd16 hdr 14.
Definition nfq_get_tcp_check (hdr : bytes) : option Z := ntohs <$> rd16 hdr 16.
Definition nfq_get_tcp_urg_ptr (hdr : bytes) : option Z := ntohs <$> rd16 hdr 18.

Definition nfq_get_udphdr (nfad : nfq_data) : option bytes :=
  drop sizeof_nfq_iphdr <$> nfqa_payload nfad.
Definition nfq_get_udp_source (hdr : bytes) : option Z := ntohs <$> rd16 hdr 0.
Definition nfq_get_udp_dest (hdr : bytes) : option Z := ntohs <$> rd16 hdr 2.
Definition nfq_get_udp_len (hdr : bytes) : option Z := ntohs <$> rd16 hdr 4.
Definition nfq_get_udp_check (hdr : bytes) : option Z := ntohs <$> rd16 hdr 6.
