(* ===== verification/Nfqueue.v ===== *)
(** * nfqueue.c: the packets captured by netfilter

    What happens to a packet the kernel hands to the daemon: the verdict is given
    at once, or the packet waits in the packet queue while a route is looked for. *)

From S2P Require Export Timers NfqHeaders.

Definition NF_IP_LOCAL_IN : Z := 1.
Definition NF_IP_FORWARD : Z := 2.
Definition NF_IP_LOCAL_OUT : Z := 3.
Definition IPPROTO_UDP : Z := 17.

(** [-1] converted to [uint32_t] when the packet has no header. *)
Definition nfqueue_packet_get_id (packet : nfq_data) : Z :=
  match nfqa_packet_hdr packet with Some h => ntohl (ph_packet_id h) | None => u32 (-1) end.
Definition nfqueue_packet_get_hook (packet : nfq_data) : Z :=
  match nfqa_packet_hdr packet with Some h => ph_hook h | None => u32 (-1) end.

Section nfqueue.
Context `{E : Env}.

(** Without a payload the result variable is never assigned. *)
Definition nfqueue_packet_get_dest (packet : nfq_data) : M world Z :=
  match nfq_get_iphdr packet with
  | Some hdr => demand OutOfBounds (nfq_get_ip_daddr hdr)
  | None => abort Uninitialised
  end.
Definition nfqueue_packet_get_orig (packet : nfq_data) : M world Z :=
  match nfq_get_iphdr packet with
  | Some hdr => demand OutOfBounds (nfq_get_ip_saddr hdr)
  | None => abort Uninitialised
  end.

Definition nfqueue_packet_is_aodv (packet : nfq_data) : M world bool :=
  match nfq_get_iphdr packet with
  | Some ip_header =>
      protocol ← demand OutOfBounds (nfq_get_ip_protocol ip_header);
      if negb (protocol =? IPPROTO_UDP) then mret false
      else match nfq_get_udphdr packet with
           | None => mret false
           | Some udp_header =>
               dest ← demand OutOfBounds (nfq_get_udp_dest udp_header);
               mret (dest =? AODV_UDP_PORT)
           end
  | None => mret false
  end.

Definition manage_output_packet (nfa : nfq_data) : M world Z :=
  dest ← nfqueue_packet_get_dest nfa;
  let id := nfqueue_packet_get_id nfa in
  broadcast_addr ← data md_broadcast_addr;
  if dest =? broadcast_addr then nfq_set_verdict id NF_ACCEPT
  else
    updated ← routing_table_update_route dest None 0;
    let '(ok, invalid_route) := updated in
    if negb (ok =? 0) then nfq_set_verdict id NF_ACCEPT
    else
      packets_fifo_push id dest;;
      waiting ← rreq_fifo_waiting_response_for dest;
      when (negb waiting) (aodv_find_route dest invalid_route 0);;
      mret 1.

Definition manage_input_packet (nfa : nfq_data) : M world Z :=
  dest ← nfqueue_packet_get_dest nfa;
  let id := nfqueue_packet_get_id nfa in
  broadcast_addr ← data md_broadcast_addr;
  if dest =? broadcast_addr then nfq_set_verdict id NF_ACCEPT
  else
    orig ← nfqueue_packet_get_orig nfa;
    updated ← routing_table_update_route dest None orig;
    if negb (fst updated =? 0) then nfq_set_verdict id NF_ACCEPT
    else mret 0.

Definition manage_forward_packet (nfa : nfq_data) : M world Z :=
  dest ← nfqueue_packet_get_dest nfa;
  let id := nfqueue_packet_get_id nfa in
  broadcast_addr ← data md_broadcast_addr;
  if dest =? broadcast_addr then nfq_set_verdict id NF_ACCEPT
  else
    orig ← nfqueue_packet_get_orig nfa;
    updated ← routing_table_update_route dest None orig;
    if negb (fst updated =? 0) then nfq_set_verdict id NF_ACCEPT
    else nfq_set_verdict id NF_ACCEPT.

Definition manage_packet (nfa : nfq_data) : M world Z :=
  let hook := nfqueue_packet_get_hook nfa in
  let id := nfqueue_packet_get_id nfa in
  aodv ← nfqueue_packet_is_aodv nfa;
  if (aodv : bool) then nfq_set_verdict id NF_ACCEPT
  else if hook =? NF_IP_LOCAL_IN then manage_input_packet nfa
  else if hook =? NF_IP_FORWARD then manage_forward_packet nfa
  else if hook =? NF_IP_LOCAL_OUT then manage_output_packet nfa
  else nfq_set_verdict id NF_ACCEPT.
End nfqueue.
