(* ===== verification/NfqLib.v ===== *)
(** * libnetfilter_queue.c: queue handles and netlink messages

    The handles of the library, the singly linked list of queue handles of a connection,
    the delivery of a packet to the callback of its queue, and the messages the library has
    libnfnetlink build and send.  libnfnetlink and [malloc] are not part of the repository:
    they are the operations of the class [Nfnetlink] on a state of their own. *)

From S2P Require Export CInt.

Definition handle := positive.

(** ** linux_nfnetlink_queue.h *)

Definition NFQNL_MSG_PACKET : Z := 0.
Definition NFQNL_MSG_VERDICT : Z := 1.
Definition NFQNL_MSG_CONFIG : Z := 2.
Definition NFQNL_MSG_MAX : Z := 3.
Definition NFQA_PACKET_HDR : Z := 1.
Definition NFQA_VERDICT_HDR : Z := 2.
Definition NFQA_MARK : Z := 3.
Definition NFQA_TIMESTAMP : Z := 4.
Definition NFQA_IFINDEX_INDEV : Z := 5.
Definition NFQA_IFINDEX_OUTDEV : Z := 6.
Definition NFQA_IFINDEX_PHYSINDEV : Z := 7.
Definition NFQA_IFINDEX_PHYSOUTDEV : Z := 8.
Definition NFQA_HWADDR : Z := 9.
Definition NFQA_PAYLOAD : Z := 10.
Definition NFQNL_CFG_CMD_BIND : Z := 1.
Definition NFQNL_CFG_CMD_UNBIND : Z := 2.
Definition NFQNL_CFG_CMD_PF_BIND : Z := 3.
Definition NFQNL_CFG_CMD_PF_UNBIND : Z := 4.
Definition NFQA_CFG_CMD : Z := 1.
Definition NFQA_CFG_PARAMS : Z := 2.
Definition NFQA_CFG_QUEUE_MAXLEN : Z := 3.

(** Constants of the kernel's headers. *)
Definition AF_UNSPEC : Z := 0.
Definition NLM_F_REQUEST : Z := 1.
Definition NLM_F_ACK : Z := 4.
Definition NFNL_SUBSYS_QUEUE : Z := 3.
Definition ENODEV : Z := 19.

(** The data of an attribute, as the structures the library fills in. *)
Inductive nfa_data :=
  | Config_cmd (command pf : Z)                 (* struct nfqnl_msg_config_cmd *)
  | Config_params (copy_range copy_mode : Z)    (* struct nfqnl_msg_config_params *)
  | Verdict_hdr (verdict id : Z)                (* struct nfqnl_msg_verdict_hdr *)
  | Word32 (z : Z)
  | Octets (bs : bytes).

(** A message: what [nfnl_fill_hdr] is called with, and the attributes added. *)
Record nlmsg := NlMsg {
  nm_subsys : option handle;
  nm_family : Z;
  nm_res_id : Z;
  nm_type : Z;
  nm_flags : Z;
  nm_attrs : list (Z * nfa_data) }.

Definition nfnl_fill_hdr (ssh : option handle) (family res_id type flags : Z) : nlmsg :=
  NlMsg ssh family res_id type flags [].
Definition nfnl_addattr (m : nlmsg) (type : Z) (d : nfa_data) : nlmsg :=
  NlMsg (nm_subsys m) (nm_family m) (nm_res_id m) (nm_type m) (nm_flags m) (nm_attrs m ++ [(type, d)]).

(** ** Handles *)

Record nfq_handle := NfqHandle {
  nfnlh : handle;
  nfnlssh : option handle;
  qh_list : option handle }.

Section nfqlib.
(** [CB]: the callbacks; [D]: what [data] points to. *)
Context {CB D : Type}.

Record nfq_q_handle := NfqQHandle {
  q_next : option handle;
  q_h : handle;
  q_id : Z;
  q_cb : option CB;
  q_data : D }.

(** What the library relies on; [E] is the state of libnfnetlink, the kernel and the
    allocator. *)
Class Nfnetlink (E : Type) := {
  malloc_ok : M E bool;
  nfnl_open : M E (option handle);
  nfnl_close : handle → M E Z;
  nfnl_subsys_open : handle → Z → Z → Z → M E (option handle);
  nfnl_subsys_close : option handle → M E unit;
  nfnl_callback_register : handle → Z → handle → M E Z;
  nfnl_talk : handle → nlmsg → M E Z;
  nfnl_sendiov : handle → nlmsg → M E Z;
  nfnl_fd : handle → Z;
  nfnl_handle_packet : handle → bytes → M E Z }.

Context {E : Type} `{Nfnetlink E}.

(** The memory of the handles, [pkt_cb.data], [nfq_errno] and the rest of the world. *)
Record nfq_lib := NfqLib {
  lb_handles : gmap handle nfq_handle;
  lb_queues : gmap handle nfq_q_handle;
  lb_pkt_cb_data : option handle;
  lb_errno : Z;
  lb_ext : E }.

Definition set_handles hs (L : nfq_lib) := NfqLib hs (lb_queues L) (lb_pkt_cb_data L) (lb_errno L) (lb_ext L).
Definition set_queues qs (L : nfq_lib) := NfqLib (lb_handles L) qs (lb_pkt_cb_data L) (lb_errno L) (lb_ext L).
Definition set_pkt_cb d (L : nfq_lib) := NfqLib (lb_handles L) (lb_queues L) d (lb_errno L) (lb_ext L).
Definition set_errno z (L : nfq_lib) := NfqLib (lb_handles L) (lb_queues L) (lb_pkt_cb_data L) z (lb_ext L).

Definition ext {X} (m : M E X) : M nfq_lib X := λ L,
  match m (lb_ext L) with
  | Ok x e => Ok x (NfqLib (lb_handles L) (lb_queues L) (lb_pkt_cb_data L) (lb_errno L) e)
  | Fault f => Fault f
  end.

Definition read_h (h : handle) : M nfq_lib nfq_handle := λ L,
  demand UseAfterFree (lb_handles L !! h) L.
Definition write_h (h : handle) (x : nfq_handle) : M nfq_lib unit :=
  modify (λ L, set_handles (<[h := x]> (lb_handles L)) L).
Definition free_h (h : handle) : M nfq_lib unit :=
  modify (λ L, set_handles (delete h (lb_handles L)) L).
Definition read_q (q : handle) : M nfq_lib nfq_q_handle := λ L,
  demand UseAfterFree (lb_queues L !! q) L.
Definition write_q (q : handle) (x : nfq_q_handle) : M nfq_lib unit :=
  modify (λ L, set_queues (<[q := x]> (lb_queues L)) L).
Definition free_q (q : handle) : M nfq_lib unit :=
  modify (λ L, set_queues (delete q (lb_queues L)) L).

Definition set_qh_list (x : option handle) (h : nfq_handle) : nfq_handle :=
  NfqHandle (nfnlh h) (nfnlssh h) x.
Definition set_q_next (x : option handle) (q : nfq_q_handle) : nfq_q_handle :=
  NfqQHandle x (q_h q) (q_id q) (q_cb q) (q_data q).

(** More rounds than a walk along the queue handles takes. *)
Definition q_rounds : M nfq_lib nat := gets (λ L, S (size (lb_queues L))).

(** ** The list of queue handles *)

Fixpoint del_qh_loop (fuel : nat) (qh : handle) (cur_qh prev_qh : option handle) : M nfq_lib unit :=
  match cur_qh with
  | None => mret tt
  | Some cur =>
      match fuel with
      | O => abort Diverges
      | S fuel =>
          if decide (cur = qh) then
            q ← read_q qh;
            match prev_qh with
            | Some prev => p ← read_q prev; write_q prev (set_q_next (q_next q) p)
            | None => h ← read_h (q_h q); write_h (q_h q) (set_qh_list (q_next q) h)
            end
          else
            c ← read_q cur;
            del_qh_loop fuel qh (q_next c) (Some cur)
      end
  end.
Definition del_qh (qh : handle) : M nfq_lib unit :=
  q ← read_q qh;
  h ← read_h (q_h q);
  fuel ← q_rounds;
  del_qh_loop fuel qh (qh_list h) None.

Definition add_qh (qh : handle) : M nfq_lib unit :=
  q ← read_q qh;
  h ← read_h (q_h q);
  write_q qh (set_q_next (qh_list h) q);;
  write_h (q_h q) (set_qh_list (Some qh) h).

Fixpoint find_qh_loop (fuel : nat) (qh : option handle) (id : Z) : M nfq_lib (option handle) :=
  match qh with
  | None => mret None
  | Some a =>
      match fuel with
      | O => abort Diverges
      | S fuel =>
          q ← read_q a;
          if q_id q =? id then mret (Some a) else find_qh_loop fuel (q_next q) id
      end
  end.
Definition find_qh (h : handle) (id : Z) : M nfq_lib (option handle) :=
  x ← read_h h;
  fuel ← q_rounds;
  find_qh_loop fuel (qh_list x) id.

(** ** Packets from the kernel *)

(** [run cb qh nfmsg nfa data]: the call of a callback; [Msg]: a message of the kernel with
    its attributes, [res_id] in network byte order. *)
Definition __nfq_rcv_pkt {Msg} (run : CB → handle → Msg → D → M nfq_lib Z) (h : handle)
    (res_id : Z) (msg : Msg) : M nfq_lib Z :=
  let queue_num := ntohs res_id in
  qh ← find_qh h queue_num;
  match qh with
  | None => mret (- ENODEV)
  | Some qh =>
      q ← read_q qh;
      match q_cb q with
      | None => mret (- ENODEV)
      | Some cb => run cb qh msg (q_data q)
      end
  end.

(** ** Connections *)

Definition __build_send_cfg_msg (h : handle) (command queuenum pf : Z) : M nfq_lib Z :=
  x ← read_h h;
  let nmh := nfnl_fill_hdr (nfnlssh x) AF_UNSPEC queuenum NFQNL_MSG_CONFIG
               (Z.lor NLM_F_REQUEST NLM_F_ACK) in
  ext (nfnl_talk (nfnlh x) (nfnl_addattr nmh NFQA_CFG_CMD (Config_cmd command (htons pf)))).

Definition nfq_nfnlh (h : handle) : M nfq_lib handle := x ← read_h h; mret (nfnlh x).
Definition nfq_fd (h : handle) : M nfq_lib Z := x ← nfq_nfnlh h; mret (nfnl_fd x).

(** A block of memory that is not in use ([None]: [malloc] fails). *)
Definition malloc {X} (mem : nfq_lib → gmap handle X) : M nfq_lib (option handle) :=
  ok ← ext malloc_ok;
  if (ok : bool) then gets (λ L, Some (fresh (dom (mem L)))) else mret None.

Definition nfq_open_nfnl (nfnlh : handle) : M nfq_lib (option handle) :=
  h ← malloc lb_handles;
  match h with
  | None => mret None
  | Some h =>
      write_h h (NfqHandle nfnlh None None);;
      ssh ← ext (nfnl_subsys_open nfnlh NFNL_SUBSYS_QUEUE NFQNL_MSG_MAX 0);
      match ssh with
      | None => free_h h;; mret None
      | Some ssh =>
          write_h h (NfqHandle nfnlh (Some ssh) None);;
          modify (set_pkt_cb (Some h));;
          err ← ext (nfnl_callback_register ssh NFQNL_MSG_PACKET h);
          if err <? 0 then
            modify (set_errno err);;
            ext (nfnl_subsys_close (Some ssh));;
            free_h h;; mret None
          else mret (Some h)
      end
  end.

Definition nfq_open : M nfq_lib (option handle) :=
  nfnlh ← ext nfnl_open;
  match nfnlh with
  | None => mret None
  | Some nfnlh =>
      qh ← nfq_open_nfnl nfnlh;
      match qh with
      | None => ext (nfnl_close nfnlh);; mret None
      | Some qh => mret (Some qh)
      end
  end.

Definition nfq_close (h : handle) : M nfq_lib Z :=
  x ← read_h h;
  ext (nfnl_subsys_close (nfnlssh x));;
  ret ← ext (nfnl_close (nfnlh x));
  when (ret =? 0) (free_h h);;
  mret ret.

Definition nfq_bind_pf (h : handle) (pf : Z) : M nfq_lib Z :=
  __build_send_cfg_msg h NFQNL_CFG_CMD_PF_BIND 0 pf.
Definition nfq_unbind_pf (h : handle) (pf : Z) : M nfq_lib Z :=
  __build_send_cfg_msg h NFQNL_CFG_CMD_PF_UNBIND 0 pf.

(** ** Queues *)

(** The result of [malloc] is not looked at before [memset] writes through it. *)
Definition nfq_create_queue (h : handle) (num : Z) (cb : option CB) (data : D) :
    M nfq_lib (option handle) :=
  found ← find_qh h num;
  match found with
  | Some _ => mret None
  | None =>
      qh ← malloc lb_queues;
      qh ← demand NullDeref qh;
      write_q qh (NfqQHandle None h num cb data);;
      ret ← __build_send_cfg_msg h NFQNL_CFG_CMD_BIND num 0;
      if ret <? 0 then
        modify (set_errno ret);;
        free_q qh;;
        mret None
      else
        add_qh qh;;
        mret (Some qh)
  end.

Definition nfq_destroy_queue (qh : handle) : M nfq_lib Z :=
  q ← read_q qh;
  ret ← __build_send_cfg_msg (q_h q) NFQNL_CFG_CMD_UNBIND (q_id q) 0;
  when (ret =? 0) (del_qh qh;; free_q qh);;
  mret ret.

Definition nfq_handle_packet (h : handle) (buf : bytes) : M nfq_lib Z :=
  x ← read_h h; ext (nfnl_handle_packet (nfnlh x) buf).

(** The messages of [nfq_set_mode] and [nfq_set_queue_maxlen] differ in one attribute. *)
Definition send_config (qh : handle) (type : Z) (d : nfa_data) : M nfq_lib Z :=
  q ← read_q qh;
  x ← read_h (q_h q);
  let nmh := nfnl_fill_hdr (nfnlssh x) AF_UNSPEC (q_id q) NFQNL_MSG_CONFIG
               (Z.lor NLM_F_REQUEST NLM_F_ACK) in
  ext (nfnl_talk (nfnlh x) (nfnl_addattr nmh type d)).
Definition nfq_set_mode (qh : handle) (mode range : Z) : M nfq_lib Z :=
  send_config qh NFQA_CFG_PARAMS (Config_params (htonl range) mode).
Definition nfq_set_queue_maxlen (qh : handle) (queuelen : Z) : M nfq_lib Z :=
  send_config qh NFQA_CFG_QUEUE_MAXLEN (Word32 (htonl queuelen)).

(** ** Verdicts *)

(** [data_len] bytes of [data] follow the header as one more attribute. *)
Definition __set_verdict (qh : handle) (id verdict mark : Z) (set_mark : bool) (data : bytes) :
    M nfq_lib Z :=
  q ← read_q qh;
  x ← read_h (q_h q);
  let nmh := nfnl_fill_hdr (nfnlssh x) AF_UNSPEC (q_id q) NFQNL_MSG_VERDICT NLM_F_REQUEST in
  let nmh := nfnl_addattr nmh NFQA_VERDICT_HDR (Verdict_hdr (htonl verdict) (htonl id)) in
  let nmh := if set_mark then nfnl_addattr nmh NFQA_MARK (Word32 mark) else nmh in
  let nmh := match data with [] => nmh | _ => nfnl_addattr nmh NFQA_PAYLOAD (Octets data) end in
  ext (nfnl_sendiov (nfnlh x) nmh).
Definition nfq_set_verdict (qh : handle) (id verdict : Z) (data : bytes) : M nfq_lib Z :=
  __set_verdict qh id verdict 0 false data.
Definition nfq_set_verdict_mark (qh : handle) (id verdict mark : Z) (data : bytes) : M nfq_lib Z :=
  __set_verdict qh id verdict mark true data.
End nfqlib.

(** ** Attributes of a packet *)

(** The attributes of a message ([struct nfattr **data]); libnfnetlink's macros read them:
    [nfnl_get_pointer_to_data] a null pointer without the attribute, [nfnl_get_data] zero. *)
Class Nfattrs (Attrs : Type) := {
  nfa_payload : Attrs → Z → option bytes;     (* nfnl_get_pointer_to_data *)
  nfa_u32 : Attrs → Z → Z }.                  (* nfnl_get_data(.., u_int32_t) *)

Section getters.
Context {Attrs : Type} `{Nfattrs Attrs}.

Definition nfq_get_msg_packet_hdr (nfad : Attrs) : option bytes := nfa_payload nfad NFQA_PACKET_HDR.
Definition nfq_get_nfmark (nfad : Attrs) : Z := ntohl (nfa_u32 nfad NFQA_MARK).

(** [__be64_to_cpu] of the eight bytes at [off]. *)
Definition be64_at (bs : bytes) (off : nat) : Z :=
  foldl (λ acc b, acc * 256 + b) 0 (take 8 (drop off bs)).
(** The result and what is written to [tv]. *)
Definition nfq_get_timestamp (nfad : Attrs) : Z * option (Z * Z) :=
  match nfa_payload nfad NFQA_TIMESTAMP with
  | None => (-1, None)
  | Some qpt => (0, Some (be64_at qpt 0, be64_at qpt 8))
  end.

Definition nfq_get_indev (nfad : Attrs) : Z := ntohl (nfa_u32 nfad NFQA_IFINDEX_INDEV).
Definition nfq_get_physindev (nfad : Attrs) : Z := ntohl (nfa_u32 nfad NFQA_IFINDEX_PHYSINDEV).
Definition nfq_get_outdev (nfad : Attrs) : Z := ntohl (nfa_u32 nfad NFQA_IFINDEX_OUTDEV).
Definition nfq_get_physoutdev (nfad : Attrs) : Z := ntohl (nfa_u32 nfad NFQA_IFINDEX_PHYSOUTDEV).

(** [nlif_index2name] is libnfnetlink's. *)
Context {Names : Type} (nlif_index2name : Names → Z → Z * option string).
Definition nfq_get_indev_name (t : Names) (nfad : Attrs) : Z * option string :=
  nlif_index2name t (nfq_get_indev nfad).
Definition nfq_get_physindev_name (t : Names) (nfad : Attrs) : Z * option string :=
  nlif_index2name t (nfq_get_physindev nfad).
Definition nfq_get_outdev_name (t : Names) (nfad : Attrs) : Z * option string :=
  nlif_index2name t (nfq_get_outdev nfad).
Definition nfq_get_physoutdev_name (t : Names) (nfad : Attrs) : Z * option string :=
  nlif_index2name t (nfq_get_physoutdev nfad).

Definition nfq_get_packet_hw (nfad : Attrs) : option bytes := nfa_payload nfad NFQA_HWADDR.
(** The length and the bytes. *)
Definition nfq_get_payload (nfad : Attrs) : Z * option bytes :=
  match nfa_payload nfad NFQA_PAYLOAD with
  | Some data => (Z.of_nat (length data), Some data)
  | None => (-1, None)
  end.
End getters.

Arguments nfq_q_handle : clear implicits.
Arguments nfq_lib : clear implicits.
