(* ===== verification/Startup.v ===== *)
(** * The descriptors of the daemon: fds.c and the start and end of its sockets

    [create_fds] and [register_fd] of fds.c, the set-up of the netlink queue
    ([nfqueue_init]), of the AODV socket ([aodv_socket_init]) and of the command socket
    ([comm_interface_init]), the part of [msh_data_init] that calls them, and what
    [msh_data_shutdown] does to them.  The system calls are operations of the class [Os] on
    the same external state as libnfnetlink. *)

From S2P Require Export NfqLib Packet.

(** ** sockets/fds.c *)

Record fds := Fds { maxfd : Z; readfds : gset Z }.

Definition FD_SETSIZE : Z := 1024.

Definition ERR_INIT : Z := -1.
Definition SOCK_STREAM : Z := 1.
Definition SOCK_DGRAM : Z := 2.
Definition SOL_SOCKET : Z := 1.
Definition SOL_IP : Z := 0.
Definition SO_REUSEADDR : Z := 2.
Definition SO_BROADCAST : Z := 6.
Definition IP_RECVTTL : Z := 12.
Definition INADDR_ANY : Z := 0.
Definition NFQNL_COPY_PACKET : Z := 2.
Definition MESH_PORT : Z := 2654.

(** The system calls; -1 is an error, and [os_calloc] answers whether there is memory. *)
Class Os (E : Type) := {
  os_getuid : M E Z;
  os_calloc : M E bool;
  os_socket : Z → Z → M E Z;
  os_setsockopt : Z → Z → Z → M E Z;
  os_bind : Z → Z → Z → M E Z;
  os_listen : Z → Z → M E Z;
  os_close : Z → M E Z }.

(** The callback given to [nfq_create_queue]. *)
Inductive nfq_callback := fn_manage_packet.

Section startup.
Context {E : Type} `{Nfnetlink E, Os E}.

(** The callback's data is a null pointer. *)
Notation lib := (nfq_lib nfq_callback (option handle) E).

(** The members of [data] for the descriptors, and the library's state; descriptors are
    [uint32_t]. *)
Record startup := Startup {
  su_comm_fd : Z;
  su_handle : option handle;
  su_queue : option handle;
  su_netlink_handle : option handle;
  su_nfqueue_fd : Z;
  su_daemon_fd : Z;
  su_fds : option fds;
  su_lib : lib }.

Definition set_comm_fd x s := Startup x (su_handle s) (su_queue s) (su_netlink_handle s) (su_nfqueue_fd s) (su_daemon_fd s) (su_fds s) (su_lib s).
Definition set_handle x s := Startup (su_comm_fd s) x (su_queue s) (su_netlink_handle s) (su_nfqueue_fd s) (su_daemon_fd s) (su_fds s) (su_lib s).
Definition set_queue x s := Startup (su_comm_fd s) (su_handle s) x (su_netlink_handle s) (su_nfqueue_fd s) (su_daemon_fd s) (su_fds s) (su_lib s).
Definition set_netlink_handle x s := Startup (su_comm_fd s) (su_handle s) (su_queue s) x (su_nfqueue_fd s) (su_daemon_fd s) (su_fds s) (su_lib s).
Definition set_nfqueue_fd x s := Startup (su_comm_fd s) (su_handle s) (su_queue s) (su_netlink_handle s) x (su_daemon_fd s) (su_fds s) (su_lib s).
Definition set_daemon_fd x s := Startup (su_comm_fd s) (su_handle s) (su_queue s) (su_netlink_handle s) (su_nfqueue_fd s) x (su_fds s) (su_lib s).
Definition set_fds x s := Startup (su_comm_fd s) (su_handle s) (su_queue s) (su_netlink_handle s) (su_nfqueue_fd s) (su_daemon_fd s) x (su_lib s).
Definition set_lib x s := Startup (su_comm_fd s) (su_handle s) (su_queue s) (su_netlink_handle s) (su_nfqueue_fd s) (su_daemon_fd s) (su_fds s) x.

(** A call of the library, and a system call. *)
Definition nfq {X} (m : M lib X) : M startup X := λ s,
  match m (su_lib s) with
  | Ok x L => Ok x (set_lib L s)
  | Fault f => Fault f
  end.
Definition os {X} (m : M E X) : M startup X := nfq (ext m).

(** [calloc] clears [maxfd]; [FD_ZERO]. *)
Definition create_fds : M startup (option fds) :=
  ok ← os os_calloc;
  mret (if (ok : bool) then Some (Fds 0 ∅) else None).
Definition destroy_fds : M startup unit := modify (set_fds None).

(** [FD_SET] outside of the set is undefined. *)
Definition FD_SET (fd : Z) (s : gset Z) : option (gset Z) :=
  if (0 <=? fd) && (fd <? FD_SETSIZE) then Some ({[fd]} ∪ s) else None.
Definition register_fd (fd : Z) : M startup Z :=
  f ← gets su_fds;
  f ← demand NullDeref f;
  set ← demand OutOfBounds (FD_SET fd (readfds f));
  modify (set_fds (Some (Fds (if maxfd f <? fd then fd else maxfd f) set)));;
  mret 0.

(** ** nfqueue.c *)

Definition nfqueue_init : M startup Z :=
  h ← nfq nfq_open;
  modify (set_handle h);;
  match h with
  | None => mret ERR_INIT
  | Some h =>
      r ← nfq (nfq_unbind_pf h AF_INET);
      if r <? 0 then mret ERR_INIT else
      r ← nfq (nfq_bind_pf h AF_INET);
      if r <? 0 then mret ERR_INIT else
      q ← nfq (nfq_create_queue h 0 (Some fn_manage_packet) None);
      modify (set_queue q);;
      match q with
      | None => mret ERR_INIT
      | Some q =>
          r ← nfq (nfq_set_mode q NFQNL_COPY_PACKET 65535);
          if r <? 0 then mret ERR_INIT else
          n ← nfq (nfq_nfnlh h);
          modify (set_netlink_handle (Some n));;
          modify (set_nfqueue_fd (u32 (nfnl_fd n)));;
          fd ← gets su_nfqueue_fd;
          register_fd (s32 fd);;
          mret 0
      end
  end.

Definition nfqueue_shutdown : M startup unit :=
  q ← gets su_queue;
  match q with Some q => nfq (nfq_destroy_queue q);; mret tt | None => mret tt end;;
  h ← gets su_handle;
  match h with Some h => nfq (nfq_close h);; mret tt | None => mret tt end.

(** ** sockets/aodv_socket.c *)

Definition aodv_socket_init : M startup Z :=
  fd ← os (os_socket AF_INET SOCK_DGRAM);
  modify (set_daemon_fd (u32 fd));;
  if fd =? -1 then mret ERR_INIT else
  r ← os (os_setsockopt fd SOL_SOCKET SO_BROADCAST);
  if r =? -1 then mret ERR_INIT else
  r ← os (os_setsockopt fd SOL_IP IP_RECVTTL);
  if r =? -1 then mret ERR_INIT else
  r ← os (os_bind fd INADDR_ANY (htons AODV_UDP_PORT));
  if r =? -1 then mret ERR_INIT else
  register_fd fd;;
  mret 0.
Definition aodv_socket_shutdown : M startup unit :=
  fd ← gets su_daemon_fd; os (os_close (s32 fd));; mret tt.

(** ** communication_interface.c *)

Definition comm_interface_init : M startup Z :=
  fd ← os (os_socket AF_INET SOCK_STREAM);
  if fd =? -1 then mret (-1) else
  r ← os (os_setsockopt fd SOL_SOCKET SO_REUSEADDR);
  if r =? -1 then mret (-1) else
  r ← os (os_bind fd INADDR_ANY (htons MESH_PORT));
  if r =? -1 then mret (-1) else
  r ← os (os_listen fd 1);
  if r =? -1 then mret (-1) else
  modify (set_comm_fd (u32 fd));;
  register_fd fd;;
  mret 0.
Definition comm_interface_shutdown : M startup unit :=
  fd ← gets su_comm_fd; os (os_close (s32 fd));; mret tt.

(** ** msh_data.c *)

(** How the first part of [msh_data_init] ends. *)
Inductive init_end :=
  | Exits (status : Z)     (* exit(status) *)
  | Returns (r : Z)        (* return r *)
  | Goes_on.               (* on to the netlink caches *)

Definition msh_data_init_sockets (argc : Z) : M startup init_end :=
  modify (λ s, Startup 0 None None None 0 0 None (su_lib s));;
  if argc <? 2 then mret (Exits 1) else
  uid ← os os_getuid;
  if negb (uid =? 0) then mret (Returns ERR_INIT) else
  f ← create_fds;
  modify (set_fds f);;
  match f with
  | None => mret (Returns ERR_INIT)
  | Some _ =>
      r ← nfqueue_init;
      if negb (r =? 0) then mret (Returns ERR_INIT) else
      r ← aodv_socket_init;
      if negb (r =? 0) then mret (Returns ERR_INIT) else
      r ← comm_interface_init;
      if negb (r =? 0) then mret (Returns ERR_INIT) else
      mret Goes_on
  end.

Definition msh_data_shutdown_sockets : M startup unit :=
  destroy_fds;;
  nfqueue_shutdown;;
  aodv_socket_shutdown;;
  comm_interface_shutdown.
End startup.

Arguments startup : clear implicits.
