(* ===== verification/Comm.v ===== *)
(** * communication_interface.c: the command socket

    A client connects, sends one command and reads the answer.  The answer is built
    in a buffer of [stats_size] bytes and sent in pieces of 1024 bytes. *)

From S2P Require Export Timers.
From stdpp Require Import pretty.
From Stdlib Require Import Ascii.
#[local] Open Scope Z_scope.

Definition MSG_HELP : string := "help".
Definition MSG_QUIT : string := "quit".
Definition MSG_KILL : string := "kill".
Definition MSG_RESTART : string := "restart".
Definition MSG_SHOW_ROUTES : string := "showroutes".
Definition MSG_SHOW_STATISTICS : string := "showstatistics".
Definition MSG_CLEAN_STATISTICS : string := "cleanstatistics".

Definition stats_size : Z := 5000.
Definition command_buffer_size : Z := 128.

(** ["%d"] of a [uint32_t], and of a narrower type. *)
Definition fmt_d (x : Z) : string := pretty (s32 x).

Definition newline : string := String (ascii_of_nat 10) EmptyString.
Definition fields_text (fields : list Z) : string :=
  String.concat "#" (fmt_d <$> fields) +:+ newline.

(** The text [get_statistics] prints. *)
Definition statistics_text (s : statistics_t) : string :=
  fields_text [st_packets_dropped s; st_no_address_received s; st_no_payload_received s;
    st_send_aodv_errors s; st_send_aodv_incomplete s; st_rreq_incorrect_size s;
    st_rrep_incorrect_size s; st_rerr_incorrect_size s; st_rerr_dest_cont_zero s;
    st_rrep_ack_incorrect_size s; st_aodv_incorrect_type s; st_no_ttl_received s;
    st_error_aodv_recv s; st_error_nfq_recv s; st_error_unix_recv s; st_invalid_route s].

(** One line of [add_route]. *)
Definition route_text (r : msh_route) : string :=
  fields_text [rt_dst_ip r; rt_prefix_sz r; rt_dest_seq_num r; rt_flags r; rt_hop_count r;
    rt_next_hop r; rt_net_iface r].

Definition strlen (s : string) : Z := Z.of_nat (String.length s).

(** The first [n] bytes at offset [off] of a buffer of [size] bytes that holds the
    text [s], zeros behind it; [None]: outside the buffer. *)
Fixpoint zeros (n : nat) : string :=
  match n with O => EmptyString | S n => String Ascii.zero (zeros n) end.
Definition buffer_read (s : string) (size off n : Z) : option string :=
  if off + n <=? size
  then Some (String.substring (Z.to_nat off) (Z.to_nat n) (s +:+ zeros (Z.to_nat size)))
  else None.

Section comm.
Context `{E : Env}.

(** [send_msg]: pieces of 1024 bytes until [size] bytes are out, the last one whole. *)
Definition send_msg (buf : string) (bufsize size : Z) : M world unit :=
  for_each (seq 0 (Z.to_nat ((size + 1023) / 1024))) (λ i,
    chunk ← demand OutOfBounds (buffer_read buf bufsize (1024 * Z.of_nat i) 1024);
    emit (EvReply chunk)).

(** [rd->number] advances past each line and [rd->size] stays the whole size. *)
Fixpoint add_routes (entries : list addr) (number : Z) (buf : string) : M world string :=
  match entries with
  | [] => mret buf
  | route :: entries' =>
      r ← read_route route;
      let line := route_text r in
      if number + strlen line + 1 <=? stats_size
      then add_routes entries' (number + strlen line) (buf +:+ line)
      else abort OutOfBounds
  end.

Definition get_routes : M world string :=
  entries ← gets w_table; add_routes entries 0 EmptyString.

Definition get_statistics : M world string := s ← gets w_stats; mret (statistics_text s).

(** [strncmp(command, MSG, strlen(MSG)) == 0] *)
Definition is_command (msg command : string) : bool := String.prefix msg command.

(** [char ack[] = "ACK"]: four bytes. *)
Definition comm_interface_process_command (command : string) : M world unit :=
  if is_command MSG_KILL command then
    upd_data (set_md_end true);; send_msg "ACK" 4 4
  else if is_command MSG_RESTART command then send_msg "ACK" 4 4
  else if is_command MSG_SHOW_ROUTES command then
    text ← get_routes; send_msg text stats_size (strlen text)
  else if is_command MSG_SHOW_STATISTICS command then
    text ← get_statistics; send_msg text stats_size (strlen text)
  else if is_command MSG_CLEAN_STATISTICS command then
    modify (λ w, set_w_stats (stats_reset (w_stats w)) w);;
    text ← get_statistics; send_msg text stats_size (strlen text)
  else mret tt.

(** [received]: the bytes [recv] stored, [None] for an error; [buffer[ret] = 0]
    follows without a test. *)
Definition comm_interface_receive_packets (received : option string) : M world unit :=
  match received with
  | Some command =>
      if strlen command <? command_buffer_size then comm_interface_process_command command
      else abort OutOfBounds
  | None => abort OutOfBounds
  end.
End comm.
