(* ===== verification/PacketPrint.v ===== *)
(** * nfqueue.c: a captured packet through the library, and its description

    [Nfqueue] takes a captured packet as the two attributes the daemon reads.  Here they
    come out of the library's getters ([NfqLib]), and [nfqueue_packet_print] writes what all
    the getters say on the standard output. *)

From S2P Require Export Nfqueue NfqLib Comm.
From stdpp Require Import pretty.
From Stdlib Require Import Ascii.
#[local] Open Scope Z_scope.

(** [struct nfqnl_msg_packet_hdr], packed: the id, the protocol and the hook. *)
Definition packet_hdr_of_bytes (bs : bytes) : option nfqnl_msg_packet_hdr :=
  id ← rd32 bs 0; protocol ← rd16 bs 4; hook ← rd8 bs 6; Some (PacketHdr id protocol hook).

(** ["%04x"] of a 16-bit word. *)
Definition hex_digit (d : Z) : ascii := ascii_of_nat (Z.to_nat (if d <? 10 then 48 + d else 87 + d)).
Definition fmt_04x (x : Z) : string :=
  String (hex_digit (x / 4096)) (String (hex_digit (x / 256 mod 16))
    (String (hex_digit (x / 16 mod 16)) (String (hex_digit (x mod 16)) EmptyString))).

(** ["%ld"] of a 64-bit word. *)
Definition fmt_ld (x : Z) : string := pretty ((x + 2 ^ 63) mod 2 ^ 64 - 2 ^ 63).

(** [isprint] of a [char], which is signed: the bytes from 128 on are not printed. *)
Definition isprint (c : Z) : bool := (32 <=? c) && (c <=? 126).

(** The loop over the payload. *)
Definition printed_payload (data : bytes) : string :=
  foldr (λ c s, String (ascii_of_nat (Z.to_nat (if isprint c then c else 32))) s) EmptyString data.

Definition line (s : string) : string := s +:+ newline.

Section packet.
Context {Attrs : Type} `{Nfattrs Attrs}.
Implicit Types nfad : Attrs.

(** The packet as the daemon's handlers see it. *)
Definition nfq_data_of nfad : nfq_data :=
  NfqData (nfq_get_msg_packet_hdr nfad ≫= packet_hdr_of_bytes) (nfq_get_payload nfad).2.

(** A line with a number, or another one when it is zero. *)
Definition number_line (label none : string) (x : Z) : string :=
  line (if x =? 0 then none else label +:+ pretty x).

(** The parts that read an attribute; [None]: outside it. *)
Definition header_text nfad : option (Z * string) :=
  match nfq_get_msg_packet_hdr nfad with
  | Some bs =>
      h ← packet_hdr_of_bytes bs;
      let id := ntohl (ph_packet_id h) in
      Some (id, line ("hw_protocol=0x" +:+ fmt_04x (ntohs (ph_hw_protocol h)) +:+ " hook=" +:+
        pretty (ph_hook h) +:+ " id=" +:+ pretty id))
  | None => Some (0, EmptyString)
  end.
Definition mac_text nfad : option string :=
  match nfq_get_packet_hw nfad with
  | Some bs => len ← rd16 bs 0; Some (line ("mac len " +:+ pretty (ntohs len) +:+ " address"))
  | None => Some (line "no MAC adress")
  end.
Definition ip_text nfad : option string :=
  match nfq_get_iphdr (nfq_data_of nfad) with
  | Some hdr =>
      saddr ← nfq_get_ip_saddr hdr; daddr ← nfq_get_ip_daddr hdr;
      Some (line ("source: " +:+ fmt_d saddr) +:+ line ("dest: " +:+ fmt_d daddr))
  | None => Some EmptyString
  end.
Definition tcp_text nfad : option string :=
  match nfq_get_tcphdr (nfq_data_of nfad) with
  | Some hdr =>
      source ← nfq_get_tcp_source hdr; dest ← nfq_get_tcp_dest hdr;
      Some (line ("source: " +:+ pretty source) +:+ line ("dest: " +:+ pretty dest))
  | None => Some EmptyString
  end.

(** The parts that cannot fail. *)
Definition timestamp_text nfad : string :=
  match nfq_get_timestamp nfad with
  | (_, Some (sec, usec)) => "timestamp " +:+ fmt_ld sec +:+ "." +:+ fmt_ld usec
  | (_, None) => line "no timestamp"
  end.
Definition payload_text nfad : string :=
  match nfq_get_payload nfad with
  | (length, Some data) => "pckt_data[" +:+ pretty length +:+ "]:{" +:+ printed_payload data
  | (_, None) => EmptyString
  end +:+ line "}".

(** The returned id and the text. *)
Definition nfqueue_packet_print nfad : option (Z * string) :=
  header ← header_text nfad;
  mac ← mac_text nfad;
  ip ← ip_text nfad;
  tcp ← tcp_text nfad;
  Some (header.1, header.2 +:+ mac +:+ timestamp_text nfad +:+
    number_line "mark=" "no mark" (nfq_get_nfmark nfad) +:+
    number_line "indev=" "no indev" (nfq_get_indev nfad) +:+
    number_line "outdev=" "no outdev" (nfq_get_outdev nfad) +:+
    payload_text nfad +:+ ip +:+ tcp).
End packet.
