(* ===== verification/Client.v ===== *)
(** * meshias-tools.c: the command line client

    The client reads words from the terminal, accepts the ones that start with the name or
    the number of a command, and sends the name of the command to the daemon over a TCP
    connection of its own.  The terminal's input and what becomes of each connection are
    part of the state. *)

From S2P Require Export Comm.
From Stdlib Require Import Ascii.
#[local] Open Scope Z_scope.

Definition command_SIZE : Z := 128.
(** [bufsize] of [send_command]. *)
Definition reply_size : Z := 1024.

Definition HELP_COMMAND : string :=
  String.concat newline
    ["Usable commands: "; "    0. help"; "    1. quit"; "    2. kill"; "    3. restart";
     "    4. showroutes"; "    5. showstatistics"; "6. cleanstatistics"; ""; ""].

Definition COMMANDS : list string :=
  ["0"; MSG_HELP; "1"; MSG_QUIT; "2"; MSG_KILL; "3"; MSG_RESTART; "4"; MSG_SHOW_ROUTES;
   "5"; MSG_SHOW_STATISTICS; "6"; MSG_CLEAN_STATISTICS].

(** What becomes of a connection: [socket], [connect] or [send] fails, or the daemon answers
    with what each [recv] stores until one returns 0 or less. *)
Inductive connection :=
  | No_socket
  | Refused
  | Send_fails
  | Answers (received : list string).

Record client := Client {
  cl_stdin : string;
  cl_net : list connection;
  cl_sent : list string;
  cl_printed : list string }.

Definition set_cl_stdin x c := Client x (cl_net c) (cl_sent c) (cl_printed c).
Definition set_cl_net x c := Client (cl_stdin c) x (cl_sent c) (cl_printed c).
Definition set_cl_sent x c := Client (cl_stdin c) (cl_net c) x (cl_printed c).
Definition set_cl_printed x c := Client (cl_stdin c) (cl_net c) (cl_sent c) x.

Definition print (text : string) : M client unit :=
  modify (λ c, set_cl_printed (cl_printed c ++ [text]) c).

Definition print_line (text : string) : M client unit := print (text +:+ newline).

(** ** Input *)

Definition isspace (a : ascii) : bool :=
  let n := nat_of_ascii a in bool_decide (n = 32%nat) || ((9 <=? n)%nat && (n <=? 13)%nat).

Fixpoint skip_space (s : string) : string :=
  match s with
  | String a s' => if isspace a then skip_space s' else s
  | EmptyString => EmptyString
  end.
(** The characters up to the next white space, and the rest. *)
Fixpoint split_word (s : string) : string * string :=
  match s with
  | String a s' => if isspace a then (EmptyString, s) else
      let '(w, r) := split_word s' in (String a w, r)
  | EmptyString => (EmptyString, EmptyString)
  end.

(** [getchar()] *)
Definition getchar : M client unit :=
  modify (λ c, set_cl_stdin (match cl_stdin c with String _ s => s | EmptyString => EmptyString end) c).
(** [scanf("%s", command)] into the cleared buffer [command]: no bound is given. *)
Definition scan_command : M client string :=
  s ← gets cl_stdin;
  let '(w, r) := split_word (skip_space s) in
  modify (set_cl_stdin r);;
  if strlen w + 1 <=? command_SIZE then mret w else abort OutOfBounds.

(** [strncmp(command, COMMANDS[i], strlen(COMMANDS[i])) == 0] for some [i]. *)
Definition check_command (command : string) : M client bool :=
  if existsb (λ c, is_command c command) COMMANDS then mret true
  else print_line "Command no valid.";; mret false.

(** The loop of [get_command]; each round that finds input uses some of it up. *)
Fixpoint get_command_loop (fuel : nat) : M client string :=
  match fuel with
  | O => abort Diverges
  | S fuel =>
      print (newline +:+ "Write a valid command. If you don't know write help:" +:+ newline +:+ "> ");;
      getchar;;
      command ← scan_command;
      ok ← check_command command;
      if (ok : bool) then mret command else get_command_loop fuel
  end.
Definition input_rounds : M client nat := gets (λ c, S (String.length (cl_stdin c))).
Definition get_command : M client string := fuel ← input_rounds; get_command_loop fuel.

Definition is_help_command (command : string) : bool :=
  is_command MSG_HELP command || is_command "0" command.
Definition is_quit_command (command : string) : bool :=
  is_command MSG_QUIT command || is_command "1" command.
Definition help_command : M client unit := print HELP_COMMAND.

(** ** Sending *)

(** The loop of [send_command]: the name for a number, every second entry being looked at. *)
Fixpoint command_name (commands : list string) (command : string) : string :=
  match commands with
  | number :: name :: commands' =>
      if is_command number command then name else command_name commands' command
  | _ => command
  end.

(** [snprintf(buf, bufsize, command)] takes the command as the format: ["%%"] is a percent
    sign, and another conversion has no argument. *)
Fixpoint format_of (s : string) : option string :=
  match s with
  | EmptyString => Some EmptyString
  | String "%" (String "%" s') => String "%" <$> format_of s'
  | String "%" _ => None
  | String a s' => String a <$> format_of s'
  end.

(** [printf("%s", buf)] stops at a zero byte. *)
Fixpoint c_string (s : string) : string :=
  match s with
  | String a s' => if bool_decide (a = Ascii.zero) then EmptyString else String a (c_string s')
  | EmptyString => EmptyString
  end.

(** [buf[numbytes] = 0] behind what was received. *)
Definition print_reply (received : list string) : M client unit :=
  for_each received (λ r,
    if strlen r <? reply_size then print (c_string r) else abort OutOfBounds).

Definition next_connection : M client connection :=
  net ← gets cl_net;
  match net with
  | k :: net => modify (set_cl_net net);; mret k
  | [] => mret No_socket
  end.

Definition send_command (command : string) : M client Z :=
  let command := command_name COMMANDS command in
  k ← next_connection;
  match k with
  | No_socket => print_line "I can't connect to Meshias daemon";; mret (-1)
  | Refused => print_line "Meshias is not running or I can't find it";; mret (-1)
  | Send_fails =>
      demand Uninitialised (format_of command);;
      print_line "I can't send that command to Meshias daemon";; mret (-1)
  | Answers received =>
      text ← demand Uninitialised (format_of command);
      modify (λ c, set_cl_sent (cl_sent c ++ [text]) c);;
      print_reply received;;
      mret 0
  end.

(** ** main *)

Fixpoint client_loop (fuel : nat) : M client unit :=
  match fuel with
  | O => abort Diverges
  | S fuel =>
      command ← get_command;
      if is_help_command command then help_command;; client_loop fuel
      else if is_quit_command command then mret tt
      else send_command command;; client_loop fuel
  end.

Definition usage (argv0 : string) : string :=
  String.concat newline
    ["usage: " +:+ argv0 +:+ " <server>"; ""; "example:";
     String (ascii_of_nat 9) argv0 +:+ " localhost"; ""].
Definition show_command_help (argv0 : string) : M client unit := print (usage argv0).

(** [host]: whether [gethostbyname] finds the daemon's host; [exit(-1)] otherwise. *)
Definition client_main (argc : Z) (argv0 : string) (host : bool) : M client Z :=
  if negb (argc =? 2) then show_command_help argv0;; mret (-1)
  else if negb host then print_line "gethostbyname() error";; mret (-1)
  else
    fuel ← input_rounds;
    client_loop fuel;;
    mret 0.
