(* ===== verification/MainLoop.v ===== *)
(** * meshias.c, msh_data.c and the sockets: start, main loop and shutdown

    What [recv], [recvmsg] and [select] return are inputs.  The local variable
    [next] of [main] has no value until an alarm has been found. *)

From S2P Require Export Nfqueue Comm.

Section main.
Context `{E : Env}.

(** ** Start and end *)

(** [memset(&data, 0, ...)], then the interface's index and addresses, which libnl
    reports in network byte order. *)
Definition init_data (net_iface local broadcast : Z) : msh_data_t :=
  MshData false net_iface (ntohl local) (ntohl broadcast) 0 0 0.

Definition packets_fifo_alloc : M world unit := modify (set_w_packets []).

(** The part of [msh_data_init] after the sockets: it returns 1. *)
Definition msh_data_init (net_iface local broadcast : Z) : M world Z :=
  modify (λ w, set_w_stats stats_init (set_w_data (init_data net_iface local broadcast) w));;
  routing_table_alloc;;
  rreq_fifo_alloc;;
  packets_fifo_alloc;;
  init_alarm AL_flush None fn_process_wait_queue_cb;;
  mret 1.

Definition msh_data_shutdown : M world unit :=
  del_alarm AL_flush;;
  routing_table_delete;;
  rreq_fifo_delete;;
  packets_fifo_delete.

(** ** The sockets *)

(** The packets of a netlink message, in order; [None]: [recv] failed. *)
Definition nfqueue_receive_packet (received : option (list nfq_data)) : M world unit :=
  match received with
  | Some packets => for_each packets (λ nfa, manage_packet nfa;; mret tt)
  | None => stat_incr Stat.error_nfq_recv
  end.

Definition aodv_socket_receive_packet (received : option (msghdr * Z)) : M world unit :=
  match received with
  | Some (msg, numbytes) => aodv_process_packet msg numbytes
  | None => stat_incr Stat.error_aodv_recv
  end.

(** ** The main loop *)

(** The descriptors [select] reports, with what is read from them. *)
Record ready := Ready {
  rd_nfqueue : option (option (list nfq_data));
  rd_daemon : option (option (msghdr * Z));
  rd_comm : option (option string) }.

Definition isset {A} (fd : option A) (receive : A → M world unit) : M world unit :=
  match fd with Some x => receive x | None => mret tt end.

Definition receive_ready (rd : ready) : M world unit :=
  isset (rd_nfqueue rd) nfqueue_receive_packet;;
  isset (rd_daemon rd) aodv_socket_receive_packet;;
  isset (rd_comm rd) comm_interface_receive_packets.

(** [next_run = get_next_alarm_run(&next)]: [next] keeps its value without alarms. *)
Definition update_next (next : option timeval) : M world (option timeval) :=
  run ← get_next_alarm_run;
  mret (match run with Some _ => run | None => next end).

(** The inner loop, over the results of [select] until it returns 0 or less. *)
Fixpoint select_loop (wakeups : list ready) (next : option timeval) : M world (option timeval) :=
  match wakeups with
  | [] => mret next
  | rd :: wakeups' =>
      stop ← data md_end;
      if (stop : bool) then mret next
      else
        receive_ready rd;;
        next' ← update_next next;
        select_loop wakeups' next'
  end.

(** One round of the outer loop. *)
Definition main_round (wakeups : list ready) (next : option timeval) : M world (option timeval) :=
  next ← select_loop wakeups next;
  next ← update_next next;
  tv ← demand Uninitialised next;
  run ← run_alarms tv;
  mret (match run with Some _ => run | None => Some tv end).

(** The rounds until [data.end], with the wake-ups of each. *)
Fixpoint main_loop (rounds : list (list ready)) (next : option timeval) : M world (option timeval) :=
  match rounds with
  | [] => mret next
  | wakeups :: rounds' =>
      stop ← data md_end;
      if (stop : bool) then mret next
      else next' ← main_round wakeups next; main_loop rounds' next'
  end.
End main.
