(* ===== verification/Boot.v ===== *)
(** * main from start to end

    The whole of [msh_data_init], [msh_data_shutdown] and [main]: the sockets of [Startup],
    the look-up of the interface through libnl, and the state and the loop of [MainLoop]. *)

From S2P Require Export MainLoop Startup.

(** What libnl finds: the index of the interface named on the command line, and the local
    and the broadcast address, in network byte order, of each of its IPv4 addresses. *)
Class Rtnl (E : Type) := {
  rtnl_link_get_by_name : M E (option Z);
  rtnl_addresses : Z → M E (list (Z * Z)) }.

Section boot.
Context `{Env} {E : Type} `{Nfnetlink E, Os E, Rtnl E}.

Record boot := Boot { bt_start : startup E; bt_world : world }.

Definition on_start {X} (m : M (startup E) X) : M boot X := λ b,
  match m (bt_start b) with
  | Ok x s => Ok x (Boot s (bt_world b))
  | Fault f => Fault f
  end.
Definition on_world {X} (m : M world X) : M boot X := λ b,
  match m (bt_world b) with
  | Ok x w => Ok x (Boot (bt_start b) w)
  | Fault f => Fault f
  end.

(** [__init_addr] runs for every address and overwrites what the one before stored; without
    any, [data] keeps its zeros. *)
Definition interface_address (addresses : list (Z * Z)) : Z * Z := default (0, 0) (last addresses).

(** The first statement of [msh_data_init]. *)
Definition clear_data : M world unit := modify (set_w_data (init_data 0 0 0)).

Definition msh_data_init_main (argc : Z) : M boot init_end :=
  on_world clear_data;;
  r ← on_start (msh_data_init_sockets argc);
  match r with
  | Goes_on =>
      link ← on_start (os rtnl_link_get_by_name);
      match link with
      | None => mret (Returns ERR_INIT)
      | Some net_iface =>
          addresses ← on_start (os (rtnl_addresses net_iface));
          let '(local, broadcast) := interface_address addresses in
          r ← on_world (msh_data_init net_iface local broadcast);
          mret (Returns r)
      end
  | stop => mret stop
  end.

Definition msh_data_shutdown_main : M boot unit :=
  on_world msh_data_shutdown;;
  on_start msh_data_shutdown_sockets.

(** The exit status; [rounds]: the wake-ups of the main loop. *)
Definition main (argc : Z) (rounds : list (list ready)) : M boot Z :=
  r ← msh_data_init_main argc;
  match r with
  | Exits status => mret status
  | Returns errno =>
      if errno <? 0 then mret errno
      else
        on_world (main_loop rounds None);;
        msh_data_shutdown_main;;
        mret 0
  | Goes_on => mret 0
  end.
End boot.

Arguments boot E : clear implicits.
