(* ===== verification/Network.v ===== *)
(** * A network of daemons

    Several hosts run the daemon, each in its own environment; [near i j] says that what
    host [i] transmits reaches host [j].  The state of the network is the list of the
    hosts' states: the datagrams on the air are the [EvSend] events of the hosts' logs
    whose [sendto] did not fail, so that a datagram may be delivered late, several times,
    to every host in range or never.
    A delivery is what [recvmsg] (sockets/aodv_socket.c) makes of a datagram: the address
    of the sender, the bytes that fit the buffer, the time to live. *)

From S2P Require Export MainLoop.

Definition BUF_SIZE : nat := 1024.

(** [recvmsg] on a datagram [bs] of the host with address [src] (host order): the buffer
    was cleared before. *)
Definition recvmsg_result (src ttl : Z) (bs : bytes) : msghdr * Z :=
  (MsgHdr (Some (SockAddr AF_INET (htons AODV_UDP_PORT) (htonl src)))
     (Some (take BUF_SIZE (bs ++ replicate BUF_SIZE 0)))
     [CMsg SOL_IP IP_TTL (le32 ttl)],
   Z.of_nat (length bs `min` BUF_SIZE)).

(** The datagram is for the host: its address or the broadcast address. *)
Definition for_host (address : Z) (d : msh_data_t) : bool :=
  (address =? htonl (md_ip_addr d)) || (address =? htonl (md_broadcast_addr d)).

(** What the host [dst] receives of the event [ev] of the host [src]: nothing when
    [sendto] failed; datagrams without a time to live do not leave their host. *)
Definition delivery (src dst : msh_data_t) (ev : event) : option (msghdr * Z) :=
  match ev with
  | EvSend numbytes address _ ttl (Some bs) =>
      if (0 <=? numbytes) && (0 <? ttl) && for_host address dst then Some (recvmsg_result (md_ip_addr src) ttl bs) else None
  | _ => None
  end.

(** ** Steps *)

(** The events of the main loop that are not datagrams. *)
Inductive host_event :=
  | Captured (msgs : option (list nfq_data))
  | Command (received : option string)
  | Alarms (next : timeval)
  | NextAlarm.

Definition host_run `{E : Env} (e : host_event) : M world unit :=
  match e with
  | Captured msgs => nfqueue_receive_packet msgs
  | Command received => comm_interface_receive_packets received
  | Alarms next => run_alarms next;; mret tt
  | NextAlarm => get_next_alarm_run;; mret tt
  end.

Definition host_receive (E : Env) (rcv : msghdr * Z) : M world unit :=
  aodv_socket_receive_packet (Some rcv).

Section network.
Context (envs : nat → Env) (near : nat → nat → Prop) (event_ok : host_event → Prop).

(** One step: an event at the host [i], or the delivery of a datagram of [i] to [j]. *)
Inductive net_step (ws : list world) : list world → Prop :=
  | net_host i w e w' :
      ws !! i = Some w → event_ok e → host_run (E:=envs i) e w = Ok tt w' →
      net_step ws (<[i := w']> ws)
  | net_deliver i j wi wj ev rcv w' :
      near i j → ws !! i = Some wi → ws !! j = Some wj → ev ∈ w_trace wi →
      delivery (w_data wi) (w_data wj) ev = Some rcv →
      host_receive (envs j) rcv wj = Ok tt w' →
      net_step ws (<[j := w']> ws).

Definition net_run : list world → list world → Prop := rtc net_step.
End network.

(** ** Schedules

    A run given as a list: which host does what, which datagram arrives where. *)

Inductive net_action :=
  | Act (i : nat) (e : host_event)
  | Deliver (i j : nat) (k : nat)   (* the [k]th event of the log of [i] to [j] *).

Definition after {A} (r : outcome world A) : option world :=
  match r with Ok _ w => Some w | Fault _ => None end.

Definition net_do (envs : nat → Env) (a : net_action) (ws : list world) : option (list world) :=
  match a with
  | Act i e =>
      w ← ws !! i;
      w' ← after (host_run (E:=envs i) e w);
      Some (<[i := w']> ws)
  | Deliver i j k =>
      wi ← ws !! i;
      wj ← ws !! j;
      ev ← w_trace wi !! k;
      rcv ← delivery (w_data wi) (w_data wj) ev;
      w' ← after (host_receive (envs j) rcv wj);
      Some (<[j := w']> ws)
  end.

Fixpoint net_do_all (envs : nat → Env) (l : list net_action) (ws : list world) : option (list world) :=
  match l with
  | [] => Some ws
  | a :: l => match net_do envs a ws with Some ws' => net_do_all envs l ws' | None => None end
  end.

(** How often a schedule delivers the [k]th event of the log of [i] to [j]. *)
Definition is_delivery (i j k : nat) (a : net_action) : bool :=
  match a with
  | Deliver i' j' k' => bool_decide (i' = i) && bool_decide (j' = j) && bool_decide (k' = k)
  | Act _ _ => false
  end.
Definition delivered_times (l : list net_action) (i j k : nat) : nat :=
  length (filter (λ a, is_delivery i j k a = true) l).

(** In the run of [l] that ended with [ws] nothing was lost or repeated: every datagram
    that a host has sent was delivered, once, to every host in range that it was for. *)
Definition lossless (near : nat → nat → bool) (l : list net_action) (ws : list world) : Prop :=
  ∀ i j k wi wj ev rcv, near i j = true → ws !! i = Some wi → ws !! j = Some wj → w_trace wi !! k = Some ev →
    delivery (w_data wi) (w_data wj) ev = Some rcv → delivered_times l i j k = 1%nat.

(** The same, computed. *)
Definition lossless_at (near : nat → nat → bool) (l : list net_action) (ws : list world) (i j k : nat) : bool :=
  match ws !! i, ws !! j with
  | Some wi, Some wj =>
      match w_trace wi !! k ≫= delivery (w_data wi) (w_data wj) with
      | Some _ => negb (near i j) || bool_decide (delivered_times l i j k = 1%nat)
      | None => true
      end
  | _, _ => true
  end.
Definition losslessb (near : nat → nat → bool) (l : list net_action) (ws : list world) : bool :=
  forallb (λ i, forallb (λ j, forallb (lossless_at near l ws i j)
    (seq 0 (length (from_option w_trace [] (ws !! i))))) (seq 0 (length ws))) (seq 0 (length ws)).
