(* ===== verification/Invariant.v ===== *)
(** * The invariant of the daemon's state

    [world_ok] is what holds between two events of the main loop: the pointers the
    structures keep are live, the intrusive lists and the objects they link agree,
    the timers belong to live objects and call the callback of that object, at most
    one route per destination is in the table, and every field fits its C type.
    [stable] and [quiet] say what the operations on routes leave alone. *)

From S2P Require Export MainLoop Kernel.

(** ** Types *)

(** The expiry of the route is up to the daemon. *)
Definition managed (r : msh_route) : bool := negb (has_flag (rt_flags r) RTFLAG_UNMANAGED).

(** The fields of a route fit their types; the daemon only creates host routes, and
    none that it does not manage. *)
Record route_ok (r : msh_route) : Prop := {
  ro_dst_ip : is_u32 (rt_dst_ip r);
  ro_prefix_sz : rt_prefix_sz r = 0;
  ro_dest_seq_num : is_u32 (rt_dest_seq_num r);
  ro_flags : is_u16 (rt_flags r);
  ro_hop_count : is_u8 (rt_hop_count r);
  ro_next_hop : is_u32 (rt_next_hop r);
  ro_managed : managed r = true }.

Record rreq_entry_ok (e : rreq_fifo) : Prop := {
  reo_rreq_id : is_u32 (rf_rreq_id e);
  reo_dst : is_u32 (rf_dst e);
  reo_prev_tries : -1 ≤ rf_prev_tries e ≤ RREQ_RETRIES }.

Record pkt_ok (p : aodv_pkt) : Prop := {
  po_payload bs : pk_payload p = Some bs → bytes_ok bs ∧ pk_payload_len p = Z.of_nat (length bs);
  po_empty : pk_payload p = None → pk_payload_len p = 0;
  po_len : 0 ≤ pk_payload_len p < 2 ^ 31;
  po_address : is_u32 (pk_address p);
  po_ttl : is_u8 (pk_ttl p) }.

Record data_ok (d : msh_data_t) : Prop := {
  do_ip_addr : is_u32 (md_ip_addr d);
  do_broadcast_addr : is_u32 (md_broadcast_addr d);
  do_seq_num : is_u32 (md_seq_num d);
  do_rreq_id : is_u32 (md_rreq_id d);
  do_num_rreq_sent : is_u32 (md_num_rreq_sent d) }.

(** ** Structure *)

Definition in_table (r : msh_route) : Prop :=
  rt_updated_cb r = Some fn_routing_table_route_updated_cb.

(** The list of the table holds exactly the live routes that carry its callback, and
    no two of them have the same destination; the scratch route is not one of them. *)
Record table_ok (routes : gmap addr msh_route) (table : list addr) (find_route : addr) : Prop := {
  to_nodup : NoDup table;
  to_linked a : a ∈ table ↔ ∃ r, routes !! a = Some r ∧ in_table r;
  to_unique a b ra rb : a ∈ table → b ∈ table → routes !! a = Some ra → routes !! b = Some rb →
    rt_dst_ip ra = rt_dst_ip rb → a = b;
  to_find_route : ∃ r, routes !! find_route = Some r ∧ ¬ in_table r;
  to_routes a r : routes !! a = Some r → route_ok r }.

Record queue_ok (rreqs : gmap addr rreq_fifo) (queue : list addr) : Prop := {
  qo_nodup : NoDup queue;
  qo_linked a : a ∈ queue ↔ is_Some (rreqs !! a);
  qo_entries a e : rreqs !! a = Some e → rreq_entry_ok e }.

(** Every live object has its alarm block, every block belongs to a live object and
    calls that object's callback; the scratch route has no pending alarm. *)
Record blocks_ok (routes : gmap addr msh_route) (rreqs : gmap addr rreq_fifo)
    (find_route : addr) (blocks : gmap alarm_id alarm_block) : Prop := {
  bo_route a : is_Some (routes !! a) → is_Some (blocks !! AL_route a);
  bo_rreq a : is_Some (rreqs !! a) → is_Some (blocks !! AL_rreq a);
  bo_flush : is_Some (blocks !! AL_flush);
  bo_owner id b : blocks !! id = Some b →
    match id with
    | AL_route a => is_Some (routes !! a) ∧ ab_function b = fn_msh_route_alarm_cb ∧
                    ab_data b = Some a
    | AL_rreq a => is_Some (rreqs !! a) ∧ ab_function b = fn_rreq_fifo_alarm_cb ∧
                   ab_data b = Some a
    | AL_flush => ab_function b = fn_process_wait_queue_cb
    end;
  bo_find_route b : blocks !! AL_route find_route = Some b → ab_linked b = false }.

(** Nothing lives at or above the allocation mark. *)
Record heap_ok (brk : addr) (routes : gmap addr msh_route) (rreqs : gmap addr rreq_fifo)
    (packets : list packets_fifo) (pkts : gmap addr aodv_pkt) : Prop := {
  ho_routes a : is_Some (routes !! a) → (a < brk)%positive;
  ho_rreqs a : is_Some (rreqs !! a) → (a < brk)%positive;
  ho_packets e : e ∈ packets → (pf_addr e < brk)%positive ∧ is_u32 (pf_dest e);
  ho_pkts a : is_Some (pkts !! a) → (a < brk)%positive;
  ho_packets_nodup : NoDup (pf_addr <$> packets);
  ho_handles a n : handle routes a = Some n → (n < brk)%positive;
  ho_pkts_ok a p : pkts !! a = Some p → pkt_ok p }.

Record world_ok (w : world) : Prop := {
  wo_heap : heap_ok (w_brk w) (w_routes w) (w_rreqs w) (w_packets w) (w_pkts w);
  wo_table : table_ok (w_routes w) (w_table w) (w_find_route w);
  wo_queue : queue_ok (w_rreqs w) (w_rreq_queue w);
  wo_alarms : alarms_ok (w_alarms w);
  wo_blocks : blocks_ok (w_routes w) (w_rreqs w) (w_find_route w) (al_blocks (w_alarms w));
  wo_data : data_ok (w_data w) }.

(** ** Observations *)

(** The ids that got a verdict, and the packets sent. *)
Definition verdict_ids (t : list event) : list Z :=
  omap (λ ev, match ev with EvVerdict id _ => Some id | _ => None end) t.
Definition is_send (ev : event) : bool :=
  match ev with EvSend _ _ _ _ _ => true | _ => false end.
Definition sent (t : list event) : list event := filter (λ ev, is_send ev = true) t.

(** The packets the kernel handed over and that are accounted for: those that got a
    verdict and those that still wait for one. *)
Definition ledger (w : world) : list Z :=
  verdict_ids (w_trace w) ++ (pf_id <$> w_packets w).

Lemma verdict_ids_app t1 t2 : verdict_ids (t1 ++ t2) = verdict_ids t1 ++ verdict_ids t2.
Proof. apply omap_app. Qed.
Lemma sent_app t1 t2 : sent (t1 ++ t2) = sent t1 ++ sent t2.
Proof. apply filter_app. Qed.

(** A datagram of the protocol: a RREQ or a RREP, all of it there. *)
Definition whole_message (bs : bytes) : Prop :=
  head bs = Some AODV_RREQ ∧ 24 ≤ Z.of_nat (length bs) ∨
  head bs = Some AODV_RREP ∧ 20 ≤ Z.of_nat (length bs).
Definition aodv_message (bs : bytes) : Prop :=
  bytes_ok bs ∧ Z.of_nat (length bs) < 2 ^ 31 ∧ whole_message bs.
Definition message_ok (ev : event) : Prop :=
  match ev with
  | EvSend _ address _ ttl payload =>
      is_u32 address ∧ is_u8 ttl ∧ from_option aodv_message False payload
  | _ => True
  end.

(** The kernel has the routes of the table. *)
Definition in_kernel (w : world) : Prop :=
  kernel_ok (w_routes w) (w_table w) (installed (w_trace w)) (md_net_iface (w_data w)).

(** Everything sent so far is a message. *)
Definition messages_ok (w : world) : Prop := Forall message_ok (w_trace w).

(** ** What an operation leaves alone *)

(** The log grows, and what is sent are messages of the protocol. *)
Definition logs (t t' : list event) : Prop := ∃ evs, t' = t ++ evs ∧ Forall message_ok evs.

#[export] Instance logs_preorder : PreOrder logs.
Proof.
  split; [intros t; exists []; by rewrite app_nil_r|].
  intros t1 t2 t3 (l & -> & Hl) (l' & -> & Hl'). exists (l ++ l').
  split; [by rewrite (assoc_L (++))|by apply Forall_app].
Qed.

Lemma logs_messages w w' : logs (w_trace w) (w_trace w') → messages_ok w → messages_ok w'.
Proof. unfold messages_ok. intros (evs & -> & Hm) ?. by apply Forall_app. Qed.
Lemma logs_elem t t' ev : logs t t' → ev ∈ t → ev ∈ t'.
Proof. intros (evs & -> & _) ?. apply elem_of_app. by left. Qed.
Lemma logs_app t evs : Forall message_ok evs → logs t (t ++ evs).
Proof. intros. by exists evs. Qed.
Lemma logs_event t ev : message_ok ev → logs t (t ++ [ev]).
Proof. intros. by apply logs_app, Forall_singleton. Qed.
Lemma silent_messages t : sent t = [] → Forall message_ok t.
Proof. induction t as [|[] t IH]; [done|done|intros; constructor; [done|by apply IH]..]. Qed.

(** Only messages of the protocol are sent, the kernel goes on having the routes of the
    table, the node's addresses do not change, nor whether the daemon was told to end. *)
Record speaks (w w' : world) : Prop := {
  sk_log : logs (w_trace w) (w_trace w');
  sk_kernel : in_kernel w → in_kernel w';
  sk_net_iface : md_net_iface (w_data w') = md_net_iface (w_data w);
  sk_ip_addr : md_ip_addr (w_data w') = md_ip_addr (w_data w);
  sk_broadcast_addr : md_broadcast_addr (w_data w') = md_broadcast_addr (w_data w);
  sk_end : md_end (w_data w') = md_end (w_data w) }.

(** The accounting of packets stays balanced, only messages of the protocol are sent,
    the kernel goes on having the routes of the table and the daemon's identity does not
    change. *)
Record balanced (w w' : world) : Prop := {
  bl_ledger : ledger w' ≡ₚ ledger w;
  bl_log : logs (w_trace w) (w_trace w');
  bl_kernel : in_kernel w → in_kernel w';
  bl_find_route : w_find_route w' = w_find_route w;
  bl_net_iface : md_net_iface (w_data w') = md_net_iface (w_data w);
  bl_ip_addr : md_ip_addr (w_data w') = md_ip_addr (w_data w);
  bl_broadcast_addr : md_broadcast_addr (w_data w') = md_broadcast_addr (w_data w);
  bl_end : md_end (w_data w') = md_end (w_data w) }.

(** Besides, no route dies, none leaves the table or changes its destination there, the
    kernel keeps what it has for those of the table, and no timer is stopped. *)
Record stable (w w' : world) : Prop := {
  st_balanced : balanced w w';
  st_live a : is_Some (w_routes w !! a) → is_Some (w_routes w' !! a);
  st_kept a : a ∈ w_table w →
    a ∈ w_table w' ∧ rt_dst_ip <$> w_routes w' !! a = rt_dst_ip <$> w_routes w !! a;
  st_entry a n : a ∈ w_table w → handle (w_routes w) a = Some n →
    handle (w_routes w') a = Some n ∧ installed (w_trace w') !! n = installed (w_trace w) !! n;
  st_armed id : id ∈ al_root (w_alarms w) → id ∈ al_root (w_alarms w') }.

(** Besides, nothing is sent and only routes, timers and waiting packets (and, for
    [hushed], the AODV packets) change. *)
Record hushed (w w' : world) : Prop := {
  hu_stable : stable w w';
  hu_sent : sent (w_trace w') = sent (w_trace w);
  hu_data : w_data w' = w_data w;
  hu_rreqs : w_rreqs w' = w_rreqs w;
  hu_rreq_queue : w_rreq_queue w' = w_rreq_queue w }.

Record quiet (w w' : world) : Prop := {
  qu_hushed : hushed w w';
  qu_pkts : w_pkts w' = w_pkts w }.

(** The routes of the table lead where they led, those to [d] apart. *)
Definition hop_kept (w w' : world) (a : addr) : Prop :=
  rt_next_hop <$> w_routes w' !! a = rt_next_hop <$> w_routes w !! a.
Definition hops_kept (d : Z) (w w' : world) : Prop := ∀ a,
  a ∈ w_table w → rt_dst_ip <$> w_routes w !! a ≠ Some d → hop_kept w w' a.

(** Besides, nothing at all is done outside and only fields of routes (and no next hop
    of the table), timers and counters change. *)
Record inward (w w' : world) : Prop := {
  in_quiet : quiet w w';
  in_same_table : w_table w' = w_table w;
  in_packets : w_packets w' = w_packets w;
  in_trace : w_trace w' = w_trace w;
  in_hops a : a ∈ w_table w → hop_kept w w' a }.

(** The table is as it was and every route of it leads where it led. *)
Record hops_same (w w' : world) : Prop := {
  sm_table : w_table w' = w_table w;
  sm_hops a : a ∈ w_table w → hop_kept w w' a }.

(** Between the two: the table and the queue of packets are as they were, only the route
    to [d] may lead elsewhere. *)
Record local (d : Z) (w w' : world) : Prop := {
  lo_quiet : quiet w w';
  lo_table : w_table w' = w_table w;
  lo_packets : w_packets w' = w_packets w;
  lo_hops : hops_kept d w w' }.

(** At most a route to [d] enters the table and packets for [d] are released. *)
Record learns (d : Z) (w w' : world) : Prop := {
  le_quiet : quiet w w';
  le_hops : hops_kept d w w';
  le_table a : a ∈ w_table w' → a ∈ w_table w ∨ rt_dst_ip <$> w_routes w' !! a = Some d;
  le_packets : filter (λ e, pf_dest e ≠ d) (w_packets w') = filter (λ e, pf_dest e ≠ d) (w_packets w) }.

#[export] Instance speaks_preorder : PreOrder speaks.
Proof. split; [done|]. intros w1 w2 w3 [] []. split; [by etrans|auto|congruence..]. Qed.

#[export] Instance balanced_preorder : PreOrder balanced.
Proof. split; [done|]. intros w1 w2 w3 [] []. split; [by etrans|by etrans|auto|congruence..]. Qed.

#[export] Instance stable_preorder : PreOrder stable.
Proof.
  split; [done|]. intros w1 w2 w3 [? ? H1 E1 ?] [? ? H2 E2 ?]. split; [by etrans|auto| | |auto].
  - intros a [Ha1 <-]%H1. by apply H2.
  - intros a n Ha Hn. destruct (E1 a n Ha Hn) as [Hn2 <-]. apply E2; [by apply H1|done].
Qed.

#[export] Instance hushed_preorder : PreOrder hushed.
Proof. split; [done|]. intros w1 w2 w3 [] []. split; [by etrans|congruence..]. Qed.

#[export] Instance quiet_preorder : PreOrder quiet.
Proof. split; [done|]. intros w1 w2 w3 [] []. split; [by etrans|congruence]. Qed.

#[export] Instance inward_preorder : PreOrder inward.
Proof.
  split; [done|]. intros w1 w2 w3 [? Ht1 ? ? H1] [? Ht2 ? ? H2]. split; [by etrans|congruence..|].
  intros a Ha. unfold hop_kept. rewrite <-H1 by done. apply H2. by rewrite Ht1.
Qed.

#[export] Instance hops_same_preorder : PreOrder hops_same.
Proof.
  split; [done|]. intros w1 w2 w3 [Ht1 H1] [Ht2 H2]. split; [congruence|].
  intros a Ha. unfold hop_kept. rewrite <-H1 by done. apply H2. by rewrite Ht1.
Qed.

Lemma hops_kept_trans d w1 w2 w3 :
  quiet w1 w2 → hops_kept d w1 w2 → hops_kept d w2 w3 → hops_kept d w1 w3.
Proof.
  intros [[[_ _ Hk _ _] _ _ _ _] _] H1 H2 a Ha Hd. unfold hop_kept. rewrite <-H1 by done.
  apply Hk in Ha as [Ha Hdst]. apply H2; [done|]. by rewrite Hdst.
Qed.

#[export] Instance local_preorder d : PreOrder (local d).
Proof.
  split; [done|]. intros w1 w2 w3 [] []. split; [by etrans|congruence..|by eapply hops_kept_trans].
Qed.

#[export] Instance learns_preorder d : PreOrder (learns d).
Proof.
  split; [by split; [| |left|]|]. intros w1 w2 w3 [Hq1 Hh1 Ht1 Hp1] [Hq2 Hh2 Ht2 Hp2].
  split; [by etrans|by eapply hops_kept_trans| |congruence]. intros a [Ha|Ha]%Ht2; [|by right].
  assert (rt_dst_ip <$> w_routes w3 !! a = rt_dst_ip <$> w_routes w2 !! a) as ->.
  { apply Hq2, Ha. }
  by apply Ht1.
Qed.

(** [R] is finer than [R']. *)
Class Finer (R R' : world → world → Prop) : Prop := finer w w' : R w w' → R' w w'.
#[export] Hint Mode Finer ! ! : typeclass_instances.

#[export] Instance finer_refl R : Finer R R | 0.
Proof. by intros w w'. Qed.
#[export] Instance balanced_finer R : Finer speaks R → Finer balanced R | 1.
Proof. intros HR w w' []. by apply HR. Qed.
#[export] Instance stable_finer R : Finer balanced R → Finer stable R | 1.
Proof. intros HR w w' []. by apply HR. Qed.
#[export] Instance hushed_finer R : Finer stable R → Finer hushed R | 1.
Proof. intros HR w w' []. by apply HR. Qed.
#[export] Instance quiet_finer R : Finer hushed R → Finer quiet R | 1.
Proof. intros HR w w' []. by apply HR. Qed.
#[export] Instance inward_finer R : Finer quiet R → Finer inward R | 1.
Proof. intros HR w w' []. by apply HR. Qed.

#[export] Instance local_finer d R : Finer quiet R → Finer (local d) R | 1.
Proof. intros HR w w' []. by apply HR. Qed.
#[export] Instance learns_finer d R : Finer quiet R → Finer (learns d) R | 1.
Proof. intros HR w w' []. by apply HR. Qed.
#[export] Instance local_learns d : Finer (local d) (learns d) | 1.
Proof. intros w w' [Hq Ht Hp Hh]. split; [done|done|rewrite Ht; by left|by rewrite Hp]. Qed.
#[export] Instance inward_local d : Finer inward (local d) | 0.
Proof. intros w w' [? ? ? _ Hh]. split; [done..|]. intros a Ha _. by apply Hh. Qed.
#[export] Instance inward_hops_same : Finer inward hops_same | 0.
Proof. by intros w w' []. Qed.
#[export] Instance inward_learns d : Finer inward (learns d) | 0.
Proof. intros w w' Hi. by apply local_learns, inward_local. Qed.

Lemma inward_to R `{HR : !Finer inward R} w w' : inward w w' → R w w'.
Proof. apply HR. Qed.
Lemma quiet_to R `{HR : !Finer quiet R} w w' : quiet w w' → R w w'.
Proof. apply HR. Qed.

(** Reduce a goal [R w w'] to the finest relation. *)
Ltac from_inward := lazymatch goal with |- ?R ?w ?w' => apply (inward_to R w w') end.
Ltac from_quiet := lazymatch goal with |- ?R ?w ?w' => apply (quiet_to R w w') end.

Lemma hushed_is_stable w w' : hushed w w' → stable w w'.
Proof. by intros []. Qed.
Lemma quiet_is_hushed w w' : quiet w w' → hushed w w'.
Proof. by intros []. Qed.
Lemma quiet_is_stable w w' : quiet w w' → stable w w'.
Proof. by intros [[] _]. Qed.
Lemma stable_is_balanced w w' : stable w w' → balanced w w'.
Proof. by intros []. Qed.
#[export] Hint Resolve quiet_is_hushed hushed_is_stable quiet_is_stable stable_is_balanced : msh.

(** ** Basic facts *)

Section facts.
Context `{E : Env}.
Implicit Types w : world.

Lemma quiet_live w w' a : quiet w w' → is_Some (w_routes w !! a) → is_Some (w_routes w' !! a).
Proof. intros Hq. apply quiet_is_stable in Hq as []. auto. Qed.

(** A step that only logs and touches fields the invariant does not read. *)

(** The routes of the table and the requests are what they were. *)
Lemma in_kernel_silent w w' evs :
  w_routes w' = w_routes w → w_table w' = w_table w → md_net_iface (w_data w') = md_net_iface (w_data w) →
  w_trace w' = w_trace w ++ evs → Forall (λ ev, asks ev = false) evs → in_kernel w → in_kernel w'.
Proof. intros Hr Ht Hd Htr Hevs. unfold in_kernel. by rewrite Hr, Ht, Hd, Htr, installed_silent. Qed.

Lemma in_kernel_event w w' ev :
  w_routes w' = w_routes w → w_table w' = w_table w → md_net_iface (w_data w') = md_net_iface (w_data w) →
  w_trace w' = w_trace w ++ [ev] → asks ev = false → in_kernel w → in_kernel w'.
Proof. intros. eapply in_kernel_silent; [done..|by apply Forall_singleton|done]. Qed.

Lemma event_speaks w ev :
  message_ok ev → asks ev = false → speaks w (set_w_trace (w_trace w ++ [ev]) w).
Proof. intros. split; [by apply logs_event|by eapply in_kernel_event|done..]. Qed.

(** The same for the entries of the table. *)
Lemma entry_silent w w' evs :
  w_routes w' = w_routes w → w_trace w' = w_trace w ++ evs → Forall (λ ev, asks ev = false) evs →
  ∀ a n, handle (w_routes w) a = Some n →
  handle (w_routes w') a = Some n ∧ installed (w_trace w') !! n = installed (w_trace w) !! n.
Proof. intros Hr Ht Hevs a n Hn. rewrite Hr, Ht, installed_silent by done. done. Qed.
Lemma entry_event w w' ev :
  w_routes w' = w_routes w → w_trace w' = w_trace w ++ [ev] → asks ev = false →
  ∀ a n, handle (w_routes w) a = Some n →
  handle (w_routes w') a = Some n ∧ installed (w_trace w') !! n = installed (w_trace w) !! n.
Proof. intros. eapply entry_silent; [done..|by apply Forall_singleton|done]. Qed.

Lemma trace_quiet w ev :
  is_send ev = false → verdict_ids [ev] = [] → asks ev = false →
  quiet w (set_w_trace (w_trace w ++ [ev]) w).
Proof.
  intros Hs Hv Ha. split; [|done]. split; simpl; try done.
  - split; [split|..]; simpl; try done.
    + unfold ledger; simpl. by rewrite verdict_ids_app, Hv, app_nil_r.
    + apply logs_event. by destruct ev.
    + by eapply in_kernel_event.
    + intros a n _. by apply (entry_event w (set_w_trace (w_trace w ++ [ev]) w) ev).
  - rewrite sent_app. unfold sent at 2. rewrite filter_cons_False by congruence. by rewrite app_nil_r.
Qed.

Ltac by_inward := by split; [split; [split; [split; [split|..]|..]|..]|..].

Lemma tick_inward w n : inward w (set_w_tick n w).
Proof. by_inward. Qed.

Lemma stats_inward w s : inward w (set_w_stats s w).
Proof. by_inward. Qed.

Lemma alarms_inward w A :
  (∀ id, id ∈ al_root (w_alarms w) → id ∈ al_root A) → inward w (set_w_alarms A w).
Proof. intros. by_inward. Qed.

Lemma brk_inward w b : inward w (set_w_brk b w).
Proof. by_inward. Qed.

Lemma tick_world_ok w n : world_ok w → world_ok (set_w_tick n w).
Proof. by intros []. Qed.

Lemma stats_world_ok w s : world_ok w → world_ok (set_w_stats s w).
Proof. by intros []. Qed.

Lemma trace_world_ok w t : world_ok w → world_ok (set_w_trace t w).
Proof. by intros []. Qed.

Lemma heap_ok_brk w b :
  heap_ok (w_brk w) (w_routes w) (w_rreqs w) (w_packets w) (w_pkts w) → (w_brk w ≤ b)%positive →
  heap_ok b (w_routes w) (w_rreqs w) (w_packets w) (w_pkts w).
Proof.
  intros [H1 H2 H3 H4 H5 H6 H7] Hb. split; try done.
  - intros a Ha%H1. lia.
  - intros a Ha%H2. lia.
  - intros e [He ?]%H3. split; [lia|done].
  - intros a Ha%H4. lia.
  - intros a n Ha%H6. lia.
Qed.

Lemma brk_world_ok w : world_ok w → world_ok (set_w_brk (Pos.succ (w_brk w)) w).
Proof. intros []. split; simpl; try done. apply heap_ok_brk; [done|lia]. Qed.

(** A live route has its alarm block. *)
Lemma route_block w a :
  world_ok w → is_Some (w_routes w !! a) → ∃ b, al_blocks (w_alarms w) !! AL_route a = Some b.
Proof. intros Hw Ha. apply (bo_route _ _ _ _ (wo_blocks _ Hw)) in Ha as [b Hb]. eauto. Qed.

Lemma table_live w a :
  world_ok w → a ∈ w_table w → ∃ r, w_routes w !! a = Some r ∧ in_table r.
Proof. intros Hw Ha. by apply (to_linked _ _ _ (wo_table _ Hw)). Qed.

Lemma find_route_live w :
  world_ok w → ∃ r, w_routes w !! w_find_route w = Some r ∧ ¬ in_table r.
Proof. intros Hw. apply (to_find_route _ _ _ (wo_table _ Hw)). Qed.

Lemma find_route_not_in_table w : world_ok w → w_find_route w ∉ w_table w.
Proof.
  intros Hw (r & Hr & Hin)%(table_live _ _ Hw).
  destruct (find_route_live _ Hw) as (r' & Hr' & Hni). congruence.
Qed.

(** *** Changing a route *)

(** [r'] can replace the route [r] at [a]: it fits its types, stays linked or
    unlinked, has the same libnl object and, in the table, keeps its destination. *)
Definition route_fits (r r' : msh_route) : Prop :=
  route_ok r' ∧ (in_table r' ↔ in_table r) ∧ (in_table r → rt_dst_ip r' = rt_dst_ip r) ∧
  rt_nlroute r' = rt_nlroute r.

(** Besides, it leads where [r] leads. *)
Definition route_step (r r' : msh_route) : Prop :=
  route_fits r r' ∧ (in_table r → rt_next_hop r' = rt_next_hop r).

Lemma replace_route_world_ok w a r r' :
  world_ok w → w_routes w !! a = Some r → route_ok r' → (in_table r' ↔ in_table r) →
  (in_table r → rt_dst_ip r' = rt_dst_ip r) → (∀ n, rt_nlroute r' = Some n → (n < w_brk w)%positive) →
  world_ok (set_w_routes (<[a := r']> (w_routes w)) w).
Proof.
  intros Hw Ha Hok Hlink Hdst Hnl.
  assert (∀ b, is_Some (<[a:=r']> (w_routes w) !! b) ↔ is_Some (w_routes w !! b)) as Hdom.
  { intros b. rewrite lookup_insert_is_Some. split; [|tauto||by (destruct (decide (a = b)); auto)].
    intros [<-|[_ ?]]; eauto. }
  destruct Hw as [Hh Ht Hq Ha' Hb Hd]. split; simpl; try done.
  - destruct Hh as [H1 ? ? ? ? H6 ?]. split; try done.
    + intros b. rewrite Hdom. apply H1.
    + intros b n. unfold handle. rewrite lookup_insert. case_decide; [apply Hnl|apply H6].
  - destruct Ht as [Hnd Hl Hu Hf Hr]. split; try done.
    + intros b. rewrite Hl. split; intros (r0 & Hr0 & Hin).
      * rewrite lookup_insert. case_decide; [subst|by eauto].
        exists r'. split; [done|]. apply Hlink. congruence.
      * rewrite lookup_insert in Hr0. case_decide; [subst|by eauto].
        exists r. split; [done|]. apply Hlink. congruence.
    + intros b c rb rc Hb' Hc' Hrb Hrc Heq.
      apply Hl in Hb' as Hb''. apply Hl in Hc' as Hc''.
      destruct Hb'' as (rb0 & Hrb0 & ?), Hc'' as (rc0 & Hrc0 & ?).
      apply (Hu b c rb0 rc0); [done..|].
      assert (rt_dst_ip rb = rt_dst_ip rb0) as <-.
      { rewrite lookup_insert in Hrb. case_decide; simplify_eq; auto. }
      assert (rt_dst_ip rc = rt_dst_ip rc0) as <-; [|done].
      rewrite lookup_insert in Hrc. case_decide; simplify_eq; auto.
    + destruct Hf as (rf & Hrf & Hni). rewrite lookup_insert. case_decide; [subst|by eauto].
      exists r'. split; [done|]. rewrite Hlink. congruence.
    + intros b rb. rewrite lookup_insert. case_decide; [by intros [= <-]|apply Hr].
  - destruct Hb as [H1 H2 H3 H4 H5]. split; try done.
    + intros b. rewrite Hdom. auto.
    + intros id b Hid. specialize (H4 id b Hid). destruct id; [|done..]. by rewrite Hdom.
Qed.

Lemma upd_route_world_ok w a r r' :
  world_ok w → w_routes w !! a = Some r → route_fits r r' →
  world_ok (set_w_routes (<[a := r']> (w_routes w)) w).
Proof.
  intros Hw Ha (Hok & Hlink & Hdst & Hnl). eapply replace_route_world_ok; [done..|].
  intros n. rewrite Hnl. intros Hn. apply (ho_handles _ _ _ _ _ (wo_heap _ Hw) a). unfold handle. by rewrite Ha.
Qed.

Lemma upd_route_quiet w a r r' :
  world_ok w → w_routes w !! a = Some r → (in_table r → rt_dst_ip r' = rt_dst_ip r) →
  rt_nlroute r' = rt_nlroute r → quiet w (set_w_routes (<[a := r']> (w_routes w)) w).
Proof.
  intros Hw Ha Hdst Hnl.
  assert (∀ b, b ∈ w_table w → handle (<[a := r']> (w_routes w)) b = handle (w_routes w) b ∧
    rt_dst_ip <$> <[a := r']> (w_routes w) !! b = rt_dst_ip <$> w_routes w !! b) as Hkept.
  { intros b Hb. unfold handle. rewrite lookup_insert. case_decide; [subst|done].
    destruct (proj1 (to_linked _ _ _ (wo_table _ Hw) b) Hb) as (r0 & Hr0 & Hin).
    rewrite Ha in Hr0. injection Hr0 as <-. rewrite Ha. simpl. by rewrite Hdst. }
  split; [|done]. split; [|done..]. split; simpl; [split; try done| | | |done].
  - by apply kernel_ok_ext.
  - intros b Hb. rewrite lookup_insert. case_decide; [by eexists|done].
  - intros b Hb. split; [done|]. by apply Hkept.
  - intros b n Hb Hn. split; [|done]. rewrite <-Hn. by apply Hkept.
Qed.

Lemma upd_route_inward w a r r' :
  world_ok w → w_routes w !! a = Some r → (in_table r → rt_dst_ip r' = rt_dst_ip r) →
  rt_nlroute r' = rt_nlroute r → (in_table r → rt_next_hop r' = rt_next_hop r) →
  inward w (set_w_routes (<[a := r']> (w_routes w)) w).
Proof.
  intros Hw Ha Hdst Hnl Hhop. split; [by eapply upd_route_quiet|done..|].
  intros b Hb. unfold hop_kept. simpl. rewrite lookup_insert. case_decide; [subst|done].
  destruct (proj1 (to_linked _ _ _ (wo_table _ Hw) b) Hb) as (r0 & Hr0 & Hin).
  rewrite Ha in Hr0. injection Hr0 as <-. rewrite Ha. simpl. by rewrite Hhop.
Qed.

(** *** Changing a timer *)

(** A route the daemon may work on: live, and not the scratch route. *)
Definition usable (w : world) (a : addr) : Prop :=
  is_Some (w_routes w !! a) ∧ a ≠ w_find_route w.

Lemma usable_quiet w w' a : stable w w' → usable w a → usable w' a.
Proof. intros [[] Hl _ _ _] [? ?]. split; [auto|congruence]. Qed.

Lemma usable_inward w w' a : inward w w' → usable w a → usable w' a.
Proof. intros Hi. apply (usable_quiet w). by from_inward. Qed.

Lemma table_usable w a : world_ok w → a ∈ w_table w → usable w a.
Proof.
  intros Hw Ha. split.
  - destruct (table_live _ _ Hw Ha) as (r & Hr & _). eauto.
  - intros ->. by apply (find_route_not_in_table w).
Qed.

Lemma armed_kept id tv b A A' :
  armed id tv b A A' → ∀ i, i ∈ al_root A → i ∈ al_root A'.
Proof.
  intros (_ & l1 & l2 & Hun & -> & _) i Hi. destruct (decide (i = id)) as [->|Hne]; [set_solver|].
  assert (i ∈ unlink id (al_root A)) as Hu by by apply elem_of_unlink.
  rewrite Hun in Hu. set_solver.
Qed.

Lemma arm_world_ok w id tv b A :
  world_ok w → al_blocks (w_alarms w) !! id = Some b → id ≠ AL_route (w_find_route w) →
  armed id tv b (w_alarms w) A → alarms_ok A → world_ok (set_w_alarms A w).
Proof.
  intros Hw Hb Hid [Hbl _] Hok. destruct Hw as [Hh Ht Hq Ha [H1 H2 H3 H4 H5] Hd].
  split; simpl; try done. rewrite Hbl.
  assert (∀ i, is_Some (al_blocks (w_alarms w) !! i) →
            is_Some (<[id:=linked_at tv b]> (al_blocks (w_alarms w)) !! i)) as Hdom
    by (intros i Hi; rewrite lookup_insert; case_decide; by eauto).
  split; auto.
  - intros i b'. rewrite lookup_insert. case_decide; [subst|by apply H4].
    intros [= <-]. exact (H4 _ _ Hb).
  - intros b'. rewrite lookup_insert_ne by done. apply H5.
Qed.
End facts.

#[export] Hint Resolve usable_quiet table_usable tick_world_ok stats_world_ok trace_world_ok brk_world_ok : msh.

(** ** Operations that keep the invariant

    [rwp R m Q w]: from [w], [m] returns without a fault, the invariant holds again,
    [R] relates the two states and [Q] holds of the result and the new state. *)

Definition rwp {A} (R : world → world → Prop) (m : M world A) (Q : A → world → Prop)
    (w : world) : Prop :=
  wp m (λ a w', world_ok w' ∧ R w w' ∧ Q a w') w.

Section rwp_rules.
Context (R : world → world → Prop) `{!PreOrder R}.
Implicit Types w : world.

Lemma rwp_ret {A} (a : A) (Q : A → world → Prop) w : world_ok w → Q a w → rwp R (mret a) Q w.
Proof. intros. unfold rwp, wp; simpl. split_and!; [done|reflexivity|done]. Qed.

Lemma rwp_bind {A B} R0 (m : M world A) (k : A → M world B) P Q w :
  rwp R0 m P w → Finer R0 R →
  (∀ a w', world_ok w' → R0 w w' → P a w' → rwp R (k a) Q w') →
  rwp R (m ≫= k) Q w.
Proof.
  intros Hm HR0 Hk. apply wp_bind. eapply wp_mono; [exact Hm|].
  intros a w' (Hw' & HR & HP). eapply wp_mono; [by apply Hk|].
  intros b w'' (Hw'' & HR' & HQ). split_and!; [done|etrans; [by apply HR0|done]|done].
Qed.

Lemma rwp_mono {A} (m : M world A) (P Q : A → world → Prop) w :
  rwp R m P w → (∀ a w', world_ok w' → R w w' → P a w' → Q a w') → rwp R m Q w.
Proof. intros Hm HPQ. eapply wp_mono; [exact Hm|]. intros a w' (?&?&?). auto. Qed.

Lemma rwp_when (b : bool) (m : M world unit) Q w :
  world_ok w → (b = true → rwp R m Q w) → (b = false → Q tt w) → rwp R (when b m) Q w.
Proof. destruct b; intros Hw Ht Hf; [by apply Ht|by apply rwp_ret, Hf]. Qed.

Lemma rwp_for_each {A} (I : list A → world → Prop) (l : list A) body Q w :
  world_ok w → I l w →
  (∀ x rest w', world_ok w' → R w w' → I (x :: rest) w' →
     rwp R (body x) (λ _ w'', I rest w'') w') →
  (∀ w', world_ok w' → R w w' → I [] w' → Q tt w') →
  rwp R (for_each l body) Q w.
Proof.
  intros Hw HI Hstep Hend. revert w Hw HI Hstep Hend.
  induction l as [|x l IH]; intros w Hw HI Hstep Hend; simpl.
  - apply rwp_ret; [done|]. by apply Hend.
  - eapply rwp_bind; [by apply Hstep|apply _|]. intros [] w' Hw' HR HI'.
    apply IH; [done|done| |].
    + intros y rest w'' ???. apply Hstep; [done|by etrans|done].
    + intros w'' ???. apply Hend; [done|by etrans|done].
Qed.

Lemma rwp_gets {A} (f : world → A) (Q : A → world → Prop) w :
  world_ok w → Q (f w) w → rwp R (gets f) Q w.
Proof. intros. unfold rwp, wp; simpl. split_and!; [done|reflexivity|done]. Qed.

(** From an exact description of the effect. *)
Lemma rwp_step {A} (m : M world A) (Q : A → world → Prop) w a w' :
  m w = Ok a w' → world_ok w' → R w w' → Q a w' → rwp R m Q w.
Proof. intros Hm ???. unfold rwp, wp. by rewrite Hm. Qed.

Lemma rwp_bind_step {A B} (m : M world A) (k : A → M world B) Q w a w' :
  m w = Ok a w' → world_ok w' → R w w' → rwp R (k a) Q w' → rwp R (m ≫= k) Q w.
Proof.
  intros Hm Hw' HR Hk. eapply rwp_bind; [by eapply (rwp_step m (λ x v, x = a ∧ v = w'))|apply _|].
  by intros ? ? _ _ [-> ->].
Qed.

(** A statement that only reads. *)
Lemma rwp_bind_pure {A B} (m : M world A) (k : A → M world B) Q w a :
  world_ok w → m w = Ok a w → rwp R (k a) Q w → rwp R (m ≫= k) Q w.
Proof. intros. by eapply rwp_bind_step. Qed.
End rwp_rules.

(** A step of a finer relation. *)
Lemma rwp_finer R R' `{HF : !Finer R R'} {A} (m : M world A) (P Q : A → world → Prop) w :
  rwp R m P w → (∀ a w', world_ok w' → R w w' → P a w' → Q a w') → rwp R' m Q w.
Proof.
  intros Hm HPQ. eapply wp_mono; [exact Hm|]. intros a w' (?&HR&?).
  split_and!; [done|by apply HF|auto].
Qed.

(** [rwp_read by tac]: the first statement only reads the state and [tac] evaluates
    it; [rwp_then H]: the first statement has the specification [H]; [rwp_last H]:
    so has the last one. *)
Tactic Notation "rwp_read" "by" tactic(tac) :=
  eapply rwp_bind_pure; [apply _|done|by tac|].
Tactic Notation "rwp_then" uconstr(H) := eapply rwp_bind; [apply _|eapply H|apply _|].
Tactic Notation "rwp_last" uconstr(H) := eapply rwp_finer; [|eapply H|]; [apply _|..].
Tactic Notation "rwp_return" := apply rwp_ret; [apply _|try done..].

(** Compose the steps between two states that the context has. *)
Ltac by_steps :=
  first [ reflexivity | eassumption |
    match goal with
    | H : ?R0 ?v ?w' |- ?R ?w ?w' =>
        transitivity v; [by_steps|first [exact H | apply (finer (R := R0) (R' := R) v w'); exact H]]
    end ].

(** Name the current state. *)
Tactic Notation "rwp_state" ident(w) :=
  lazymatch goal with |- rwp _ _ _ ?v => set (w := v) in * end.
