(* ===== verification/SepLogic.v ===== *)
(** * A separation logic for the pointer-level components

    The functions of rbtree.c and linux_list.h work on nodes in memory.  Assertions about
    such memory are predicates on finite maps, closed under larger maps; they form a [bi],
    so that the proof mode of Iris applies.  The weakest precondition [hwp m Q] says of a
    computation [m] of the state-and-fault monad that it returns and turns the cells it
    owns into cells with [Q], the others staying as they are. *)

From iris.proofmode Require Export proofmode.
From S2P Require Export Prelude.

(** A state whose memory can be looked at as one map of cells. *)
Class HeapModel (St K V : Type) `{Countable K} := flat : St → gmap K V.

Section hprop.
Context {K V : Type} `{Countable K}.
Implicit Types h : gmap K V.

(** ** Assertions *)

Record hprop := HProp {
  hholds :> gmap K V → Prop;
  hmono h h' : hholds h → h ⊆ h' → hholds h' }.

Implicit Types P Q R : hprop.

#[local] Instance hprop_equiv : Equiv hprop := λ P Q, ∀ h, P h ↔ Q h.
#[local] Instance hprop_dist : Dist hprop := λ _, equiv.
Record hprop_entails P Q : Prop := HEntails { hprop_in : ∀ h, P h → Q h }.
#[local] Coercion hprop_in : hprop_entails >-> Funclass.

#[local] Program Definition hprop_pure (φ : Prop) : hprop := HProp (λ _, φ) _.
Next Obligation. done. Qed.
#[local] Program Definition hprop_and P Q : hprop := HProp (λ h, P h ∧ Q h) _.
Next Obligation. intros P Q h h' [??] Hle. split; by eapply hmono. Qed.
#[local] Program Definition hprop_or P Q : hprop := HProp (λ h, P h ∨ Q h) _.
Next Obligation. intros P Q h h' [?|?] Hle; [left|right]; by eapply hmono. Qed.
#[local] Program Definition hprop_impl P Q : hprop :=
  HProp (λ h, ∀ h', h ⊆ h' → P h' → Q h') _.
Next Obligation. intros P Q h h' HPQ Hle h'' Hle' HP. apply HPQ; [by etrans|done]. Qed.
#[local] Program Definition hprop_forall (A : Type) (Φ : A → hprop) : hprop :=
  HProp (λ h, ∀ x, Φ x h) _.
Next Obligation. intros A Φ h h' HΦ Hle x. by eapply hmono. Qed.
#[local] Program Definition hprop_exist (A : Type) (Φ : A → hprop) : hprop :=
  HProp (λ h, ∃ x, Φ x h) _.
Next Obligation. intros A Φ h h' [x HΦ] Hle. exists x. by eapply hmono. Qed.
#[local] Program Definition hprop_sep P Q : hprop :=
  HProp (λ h, ∃ h1 h2, h = h1 ∪ h2 ∧ h1 ##ₘ h2 ∧ P h1 ∧ Q h2) _.
Next Obligation.
  intros P Q h h' (h1 & h2 & -> & Hd & HP & HQ) Hle.
  exists h1, (h' ∖ h1). split_and!.
  - symmetry. apply map_difference_union. etrans; [|exact Hle]. apply map_union_subseteq_l.
  - by apply map_disjoint_difference_r1.
  - done.
  - eapply hmono; [exact HQ|]. apply map_subseteq_spec. intros i x Hi.
    apply lookup_difference_Some. split.
    + eapply lookup_weaken; [|exact Hle]. by apply lookup_union_Some_r.
    + by eapply map_disjoint_Some_r.
Qed.
#[local] Program Definition hprop_wand P Q : hprop :=
  HProp (λ h, ∀ h', h ##ₘ h' → P h' → Q (h ∪ h')) _.
Next Obligation.
  intros P Q h h' HPQ Hle h'' Hd HP.
  eapply (hmono _ (h ∪ h'')); [apply HPQ; [by eapply map_disjoint_weaken_l|done]|].
  by apply map_union_mono_r.
Qed.
#[local] Definition hprop_persistently P : hprop := hprop_pure (hprop_entails (hprop_pure True) P).

#[local] Instance hprop_equivalence : Equivalence (≡@{hprop}).
Proof.
  split; [by intros P h|intros P Q HPQ h; by rewrite (HPQ h)|].
  intros P Q R HPQ HQR h. by rewrite (HPQ h) (HQR h).
Qed.

#[local] Set Warnings "-redundant-canonical-projection".
#[local] Canonical Structure hpropO := Ofe hprop (@discrete_ofe_mixin _ hprop _ hprop_equivalence).

Lemma hprop_bi_mixin : BiMixin hprop_entails (hprop_pure True) hprop_pure hprop_and hprop_or
  hprop_impl hprop_forall hprop_exist hprop_sep hprop_wand.
Proof.
  split.
  - split; [by intros P|]. intros P Q R HPQ HQR. split; intros h HP. by apply HQR, HPQ.
  - intros P Q. split; [intros HPQ; split; split; intros h; by rewrite (HPQ h)|].
    intros [H1 H2] h. split; [apply H1|apply H2].
  - intros n φ ψ Hφ h. exact Hφ.
  - intros n P P' HP Q Q' HQ h. simpl. by rewrite (HP h) (HQ h).
  - intros n P P' HP Q Q' HQ h. simpl. by rewrite (HP h) (HQ h).
  - intros n P P' HP Q Q' HQ h. simpl.
    split; intros HPQ h' Hle HP'; apply (HQ h'), HPQ; [done|by apply (HP h')|done|by apply (HP h')].
  - intros A n Φ Ψ HΦ h. simpl. split; intros Hall x; apply (HΦ x), Hall.
  - intros A n Φ Ψ HΦ h. simpl. split; intros [x Hx]; exists x; by apply (HΦ x).
  - intros n P P' HP Q Q' HQ h. simpl.
    split; intros (h1 & h2 & ? & ? & H1%(HP h1) & H2%(HQ h2)); by exists h1, h2.
  - intros n P P' HP Q Q' HQ h. simpl. split; intros HPQ h' Hd H1%(HP h'); by apply (HQ (h ∪ h')), HPQ.
  - intros φ P Hφ. by split.
  - intros φ P HP. split; intros h Hφ. by apply HP.
  - intros P Q. by split; intros h [].
  - intros P Q. by split; intros h [].
  - intros P Q R HQ HR. split; intros h HP. split; [by apply HQ|by apply HR].
  - intros P Q. split; intros h HP. by left.
  - intros P Q. split; intros h HQ. by right.
  - intros P Q R HP HQ. split; intros h [?|?]; [by apply HP|by apply HQ].
  - intros P Q R HPQR. split; intros h HP h' Hle HQ. apply HPQR. split; [by eapply hmono|done].
  - intros P Q R HPQR. split; intros h [HP HQ]. by apply (HPQR h HP h).
  - intros A P Ψ HΨ. split; intros h HP x. by apply HΨ.
  - intros A Ψ x. split; intros h Hall. apply Hall.
  - intros A Ψ x. split; intros h HΨ. by exists x.
  - intros A Φ Q HΦ. split; intros h [x Hx]. by apply (HΦ x).
  - intros P P' Q Q' HP HQ. split; intros h [h1 [h2 [? [? [? ?]]]]]. exists h1, h2.
    split_and!; [done|done|by apply HP|by apply HQ].
  - intros P. split; intros h HP. exists ∅, h. split_and!; [by rewrite map_empty_union|apply map_disjoint_empty_l|done|done].
  - intros P. split; intros h [h1 [h2 [-> [Hd [_ HP]]]]]. eapply hmono; [exact HP|]. by apply map_union_subseteq_r.
  - intros P Q. split; intros h [h1 [h2 [-> [Hd [HP HQ]]]]].
    exists h2, h1. split_and!; [by apply map_union_comm|done|done|done].
  - intros P Q R. split; intros h [h12 [h3 [-> [Hd [[h1 [h2 [-> [Hd' [HP HQ]]]]] HR]]]]].
    apply map_disjoint_union_l in Hd as [Hd13 Hd23].
    exists h1, (h2 ∪ h3). split_and!; [by rewrite map_union_assoc|by apply map_disjoint_union_r_2|done|].
    by exists h2, h3.
  - intros P Q R HPQ. split; intros h HP h' Hd HQ. apply HPQ. by exists h, h'.
  - intros P Q R HPQ. split; intros h [h1 [h2 [-> [Hd [HP HQ]]]]]. by apply HPQ.
Qed.

Lemma hprop_persistently_mixin : BiPersistentlyMixin hprop_entails (hprop_pure True) hprop_and
  hprop_exist hprop_sep hprop_persistently.
Proof.
  eapply bi_persistently_mixin_discrete, hprop_bi_mixin.
  - done.
  - intros A Φ Hex. destruct (Hex ∅ I) as [x Hx]. exists x. split; intros h _.
    eapply hmono; [exact Hx|apply map_empty_subseteq].
  - done.
Qed.

Lemma hprop_later_mixin : BiLaterMixin hprop_entails hprop_pure hprop_or hprop_impl hprop_forall
  hprop_exist hprop_sep hprop_persistently (λ P, P).
Proof. eapply bi_later_mixin_id; [done|apply hprop_bi_mixin]. Qed.

Canonical Structure hpropI : bi := {|
  bi_ofe_mixin := ofe_mixin_of hprop;
  bi_cofe_aux := discrete_cofe hprop_equivalence;
  bi_bi_mixin := hprop_bi_mixin;
  bi_bi_persistently_mixin := hprop_persistently_mixin;
  bi_bi_later_mixin := hprop_later_mixin |}.

#[export] Instance hprop_affine : BiAffine hpropI.
Proof. intros P. by split. Qed.
#[export] Instance hprop_pure_forall : BiPureForall hpropI.
Proof. intros A φ. split; intros h. exact (λ f x, f x). Qed.
End hprop.

Arguments hprop K V {_ _}.
Arguments hpropI K V {_ _}.

(** ** Cells *)

Section cells.
Context {K V : Type} `{Countable K}.

Program Definition cell (k : K) (v : V) : hprop K V := HProp (λ h, h !! k = Some v) _.
Next Obligation. intros k v h h' Hk Hle. by apply (lookup_weaken h). Qed.

Lemma cell_ne k1 k2 v1 v2 : cell k1 v1 ∗ cell k2 v2 ⊢ (⌜k1 ≠ k2⌝ : hpropI K V).
Proof.
  split; intros h [h1 [h2 [-> [Hd [H1 H2]]]]] ->.
  pose proof (map_disjoint_Some_l h1 h2 _ _ Hd H1). simpl in *. congruence.
Qed.

(** Memory comes and goes. *)
Lemma hprop_alloc k v (P Q : hpropI K V) h :
  h !! k = None → P h → (P ⊢ cell k v -∗ Q) → Q (<[k := v]> h).
Proof.
  intros Hk HP HPQ. rewrite insert_union_singleton_r; [|done].
  apply (hprop_in _ _ HPQ h HP).
  - by apply map_disjoint_singleton_r.
  - apply lookup_singleton_eq.
Qed.

Lemma hprop_free k (P Q : hpropI K V) h : (P ⊢ (∃ v, cell k v) ∗ Q) → P h → Q (delete k h).
Proof.
  intros HPQ HP. destruct (hprop_in _ _ HPQ h HP) as (h1 & h2 & -> & Hd & [v Hk] & HQ).
  eapply hmono; [exact HQ|]. simpl in Hk. apply map_subseteq_spec. intros i w Hi.
  rewrite lookup_delete_ne; [by apply lookup_union_Some_r|].
  intros <-. eapply map_disjoint_spec; [exact Hd|exact Hk|exact Hi].
Qed.
End cells.

(** ** Weakest preconditions *)

Section hwp.
Context {St K V : Type} `{HeapModel St K V}.
#[local] Coercion hprop_in : hprop_entails >-> Funclass.
Implicit Types (s : St) (h : gmap K V).

Program Definition hwp {X} (m : M St X) (Q : X → hprop K V) : hprop K V :=
  HProp (λ h, ∀ s hf, h ##ₘ hf → flat s = h ∪ hf →
    wp m (λ x s', ∃ h', h' ##ₘ hf ∧ dom h' = dom h ∧ flat s' = h' ∪ hf ∧ Q x h') s) _.
Next Obligation.
  intros X m Q h h0 Hm Hle s hf Hd Hs.
  assert (h ∪ (h0 ∖ h) = h0) as Hh0 by (by apply map_difference_union).
  rewrite -Hh0 in Hd. apply map_disjoint_union_l in Hd as [Hd1 Hd2].
  eapply wp_mono; [apply (Hm s ((h0 ∖ h) ∪ hf))|].
  - apply map_disjoint_union_r_2; [by apply map_disjoint_difference_r1|done].
  - by rewrite map_union_assoc Hh0.
  - intros x s' (h' & Hd' & Hdom & Hs' & HQ). apply map_disjoint_union_r in Hd' as [Hd1' Hd2'].
    exists (h' ∪ (h0 ∖ h)). split_and!.
    + by apply map_disjoint_union_l_2.
    + by rewrite -{2}Hh0 !dom_union_L Hdom.
    + by rewrite -map_union_assoc.
    + eapply hmono; [exact HQ|]. apply map_union_subseteq_l.
Qed.

Lemma hwp_ret {X} (x : X) (Q : X → hpropI K V) : Q x ⊢ hwp (mret x) Q.
Proof. split; intros h HQ s hf Hd Hs. apply wp_ret. by exists h. Qed.

Lemma hwp_bind {X Y} (m : M St X) (k : X → M St Y) (Q : Y → hpropI K V) :
  hwp m (λ x, hwp (k x) Q) ⊢ hwp (m ≫= k) Q.
Proof.
  split; intros h Hm s hf Hd Hs. apply wp_bind. eapply wp_mono; [by apply Hm|].
  intros x s' (h' & Hd' & Hdom & Hs' & Hk). eapply wp_mono; [by apply Hk|].
  intros y s'' (h'' & Hd'' & Hdom' & Hs'' & HQ). exists h''. by rewrite Hdom' Hdom.
Qed.

Lemma hwp_wand {X} (m : M St X) (Φ Ψ : X → hpropI K V) :
  hwp m Φ ∗ (∀ x, Φ x -∗ Ψ x) ⊢ hwp m Ψ.
Proof.
  split; intros h [h1 [h2 [-> [Hd12 [Hm HΦΨ]]]]] s hf Hd Hs.
  apply map_disjoint_union_l in Hd as [Hd1 Hd2].
  eapply wp_mono; [apply (Hm s (h2 ∪ hf)); [by apply map_disjoint_union_r_2|by rewrite map_union_assoc]|].
  intros x s' (h' & Hd' & Hdom & Hs' & HΦ). apply map_disjoint_union_r in Hd' as [Hd1' Hd2'].
  exists (h' ∪ h2). split_and!.
  - by apply map_disjoint_union_l_2.
  - by rewrite !dom_union_L Hdom.
  - by rewrite -map_union_assoc.
  - rewrite map_union_comm; [|done]. by apply (HΦΨ x).
Qed.

Lemma hwp_gets {X} (f : St → X) (P : hpropI K V) (Q : X → hpropI K V) :
  (∀ s h hf, flat s = h ∪ hf → P h → Q (f s) h) → P ⊢ hwp (gets f) Q.
Proof. intros HPQ. split; intros h HP s hf Hd Hs. apply wp_gets. exists h. eauto. Qed.

(** An owned cell is in the state. *)
Lemma owned_lookup k (v : V) h hf s : flat s = h ∪ hf → cell k v h → flat s !! k = Some v.
Proof. intros -> Hk. by apply lookup_union_Some_l. Qed.

(** What a read of the owned cell [k] needs. *)
Lemma hwp_read {X} (m : M St X) k (v : V) (x : X) (Q : X → hpropI K V) :
  (∀ s, flat s !! k = Some v → m s = Ok x s) →
  cell k v ∗ (cell k v -∗ Q x) ⊢ hwp m Q.
Proof.
  intros Hm. split; intros h [h1 [h2 [-> [Hd12 [Hk HQ]]]]] s hf Hd Hs. unfold wp.
  rewrite Hm; [|by eapply owned_lookup, hmono, map_union_subseteq_l].
  exists (h1 ∪ h2). split_and!; [done|done|done|]. rewrite map_union_comm; [|done]. by apply HQ.
Qed.

(** What a write of the owned cell [k] needs. *)
Lemma hwp_write (m : M St unit) k (v w : V) (Q : unit → hpropI K V) :
  (∀ s, is_Some (flat s !! k) → ∃ s', m s = Ok tt s' ∧ flat s' = <[k := w]> (flat s)) →
  cell k v ∗ (cell k w -∗ Q tt) ⊢ hwp m Q.
Proof.
  intros Hm. split; intros h [h1 [h2 [-> [Hd12 [Hk HQ]]]]] s hf Hd Hs. unfold wp.
  apply map_disjoint_union_l in Hd as [Hd1 Hd2]. change (h1 !! k = Some v) in Hk.
  assert ((h1 ∪ h2) !! k = Some v) as Hkk by (by apply lookup_union_Some_l).
  assert (hf !! k = None) as Hkf by by eapply (map_disjoint_Some_l h1).
  assert (h2 !! k = None) as Hk2 by by eapply (map_disjoint_Some_l h1).
  destruct (Hm s) as (s' & -> & Hs'); [rewrite Hs; exists v; by apply lookup_union_Some_l|].
  exists (<[k := w]> h1 ∪ h2). split_and!.
  - apply map_disjoint_union_l_2; [|done]. by apply map_disjoint_insert_l_2.
  - rewrite !dom_union_L dom_insert_lookup_L; [done|by exists v].
  - by rewrite Hs' Hs -!insert_union_l.
  - rewrite map_union_comm; [|by apply map_disjoint_insert_l_2]. apply HQ.
    + symmetry. by apply map_disjoint_insert_l_2.
    + simpl. by rewrite lookup_insert_eq.
Qed.

(** From the logic to plain weakest preconditions: the cells outside [h] stay. *)
Lemma hwp_adequate {X} (m : M St X) (P : hpropI K V) (Q : X → hpropI K V) s h :
  (P ⊢ hwp m Q) → P h → h ⊆ flat s →
  wp m (λ x s', ∃ h', Q x h' ∧ h' ⊆ flat s' ∧ dom h' = dom h ∧
    ∀ k, k ∉ dom h → flat s' !! k = flat s !! k) s.
Proof.
  intros HPQ HP Hle. pose proof (map_difference_union _ _ Hle) as Hh.
  eapply wp_mono; [apply (HPQ h HP s (flat s ∖ h)); [by apply map_disjoint_difference_r1|done]|].
  intros x s' (h' & Hd & Hdom & Hs' & HQ). exists h'. split_and!; [done| |done|].
  - rewrite Hs'. apply map_union_subseteq_l.
  - intros k Hk. rewrite Hs' lookup_union_r; [|by apply not_elem_of_dom; rewrite Hdom].
    rewrite -{2}Hh lookup_union_r; [done|by apply not_elem_of_dom].
Qed.
End hwp.
