(* ===== verification/RbShape.v ===== *)
(** * The shape of a red-black tree

    Trees as values, with the sides as a parameter as in [RbTree]; a tree with a hole as
    the list of the frames above it; the order of the nodes; and the red-black conditions
    on trees and on trees with a hole.  No memory yet. *)

From iris.prelude Require Export prelude.
From S2P Require Export RbTree.

Inductive colour := Red | Black.
#[export] Instance colour_eq_dec : EqDecision colour.
Proof. solve_decision. Defined.

Lemma opp_opp d : opp (opp d) = d.
Proof. by destruct d. Qed.
Lemma opp_ne d : opp d ≠ d.
Proof. by destruct d. Qed.
Lemma side_cases d d' : d' = d ∨ d' = opp d.
Proof. destruct d, d'; auto. Qed.

Section shape.
Context {A : Type}.

(** ** Trees and holes *)

Inductive tree := Leaf | Node (c : colour) (l : tree) (a : A) (r : tree).
Implicit Types (t x y z : tree) (a b : A) (d e : side) (c : colour).

(** The tree with [x] on the side [d] of the root. *)
Definition mk d c x a y : tree :=
  match d with Lft => Node c x a y | Rgt => Node c y a x end.

Definition root_of t : option A := match t with Leaf => None | Node _ _ a _ => Some a end.

(** A frame [Frame d c a s]: the hole is on the side [d] of the node [a]; [s] is on the
    other. *)
Inductive frame := Frame (d : side) (c : colour) (a : A) (s : tree).
Implicit Types k : list frame.

Fixpoint plug t k : tree :=
  match k with
  | [] => t
  | Frame d c a s :: k => plug (mk d c t a s) k
  end.
Definition parent_of k : option A :=
  match k with [] => None | Frame _ _ a _ :: _ => Some a end.

Lemma mk_opp d c x a y : mk (opp d) c x a y = mk d c y a x.
Proof. by destruct d. Qed.
Lemma root_mk d c x a y : root_of (mk d c x a y) = Some a.
Proof. by destruct d. Qed.
Lemma root_None t : root_of t = None ↔ t = Leaf.
Proof. by destruct t. Qed.
Lemma mk_at d t a : root_of t = Some a → ∃ c x y, t = mk d c x a y.
Proof. destruct t as [|c l ? r]; intros [= ->]. destruct d; [by exists c, l, r|by exists c, r, l]. Qed.
Lemma plug_app t k1 k2 : plug t (k1 ++ k2) = plug (plug t k1) k2.
Proof. revert t. induction k1 as [|[d c a s] k1 IH]; intros t; simpl; [done|apply IH]. Qed.
Lemma parent_app k1 k2 :
  parent_of (k1 ++ k2) = match parent_of k1 with Some a => Some a | None => parent_of k2 end.
Proof. by destruct k1 as [|[]]. Qed.
(** The hole on the other side. *)
Lemma plug_far d c x a y k : plug (mk d c x a y) k = plug y (Frame (opp d) c a x :: k).
Proof. simpl. by rewrite mk_opp. Qed.
Lemma plug_not_leaf t k a : root_of t = Some a → plug t k ≠ Leaf.
Proof.
  revert t a. induction k as [|[d c b s] k IH]; intros t a Ht; simpl; [by intros ->|].
  by eapply IH, root_mk.
Qed.

(** ** Order *)

(** The nodes in the order of a walk in the direction [e]. *)
Fixpoint walk e t : list A :=
  match t with
  | Leaf => []
  | Node _ l a r =>
      match e with
      | Rgt => walk e l ++ a :: walk e r
      | Lft => walk e r ++ a :: walk e l
      end
  end.
Definition inorder : tree → list A := walk Rgt.

(** The nodes before and after the hole on that walk. *)
Fixpoint behind e k : list A :=
  match k with
  | [] => []
  | Frame d _ a s :: k =>
      if decide (d = e) then behind e k ++ walk e s ++ [a] else behind e k
  end.
Fixpoint ahead e k : list A :=
  match k with
  | [] => []
  | Frame d _ a s :: k =>
      if decide (d = e) then ahead e k else a :: walk e s ++ ahead e k
  end.

Lemma walk_mk e c x a y : walk e (mk e c x a y) = walk e y ++ a :: walk e x.
Proof. by destruct e. Qed.
Lemma walk_mk_opp e c x a y : walk e (mk (opp e) c x a y) = walk e x ++ a :: walk e y.
Proof. by destruct e. Qed.
Lemma walk_reverse e t : walk (opp e) t = reverse (walk e t).
Proof.
  induction t as [|c l IHl a r IHr]; [by destruct e|].
  destruct e; simpl in *; rewrite reverse_app reverse_cons IHl IHr -app_assoc //.
Qed.

Lemma walk_plug e t k : walk e (plug t k) = behind e k ++ walk e t ++ ahead e k.
Proof.
  revert t. induction k as [|[d c a s] k IH]; intros t; simpl; [by rewrite app_nil_r|].
  rewrite IH. destruct (side_cases e d) as [-> | ->].
  - rewrite !decide_True // walk_mk. by rewrite -!app_assoc.
  - rewrite !decide_False; [|apply opp_ne..]. rewrite walk_mk_opp. by rewrite -!app_assoc.
Qed.

(** Rotations and recolourings keep the order. *)
Lemma walk_rotate e d c1 c2 c3 c4 x a y b z :
  walk e (mk d c1 x a (mk d c2 y b z)) = walk e (mk d c3 (mk d c4 x a y) b z).
Proof. destruct e, d; simpl; by rewrite -?app_assoc. Qed.
Lemma walk_rotate_opp e d c1 c2 c3 c4 x a y b z :
  walk e (mk d c1 (mk d c2 x a y) b z) = walk e (mk d c3 x a (mk d c4 y b z)).
Proof. destruct e, d; simpl; by rewrite -?app_assoc. Qed.
Lemma walk_colour e d c1 c2 x a y : walk e (mk d c1 x a y) = walk e (mk d c2 x a y).
Proof. by destruct e, d. Qed.
Lemma walk_plug_eq e t t' k : walk e t = walk e t' → walk e (plug t k) = walk e (plug t' k).
Proof. intros Ht. by rewrite !walk_plug Ht. Qed.
Lemma walk_mk_eq e d c x x' a y :
  walk e x = walk e x' → walk e (mk d c x a y) = walk e (mk d c x' a y).
Proof. intros Hx. destruct e, d; simpl; by rewrite Hx. Qed.

Lemma elem_of_walk e t a : a ∈ walk e t ↔ a ∈ inorder t.
Proof.
  unfold inorder. destruct e; [|done]. by rewrite (walk_reverse Rgt) elem_of_reverse.
Qed.
Lemma root_elem t a : root_of t = Some a → a ∈ inorder t.
Proof. destruct t as [|c l b r]; intros [= ->]. simpl. set_solver. Qed.
Lemma walk_length e t : length (walk e t) = length (inorder t).
Proof. unfold inorder. destruct e; [by rewrite (walk_reverse Rgt) length_reverse|done]. Qed.
Lemma length_plug t k : (length k + length (inorder t) ≤ length (inorder (plug t k)))%nat.
Proof.
  revert t. induction k as [|[d c a s] k IH]; intros t; simpl; [lia|].
  specialize (IH (mk d c t a s)). unfold inorder in *.
  destruct d; simpl in *; rewrite !length_app /= in IH; lia.
Qed.
Lemma walk_empty e t : walk e t = [] ↔ t = Leaf.
Proof.
  split; [|by intros ->]. destruct t as [|c l a r]; [done|]. destruct e; simpl; intros Ht;
    by apply app_eq_nil in Ht as [_ ?].
Qed.

Lemma inorder_split t a : a ∈ inorder t → ∃ k c l r, t = plug (Node c l a r) k.
Proof.
  unfold inorder. induction t as [|c l IHl b r IHr]; simpl; [by intros ?%elem_of_nil|].
  rewrite elem_of_app elem_of_cons. intros [Ha|[->|Ha]].
  - destruct (IHl Ha) as (k & c' & l' & r' & ->). exists (k ++ [Frame Lft c b r]), c', l', r'.
    by rewrite plug_app.
  - by exists [], c, l, r.
  - destruct (IHr Ha) as (k & c' & l' & r' & ->). exists (k ++ [Frame Rgt c b l]), c', l', r'.
    by rewrite plug_app.
Qed.

(** ** The red-black conditions *)

(** [RB c n t]: no red node has a red child, every path to a leaf has [n] black nodes, and
    the root has the colour [c], a leaf counting as black. *)
Inductive RB : colour → nat → tree → Prop :=
  | RB_leaf : RB Black 0 Leaf
  | RB_red n l a r : RB Black n l → RB Black n r → RB Red n (Node Red l a r)
  | RB_black n c c' l a r : RB c n l → RB c' n r → RB Black (S n) (Node Black l a r).

(** [CT k c n]: a subtree with [RB c n] in the hole makes a red-black tree with a black
    root. *)
Inductive CT : list frame → colour → nat → Prop :=
  | CT_top n : CT [] Black n
  | CT_red d a s k n : RB Black n s → CT k Red n → CT (Frame d Red a s :: k) Black n
  | CT_black d a s k c c' n : RB c' n s → CT k Black (S n) → CT (Frame d Black a s :: k) c n.

Definition red_black t : Prop := ∃ n, RB Black n t.

Lemma RB_mk_red d n x a y : RB Black n x → RB Black n y → RB Red n (mk d Red x a y).
Proof. intros Hx Hy. destruct d; by constructor. Qed.
Lemma RB_mk_black d n c c' x a y : RB c n x → RB c' n y → RB Black (S n) (mk d Black x a y).
Proof. intros Hx Hy. destruct d; by econstructor. Qed.
Lemma RB_red_inv d n t : RB Red n t → ∃ x a y, t = mk d Red x a y ∧ RB Black n x ∧ RB Black n y.
Proof.
  inversion 1 as [|? l a r|]; subst. destruct d; [by exists l, a, r|by exists r, a, l].
Qed.
Lemma RB_black_inv d n t : RB Black (S n) t →
  ∃ c c' x a y, t = mk d Black x a y ∧ RB c n x ∧ RB c' n y.
Proof.
  inversion 1 as [| |? c c' l a r]; subst.
  destruct d; [by exists c, c', l, a, r|by exists c', c, r, a, l].
Qed.
Lemma RB_mk_inv d c n c' x a y : RB c n (mk d c' x a y) → c' = c ∧
  match c with
  | Red => RB Black n x ∧ RB Black n y
  | Black => ∃ m c1 c2, n = S m ∧ RB c1 m x ∧ RB c2 m y
  end.
Proof. destruct d; inversion 1; subst; naive_solver. Qed.
Lemma RB_leaf_inv c n : RB c n Leaf → c = Black ∧ n = 0%nat.
Proof. by inversion 1. Qed.
Lemma RB_root_colour c n t : RB c n t → c = Red → ∃ d x a y, t = mk d Red x a y.
Proof. intros Ht ->. apply (RB_red_inv Lft) in Ht as (x & a & y & -> & _). by exists Lft, x, a, y. Qed.

(** The colour of the root and the tree with a black root. *)
Definition colour_of t : colour := match t with Leaf => Black | Node c _ _ _ => c end.
Definition blacken t : tree := match t with Leaf => Leaf | Node _ l a r => Node Black l a r end.

Lemma RB_colour c n t : RB c n t → colour_of t = c.
Proof. by destruct 1. Qed.
Lemma root_blacken t : root_of (blacken t) = root_of t.
Proof. by destruct t. Qed.
Lemma walk_blacken e t : walk e (blacken t) = walk e t.
Proof. by destruct t. Qed.
Lemma RB_blacken c n t : RB c n t → ∃ m, RB Black m (blacken t).
Proof.
  destruct 1 as [|n l a r Hl Hr|n c c' l a r Hl Hr]; [exists 0%nat|exists (S n)..]; by econstructor.
Qed.
Lemma blacken_mk d c x a y : blacken (mk d c x a y) = mk d Black x a y.
Proof. by destruct d. Qed.
Lemma colour_mk d c x a y : colour_of (mk d c x a y) = c.
Proof. by destruct d. Qed.

(** A hole below a black node takes any colour; a hole for a red tree takes a black one. *)
Lemma CT_weaken k c n : CT k c n → CT k Black n.
Proof. inversion 1; subst; [constructor|by constructor|by econstructor]. Qed.

Lemma CT_plug k c n t : CT k c n → RB c n t → red_black (plug t k).
Proof.
  intros Hk. revert t. induction Hk as [n|d a s k n Hs Hk IH|d a s k c c' n Hs Hk IH]; intros t Ht; simpl.
  - by exists n.
  - by apply IH, RB_mk_red.
  - by eapply IH, RB_mk_black.
Qed.

Lemma plug_CT k t : red_black (plug t k) → ∃ c n, RB c n t ∧ CT k c n.
Proof.
  revert t. induction k as [|[d c a s] k IH]; intros t; simpl.
  - intros [n Hn]. exists Black, n. by split; [|constructor].
  - intros Hp. destruct (IH _ Hp) as (c' & n & Ht & Hk). apply RB_mk_inv in Ht as [<- Ht].
    destruct c; [destruct Ht as [Ht Hs]; exists Black, n; by split; [|constructor]|].
    destruct Ht as (m & c1 & c2 & -> & Ht & Hs). exists c1, m. by split; [|econstructor].
Qed.

(** ** Balance *)

Fixpoint depth t : nat :=
  match t with Leaf => 0 | Node _ l _ r => S (max (depth l) (depth r)) end.

Lemma RB_depth c n t : RB c n t → (depth t ≤ 2 * n + if decide (c = Red) then 1 else 0)%nat.
Proof.
  induction 1 as [|n l a r _ IHl _ IHr|n c c' l a r _ IHl _ IHr]; simpl in *; [lia|lia|].
  destruct (decide (c = Red)), (decide (c' = Red)); lia.
Qed.

Lemma RB_size c n t : RB c n t → (2 ^ n ≤ S (length (inorder t)))%nat.
Proof.
  unfold inorder. induction 1 as [|n l a r _ IHl _ IHr|n c c' l a r _ IHl _ IHr]; simpl; [done|..];
    rewrite length_app; simpl in *; lia.
Qed.

(** The height of a red-black tree is at most twice the logarithm of its size. *)
Lemma red_black_depth t : red_black t → (depth t ≤ 2 * Nat.log2 (S (length (inorder t))))%nat.
Proof.
  intros [n Hn]. pose proof (RB_depth _ _ _ Hn) as Hd. simpl in Hd.
  assert (n ≤ Nat.log2 (S (length (inorder t))))%nat; [|lia].
  rewrite -(Nat.log2_pow2 n); [|lia]. by eapply Nat.log2_le_mono, RB_size.
Qed.
End shape.

Arguments tree A : clear implicits.
Arguments frame A : clear implicits.
