(* ===== verification/RbTreeRep.v ===== *)
(** * Red-black trees in memory

    What it means that the nodes of a [rb_state] form a tree: assertions of [SepLogic] on
    the nodes' words and pointers, for a whole tree and for a tree with a hole in it.  The
    operations on one place of a tree (a change of colour, a rotation, a pointer replaced)
    get rules that speak of trees only; the packing of colours and addresses into words
    does not show above this file. *)

From S2P Require Export SepLogic RbTree RbShape.

(** ** Words *)

Definition bit (c : colour) : Z := match c with Red => RB_RED | Black => RB_BLACK end.

Section words.
Context {A : Type} `{Countable A}.
Implicit Types (p x y : option A).

(** The word with the parent [p] and the colour [c]. *)
Definition word p (c : colour) : Z := ptr p + bit c.

Lemma ptr_quad p : ∃ q, ptr p = 4 * q ∧
  match q with Z.pos x => decode x | _ => None end = p.
Proof.
  destruct p as [a|]; simpl; [|by exists 0].
  exists (Z.pos (encode a)). by rewrite decode_encode.
Qed.

Lemma lor_low q b n : 0 ≤ n → 0 ≤ b < 2 ^ n → Z.lor (2 ^ n * q) b = 2 ^ n * q + b.
Proof.
  intros Hn Hb. rewrite Z.mul_comm -Z.shiftl_mul_pow2; [|done].
  symmetry. apply Z.add_nocarry_lor, Z.bits_inj'. intros m Hm.
  rewrite Z.land_spec Z.bits_0 Z.shiftl_spec; [|done].
  destruct (decide (m < n)); [by rewrite Z.testbit_neg_r; [|lia]|].
  destruct (decide (b = 0)) as [->|]; [by rewrite Z.bits_0 andb_false_r|].
  rewrite (Z.bits_above_log2 b); [by rewrite andb_false_r|lia|].
  enough (Z.log2 b < n) by lia. apply Z.log2_lt_pow2; lia.
Qed.

Lemma clear_low w n : 0 ≤ n → Z.land w (Z.lnot (Z.ones n)) = 2 ^ n * (w / 2 ^ n).
Proof.
  intros Hn. rewrite -Z.ldiff_land Z.ldiff_ones_r; [|done].
  by rewrite Z.shiftl_mul_pow2 ?Z.shiftr_div_pow2; [lia|..].
Qed.

Lemma keep_low w n : 0 ≤ n → Z.land w (Z.ones n) = w mod 2 ^ n.
Proof. apply Z.land_ones. Qed.

Lemma bit_range c : 0 ≤ bit c < 2.
Proof. by destruct c. Qed.

Lemma word_parent p c : of_ptr (Z.land (word p c) (Z.lnot 3)) = p.
Proof.
  destruct (ptr_quad p) as (q & Hq & Hd). pose proof (bit_range c).
  unfold word, of_ptr. change 3 with (Z.ones 2). rewrite (clear_low _ 2); [|done]. rewrite Hq.
  change (2 ^ 2) with 4. rewrite (Z.mul_comm 4 (_ / _)) Z.div_mul; [|done].
  rewrite Z.mul_comm Z.div_add_l; [|done]. by rewrite (Z.div_small (bit c)) ?Z.add_0_r; [|lia].
Qed.

Lemma word_color p c : Z.land (word p c) 1 = bit c.
Proof.
  destruct (ptr_quad p) as (q & Hq & _). pose proof (bit_range c).
  unfold word. change 1 with (Z.ones 1). rewrite (keep_low _ 1); [|done]. rewrite Hq.
  replace (4 * q + bit c) with (bit c + 2 * q * 2 ^ 1) by lia.
  by rewrite Z.mod_add ?Z.mod_small.
Qed.

Lemma word_set_parent p p' c : Z.lor (Z.land (word p c) 3) (ptr p') = word p' c.
Proof.
  destruct (ptr_quad p) as (q & Hq & _), (ptr_quad p') as (q' & Hq' & _).
  pose proof (bit_range c). unfold word. rewrite Hq Hq'. change 3 with (Z.ones 2).
  rewrite (keep_low _ 2); [|done]. change (2 ^ 2) with 4.
  rewrite (Z.add_comm (4 * q)) (Z.mul_comm 4 q) Z.mod_add; [|done].
  rewrite Z.mod_small; [|lia]. rewrite Z.lor_comm. apply (lor_low q' _ 2); lia.
Qed.

(** The parent's address goes into any word. *)
Lemma set_parent_parent p n : rb_parent (rb_set_parent p n) = p.
Proof.
  destruct (ptr_quad p) as (q & Hq & Hd). unfold rb_parent, rb_set_parent, with_parent_color, of_ptr. simpl.
  change 3 with (Z.ones 2). rewrite (keep_low _ 2); [|done]. rewrite (clear_low _ 2); [|done].
  rewrite Hq. change (2 ^ 2) with 4. pose proof (Z.mod_pos_bound (rb_parent_color n) 4 ltac:(lia)) as Hr.
  rewrite Z.lor_comm (lor_low q _ 2); [|lia..]. change (2 ^ 2) with 4.
  rewrite (Z.mul_comm 4 (_ / _)) Z.div_mul; [|done]. rewrite Z.mul_comm Z.div_add_l; [|done].
  by rewrite (Z.div_small (_ mod _)) ?Z.add_0_r; [|lia].
Qed.

Lemma word_clear_color p c : Z.land (word p c) (Z.lnot 1) = ptr p.
Proof.
  destruct (ptr_quad p) as (q & Hq & _). pose proof (bit_range c).
  unfold word. change 1 with (Z.ones 1). rewrite (clear_low _ 1); [|done]. rewrite Hq.
  change (2 ^ 1) with 2. replace (4 * q + bit c) with (2 * q * 2 + bit c) by lia.
  rewrite Z.div_add_l; [|done]. rewrite Z.div_small; lia.
Qed.

Lemma ptr_lor_bit p c : Z.lor (ptr p) (bit c) = word p c.
Proof.
  destruct (ptr_quad p) as (q & Hq & _). pose proof (bit_range c).
  unfold word. rewrite Hq. apply (lor_low q _ 2); lia.
Qed.

Lemma word_set_black p c : Z.lor (word p c) 1 = word p Black.
Proof.
  rewrite -ptr_lor_bit -Z.lor_assoc -(ptr_lor_bit p Black). by destruct c.
Qed.

Lemma word_inj p p' c c' : word p c = word p' c' → p = p' ∧ c = c'.
Proof.
  intros Hw. split; [by rewrite -(word_parent p c) Hw word_parent|].
  pose proof (word_color p c) as Hc. rewrite Hw word_color in Hc. by destruct c, c'.
Qed.

(** ** Nodes *)

(** The node with the parent [p], the colour [c], and the children [x] on the side [d] and
    [y] on the other. *)
Definition nd (d : side) (p : option A) (c : colour) (x y : option A) : rb_node A :=
  match d with
  | Lft => RbNode (word p c) y x
  | Rgt => RbNode (word p c) x y
  end.

Lemma nd_opp d p c x y : nd (opp d) p c x y = nd d p c y x.
Proof. by destruct d. Qed.
Lemma nd_parent d p c x y : rb_parent (nd d p c x y) = p.
Proof. destruct d; apply word_parent. Qed.
Lemma nd_color d p c x y : rb_color (nd d p c x y) = bit c.
Proof. destruct d; apply word_color. Qed.
Lemma nd_is_red d p c x y : rb_is_red (nd d p c x y) = bool_decide (c = Red).
Proof. unfold rb_is_red. rewrite nd_color. by destruct c. Qed.
Lemma nd_is_black d p c x y : rb_is_black (nd d p c x y) = bool_decide (c = Black).
Proof. unfold rb_is_black. rewrite nd_color. by destruct c. Qed.
Lemma nd_set_red d p c x y : rb_set_red (nd d p c x y) = nd d p Red x y.
Proof.
  destruct d; unfold rb_set_red, with_parent_color; simpl; rewrite word_clear_color;
    by rewrite /word Z.add_0_r.
Qed.
Lemma nd_set_black d p c x y : rb_set_black (nd d p c x y) = nd d p Black x y.
Proof. destruct d; unfold rb_set_black, with_parent_color; simpl; by rewrite word_set_black. Qed.
Lemma nd_set_parent d p p' c x y : rb_set_parent p' (nd d p c x y) = nd d p' c x y.
Proof. destruct d; unfold rb_set_parent, with_parent_color; simpl; by rewrite word_set_parent. Qed.
Lemma nd_set_color d p c c' x y : rb_set_color (bit c') (nd d p c x y) = nd d p c' x y.
Proof.
  destruct d; unfold rb_set_color, with_parent_color; simpl;
    by rewrite word_clear_color ptr_lor_bit.
Qed.
Lemma nd_child d p c x y : rb_child d (nd d p c x y) = x.
Proof. by destruct d. Qed.
Lemma nd_child_opp d p c x y : rb_child (opp d) (nd d p c x y) = y.
Proof. by destruct d. Qed.
Lemma nd_set_child d p c x y z : rb_set_child d z (nd d p c x y) = nd d p c z y.
Proof. by destruct d. Qed.
Lemma nd_set_child_opp d p c x y z : rb_set_child (opp d) z (nd d p c x y) = nd d p c x z.
Proof. by destruct d. Qed.
Lemma nd_fresh p : RbNode (ptr p) None None = nd Lft p Red None None.
Proof. simpl. by rewrite /word Z.add_0_r. Qed.
End words.

#[global] Arguments nd : simpl never.

#[export] Hint Rewrite @nd_parent @nd_color @nd_is_red @nd_is_black @nd_set_red @nd_set_black
  @nd_set_parent @nd_set_color @nd_child @nd_child_opp @nd_set_child @nd_set_child_opp
  @opp_opp : rb_nd.

(** ** Assertions *)

Section rep.
Context {A : Type} `{Countable A}.
Implicit Types (a b : A) (n : rb_node A) (t x y z : tree A) (k : list (frame A)) (p : option A)
  (d : side) (c : colour).

(** The memory as one map: a cell per node, and the cell of the root pointer. *)
Definition rb_cell : Type := rb_node A + option A.
#[export] Instance rb_model : HeapModel (rb_state A) (option A) rb_cell := λ s,
  <[None := inr (rs_root s)]> (kmap Some (inl <$> rs_nodes s)).

Notation rbprop := (hpropI (option A) rb_cell).

Definition node_at a (n : rb_node A) : rbprop := cell (Some a) (inl n).
Definition root_at p : rbprop := cell None (inr p).

Lemma flat_node (s : rb_state A) a n :
  flat s !! Some a = Some (inl n) ↔ rs_nodes s !! a = Some n.
Proof.
  unfold flat, rb_model. rewrite lookup_insert_ne // lookup_kmap lookup_fmap.
  destruct (rs_nodes s !! a); naive_solver.
Qed.

Lemma flat_root (s : rb_state A) p : flat s !! None = Some (inr p) ↔ rs_root s = p.
Proof. unfold flat, rb_model. rewrite lookup_insert_eq. naive_solver. Qed.

(** ** Operations on one cell *)

Lemma hwp_load a n (Q : rb_node A → rbprop) :
  node_at a n ∗ (node_at a n -∗ Q n) ⊢ hwp (load a) Q.
Proof. apply hwp_read. intros s Hs%flat_node. by rewrite /load Hs. Qed.

Lemma hwp_store a (n n' : rb_node A) (Q : unit → rbprop) :
  node_at a n ∗ (node_at a n' -∗ Q tt) ⊢ hwp (store a n') Q.
Proof.
  apply hwp_write. intros s _. eexists. split; [done|].
  unfold flat, rb_model. simpl. by rewrite fmap_insert kmap_insert insert_insert_ne.
Qed.

Lemma hwp_change a n (f : rb_node A → rb_node A) (Q : unit → rbprop) :
  node_at a n ∗ (node_at a (f n) -∗ Q tt) ⊢ hwp (change a f) Q.
Proof.
  iIntros "[Ha HQ]". iApply hwp_bind. iApply hwp_load. iFrame "Ha". iIntros "Ha".
  iApply hwp_store. iFrame.
Qed.

Lemma hwp_root p (Q : option A → rbprop) :
  root_at p ∗ (root_at p -∗ Q p) ⊢ hwp (gets rs_root) Q.
Proof. apply hwp_read. intros s <-%flat_root. done. Qed.

Lemma hwp_set_root (p p' : option A) (Q : unit → rbprop) :
  root_at p ∗ (root_at p' -∗ Q tt) ⊢ hwp (set_root p') Q.
Proof.
  apply hwp_write. intros s _. eexists. split; [done|].
  unfold flat, rb_model. simpl. by rewrite insert_insert_eq.
Qed.

Lemma hwp_deref a (Q : A → rbprop) : Q a ⊢ hwp (deref (Some a)) Q.
Proof. apply hwp_ret. Qed.

Lemma node_at_ne a b (n n' : rb_node A) : node_at a n ∗ node_at b n' ⊢ (⌜a ≠ b⌝ : rbprop).
Proof. rewrite /node_at cell_ne. iIntros (Hne). iPureIntro. naive_solver. Qed.

(** ** Trees *)

(** The nodes of [t], the parent of its root being [p]. *)
Fixpoint tree_rep p t : rbprop :=
  match t with
  | Leaf => emp
  | Node c l a r => node_at a (nd Lft p c (root_of l) (root_of r)) ∗
      tree_rep (Some a) l ∗ tree_rep (Some a) r
  end%I.

(** The nodes above a hole with [x] in it, and the root pointer. *)
Fixpoint ctx_rep (x : option A) k : rbprop :=
  match k with
  | [] => root_at x
  | Frame d c a s :: k =>
      node_at a (nd d (parent_of k) c x (root_of s)) ∗ tree_rep (Some a) s ∗ ctx_rep (Some a) k
  end%I.

(** The whole tree. *)
Definition whole t : rbprop := (tree_rep None t ∗ root_at (root_of t))%I.

Lemma tree_rep_mk p d c x a y : tree_rep p (mk d c x a y) ⊣⊢
  node_at a (nd d p c (root_of x) (root_of y)) ∗ tree_rep (Some a) x ∗ tree_rep (Some a) y.
Proof. destruct d; simpl; [done|]. by rewrite [(tree_rep _ y ∗ _)%I]comm. Qed.

Lemma rep_plug t k k0 : tree_rep (parent_of (k ++ k0)) t ∗ ctx_rep (root_of t) (k ++ k0) ⊣⊢
  tree_rep (parent_of k0) (plug t k) ∗ ctx_rep (root_of (plug t k)) k0.
Proof.
  revert t. induction k as [|[d c a s] k IH]; intros t; simpl; [done|].
  rewrite -IH tree_rep_mk root_mk. iSplit; iIntros "H"; iStopProof; [|].
  - iIntros "(Ht & Ha & Hs & Hk)". iFrame.
  - iIntros "((Ha & Ht & Hs) & Hk)". iFrame.
Qed.

Lemma whole_plug t k :
  whole (plug t k) ⊣⊢ tree_rep (parent_of k) t ∗ ctx_rep (root_of t) k.
Proof. rewrite -{2 3}(app_nil_r k) rep_plug. done. Qed.

Lemma whole_join t k : tree_rep (parent_of k) t ∗ ctx_rep (root_of t) k ⊢ whole (plug t k).
Proof. by rewrite whole_plug. Qed.

Lemma whole_at d c x a y k : whole (plug (mk d c x a y) k) ⊣⊢
  node_at a (nd d (parent_of k) c (root_of x) (root_of y)) ∗
  tree_rep (Some a) x ∗ tree_rep (Some a) y ∗ ctx_rep (Some a) k.
Proof. by rewrite whole_plug tree_rep_mk root_mk -!assoc. Qed.

(** A node that is owned apart is not in the tree. *)
Lemma node_not_in a n p t : node_at a n ∗ tree_rep p t ⊢ ⌜a ∉ inorder t⌝.
Proof.
  iInduction t as [|c l IHl b r IHr] forall (p); simpl; iIntros "[Ha Ht]"; [iPureIntro; set_solver|].
  iDestruct "Ht" as "(Hb & Hl & Hr)".
  iDestruct (node_at_ne with "[$Ha $Hb]") as %Hb.
  iDestruct ("IHl" with "[$Ha $Hl]") as %Hl. iDestruct ("IHr" with "[$Ha $Hr]") as %Hr.
  iPureIntro. set_solver.
Qed.

Lemma node_not_root a n p t : node_at a n ∗ tree_rep p t ⊢ ⌜root_of t ≠ Some a⌝.
Proof. rewrite node_not_in. iPureIntro. by intros Ha Ht%root_elem. Qed.
End rep.
