(* ===== verification/RbTreeOps.v ===== *)
(** * Tree-level rules for the operations of rbtree.c

    [twp m Φ t]: run on a memory that holds the tree [t], [m] returns a value and leaves a
    tree that satisfy [Φ].  The rules say of each operation of [RbTree] which tree it
    leaves; the proofs of the loops need nothing else. *)

From S2P Require Export RbTreeRep.

Section facts.
Context {A : Type} `{Countable A}.
Notation rbprop := (hpropI (option A) (@rb_cell A)).
Implicit Types (a b : A) (n : rb_node A) (t x y z : tree A) (k : list (frame A)) (p : option A)
  (d : side) (c : colour).

(** ** What the memory says of the tree *)

Lemma tree_rep_elem p t a : a ∈ inorder t → tree_rep p t ⊢ ∃ n, node_at a n.
Proof.
  revert p. induction t as [|c l IHl b r IHr]; intros p; [by intros ?%elem_of_nil|].
  unfold inorder. simpl. rewrite elem_of_app elem_of_cons. iIntros ([Ha|[->|Ha]]) "(Hb & Hl & Hr)".
  - by iApply (IHl with "Hl").
  - by iExists _.
  - by iApply (IHr with "Hr").
Qed.

Lemma tree_rep_disjoint p q t1 t2 :
  tree_rep p t1 ∗ tree_rep q t2 ⊢ ⌜∀ a, a ∈ inorder t1 → a ∉ inorder t2⌝.
Proof.
  iIntros "[H1 H2]" (a Ha). iDestruct (tree_rep_elem _ _ a with "H1") as (n) "Ha"; [done|].
  iApply (node_not_in with "[$Ha $H2]").
Qed.

Lemma tree_rep_NoDup p t : tree_rep p t ⊢ ⌜NoDup (inorder t)⌝.
Proof.
  revert p. induction t as [|c l IHl b r IHr]; intros p; simpl; iIntros "Ht"; [iPureIntro; constructor|].
  iDestruct "Ht" as "(Hb & Hl & Hr)".
  iDestruct (node_not_in with "[$Hb $Hl]") as %Hbl. iDestruct (node_not_in with "[$Hb $Hr]") as %Hbr.
  iDestruct (tree_rep_disjoint with "[$Hl $Hr]") as %Hlr.
  iDestruct (IHl with "Hl") as %Hl. iDestruct (IHr with "Hr") as %Hr.
  iPureIntro. unfold inorder in *. simpl. apply NoDup_app. split_and!; [done| |by apply NoDup_cons].
  intros a Ha [->|?]%elem_of_cons; [done|by eapply Hlr].
Qed.

Lemma whole_NoDup t : whole t ⊢ ⌜NoDup (inorder t)⌝.
Proof. iIntros "[Ht _]". iApply (tree_rep_NoDup with "Ht"). Qed.

Lemma whole_size t h hf (s : rb_state A) :
  flat s = h ∪ hf → whole t h → (length (inorder t) ≤ size (rs_nodes s))%nat.
Proof.
  intros Hs Ht. pose proof (hprop_in _ _ (whole_NoDup t) h Ht) as Hnd.
  assert (list_to_set (inorder t) ⊆ dom (rs_nodes s)) as Hsub.
  { intros a Ha%elem_of_list_to_set.
    assert (whole t ⊢ ∃ n, node_at a n) as He.
    { iIntros "[Ht _]". iApply (tree_rep_elem with "Ht"). done. }
    destruct (hprop_in _ _ He h Ht) as [n Hn]. apply elem_of_dom. exists n.
    by eapply flat_node, owned_lookup. }
  apply subseteq_size in Hsub. by rewrite size_list_to_set // size_dom in Hsub.
Qed.
End facts.

Section twp.
Context {A : Type} `{Countable A}.
Notation rbprop := (hpropI (option A) (@rb_cell A)).
Implicit Types (a b : A) (n : rb_node A) (t : tree A) (k : list (frame A)) (p : option A)
  (d : side) (c : colour).

Definition twp {X} (m : M (rb_state A) X) (Φ : X → tree A → Prop) t : Prop :=
  whole t ⊢ hwp m (λ x, ∃ t', ⌜Φ x t'⌝ ∗ whole t').

(** ** Structural rules *)

Lemma twp_ret {X} (x : X) (Φ : X → tree A → Prop) t : Φ x t → twp (mret x) Φ t.
Proof. iIntros (HΦ) "Ht". iApply hwp_ret. iExists t. by iFrame. Qed.

Lemma twp_hwp {X} (m : M (rb_state A) X) (Φ : X → tree A → Prop) t (Q : X → rbprop) :
  twp m Φ t → (∀ x t', Φ x t' → whole t' ⊢ Q x) → whole t ⊢ hwp m Q.
Proof.
  iIntros (Hm HQ) "Ht". iApply hwp_wand. iSplitL; [by iApply Hm|].
  iIntros (x) "(%t' & % & Ht)". by iApply HQ.
Qed.

Lemma twp_wand {X} (m : M (rb_state A) X) (Φ : X → tree A → Prop) t (Q : X → rbprop) :
  twp m Φ t → whole t ∗ (∀ v t', ⌜Φ v t'⌝ -∗ whole t' -∗ Q v) ⊢ hwp m Q.
Proof.
  iIntros (Hm) "[Ht HQ]". iApply hwp_wand. iSplitL "Ht"; [by iApply Hm|].
  iIntros (v) "(%t' & % & Ht)". by iApply ("HQ" with "[//] Ht").
Qed.

Lemma twp_bind {X Y} (m : M (rb_state A) X) (f : X → M (rb_state A) Y) (Φ : Y → tree A → Prop) t :
  twp m (λ x, twp (f x) Φ) t → twp (m ≫= f) Φ t.
Proof. iIntros (Hm) "Ht". iApply hwp_bind. iApply (twp_hwp with "Ht"); [done|]. by intros x t'. Qed.

Lemma twp_mono {X} (m : M (rb_state A) X) (Φ Ψ : X → tree A → Prop) t :
  twp m Φ t → (∀ x t', Φ x t' → Ψ x t') → twp m Ψ t.
Proof.
  intros Hm HΦ. apply (twp_hwp _ _ _ _ Hm). iIntros (x t' Hx) "Ht". iExists t'. iFrame. by iPureIntro; apply HΦ.
Qed.

Lemma twp_NoDup {X} (m : M (rb_state A) X) (Φ : X → tree A → Prop) t :
  (NoDup (inorder t) → twp m Φ t) → twp m Φ t.
Proof. iIntros (Hm) "Ht". iDestruct (whole_NoDup with "Ht") as %Hnd. by iApply Hm. Qed.

Lemma twp_rounds (Φ : nat → tree A → Prop) t :
  (∀ fuel, (length (inorder t) < fuel)%nat → Φ fuel t) → twp rounds Φ t.
Proof.
  intros HΦ. apply hwp_gets. intros s h hf Hs Ht.
  assert (whole t ⊢ ∃ t', ⌜Φ (S (size (rs_nodes s))) t'⌝ ∗ whole t') as He; [|exact (hprop_in _ _ He h Ht)].
  iIntros "Ht". iExists t. iFrame. iPureIntro. apply HΦ. pose proof (whole_size _ _ _ _ Hs Ht). lia.
Qed.

Lemma twp_root (Φ : option A → tree A → Prop) t : Φ (root_of t) t → twp (gets rs_root) Φ t.
Proof.
  iIntros (HΦ) "[Ht Hr]". iApply hwp_root. iFrame "Hr". iIntros "Hr". iExists t. by iFrame.
Qed.

Lemma twp_deref a (Φ : A → tree A → Prop) t : Φ a t → twp (deref (Some a)) Φ t.
Proof. apply twp_ret. Qed.

(** ** One node *)

Lemma twp_load d c x a y k (Φ : rb_node A → tree A → Prop) :
  Φ (nd d (parent_of k) c (root_of x) (root_of y)) (plug (mk d c x a y) k) →
  twp (load a) Φ (plug (mk d c x a y) k).
Proof.
  rewrite /twp {1}whole_at. iIntros (HΦ) "(Ha & Hx & Hy & Hk)". iApply hwp_load. iFrame "Ha". iIntros "Ha".
  iExists _. iSplit; [done|]. rewrite whole_at. iFrame.
Qed.

(** A change of the colour. *)
Lemma twp_recolour d c c' x a y k f (Φ : unit → tree A → Prop) :
  (∀ p x y, f (nd d p c x y) = nd d p c' x y) →
  Φ tt (plug (mk d c' x a y) k) →
  twp (change a f) Φ (plug (mk d c x a y) k).
Proof.
  rewrite /twp {1}whole_at. iIntros (Hf HΦ) "(Ha & Hx & Hy & Hk)". iApply hwp_change. iFrame "Ha".
  iIntros "Ha". iExists _. iSplit; [done|]. rewrite whole_at Hf. iFrame.
Qed.

(** ** The root of a subtree *)

Lemma twp_colour_test t k (test : option A → M (rb_state A) bool) (f : rb_node A → bool)
    (res : colour → bool) (Φ : bool → tree A → Prop) :
  (∀ a, test (Some a) = (n ← load a; mret (f n))) → test None = mret (res Black) →
  (∀ d p c x y, f (nd d p c x y) = res c) →
  Φ (res (colour_of t)) (plug t k) → twp (test (root_of t)) Φ (plug t k).
Proof.
  intros Hsome Hnone Hf HΦ. destruct t as [|c l a r]; simpl; [rewrite Hnone|rewrite Hsome].
  - by apply twp_ret.
  - apply twp_bind, (twp_load Lft c l a r k), twp_ret. by rewrite Hf.
Qed.

Lemma twp_red_node t k (Φ : bool → tree A → Prop) :
  Φ (bool_decide (colour_of t = Red)) (plug t k) → twp (red_node (root_of t)) Φ (plug t k).
Proof.
  intros HΦ. eapply (twp_colour_test _ _ _ rb_is_red (λ c, bool_decide (c = Red))); try done.
  intros. apply nd_is_red.
Qed.

Lemma twp_black_or_null t k (Φ : bool → tree A → Prop) :
  Φ (bool_decide (colour_of t = Black)) (plug t k) → twp (black_or_null (root_of t)) Φ (plug t k).
Proof.
  intros HΦ. eapply (twp_colour_test _ _ _ rb_is_black (λ c, bool_decide (c = Black))); try done.
  intros. apply nd_is_black.
Qed.

Lemma twp_blacken t k (Φ : unit → tree A → Prop) :
  Φ tt (plug (blacken t) k) → twp (change_if (root_of t) rb_set_black) Φ (plug t k).
Proof.
  intros HΦ. destruct t as [|c l a r]; simpl; [by apply twp_ret|].
  apply (twp_recolour Lft c Black); [|done]. intros. apply nd_set_black.
Qed.
End twp.

(** ** Pointers between nodes *)

(** Proof steps: bind, and the operation on the owned cell [H]. *)
Ltac rb_nd := cbv beta; autorewrite with rb_nd.
Tactic Notation "hload" constr(H) :=
  iApply hwp_bind; iApply hwp_load; iFrame H; iIntros H; rb_nd.
Tactic Notation "hchange" constr(H) :=
  iApply hwp_bind; iApply hwp_change; iFrame H; iIntros H; rb_nd.

Section pointers.
Context {A : Type} `{Countable A}.
Notation rbprop := (hpropI (option A) (@rb_cell A)).
Implicit Types (a b : A) (n : rb_node A) (t : tree A) (k : list (frame A)) (p : option A)
  (d : side) (c : colour).

Lemma hwp_reparent p p' t (Q : unit → rbprop) :
  tree_rep p t ∗ (tree_rep p' t -∗ Q tt) ⊢ hwp (change_if (root_of t) (rb_set_parent p')) Q.
Proof.
  destruct t as [|c l a r]; simpl; iIntros "[Ht HQ]".
  - iApply hwp_ret. by iApply "HQ".
  - iDestruct "Ht" as "[Ha Ht]". iApply hwp_change. iFrame "Ha". rb_nd.
    iIntros "Ha". iApply "HQ". iFrame.
Qed.

Lemma hwp_replace_child d a n k (y : option A) (Q : unit → rbprop) :
  node_at a n ∗ ctx_rep (Some a) k ∗ (node_at a n -∗ ctx_rep y k -∗ Q tt)
  ⊢ hwp (replace_child d (parent_of k) a y) Q.
Proof.
  destruct k as [|[d' c p s] k]; simpl; iIntros "(Ha & Hk & HQ)".
  - iApply hwp_set_root. iFrame "Hk". iIntros "Hk". iApply ("HQ" with "Ha Hk").
  - iDestruct "Hk" as "(Hp & Hs & Hk)". hload "Hp".
    iDestruct (node_not_root with "[$Ha $Hs]") as %Hs.
    destruct (side_cases d d') as [-> | ->].
    + rewrite nd_child decide_True //. iApply hwp_change. iFrame "Hp". rb_nd. iIntros "Hp".
      iApply ("HQ" with "Ha"). iFrame.
    + rewrite !nd_opp nd_child decide_False //. iApply hwp_change. iFrame "Hp". rb_nd. iIntros "Hp".
      iApply ("HQ" with "Ha"). iFrame.
Qed.

Lemma twp_rotate d c x a c' y b z k (Φ : unit → tree A → Prop) :
  Φ tt (plug (mk d c' (mk d c x a y) b z) k) →
  twp (rb_rotate d a) Φ (plug (mk d c x a (mk d c' y b z)) k).
Proof.
  rewrite /twp {1}whole_at root_mk tree_rep_mk. iIntros (HΦ) "(Ha & Hx & (Hb & Hy & Hz) & Hk)".
  hload "Ha". iApply hwp_bind. iApply hwp_deref. cbv zeta. rb_nd. hload "Hb". hchange "Ha".
  iApply hwp_bind. iApply hwp_reparent. iFrame "Hy". iIntros "Hy".
  hchange "Hb". hchange "Hb". iApply hwp_bind. iApply hwp_replace_child. iFrame "Ha Hk". iIntros "Ha Hk".
  iApply hwp_change. iFrame "Ha". rb_nd. iIntros "Ha".
  iExists _. iSplit; [done|]. rewrite whole_at tree_rep_mk root_mk. iFrame.
Qed.

(** The rotation the other way. *)
Lemma twp_rotate_opp d c x a c' y b z k (Φ : unit → tree A → Prop) :
  Φ tt (plug (mk d c' x b (mk d c y a z)) k) →
  twp (rb_rotate (opp d) a) Φ (plug (mk d c (mk d c' x b y) a z) k).
Proof.
  intros HΦ. rewrite -(mk_opp d c) -(mk_opp d c'). apply twp_rotate. by rewrite !mk_opp.
Qed.
End pointers.
