(* ===== verification/RbInsert.v ===== *)
(** * Insertion into a red-black tree

    [rb_link_node] puts a node into a hole of the tree; [rb_insert_color] then restores the
    red-black conditions and keeps the order.  The loop's invariant is [red_focus]: the
    tree is red-black but for a red node that may have a red parent. *)

From S2P Require Export RbTreeOps.

(** The focused node's rule, with the context spelled out by conversion. *)
Ltac tload d k :=
  apply twp_bind; eapply (twp_load d _ _ _ _ k); rb_nd.

Section sides.
Context {A : Type} `{Countable A}.
Implicit Types (a b : A) (x y t : tree A) (k : list (frame A)) (d : side) (c : colour).

Lemma NoDup_plug t k : NoDup (inorder (plug t k)) → NoDup (inorder t).
Proof. unfold inorder. rewrite walk_plug !NoDup_app. naive_solver. Qed.

Lemma roots_ne d c x a y k : NoDup (inorder (plug (mk d c x a y) k)) →
  x ≠ Leaf ∨ y ≠ Leaf → root_of x ≠ root_of y.
Proof.
  intros Hnd%NoDup_plug Hxy Heq.
  assert (∃ b, root_of x = Some b ∧ root_of y = Some b) as (b & Hx%root_elem & Hy%root_elem).
  { destruct x as [|? ? b ?], y as [|? ? b' ?]; simplify_eq/=; [naive_solver|by exists b']. }
  unfold inorder in *. destruct d; simpl in Hnd; apply NoDup_app in Hnd as (_ & Hnd & _);
    [apply (Hnd b Hx)|apply (Hnd b Hy)]; by right.
Qed.

(** The test for the left child tells the side of the hole. *)
Lemma side_test {X} d p c x a y k (f : side → X) :
  NoDup (inorder (plug (mk d c x a y) k)) → x ≠ Leaf ∨ y ≠ Leaf →
  f (if decide (rb_left (nd d p c (root_of x) (root_of y)) = root_of x) then Lft else Rgt) = f d.
Proof.
  intros Hnd Hxy. pose proof (roots_ne _ _ _ _ _ _ Hnd Hxy).
  destruct d; simpl; [by rewrite decide_True|by rewrite decide_False].
Qed.
End sides.

Section insert.
Context {A : Type} `{Countable A}.
Notation rbprop := (hpropI (option A) (@rb_cell A)).
Implicit Types (a b node parent : A) (t : tree A) (k : list (frame A)) (d : side) (c : colour).

(** ** Linking *)

(** The pointer into the tree at a hole. *)
Definition link_of k : rb_link A :=
  match k with [] => LinkRoot | Frame d _ a _ :: _ => LinkChild d a end.

Lemma hwp_link_node a (n : rb_node A) k (Q : unit → rbprop) :
  node_at a n ∗ whole (plug Leaf k) ∗ (whole (plug (Node Red Leaf a Leaf) k) -∗ Q tt)
  ⊢ hwp (rb_link_node a (parent_of k) (link_of k)) Q.
Proof.
  rewrite !whole_plug. iIntros "(Ha & [_ Hk] & HQ)". iApply hwp_bind. iApply hwp_store.
  iFrame "Ha". iIntros "Ha". rewrite nd_fresh.
  destruct k as [|[d c p s] k]; simpl.
  - iApply hwp_set_root. iFrame "Hk". iIntros "Hk". iApply "HQ". by iFrame.
  - iDestruct "Hk" as "(Hp & Hs & Hk)". iApply hwp_change. iFrame "Hp". rb_nd. iIntros "Hp".
    iApply "HQ". by iFrame.
Qed.

Lemma twp_read_link t k (Φ : option A → tree A → Prop) :
  Φ (root_of t) (plug t k) → twp (read_link (link_of k)) Φ (plug t k).
Proof.
  intros HΦ. destruct k as [|[d c a s] k]; simpl in *; [by apply twp_root|].
  tload d k. by apply twp_ret.
Qed.

(** ** Restoring the conditions *)

(** The focus is a red node [node] under [m] frames, all else is as it should be. *)
Definition red_focus node (m : nat) t : Prop := ∃ d l r k n,
  t = plug (mk d Red l node r) k ∧ RB Black n l ∧ RB Black n r ∧ CT k Black n ∧ length k = m.

(** Red-black but for the colour of the root. *)
Definition soft t : Prop := ∃ d c c1 c2 n l a r, t = mk d c l a r ∧ RB c1 n l ∧ RB c2 n r.

Lemma red_black_soft t : red_black t → t ≠ Leaf → soft t.
Proof.
  intros [n Ht] Hne. inversion Ht as [| |m c1 c2 l a r Hl Hr]; subst; [done|].
  by exists Lft, Black, c1, c2, m, l, a, r.
Qed.

(** The last steps of a round, [parent] being the node to go up. *)
Lemma insert_lift d tn node parent y g u k n :
  root_of tn = Some node → RB Red n tn → RB Black n y → RB Black n u → CT k Black (S n) →
  twp (change parent rb_set_black;; change g rb_set_red;; rb_rotate (opp d) g;; mret node)
    (λ node' t', red_focus node' (S (length k)) t' ∧
      inorder t' = inorder (plug (mk d Black (mk d Red tn parent y) g u) k))
    (plug (mk d Black (mk d Red tn parent y) g u) k).
Proof.
  intros Hnode Htn Hy Hu Hk.
  apply twp_bind, (twp_recolour d Red Black _ _ _ (Frame d Black g u :: k)); [by intros; rb_nd|].
  apply twp_bind, (twp_recolour d Black Red _ _ _ k); [by intros; rb_nd|].
  apply twp_bind, twp_rotate_opp, twp_ret. split.
  - apply (RB_red_inv d) in Htn as (l & a & r & -> & Hl & Hr). rewrite root_mk in Hnode. simplify_eq.
    exists d, l, r, (Frame d Black parent (mk d Red y g u) :: k), n.
    split_and!; [done..| |done]. econstructor; [by apply RB_mk_red|done].
  - apply walk_plug_eq. apply walk_rotate.
Qed.

(** One round: the focus moves up, the order of the nodes stays. *)
Lemma insert_case d d2 tn node p s g u cu k n :
  root_of tn = Some node → RB Red n tn → RB Black n s → RB cu n u → CT k Black (S n) →
  let t := plug (mk d2 Red tn p s) (Frame d Black g u :: k) in
  twp (rb_insert_case d node p g)
    (λ node' t', ∃ m, red_focus node' m t' ∧ (m < S (S (length k)))%nat ∧ inorder t' = inorder t) t.
Proof.
  intros Hnode Htn Hs Hu Hk. cbv zeta. apply twp_NoDup. intros Hnd.
  unfold rb_insert_case. tload d k. cbv zeta. apply twp_bind.
  set (x := mk d2 Red tn p s) in *.
  rewrite -(mk_opp d) in Hnd |- *. apply (twp_red_node u (Frame (opp d) Black g x :: k)). simpl.
  rewrite (RB_colour _ _ _ Hu). destruct cu; simpl.
  - (* red uncle *)
    apply (RB_red_inv Lft) in Hu as (u1 & ua & u2 & -> & Hu1 & Hu2). rewrite root_mk.
    apply twp_bind, twp_deref.
    apply twp_bind, (twp_recolour Lft Red Black _ _ _ (Frame (opp d) Black g x :: k)); [by intros; rb_nd|].
    simpl. rewrite mk_opp.
    apply twp_bind, (twp_recolour d2 Red Black _ _ _ (Frame d Black g _ :: k)); [by intros; rb_nd|].
    apply twp_bind, (twp_recolour d Black Red _ _ _ k); [by intros; rb_nd|]. apply twp_ret.
    exists (length k). split_and!; [|lia|].
    + exists d, (mk d2 Black tn p s), (mk Lft Black u1 ua u2), k, (S n).
      split_and!; [done|by eapply RB_mk_black|by eapply RB_mk_black|done|done].
    + apply walk_plug_eq. by destruct d, d2.
  - (* black uncle, or none *)
    rewrite mk_opp in Hnd |- *. unfold x in *. clear x.
    tload d2 (Frame d Black g u :: k). apply twp_bind.
    destruct (side_cases d d2) as [-> | ->].
    + rewrite nd_child_opp. assert (root_of s ≠ Some node) as Hne.
      { rewrite -Hnode. symmetry. apply (roots_ne d Red tn p s (Frame d Black g u :: k) Hnd).
        left. by intros ->. }
      rewrite decide_False //. apply twp_ret. eapply twp_mono; [by eapply insert_lift|].
      intros node' t' [Hf Ho]. exists (S (length k)). split_and!; [done|lia|done].
    + rewrite nd_child Hnode decide_True //.
      destruct (RB_red_inv d _ _ Htn) as (l & a & r & -> & Hl & Hr). rewrite root_mk in Hnode. simplify_eq.
      rewrite !mk_opp. apply twp_bind, (twp_rotate d Red s p Red l node r (Frame d Black g u :: k)), twp_ret.
      eapply twp_mono; [eapply (insert_lift d (mk d Red s p l)); [apply root_mk|by apply RB_mk_red|done..]|].
      intros node' t' [Hf Ho]. exists (S (length k)). split_and!; [done|lia|].
      rewrite Ho. apply walk_plug_eq, walk_mk_eq. symmetry. apply walk_rotate.
Qed.

Lemma insert_loop fuel : ∀ m node t, red_focus node m t → (m < fuel)%nat →
  twp (rb_insert_loop fuel node) (λ _ t', soft t' ∧ inorder t' = inorder t) t.
Proof.
  induction fuel as [|fuel IH]; intros m node t Hf Hm; [lia|].
  destruct Hf as (d & l & r & k & n & -> & Hl & Hr & Hk & <-). apply twp_NoDup. intros Hnd. simpl.
  tload d k. destruct k as [|[d2 c p s] k]; simpl.
  { apply twp_ret. split; [|done]. by exists d, Red, Black, Black, n, l, node, r. }
  tload d2 k. destruct c; simpl.
  - (* red parent: it has a black parent *)
    inversion Hk as [|? ? ? ? ? Hs Hk'|]; subst.
    inversion Hk' as [| |d' g u k' ? cu ? Hu Hk'']; subst. simpl.
    apply twp_bind, twp_deref. tload d' k'.
    rewrite (root_mk d2) -(root_mk d2 Red (mk d Red l node r) p s).
    rewrite (side_test d' _ Black (mk d2 Red (mk d Red l node r) p s) g u k'
      (λ d, rb_insert_case d node p g) Hnd).
    2:{ left. intros Heq. apply (f_equal root_of) in Heq. by rewrite root_mk in Heq. }
    apply twp_bind. eapply twp_mono.
    { apply (insert_case d' d2 (mk d Red l node r)) with (n := n) (cu := cu); try done; [apply root_mk|by apply RB_mk_red]. }
    intros node' t' (m & Hf & Hlt & Ho). eapply twp_mono; [eapply IH; [done|simpl in Hm; lia]|].
    intros _ t'' [Hsoft Ho']. split; [done|]. by rewrite Ho'.
  - (* black parent *)
    apply twp_ret. split; [|done].
    inversion Hk as [| |? ? ? ? ? c' ? Hs Hk']; subst. apply red_black_soft.
    + eapply (CT_plug k Black (S n)); [done|]. eapply RB_mk_black; [by apply RB_mk_red|done].
    + by eapply plug_not_leaf, root_mk.
Qed.

(** Linking a red node into a red-black tree and restoring the conditions. *)
Lemma insert_color node k : red_black (plug Leaf k) →
  twp (rb_insert_color node) (λ _ t', red_black t' ∧ inorder t' = inorder (plug (Node Red Leaf node Leaf) k))
    (plug (Node Red Leaf node Leaf) k).
Proof.
  intros Hrb. apply plug_CT in Hrb as (c & n & [-> ->]%RB_leaf_inv & Hk).
  apply twp_bind, twp_rounds. intros fuel Hfuel. apply twp_bind. eapply twp_mono.
  { eapply (insert_loop fuel (length k)); [exists Lft, Leaf, Leaf, k, 0%nat; split_and!; [done|constructor..|done|done]|].
    pose proof (length_plug (Node Red Leaf node Leaf) k). lia. }
  intros _ t [Hsoft Ho]. apply twp_bind, twp_root.
  destruct Hsoft as (d & c & c1 & c2 & n & l & a & r & -> & Hl & Hr). rewrite root_mk.
  apply twp_bind, twp_deref, (twp_recolour d c Black _ _ _ []); [by intros; rb_nd|]. split.
  - exists (S n). by eapply RB_mk_black.
  - rewrite -Ho. apply walk_colour.
Qed.
End insert.
