(* ===== verification/RbErase.v ===== *)
(** * Deletion from a red-black tree

    [__rb_erase_color] restores the red-black conditions after a black node is gone: below
    the hole every path is one black node short.  Then [rb_erase] for nodes with at most
    one child and with two. *)

From S2P Require Export RbInsert.

Section erase_color.
Context {A : Type} `{Countable A}.
Implicit Types (a b parent : A) (t x y : tree A) (k : list (frame A)) (d : side) (c pc : colour).

(** The black height above a node of the colour [c]. *)
Definition up c (n : nat) : nat := match c with Red => n | Black => S n end.

Lemma RB_join d c n x a y : RB Black n x → RB Black n y → RB c (up c n) (mk d c x a y).
Proof. intros Hx Hy. destruct c; [by apply RB_mk_red|by eapply RB_mk_black]. Qed.

(** A tree one black node short: with a black root it has the height [n]; a red root may
    have red children and makes up for the node when it becomes black. *)
Definition short (n : nat) t : Prop :=
  RB Black n t ∨ ∃ d l a r c1 c2, t = mk d Red l a r ∧ RB c1 n l ∧ RB c2 n r.

Lemma short_RB c n t : RB c n t → short n t.
Proof.
  destruct c; [|by left]. intros (l & a & r & -> & Hl & Hr)%(RB_red_inv Lft). right.
  by exists Lft, l, a, r, Black, Black.
Qed.

Lemma short_red n t : short n t → colour_of t = Red → RB Black (S n) (blacken t).
Proof.
  intros [Ht|(d & l & a & r & c1 & c2 & -> & Hl & Hr)] Hc; [by rewrite (RB_colour _ _ _ Ht) in Hc|].
  rewrite blacken_mk. by eapply RB_mk_black.
Qed.

Lemma short_black n t : short n t → colour_of t = Black → RB Black n t.
Proof. intros [Ht|(d & l & a & r & c1 & c2 & -> & _)] Hc; [done|]. by rewrite colour_mk in Hc. Qed.

Lemma short_blacken n t : short n t → red_black (blacken t).
Proof.
  intros Hs. destruct (colour_of t) eqn:Hc; [by exists (S n); apply short_red|].
  by eapply RB_blacken, short_black.
Qed.

(** The part of [rb_erase_case] after a red sibling is out of the way. *)
Definition erase_sibling d parent other : M (rb_state A) (option (A * option A)) :=
  on ← load other;
  near ← black_or_null (rb_child d on);
  far ← black_or_null (rb_child (opp d) on);
  if (near : bool) && (far : bool) then
    change other rb_set_red;;
    pn ← load parent;
    mret (Some (parent, rb_parent pn))
  else
    other ← (if (far : bool) then
               change_if (rb_child d on) rb_set_black;;
               change other rb_set_red;;
               rb_rotate (opp d) other;;
               pn ← load parent;
               deref (rb_child (opp d) pn)
             else mret other);
    pn ← load parent;
    change other (rb_set_color (rb_color pn));;
    change parent rb_set_black;;
    on ← load other;
    change_if (rb_child (opp d) on) rb_set_black;;
    rb_rotate d parent;;
    mret None.

(** What a round leaves: a red-black tree, or a tree to go on with, further up or with a
    red root. *)
Definition round_post pc (m : nat) (next : option (A * option A)) t : Prop :=
  match next with
  | None => red_black t
  | Some (a, p) => ∃ f k n, t = plug f k ∧ root_of f = Some a ∧ p = parent_of k ∧
      short n f ∧ CT k Black (S n) ∧ (colour_of f = Red ∨ pc = Black ∧ (length k ≤ m)%nat)
  end.

(** The sibling [b] has a red child on the far side. *)
Lemma erase_last d pc t parent s1 c1 b s2 k n :
  RB Black n t → RB c1 n s1 → RB Red n s2 → CT k pc (up pc (S n)) →
  let T := plug (mk d pc t parent (mk d Black s1 b s2)) k in
  twp (pn ← load parent;
       change b (rb_set_color (rb_color pn));;
       change parent rb_set_black;;
       on ← load b;
       change_if (rb_child (opp d) on) rb_set_black;;
       rb_rotate d parent;;
       mret None)
    (λ next t', round_post pc (length k) next t' ∧ inorder t' = inorder T) T.
Proof.
  intros Ht Hs1 Hs2 Hk. cbv zeta. remember (inorder _) as o eqn:Ho. tload d k. rewrite plug_far.
  apply twp_bind, (twp_recolour d Black pc _ _ _ (Frame (opp d) pc parent t :: k)); [by intros; rb_nd|].
  rewrite -plug_far. apply twp_bind, (twp_recolour d pc Black _ _ _ k); [by intros; rb_nd|].
  rewrite plug_far. tload d (Frame (opp d) Black parent t :: k). rewrite plug_far.
  apply twp_bind, twp_blacken. rewrite -!plug_far. apply twp_bind, twp_rotate, twp_ret. split.
  - eapply CT_plug; [done|]. apply RB_join; [by eapply RB_mk_black|].
    by apply (short_red n); [eapply short_RB|eapply RB_colour].
  - rewrite Ho. apply walk_plug_eq. rewrite -(walk_rotate Rgt d pc Black).
    destruct d; simpl; by rewrite ?walk_blacken.
Qed.
(** A round with the black sibling [b]. *)
Lemma erase_black d pc t parent s1 c1 b s2 c2 k n :
  RB Black n t → RB c1 n s1 → RB c2 n s2 → CT k pc (up pc (S n)) →
  let T := plug (mk d pc t parent (mk d Black s1 b s2)) k in
  twp (erase_sibling d parent b)
    (λ next t', round_post pc (length k) next t' ∧ inorder t' = inorder T) T.
Proof.
  intros Ht Hs1 Hs2 Hk. cbv zeta. remember (inorder _) as o eqn:Ho. unfold erase_sibling.
  rewrite plug_far. tload d (Frame (opp d) pc parent t :: k).
  apply twp_bind, (twp_black_or_null s1 (Frame d Black b s2 :: Frame (opp d) pc parent t :: k)).
  change (plug s1 (_ :: ?K)) with (plug (mk d Black s1 b s2) K). rewrite (plug_far d Black).
  apply twp_bind, (twp_black_or_null s2 (Frame (opp d) Black b s1 :: Frame (opp d) pc parent t :: k)).
  rewrite (RB_colour _ _ _ Hs1) (RB_colour _ _ _ Hs2) -(plug_far d Black).
  destruct c2; [rewrite andb_false_r; apply twp_bind, twp_ret; rewrite -plug_far|].
  { subst o. by eapply erase_last. }
  destruct c1; simpl.
  - (* the near child is red *)
    apply (RB_red_inv d) in Hs1 as (x & a & y & -> & Hx & Hy). rewrite root_mk. apply twp_bind.
    apply twp_bind, (twp_recolour d Red Black _ _ _ (Frame d Black b s2 :: Frame (opp d) pc parent t :: k));
      [by intros; rb_nd|].
    apply twp_bind, (twp_recolour d Black Red _ _ _ (Frame (opp d) pc parent t :: k)); [by intros; rb_nd|].
    apply twp_bind, (twp_rotate_opp d Red x b Black y a s2 (Frame (opp d) pc parent t :: k)).
    rewrite -plug_far. tload d k. rewrite root_mk. apply twp_deref.
    assert (o = inorder (plug (mk d pc t parent (mk d Black x a (mk d Red y b s2))) k)) as ->.
    { rewrite Ho. apply walk_plug_eq. destruct d; simpl; by rewrite -?app_assoc /= -?app_assoc. }
    eapply erase_last; [done..|by apply RB_mk_red|done].
  - (* both children are black *)
    apply twp_bind, (twp_recolour d Black Red _ _ _ (Frame (opp d) pc parent t :: k)); [by intros; rb_nd|].
    rewrite -plug_far. tload d k. apply twp_ret. split.
    + assert (RB Red n (mk d Red s1 b s2)) as Hb by by apply RB_mk_red.
      destruct pc; eexists _, k, _; (split_and!; [done|apply root_mk|done|..]).
      * right. exists d, t, parent, (mk d Red s1 b s2), Black, Red. split_and!; [done..|exact Hb].
      * by eapply CT_weaken.
      * left. apply colour_mk.
      * left. by eapply RB_mk_black.
      * done.
      * by right.
    + rewrite Ho. apply walk_plug_eq. by destruct d.
Qed.
(** A round: a red sibling is rotated away first. *)
Lemma erase_case d pc t parent s k n :
  RB Black n t → CT (Frame d pc parent s :: k) Black (S n) →
  let T := plug (mk d pc t parent s) k in
  twp (rb_erase_case d parent)
    (λ next t', round_post Black (length k) next t' ∧ inorder t' = inorder T) T.
Proof.
  intros Ht Hk. cbv zeta.
  assert (∃ cs, RB cs (S n) s ∧ CT k pc (up pc (S n)) ∧ (cs = Red → pc = Black)) as (cs & Hs & Hk' & Hpc).
  { inversion Hk; subst; eexists; by split_and!. }
  change (rb_erase_case d parent) with
    (pn ← load parent; other ← deref (rb_child (opp d) pn); on ← load other;
     other ← (if rb_is_red on then
                change other rb_set_black;; change parent rb_set_red;; rb_rotate d parent;;
                pn ← load parent; deref (rb_child (opp d) pn)
              else mret other);
     erase_sibling d parent other).
  tload d k. destruct cs.
  - (* red sibling *)
    rewrite (Hpc eq_refl) in Hk' |- *. clear pc Hk Hpc.
    apply (RB_red_inv d) in Hs as (s1 & b & s2 & -> & Hs1 & Hs2). rewrite root_mk.
    apply (RB_black_inv d) in Hs1 as (c1 & c2 & x & a & y & -> & Hx & Hy).
    apply twp_bind, twp_deref. remember (inorder _) as o eqn:Ho.
    rewrite plug_far. tload d (Frame (opp d) Black parent t :: k). apply twp_bind.
    apply twp_bind, (twp_recolour d Red Black _ _ _ (Frame (opp d) Black parent t :: k)); [by intros; rb_nd|].
    rewrite -plug_far. apply twp_bind, (twp_recolour d Black Red _ _ _ k); [by intros; rb_nd|].
    apply twp_bind, twp_rotate. tload d (Frame d Black b s2 :: k). rewrite root_mk. apply twp_deref.
    eapply twp_mono; [apply (erase_black d Red t parent x c1 a y c2 (Frame d Black b s2 :: k) n); try done|].
    { by econstructor. }
    intros next t' [Hpost ->]. split.
    + destruct next as [[? ?]|]; [|done].
      destruct Hpost as (f & k' & m & -> & ? & ? & ? & ? & [?|[? ?]]); [|done].
      exists f, k', m. split_and!; try done. by left.
    + rewrite Ho. simpl. apply walk_plug_eq. by destruct d; simpl; rewrite -?app_assoc /= -?app_assoc.
  - (* black sibling *)
    apply (RB_black_inv d) in Hs as (c1 & c2 & x & b & y & -> & Hx & Hy). rewrite root_mk.
    apply twp_bind, twp_deref. remember (inorder _) as o eqn:Ho.
    rewrite plug_far. tload d (Frame (opp d) pc parent t :: k). apply twp_bind, twp_ret.
    rewrite -plug_far. subst o. eapply twp_mono; [by eapply erase_black|].
    intros [[a p]|] t' [Hpost Heq]; (split; [|done]); [|done].
    destruct Hpost as (f & k' & m & -> & ? & ? & ? & ? & [?|[? ?]]); exists f, k', m;
      split_and!; try done; [by left|by right].
Qed.

(** ** The loop *)

Lemma root_plug t k : k ≠ [] →
  ∃ b, root_of (plug t k) = Some b ∧ b ∈ behind Rgt k ++ ahead Rgt k.
Proof.
  revert t. induction k as [|[d c a s] k IH]; intros t; [done|]. intros _.
  destruct (decide (k = [])) as [->|Hk].
  - exists a. simpl. rewrite root_mk. split; [done|]. case_decide; set_solver.
  - destruct (IH (mk d c t a s) Hk) as (b & Hb & Hin). exists b. simpl. split; [done|].
    case_decide; set_solver.
Qed.

Lemma root_plug_ne t k : NoDup (inorder (plug t k)) → k ≠ [] → root_of (plug t k) ≠ root_of t.
Proof.
  intros Hnd Hk. destruct (root_plug t k Hk) as (b & -> & Hb). intros Ht. symmetry in Ht.
  apply root_elem in Ht. unfold inorder in *. rewrite walk_plug in Hnd.
  apply NoDup_app in Hnd as (_ & Hnd1 & (_ & Hnd2 & _)%NoDup_app).
  apply elem_of_app in Hb as [Hb|Hb]; [apply (Hnd1 b Hb)|by apply (Hnd2 b Ht)].
  apply elem_of_app. by left.
Qed.

(** Blackening the root of the focus gives a red-black tree. *)
Definition fixed_by (x : option A) t : Prop :=
  ∃ f k, t = plug f k ∧ x = root_of f ∧ red_black (plug (blacken f) k).

Lemma erase_loop fuel : ∀ t k n,
  short n t → CT k Black (S n) → (colour_of t = Red ∧ 0 < fuel ∨ length k < fuel)%nat →
  twp (rb_erase_loop fuel (root_of t) (parent_of k))
    (λ res t', fixed_by res t' ∧ inorder t' = inorder (plug t k)) (plug t k).
Proof.
  induction fuel as [|fuel IH]; intros t k n Hs Hk Hfuel; [lia|].
  apply twp_NoDup. intros Hnd. simpl.
  apply twp_bind, twp_black_or_null, twp_bind, twp_root.
  destruct (colour_of t) eqn:Hc; simpl.
  { apply twp_ret. split; [|done]. exists t, k. split_and!; [done..|].
    by eapply CT_plug, short_red. }
  destruct k as [|[d c parent s] k]; simpl.
  { rewrite bool_decide_true //. apply twp_ret. split; [|done]. exists t, []. split_and!; [done..|].
    by eapply short_blacken. }
  rewrite bool_decide_false; [|by apply not_eq_sym, (root_plug_ne t (Frame d c parent s :: k))].
  apply twp_bind, twp_deref. tload d k.
  rewrite (side_test d _ c t parent s k (λ d, rb_erase_case d parent) Hnd).
  2:{ right. intros ->. by inversion Hk as [|? ? ? ? ? Hr|? ? ? ? ? ? ? Hr]; subst; inversion Hr. }
  apply twp_bind. eapply twp_mono; [eapply erase_case; [by eapply short_black|done]|].
  intros [[a p]|] t' [Hpost <-].
  - destruct Hpost as (f & k' & m & -> & <- & -> & Hf & Hk' & Hlen). eapply IH; [done..|].
    simpl in Hfuel. destruct Hlen as [?|[_ ?]]; [left; split; [done|]|right]; destruct Hfuel as [[? ?]|?]; try done; lia.
  - apply twp_root. split; [|done]. exists t', []. split_and!; [done..|].
    destruct Hpost as [m Hm]. by eapply RB_blacken.
Qed.

(** One black node short below the hole: the loop and the last recolouring mend it. *)
Lemma erase_color t k n : short n t → CT k Black (S n) →
  twp (__rb_erase_color (root_of t) (parent_of k))
    (λ _ t', red_black t' ∧ inorder t' = inorder (plug t k)) (plug t k).
Proof.
  intros Ht Hk. apply twp_bind, twp_rounds. intros fuel Hfuel. apply twp_bind. eapply twp_mono.
  { eapply erase_loop; [done..|]. right. pose proof (length_plug t k). lia. }
  intros res t' [(f & k' & -> & -> & Hrb) Ho]. apply twp_blacken. split; [done|].
  rewrite -Ho. apply walk_plug_eq, walk_blacken.
Qed.
End erase_color.
