(* ===== verification/RbTreeSpec.v ===== *)
(** * What rbtree.c promises

    On a red-black tree in memory: [rb_link_node] and [rb_insert_color] insert a node at a
    place of the order, [rb_erase] takes a node out, and [rb_first], [rb_last], [rb_next]
    and [rb_prev] walk the nodes in order.  All of them return, whatever the tree.  At the end
    the same without the logic: [holds s t] says node by node that the state [s] has the tree
    [t], so that the specifications become statements on runs. *)

From S2P Require Export RbErase.

Section descend.
Context {A : Type} `{Countable A}.
Implicit Types (a b s old : A) (t L R sr : tree A) (k kl : list (frame A)) (d : side)
  (c co cs : colour).

(** Down to the last node on the side [d]. *)
Lemma twp_descend fuel d t a k : root_of t = Some a → (length (inorder t) ≤ fuel)%nat →
  twp (rb_descend fuel d a)
    (λ res t', t' = plug t k ∧ ∃ c y kl, t = plug (mk d c Leaf res y) kl ∧
      Forall (λ f, match f with Frame d' _ _ _ => d' = d end) kl)
    (plug t k).
Proof.
  revert t a k. induction fuel as [|fuel IH]; intros t a k Ht Hlen.
  { apply (mk_at d) in Ht as (c & x & y & ->). unfold inorder in Hlen. rewrite -(walk_length d) walk_mk length_app /= in Hlen. lia. }
  apply (mk_at d) in Ht as (c & x & y & ->). simpl. tload d k.
  destruct (root_of x) as [b|] eqn:Hx.
  - eapply twp_mono; [apply (IH x b (Frame d c a y :: k) Hx)|].
    { rewrite -(walk_length d) walk_mk length_app /= in Hlen. rewrite -(walk_length d). lia. }
    intros res t' [-> (c' & y' & kl & -> & Hkl)]. split; [done|].
    exists c', y', (kl ++ [Frame d c a y]). split; [by rewrite plug_app|].
    apply Forall_app. by split; [|constructor].
  - apply root_None in Hx as ->. apply twp_ret. split; [done|]. by exists c, y, [].
Qed.
End descend.

Section erase.
Context {A : Type} `{Countable A}.
Notation rbprop := (hpropI (option A) (@rb_cell A)).
Implicit Types (a b s old : A) (t L R sr : tree A) (k kl : list (frame A)) (d : side)
  (c co cs : colour).

(** A node that is in no tree. *)
Definition loose a : rbprop := (∃ n, node_at a n)%I.

Lemma hwp_twp_bind {X Y} (m : M (rb_state A) X) (f : X → M (rb_state A) Y)
    (Φ : X → tree A → Prop) t (Q : Y → rbprop) :
  twp m Φ t → (∀ v t', Φ v t' → whole t' ⊢ hwp (f v) Q) → whole t ⊢ hwp (m ≫= f) Q.
Proof. iIntros (Hm Hf) "Ht". iApply hwp_bind. iApply (twp_hwp with "Ht"); [done|]. done. Qed.

(** The last step: [a] was a node of the colour [c] with at most the child [t]. *)
Lemma erase_finish d c a t k : red_black (plug (mk d c Leaf a t) k) →
  twp (rb_erase_finish (bit c) (root_of t) (parent_of k))
    (λ _ t', red_black t' ∧ inorder t' = inorder (plug t k)) (plug t k).
Proof.
  intros (c' & n & Ht & Hk)%plug_CT. apply RB_mk_inv in Ht as [<- Ht].
  destruct c; simpl in *.
  - apply twp_ret. split; [|done]. eapply CT_plug; [by eapply CT_weaken|apply Ht].
  - destruct Ht as (m & c1 & c2 & -> & _ & Ht). eapply erase_color; [by eapply short_RB|done].
Qed.

Lemma hwp_erase_single d c a t k : red_black (plug (mk d c Leaf a t) k) →
  whole (plug (mk d c Leaf a t) k) ⊢ hwp (rb_erase_single a (root_of t))
    (λ _, loose a ∗ ∃ t', ⌜red_black t' ∧ inorder t' = inorder (plug t k)⌝ ∗ whole t').
Proof.
  rewrite {1}whole_at. iIntros (Hrb) "(Ha & _ & Ht & Hk)".
  hload "Ha". cbv zeta. iApply hwp_bind. iApply hwp_reparent. iFrame "Ht". iIntros "Ht".
  iApply hwp_bind. iApply hwp_replace_child. iFrame "Ha Hk". iIntros "Ha Hk".
  iAssert (whole (plug t k)) with "[Ht Hk]" as "Ht"; [rewrite whole_plug; iFrame|].
  iApply hwp_wand. iSplitL "Ht".
  - iApply (erase_finish with "Ht"). done.
  - iIntros (?) "$". by iExists _.
Qed.
(** A pointer of the hole's parent is replaced. *)
Lemma hwp_set_hole d c (p : A) t0 k (x y : option A) (Q : unit → rbprop) :
  ctx_rep x (Frame d c p t0 :: k) ∗ (ctx_rep y (Frame d c p t0 :: k) -∗ Q tt)
  ⊢ hwp (change p (rb_set_child d y)) Q.
Proof.
  simpl. iIntros "[(Hp & Hs & Hk) HQ]". iApply hwp_change. iFrame "Hp". rb_nd. iIntros "Hp".
  iApply "HQ". iFrame.
Qed.

(** The node [s] takes the place of [old]. *)
Lemma hwp_substitute {X} co L old R s (n : rb_node A) k (K : M (rb_state A) X) (Q : X → rbprop) :
  L ≠ Leaf →
  node_at s n ∗ whole (plug (Node co L old R) k) ∗
    (loose old -∗ whole (plug (Node co L s R) k) -∗ hwp K Q)
  ⊢ hwp (o ← load old;
         store s (RbNode (rb_parent_color o) (rb_right o) (rb_left o));;
         o ← load old;
         replace_child Lft (rb_parent o) old (Some s);;
         o ← load old;
         left ← deref (rb_left o);
         change left (rb_set_parent (Some s));;
         o ← load old;
         change_if (rb_right o) (rb_set_parent (Some s));;
         K) Q.
Proof.
  intros HL. change (Node co L old R) with (mk Lft co L old R).
  change (Node co L s R) with (mk Lft co L s R). rewrite !whole_at.
  iIntros "(Hs & (Ho & HL & HR & Hk) & HQ)". hload "Ho".
  iApply hwp_bind. iApply hwp_store. iFrame "Hs". iIntros "Hs".
  hload "Ho". iApply hwp_bind. iApply hwp_replace_child. iFrame "Ho Hk". iIntros "Ho Hk".
  hload "Ho". destruct L as [|c l a r]; [done|].
  iApply hwp_bind. iApply hwp_deref. iApply hwp_bind.
  iApply (hwp_reparent (Some old) (Some s) (Node c l a r)). iFrame "HL". iIntros "HL".
  hload "Ho". iApply hwp_bind. iApply (hwp_reparent (Some old) (Some s) R). iFrame "HR". iIntros "HR".
  iApply ("HQ" with "[Ho]"); [by iExists _|]. iFrame.
Qed.

(** Renaming a node above the hole. *)
Lemma CT_rename kr d co a b L k c n :
  CT (kr ++ Frame d co a L :: k) c n → CT (kr ++ Frame d co b L :: k) c n.
Proof.
  revert c n. induction kr as [|[d' c' a' s'] kr IH]; intros c n Hk; simpl in *.
  - inversion Hk; subst; by econstructor.
  - inversion Hk; subst; [apply CT_red|eapply CT_black]; eauto.
Qed.

Lemma red_black_rename kr d co a b L k t :
  red_black (plug t (kr ++ Frame d co a L :: k)) → red_black (plug t (kr ++ Frame d co b L :: k)).
Proof.
  intros (c & n & Ht & Hk)%plug_CT. eapply CT_plug; [by eapply CT_rename|done].
Qed.

Lemma behind_same d kl : Forall (λ f, match f with Frame d' _ _ _ => d' = d end) kl →
  behind (opp d) kl = [].
Proof.
  induction 1 as [|[d' c a t] kl -> _ IH]; simpl; [done|]. rewrite decide_False //.
  apply not_eq_sym, opp_ne.
Qed.

(** The order without the node [old], whose successor takes its place. *)
Lemma walk_successor co L old R k : NoDup (inorder (plug (Node co L old R) k)) →
  inorder (plug (Node co L old R) k) = behind Rgt k ++ inorder L ++ old :: inorder R ++ ahead Rgt k ∧
  unlink old (inorder (plug (Node co L old R) k)) =
    behind Rgt k ++ inorder L ++ inorder R ++ ahead Rgt k.
Proof.
  intros Hnd.
  assert (inorder (plug (Node co L old R) k) =
    (behind Rgt k ++ inorder L) ++ old :: inorder R ++ ahead Rgt k) as Heq.
  { unfold inorder. rewrite walk_plug /= -!app_assoc. done. }
  rewrite Heq in Hnd |- *. rewrite unlink_split // -!app_assoc. done.
Qed.
(** The successor [s] is unlinked; [parent] is its parent afterwards. *)
Lemma hwp_unlink_successor {X} co L old cs s sr kl k 
    (f : rb_node A → A → M (rb_state A) X) (Q : X → rbprop) :
  let K o := kl ++ Frame Rgt co o L :: k in
  Forall (λ f, match f with Frame d' _ _ _ => d' = Lft end) kl →
  whole (plug (mk Lft cs Leaf s sr) (K old)) ∗
    (loose s -∗ whole (plug sr (K old)) -∗ ∀ n parent, ⌜rb_color n = bit cs ∧ rb_right n = root_of sr ∧
      parent_of (K s) = Some parent⌝ -∗ hwp (f n parent) Q)
  ⊢ hwp (n ← load s;
         parent ← deref (rb_parent n);
         change_if (rb_right n) (rb_set_parent (Some parent));;
         parent ← (if decide (parent = old)
                   then change parent (rb_set_child Rgt (rb_right n));; mret s
                   else change parent (rb_set_child Lft (rb_right n));; mret parent);
         f n parent) Q.
Proof.
  cbv zeta. iIntros (Hkl) "[Ht HQ]". iDestruct (whole_NoDup with "Ht") as %Hnd.
  rewrite whole_at. iDestruct "Ht" as "(Hs & _ & Hsr & Hk)". hload "Hs".
  destruct kl as [|[d c p t0] kl]; simpl in *.
  - iApply hwp_bind. iApply hwp_deref. iApply hwp_bind. iApply hwp_reparent. iFrame "Hsr". iIntros "Hsr".
    rewrite decide_True //. iApply hwp_bind. iApply hwp_bind.
    iApply (hwp_set_hole Rgt co old L k). iFrame "Hk". iIntros "Hk". iApply hwp_ret.
    iApply ("HQ" with "[Hs] [Hsr Hk]"); [by iExists _| |by rewrite nd_color].
    iApply (whole_join sr (Frame Rgt co old L :: k)). iFrame "Hsr". iFrame.
  - apply Forall_cons in Hkl as [-> Hkl].
    iApply hwp_bind. iApply hwp_deref. iApply hwp_bind. iApply hwp_reparent. iFrame "Hsr". iIntros "Hsr".
    rewrite decide_False.
    + iApply hwp_bind. iApply hwp_bind.
      iApply (hwp_set_hole Lft c p t0). iFrame "Hk". iIntros "Hk". iApply hwp_ret.
      iApply ("HQ" with "[Hs] [Hsr Hk]"); [by iExists _| |by rewrite nd_color].
      iApply (whole_join sr (Frame Lft c p t0 :: _)). iFrame "Hsr". iFrame.
    + intros ->. rewrite plug_app /= in Hnd. apply NoDup_plug in Hnd.
      assert (old ∈ inorder (plug (mk Lft c (mk Lft cs Leaf s sr) old t0) kl)) as Hin.
      { unfold inorder. rewrite walk_plug walk_mk_opp. set_solver. }
      unfold inorder in Hnd, Hin. simpl in Hnd. apply NoDup_app in Hnd as (_ & _ & [Hnd _]%NoDup_cons).
      done.
Qed.

(** A node with two children. *)
Lemma hwp_erase_double co L old R right k :
  red_black (plug (Node co L old R) k) → L ≠ Leaf → root_of R = Some right →
  whole (plug (Node co L old R) k) ⊢ hwp (rb_erase_double old right)
    (λ _, loose old ∗ ∃ t', ⌜red_black t' ∧
      inorder t' = behind Rgt k ++ inorder L ++ inorder R ++ ahead Rgt k⌝ ∗ whole t').
Proof.
  intros Hrb HL HR. apply hwp_twp_bind with (λ fuel t', t' = plug (Node co L old R) k ∧ (length (inorder t') < fuel)%nat).
  { by apply twp_rounds. }
  intros fuel t' [-> Hfuel]. eapply hwp_twp_bind.
  { apply (twp_descend fuel Lft R right (Frame Rgt co old L :: k) HR).
    pose proof (length_plug R (Frame Rgt co old L :: k)). simpl in *. lia. }
  intros s t' (-> & cs & sr & kl & -> & Hkl). cbv beta.
  change (plug ?t (Frame Rgt co old L :: k)) with (plug (Node co L old t) k) in *.
  iIntros "Ht". iDestruct (whole_NoDup with "Ht") as %Hnd.
  iApply (hwp_unlink_successor co L old cs s sr kl k (λ n parent, _)); [done|].
  iSplitL "Ht"; [by rewrite plug_app|]. iIntros "(%n0 & Hs) Ht" (n parent (Hc & Hr & Hp)).
  rewrite plug_app /= in Hrb Hnd |- *. iApply (hwp_substitute co L old). 
  { done. }
  iFrame "Hs Ht". iIntros "Ho Ht". rewrite Hc Hr -Hp.
  assert (plug (Node co L s (plug sr kl)) k = plug sr (kl ++ Frame Rgt co s L :: k)) as ->.
  { by rewrite plug_app. }
  iApply hwp_wand. iSplitL "Ht".
  { iApply (erase_finish Lft cs s with "Ht"). eapply red_black_rename. by rewrite plug_app. }
  iIntros (_) "(%t' & (%Hrb' & %Ho) & Ht)". iFrame "Ho". iExists t'. iFrame. iPureIntro. split; [done|].
  pose proof (behind_same Lft kl Hkl) as Hb. simpl in Hb.
  by rewrite Ho plug_app /inorder !walk_plug Hb /= -?app_assoc /= -?app_assoc.
Qed.

(** ** rb_erase *)

(** [rb_erase] of a node of the tree: the node is out, the others keep their order, and
    the tree is red-black again. *)
Theorem rb_erase_spec a t : red_black t → a ∈ inorder t →
  whole t ⊢ hwp (rb_erase a)
    (λ _, loose a ∗ ∃ t', ⌜red_black t' ∧ inorder t' = unlink a (inorder t)⌝ ∗ whole t').
Proof.
  iIntros (Hrb (k & c & L & R & ->)%inorder_split) "Ht". iDestruct (whole_NoDup with "Ht") as %Hnd.
  destruct (walk_successor _ _ _ _ _ Hnd) as [_ ->].
  iApply (hwp_twp_bind _ _ (λ n t', n = nd Lft (parent_of k) c (root_of L) (root_of R) ∧
    t' = plug (Node c L a R) k) with "Ht").
  { by apply (twp_load Lft c L a R k). }
  intros n t' [-> ->].
  destruct L as [|cl ll b lr]; [|destruct R as [|cr rl b' rr]]; unfold nd; simpl.
  - iIntros "Ht". iApply hwp_wand. iSplitL "Ht"; [by iApply (hwp_erase_single Lft c)|].
    iIntros (_) "($ & %t' & (% & %Ho) & Ht)". iExists t'. iFrame. iPureIntro. split; [done|].
    rewrite Ho. apply walk_plug.
  - iIntros "Ht". iApply hwp_wand. iSplitL "Ht"; [by iApply (hwp_erase_single Rgt c _ (Node cl ll b lr))|].
    iIntros (_) "($ & %t' & (% & %Ho) & Ht)". iExists t'. iFrame. iPureIntro. split; [done|].
    rewrite Ho. apply walk_plug.
  - by apply (hwp_erase_double c (Node cl ll b lr) a (Node cr rl b' rr)).
Qed.
End erase.

(** ** Insertion *)

Section insert_spec.
Context {A : Type} `{Countable A}.
Notation rbprop := (hpropI (option A) (@rb_cell A)).
Implicit Types (a : A) (t : tree A) (k : list (frame A)).

(** Linking a loose node into a hole of a red-black tree: the node is at that place of the
    order, and the tree is red-black again. *)
Theorem rb_insert_spec a k : red_black (plug Leaf k) →
  loose a ∗ whole (plug Leaf k) ⊢
    hwp (rb_link_node a (parent_of k) (link_of k);; rb_insert_color a)
      (λ _, ∃ t', ⌜red_black t' ∧ inorder t' = behind Rgt k ++ a :: ahead Rgt k⌝ ∗ whole t').
Proof.
  iIntros (Hrb) "[(%n & Ha) Ht]". iApply hwp_bind. iApply hwp_link_node.
  iFrame "Ha Ht". iIntros "Ht". iApply (twp_hwp with "Ht"); [by apply insert_color|].
  iIntros (_ t' [Hrb' Ho]) "Ht". iExists t'. iFrame. iPureIntro. split; [done|].
  by rewrite Ho /inorder walk_plug.
Qed.
End insert_spec.

(** ** Nodes outside *)

Section cleared.
Context {A : Type} `{Countable A}.
Notation rbprop := (hpropI (option A) (@rb_cell A)).
Implicit Types (a : A) (t : tree A).

(** A node outside every tree that is marked so: its parent is itself. *)
Definition cleared a : rbprop := (∃ n, node_at a n ∗ ⌜rb_parent n = Some a⌝)%I.

Lemma cleared_loose a : cleared a ⊢ loose a.
Proof. iIntros "(%n & Hn & _)". by iExists n. Qed.

Lemma hwp_clear a (Q : unit → rbprop) : loose a ∗ (cleared a -∗ Q tt) ⊢ hwp (RB_CLEAR_NODE a) Q.
Proof.
  iIntros "[(%n & Hn) HQ]". iApply hwp_change. iFrame "Hn". iIntros "Hn". iApply "HQ".
  iExists _. iFrame. iPureIntro. apply set_parent_parent.
Qed.

Lemma hwp_empty_cleared a (Q : bool → rbprop) :
  cleared a ∗ (cleared a -∗ Q true) ⊢ hwp (RB_EMPTY_NODE a) Q.
Proof.
  iIntros "[(%n & Hn & %Hp) HQ]". hload "Hn". iApply hwp_ret.
  rewrite bool_decide_true //. iApply "HQ". iExists n. by iFrame.
Qed.

Lemma parent_in k p : @parent_of A k = Some p → p ∈ behind Rgt k ++ ahead Rgt k.
Proof. destruct k as [|[d c a s] k]; intros [= ->]. simpl. case_decide; set_solver. Qed.

Lemma parent_ne t a k : NoDup (inorder (plug t k)) → root_of t = Some a → parent_of k ≠ Some a.
Proof.
  unfold inorder. rewrite walk_plug. intros (_ & H1 & (_ & H2 & _)%NoDup_app)%NoDup_app Ha Hp.
  apply root_elem in Ha. apply parent_in in Hp.
  apply elem_of_app in Hp as [Hp|Hp]; [|by eapply H2]. apply (H1 a Hp), elem_of_app. by left.
Qed.

Lemma twp_empty_in a t : a ∈ inorder t →
  twp (RB_EMPTY_NODE a) (λ res t', res = false ∧ t' = t) t.
Proof.
  intros (k & c & l & r & ->)%inorder_split. apply twp_NoDup. intros Hnd.
  apply twp_bind, (twp_load Lft c l a r k), twp_ret. rb_nd.
  by rewrite bool_decide_false; [|by eapply parent_ne].
Qed.
End cleared.

(** ** Replacement *)

Section replace.
Context {A : Type} `{Countable A}.
Implicit Types (new victim : A) (L R : tree A) (k : list (frame A)) (c : colour).

(** [new] takes the place of [victim], colour and children included. *)
Lemma rb_replace_node_spec victim new c L R k :
  loose new ∗ whole (plug (Node c L victim R) k) ⊢
    hwp (rb_replace_node victim new) (λ _, loose victim ∗ whole (plug (Node c L new R) k)).
Proof.
  change (Node c L victim R) with (mk Lft c L victim R).
  change (Node c L new R) with (mk Lft c L new R). rewrite !whole_at.
  iIntros "[(%n & Hn) (Hv & HL & HR & Hk)]". hload "Hv".
  iApply hwp_bind. iApply hwp_replace_child. iFrame "Hv Hk". iIntros "Hv Hk".
  hload "Hv". iApply hwp_bind. iApply (hwp_reparent (Some victim) (Some new) L). iFrame "HL". iIntros "HL".
  hload "Hv". iApply hwp_bind. iApply (hwp_reparent (Some victim) (Some new) R). iFrame "HR". iIntros "HR".
  hload "Hv". iApply hwp_store. iFrame "Hn". iIntros "Hn".
  iSplitL "Hv"; [by iExists _|rewrite whole_at; iFrame].
Qed.
End replace.

(** ** Walks *)

Section walks.
Context {A : Type} `{Countable A}.
Implicit Types (a b : A) (t x y : tree A) (k kl : list (frame A)) (d : side) (c : colour).

(** [rb_first] for [Lft], [rb_last] for [Rgt]: the first node of the walk in the other
    direction. *)
Lemma extreme_spec d t :
  twp (rb_extreme d) (λ res t', t' = t ∧ res = head (walk (opp d) t)) t.
Proof.
  apply twp_bind, twp_root. destruct (root_of t) as [a|] eqn:Ht.
  2:{ apply root_None in Ht as ->. by apply twp_ret. }
  apply twp_bind, twp_rounds. intros fuel Hfuel. apply twp_bind.
  eapply twp_mono; [apply (twp_descend fuel d t a []); [done|lia]|].
  intros res t' (-> & c & y & kl & -> & Hkl). apply twp_ret. split; [done|].
  rewrite -{2}(opp_opp d) walk_plug (behind_same d) // walk_mk_opp. done.
Qed.

Lemma ascend_spec fuel d : ∀ t a k, root_of t = Some a → (length k < fuel)%nat →
  twp (rb_ascend fuel d a) (λ res t', t' = plug t k ∧ res = head (ahead d k)) (plug t k).
Proof.
  induction fuel as [|fuel IH]; intros t a k Ht Hlen; [lia|].
  apply twp_NoDup. intros Hnd. apply (mk_at d) in Ht as (c & x & y & ->). simpl. tload d k.
  destruct k as [|[d' c' p s] k]; simpl; [by apply twp_ret|]. tload d' k.
  destruct (side_cases d d') as [-> | ->].
  - rewrite nd_child root_mk !decide_True //.
    apply (IH (mk d c' (mk d c x a y) p s)); [apply root_mk|simpl in Hlen; lia].
  - rewrite nd_opp nd_child (decide_False (P := opp d = d)); [|apply opp_ne].
    rewrite decide_False; [by apply twp_ret|].
    rewrite -(root_mk d c x a y). apply not_eq_sym, (roots_ne (opp d) c' (mk d c x a y) p s k Hnd).
    left. intros Heq. by apply (f_equal root_of) in Heq; rewrite root_mk in Heq.
Qed.

Lemma walk_NoDup d t : NoDup (inorder t) → NoDup (walk d t).
Proof. destruct d; [|done]. rewrite (walk_reverse Rgt) reverse_Permutation. done. Qed.

Lemma walk_leaf d : walk d (@Leaf A) = [].
Proof. by destruct d. Qed.

(** A node has one place among distinct nodes. *)
Lemma NoDup_middle a (l1 l2 r1 r2 : list A) :
  NoDup (r1 ++ a :: r2) → r1 ++ a :: r2 = l1 ++ a :: l2 → l2 = r2.
Proof.
  revert l1. induction r1 as [|b r1 IH]; intros [|b' l1] Hnd Heq; simplify_eq/=.
  - done.
  - apply NoDup_cons in Hnd as [Hn _]. set_solver.
  - apply NoDup_cons in Hnd as [Hn _]. set_solver.
  - apply NoDup_cons in Hnd as [_ Hnd]. by eapply IH.
Qed.

(** [rb_next] for [Rgt], [rb_prev] for [Lft]: the next node of the walk. *)
Lemma step_spec d t a l1 l2 : walk d t = l1 ++ a :: l2 →
  twp (rb_step d a) (λ res t', t' = t ∧ res = head l2) t.
Proof.
  intros Hl. assert (a ∈ inorder t) as Ha by (apply (elem_of_walk d); rewrite Hl; set_solver).
  apply twp_NoDup. intros Hnd. apply inorder_split in Ha as (k & c & t1 & t2 & ->).
  assert (∃ x y, Node c t1 a t2 = mk d c x a y) as (x & y & Heq)
    by (destruct d; [by exists t1, t2|by exists t2, t1]).
  rewrite Heq in Hl Hnd |- *. clear Heq t1 t2.
  assert (l2 = walk d x ++ ahead d k) as ->.
  { pose proof (walk_NoDup d _ Hnd) as Hnd'.
    rewrite walk_plug walk_mk -!app_assoc /= app_assoc in Hl.
    rewrite walk_plug walk_mk -!app_assoc /= app_assoc in Hnd'.
    by eapply NoDup_middle. }
  tload d k. rewrite decide_False; [|by eapply parent_ne, root_mk].
  apply twp_bind, twp_rounds. intros fuel Hfuel.
  pose proof (length_plug (mk d c x a y) k) as Hlen.
  destruct (root_of x) as [b|] eqn:Hx.
  - apply twp_bind. eapply twp_mono.
    { apply (twp_descend fuel (opp d) x b (Frame d c a y :: k) Hx).
      pose proof (walk_length d (mk d c x a y)) as Hm. rewrite walk_mk length_app /= !walk_length in Hm. lia. }
    intros res t' (-> & c' & y' & kl & -> & Hkl). apply twp_ret. split; [done|].
    pose proof (behind_same (opp d) kl Hkl) as Hb. rewrite opp_opp in Hb.
    by rewrite walk_plug Hb walk_mk_opp walk_leaf.
  - apply root_None in Hx as ->. rewrite walk_leaf. apply (ascend_spec fuel d _ a k); [apply root_mk|lia].
Qed.
End walks.

(** ** Trees in a state *)

Section state.
Context {A : Type} `{Countable A}.
Notation rbprop := (hpropI (option A) (@rb_cell A)).
Implicit Types (s : rb_state A) (a b : A) (n : rb_node A) (t : tree A) (p : option A)
  (h : gmap (option A) (@rb_cell A)).

(** Every node of [t] is in the memory, with its parent, its colour and its children; [p]
    is the parent of the root. *)
Fixpoint stored (nodes : gmap A (rb_node A)) p t : Prop :=
  match t with
  | Leaf => True
  | Node c l a r => nodes !! a = Some (RbNode (word p c) (root_of r) (root_of l)) ∧
      stored nodes (Some a) l ∧ stored nodes (Some a) r
  end.

Definition holds s t : Prop :=
  rs_root s = root_of t ∧ stored (rs_nodes s) None t ∧ NoDup (inorder t).

(** The cells of [t]. *)
Definition cells_of t : gset (option A) := list_to_set (Some <$> inorder t).

Lemma elem_of_cells t k : k ∈ cells_of t ↔ ∃ a, k = Some a ∧ a ∈ inorder t.
Proof. unfold cells_of. rewrite elem_of_list_to_set list_elem_of_fmap. naive_solver. Qed.

Lemma stored_rep t : ∀ p s, stored (rs_nodes s) p t → NoDup (inorder t) →
  ∃ h, h ⊆ flat s ∧ dom h = cells_of t ∧ tree_rep p t h.
Proof.
  induction t as [|c l IHl a r IHr]; intros p s Hst Hnd.
  { exists ∅. split_and!; [apply map_empty_subseteq|set_solver|done]. }
  destruct Hst as (Ha & Hl & Hr). unfold inorder in Hnd. simpl in Hnd.
  apply NoDup_app in Hnd as (Hndl & Hdisj & [Har Hndr]%NoDup_cons).
  destruct (IHl _ _ Hl Hndl) as (hl & Hsl & Hdl & Hrl), (IHr _ _ Hr Hndr) as (hr & Hsr & Hdr & Hrr).
  apply flat_node in Ha.
  assert (hl ##ₘ hr) as Hd1.
  { apply map_disjoint_dom. rewrite Hdl Hdr. intros k (b & -> & Hb)%elem_of_cells (b' & [= <-] & Hb')%elem_of_cells.
    apply (Hdisj b Hb). by right. }
  assert ({[Some a := inl (nd Lft p c (root_of l) (root_of r))]} ##ₘ hl ∪ hr) as Hd2.
  { apply map_disjoint_dom. rewrite dom_singleton dom_union Hdl Hdr.
    intros k ->%elem_of_singleton [(b & [= <-] & Hb)%elem_of_cells|(b & [= <-] & Hb)%elem_of_cells]%elem_of_union.
    - apply (Hdisj a Hb). by left.
    - done. }
  eexists. split_and!; [| |eexists _, _; split_and!; [reflexivity|exact Hd2| |]].
  - apply map_union_least; [by apply map_singleton_subseteq_l|by apply map_union_least].
  - rewrite !dom_union_L dom_singleton_L Hdl Hdr. apply set_eq. intros k.
    rewrite !elem_of_union elem_of_singleton !elem_of_cells. unfold inorder. simpl.
    setoid_rewrite elem_of_app. setoid_rewrite elem_of_cons. naive_solver.
  - apply lookup_singleton_eq.
  - by exists hl, hr.
Qed.
Lemma rep_stored t : ∀ p s h, tree_rep p t h → h ⊆ flat s → stored (rs_nodes s) p t.
Proof.
  induction t as [|c l IHl a r IHr]; intros p s h Ht Hle; [done|].
  destruct Ht as (h1 & h2 & -> & Hd & Ha & (hl & hr & -> & Hd' & Hl & Hr)).
  split_and!.
  - eapply flat_node, lookup_weaken; [|exact Hle]. by apply lookup_union_Some_l.
  - eapply IHl; [exact Hl|]. etrans; [|exact Hle].
    etrans; [|by apply map_union_subseteq_r]. apply map_union_subseteq_l.
  - eapply IHr; [exact Hr|]. etrans; [|exact Hle].
    etrans; [|by apply map_union_subseteq_r]. by apply map_union_subseteq_r.
Qed.

(** ** The two readings *)

Lemma whole_holds t s h : whole t h → h ⊆ flat s → holds s t.
Proof.
  intros Ht Hle. pose proof (hprop_in _ _ (whole_NoDup t) h Ht) as Hnd.
  destruct Ht as (h1 & h2 & -> & Hd & Ht & Hr). split_and!; [|eapply rep_stored; [exact Ht|]|done].
  - eapply flat_root, lookup_weaken; [|exact Hle]. by apply lookup_union_Some_r.
  - etrans; [apply map_union_subseteq_l|exact Hle].
Qed.

Lemma holds_whole s t : holds s t →
  ∃ h, h ⊆ flat s ∧ dom h = cells_of t ∪ {[None]} ∧ whole t h.
Proof.
  intros (Hroot & Hst & Hnd). destruct (stored_rep _ _ _ Hst Hnd) as (h & Hle & Hdom & Ht).
  assert (h ##ₘ {[None := inr (root_of t)]}) as Hd.
  { apply map_disjoint_dom. rewrite dom_singleton Hdom.
    intros k (b & -> & Hb)%elem_of_cells Hk. set_solver. }
  exists (h ∪ {[None := inr (root_of t)]}). split_and!.
  - apply map_union_least; [done|]. by apply map_singleton_subseteq_l, flat_root.
  - by rewrite dom_union_L dom_singleton_L Hdom.
  - exists h, {[None := inr (root_of t)]}. split_and!; [done..|apply lookup_singleton_eq].
Qed.

(** A loose node beside the tree. *)
Lemma holds_loose s t a : holds s t → is_Some (rs_nodes s !! a) → a ∉ inorder t →
  ∃ h, h ⊆ flat s ∧ dom h = cells_of t ∪ {[None]} ∪ {[Some a]} ∧ (loose a ∗ whole t)%I h.
Proof.
  intros Hh [n Hn] Ha. destruct (holds_whole s t Hh) as (h & Hle & Hdom & Ht).
  assert ({[Some a := inl n]} ##ₘ h) as Hd.
  { apply map_disjoint_dom. rewrite dom_singleton Hdom.
    intros k ->%elem_of_singleton [(b & [= <-] & Hb)%elem_of_cells|Hk]%elem_of_union; [done|set_solver]. }
  exists ({[Some a := inl n]} ∪ h). split_and!.
  - apply map_union_least; [|done]. by apply map_singleton_subseteq_l, flat_node.
  - rewrite dom_union_L dom_singleton_L Hdom. set_solver.
  - exists {[Some a := inl n]}, h. split_and!; [done..| |done]. exists n. apply lookup_singleton_eq.
Qed.

Lemma flat_same s s' b : flat s' !! Some b = flat s !! Some b → rs_nodes s' !! b = rs_nodes s !! b.
Proof.
  unfold flat, rb_model. rewrite !lookup_insert_ne // !lookup_kmap !lookup_fmap.
  destruct (rs_nodes s !! b), (rs_nodes s' !! b); naive_solver.
Qed.

(** ** Runs *)

(** Runs of what the logic has specified; the nodes outside stay as they are. *)
Lemma wp_tree {X} (m : M (rb_state A) X) t s (Q : X → rbprop) :
  holds s t → (whole t ⊢ hwp m Q) →
  wp m (λ v s', (∃ h, Q v h ∧ h ⊆ flat s') ∧
    ∀ b, b ∉ inorder t → rs_nodes s' !! b = rs_nodes s !! b) s.
Proof.
  intros (h & Hle & Hdom & Ht)%holds_whole Hm.
  eapply wp_mono; [by apply (hwp_adequate m _ Q s h Hm)|].
  intros v s' (h' & HQ & Hle' & _ & Hsame). split; [by exists h'|]. intros b Hb.
  apply flat_same, Hsame. rewrite Hdom elem_of_union elem_of_cells elem_of_singleton. naive_solver.
Qed.

Lemma wp_tree_loose {X} (m : M (rb_state A) X) t a s (Q : X → rbprop) :
  holds s t → is_Some (rs_nodes s !! a) → a ∉ inorder t → (loose a ∗ whole t ⊢ hwp m Q) →
  wp m (λ v s', (∃ h, Q v h ∧ h ⊆ flat s') ∧
    ∀ b, b ∉ inorder t → b ≠ a → rs_nodes s' !! b = rs_nodes s !! b) s.
Proof.
  intros Hh Hn Ha Hm. destruct (holds_loose s t a Hh Hn Ha) as (h & Hle & Hdom & Ht).
  eapply wp_mono; [by apply (hwp_adequate m _ Q s h Hm)|].
  intros v s' (h' & HQ & Hle' & _ & Hsame). split; [by exists h'|]. intros b Hb Hne.
  apply flat_same, Hsame. rewrite Hdom !elem_of_union elem_of_cells !elem_of_singleton. naive_solver.
Qed.
End state.
