(* ===== verification/AlarmTreeSpec.v ===== *)
(** * The tree under the timer queue implements its sequence

    The functions of alarm.c on the memory of the nodes ([AlarmTree]) do what the functions
    on the in-order sequence ([Alarm]) do, in every well-formed queue: the sequence is that
    of a red-black tree in memory, and the blocks outside it point to themselves. *)

From S2P Require Export RbTreeSpec AlarmTree.

Notation qprop := (hpropI (option alarm_id) (@rb_cell alarm_id)).

(** ** The descent and the collection *)

Section loops.
Context (bodies : gmap alarm_id alarm_body) (tv : timeval).
Implicit Types (t : tree alarm_id) (k : list (frame alarm_id)) (x : alarm_id).

(** The block expires after [tv]. *)
Definition late x : bool := from_option (λ b, timer_lt tv (bd_tv b)) false (bodies !! x).

(** The blocks after a late one are late. *)
Definition ordered (l : list alarm_id) : Prop :=
  StronglySorted (λ x y, late x = true → late y = true) l ∧ ∀ x, x ∈ l → is_Some (bodies !! x).

Lemma ordered_split l1 a l2 : ordered (l1 ++ a :: l2) →
  ordered l1 ∧ ordered l2 ∧ is_Some (bodies !! a) ∧
  (late a = false → ∀ x, x ∈ l1 → late x = false) ∧ (late a = true → ∀ x, x ∈ l2 → late x = true).
Proof.
  intros [(H1 & H2 & H12)%sorted_app_inv Hb]. inversion_clear H2 as [|? ? H2' Ha].
  rewrite Forall_forall in Ha. split_and!; [split; [done|set_solver]|split; [done|set_solver]|set_solver|..].
  - intros Hf x Hx. destruct (late x) eqn:Hl; [|done].
    rewrite -Hf. symmetry. apply (H12 x a); set_solver.
  - intros Ht x Hx. by apply Ha.
Qed.

(** The descent ends at the hole after the blocks that are not late. *)
Lemma descend_spec fuel t k : (length (inorder t) < fuel)%nat → ordered (inorder t) →
  (∀ x, x ∈ behind Rgt k → late x = false) → (∀ x, x ∈ ahead Rgt k → late x = true) →
  twp (add_descend bodies tv fuel (parent_of k) (link_of k))
    (λ res t', t' = plug t k ∧ ∃ k', t' = plug Leaf k' ∧ res = (parent_of k', link_of k') ∧
      (∀ x, x ∈ behind Rgt k' → late x = false) ∧ (∀ x, x ∈ ahead Rgt k' → late x = true))
    (plug t k).
Proof.
  revert t k. induction fuel as [|fuel IH]; intros t k Hlen Hord Hb Ha; [lia|]. simpl.
  apply twp_bind, twp_read_link. destruct t as [|c l this r]; simpl.
  { apply twp_ret. split; [done|]. by exists k. }
  unfold inorder in *. simpl in Hlen, Hord. rewrite length_app /= in Hlen.
  apply ordered_split in Hord as (Hl & Hr & [b Hthis] & Hbl & Har).
  rewrite Hthis. apply twp_bind, twp_ret.
  assert (late this = timer_lt tv (bd_tv b)) as Hlate by by rewrite /late Hthis.
  destruct (timer_lt tv (bd_tv b)).
  - apply (IH l (Frame Lft c this r :: k)); simpl; [lia|done|done|]. set_solver.
  - apply (IH r (Frame Rgt c this l :: k)); simpl; [lia|done| |done]. set_solver.
Qed.

(** A list splits in one way into blocks that are not late and blocks that are. *)
Definition split_late (l l1 l2 : list alarm_id) : Prop :=
  l = l1 ++ l2 ∧ (∀ x, x ∈ l1 → late x = false) ∧ (∀ x, x ∈ l2 → late x = true).

Lemma split_late_unique l l1 l2 r1 r2 :
  split_late l l1 l2 → split_late l r1 r2 → l1 = r1 ∧ l2 = r2.
Proof.
  unfold split_late. revert l r1. induction l1 as [|x l1 IH]; intros l r1 (-> & H1 & H2) (Heq & H3 & H4); simpl in *.
  - destruct r1 as [|y r1]; [done|]. simpl in *. subst l2.
    specialize (H2 y ltac:(set_solver)). specialize (H3 y ltac:(set_solver)). congruence.
  - destruct r1 as [|y r1]; simplify_eq/=.
    + specialize (H1 x ltac:(set_solver)). specialize (H4 x ltac:(set_solver)). congruence.
    + destruct (IH _ r1 (conj eq_refl (conj (λ z Hz, H1 z ltac:(by right)) H2))) as [-> ->]; [|done].
      split_and!; [done|set_solver|done].
Qed.

(** The walk from the head of [l2] on collects its blocks that are not late. *)
Lemma collect_loop_spec l2 : ∀ fuel l1 queue t,
  inorder t = l1 ++ l2 → (length l2 ≤ fuel)%nat → ordered l2 →
  twp (collect_loop bodies tv fuel (head l2) queue)
    (λ res t', t' = t ∧ ∃ a b, split_late l2 a b ∧ res = reverse a ++ queue) t.
Proof.
  induction l2 as [|this l2 IH]; intros fuel l1 queue t Ht Hlen Hord; simpl.
  { assert (twp (mret queue) (λ res t', t' = t ∧ ∃ a b, split_late [] a b ∧ res = reverse a ++ queue) t) as Hr.
    { apply twp_ret. split; [done|]. exists [], []. split; [|done]. split_and!; [done|set_solver..]. }
    by destruct fuel. }
  destruct fuel as [|fuel]; simpl in *; [lia|].
  destruct (ordered_split [] this l2 Hord) as (_ & Hord2 & [b Hb] & _ & Hlate2).
  rewrite Hb. apply twp_bind, twp_ret. unfold timer_gt.
  assert (late this = timer_lt tv (bd_tv b)) as Hlate by by rewrite /late Hb.
  destruct (timer_lt tv (bd_tv b)).
  { apply twp_ret. split; [done|]. exists [], (this :: l2). split; [|done]. split_and!; [done|set_solver|set_solver]. }
  apply twp_bind. eapply twp_mono; [by apply (step_spec Rgt t this l1 l2)|].
  intros node t' [-> ->]. eapply twp_mono; [apply (IH fuel (l1 ++ [this]) (this :: queue) t)|].
  - by rewrite -app_assoc.
  - lia.
  - done.
  - intros res t' (-> & a & b' & (-> & Ha & Hb') & ->). split; [done|]. exists (this :: a), b'.
    split; [split_and!; [done|set_solver|done]|]. by rewrite reverse_cons -app_assoc.
Qed.
End loops.

Lemma ordered_ext bodies bodies' tv l :
  (∀ x, x ∈ l → bodies !! x = bodies' !! x) → ordered bodies tv l → ordered bodies' tv l.
Proof.
  intros Heq [Hs Hin]. split.
  - eapply sorted_ext; [|exact Hs]. intros x y Hx Hy. by rewrite /late !Heq.
  - intros x Hx. rewrite -Heq //. by apply Hin.
Qed.

(** ** The relation *)

Definition body (b : alarm_block) : alarm_body := AlarmBody (ab_tv b) (ab_data b) (ab_function b).

(** The sequence is a red-black tree in memory. *)
Definition tree_of (root : list alarm_id) : qprop :=
  (∃ t, ⌜red_black t ∧ inorder t = root⌝ ∗ whole t)%I.
(** A block out of the tree points to itself. *)
Definition outside (id : alarm_id) (b : alarm_block) : qprop :=
  (if ab_linked b then emp else cleared id)%I.
Definition nodes_rep (root : list alarm_id) (blocks : gmap alarm_id alarm_block) : qprop :=
  (tree_of root ∗ [∗ map] id ↦ b ∈ blocks, outside id b)%I.

Record tree_rel (T : tree_alarms) (A : alarms) : Prop := {
  rel_bodies : ta_bodies T = body <$> al_blocks A;
  rel_nodes : nodes_rep (al_root A) (al_blocks A) (flat (ta_tree T)) }.

Lemma rel_body T A id b : tree_rel T A → al_blocks A !! id = Some b → ta_bodies T !! id = Some (body b).
Proof. intros [-> _] Hb. by rewrite lookup_fmap Hb. Qed.

Lemma nodes_take root blocks id b : blocks !! id = Some b →
  nodes_rep root blocks ⊢ tree_of root ∗ outside id b ∗ [∗ map] id ↦ b ∈ delete id blocks, outside id b.
Proof. intros Hb. by rewrite /nodes_rep big_sepM_delete. Qed.

Lemma nodes_put root blocks id b :
  tree_of root ∗ outside id b ∗ ([∗ map] id ↦ b ∈ delete id blocks, outside id b)
  ⊢ nodes_rep root (<[id := b]> blocks).
Proof. by rewrite /nodes_rep big_sepM_insert_delete. Qed.

Lemma nodes_back root blocks id b : blocks !! id = Some b →
  tree_of root ∗ outside id b ∗ ([∗ map] id ↦ b ∈ delete id blocks, outside id b)
  ⊢ nodes_rep root blocks.
Proof. intros Hb. by rewrite /nodes_rep (big_sepM_delete _ blocks). Qed.

(** Calls into rbtree.c by their specifications. *)
Lemma wp_on_tree {X} (m : M (rb_state alarm_id) X) (P : qprop) (φ : X → Prop) root blocks T
    (Φ : X → tree_alarms → Prop) :
  P (flat (ta_tree T)) → (P ⊢ hwp m (λ v, ⌜φ v⌝ ∗ nodes_rep root blocks)) →
  (∀ v T', ta_bodies T' = ta_bodies T → φ v → nodes_rep root blocks (flat (ta_tree T')) → Φ v T') →
  wp (on_tree m) Φ T.
Proof.
  intros HP Hm HΦ. pose proof (hwp_adequate m P _ (ta_tree T) _ Hm HP ltac:(done)) as Hwp.
  unfold wp, on_tree in *. destruct (m (ta_tree T)) as [v tree|]; [|done].
  destruct Hwp as (h & (h1 & h2 & -> & Hd & Hφ & HQ) & Hle & _). apply HΦ; [done|exact Hφ|].
  eapply hmono; [exact HQ|]. etrans; [|exact Hle]. by apply map_union_subseteq_r.
Qed.

(** ** The operations *)

Section refines.
Implicit Types (T : tree_alarms) (A : alarms) (id : alarm_id) (b : alarm_block).

Lemma erase_and_clear_refines T A id b :
  tree_rel T A → al_blocks A !! id = Some b → id ∈ al_root A →
  wp (AlarmTree.erase_and_clear id) (λ _ T', tree_rel T' (disarm id b A)) T.
Proof.
  intros [Hbod Hn] Hb Hin. eapply (wp_on_tree _ _ (λ _, True)); [exact Hn| |].
  2:{ intros _ T' HT' _ HQ. split; [|exact HQ]. rewrite HT' Hbod. simpl.
      rewrite fmap_insert insert_id // lookup_fmap Hb. done. }
  rewrite nodes_take //. iIntros "((%t & (%Hrb & %Ht) & Ht) & _ & Hout)".
  iApply hwp_bind. iApply hwp_wand. iSplitL "Ht"; [iApply (rb_erase_spec with "Ht"); [done|by rewrite Ht]|].
  iIntros (_) "(Ha & %t' & (%Hrb' & %Ht') & Ht)". iApply hwp_clear. iFrame "Ha". iIntros "Ha".
  iSplit; [done|]. iApply nodes_put. iFrame "Hout Ha". iExists t'. iFrame. by rewrite Ht' Ht.
Qed.

Lemma empty_node_refines T A id b :
  tree_rel T A → alarms_ok A → al_blocks A !! id = Some b →
  wp (on_tree (RB_EMPTY_NODE id)) (λ r T', r = negb (ab_linked b) ∧ tree_rel T' A) T.
Proof.
  intros [Hbod Hn] Hok Hb.
  eapply (wp_on_tree _ _ (λ r, r = negb (ab_linked b))); [exact Hn| |].
  2:{ intros r T' HT' Hr HQ. split; [done|]. split; [by rewrite HT'|exact HQ]. }
  rewrite {1}nodes_take //.
  iIntros "((%t & (%Hrb & %Ht) & Ht) & Ho & Hout)". unfold outside at 1; destruct (ab_linked b) eqn:Hl; simpl.
  - iApply hwp_wand. iSplitL "Ht".
    { iApply (twp_empty_in with "Ht"). rewrite Ht. apply Hok. by exists b. }
    iIntros (r) "(%t' & (-> & ->) & Ht)". iSplit; [done|]. iApply (nodes_back _ _ _ _ Hb).
    rewrite /outside Hl. iFrame "Hout". iExists t. by iFrame.
  - iApply hwp_empty_cleared. iFrame "Ho". iIntros "Ho". iSplit; [done|].
    iApply (nodes_back _ _ _ _ Hb). iFrame "Hout". rewrite /outside Hl. iFrame "Ho". iExists t. by iFrame.
Qed.

Lemma del_alarm_refines T A id b :
  tree_rel T A → alarms_ok A → al_blocks A !! id = Some b →
  wp (AlarmTree.del_alarm_ id) (λ _ T', tree_rel T' (disarm id b A)) T.
Proof.
  intros Hrel Hok Hb. apply wp_bind. eapply wp_mono; [by eapply empty_node_refines|].
  intros r T' [-> Hrel']. rewrite negb_involutive. apply wp_when; intros Hl.
  - apply erase_and_clear_refines; [done..|]. apply Hok. by exists b.
  - assert (disarm id b A = A) as ->; [|done].
    unfold disarm. rewrite (unlinked_id b Hl) (insert_id _ _ _ Hb) unlink_notin; [by destruct A|].
    by eapply ok_unlinked.
Qed.
(** [insert_node] puts the block before the first late one. *)
Lemma insert_node_split blocks tv id l l1 l2 :
  (∀ x, x ∈ l → is_Some (blocks !! x)) → split_late (body <$> blocks) tv l l1 l2 →
  insert_node blocks tv id l = Some (l1 ++ id :: l2).
Proof.
  intros Hin (-> & H1 & H2). unfold late in *.
  assert (∀ x b, blocks !! x = Some b → (body <$> blocks) !! x = Some (body b)) as Hbody
    by (intros x b Hx; by rewrite lookup_fmap Hx).
  induction l1 as [|x l1 IH]; simpl in *.
  - destruct l2 as [|x l2]; simpl; [done|]. destruct (Hin x) as [b Hb]; [by left|].
    specialize (H2 x ltac:(by left)). rewrite (Hbody _ _ Hb) in H2. rewrite Hb. simpl in *. by rewrite H2.
  - destruct (Hin x) as [b Hb]; [by left|]. pose proof (H1 x ltac:(by left)) as Hx.
    rewrite (Hbody _ _ Hb) in Hx. rewrite Hb. simpl in *. rewrite Hx IH; [done|set_solver..].
Qed.

Lemma collect_split blocks tv l l1 l2 :
  (∀ x, x ∈ l → is_Some (blocks !! x)) → split_late (body <$> blocks) tv l l1 l2 →
  collect_expired blocks tv l = Some l1.
Proof.
  intros Hin (-> & H1 & H2). unfold late in *.
  assert (∀ x b, blocks !! x = Some b → (body <$> blocks) !! x = Some (body b)) as Hbody
    by (intros x b Hx; by rewrite lookup_fmap Hx).
  unfold timer_gt. induction l1 as [|x l1 IH]; simpl in *.
  - destruct l2 as [|x l2]; simpl; [done|]. destruct (Hin x) as [b Hb]; [by left|].
    specialize (H2 x ltac:(by left)). rewrite (Hbody _ _ Hb) in H2. rewrite Hb. simpl in *. 
    unfold timer_gt. by rewrite H2.
  - destruct (Hin x) as [b Hb]; [by left|]. pose proof (H1 x ltac:(by left)) as Hx.
    rewrite (Hbody _ _ Hb) in Hx. rewrite Hb. simpl in *. unfold timer_gt.
    rewrite Hx IH; [done|set_solver..].
Qed.

Lemma place_in_tree T root blocks tv id b : ab_linked b = false → blocks !! id = Some b →
  ordered (body <$> blocks) tv root →
  nodes_rep root blocks ⊢
    hwp (fuel ← rounds;
         place ← add_descend (body <$> blocks) tv fuel None LinkRoot;
         rb_link_node id place.1 place.2;;
         rb_insert_color id)
      (λ _, ∃ l1 l2, ⌜split_late (body <$> blocks) tv root l1 l2⌝ ∗
        nodes_rep (l1 ++ id :: l2) (<[id := linked_at tv b]> blocks)).
Proof.
  iIntros (Hl Hb Hord) "Hn". rewrite nodes_take //. iDestruct "Hn" as "((%t & (%Hrb & <-) & Ht) & Ho & Hout)".
  iApply hwp_bind. iApply twp_wand.
  { by apply (twp_rounds (λ fuel t', t' = t ∧ (length (inorder t) < fuel)%nat)). }
  iFrame "Ht". iIntros (fuel t' [-> Hfuel]) "Ht". iApply hwp_bind. iApply twp_wand.
  { apply (descend_spec _ tv fuel t []); [done|done|set_solver..]. }
  iFrame "Ht". iIntros ([parent new] t' (-> & k & Hk & [= -> ->] & Hb1 & Ha1)) "Ht". simpl in Hk. subst t.
  iApply hwp_wand. iSplitL "Ho Ht".
  - iApply (rb_insert_spec with "[Ho Ht]"); [done|]. rewrite /outside Hl cleared_loose. iFrame.
  - iIntros (_) "(%t' & (%Hrb' & %Ho) & Ht)". iExists (behind Rgt k), (ahead Rgt k). iSplit.
    + iPureIntro. split_and!; [|done|done]. by rewrite /inorder walk_plug.
    + iApply nodes_put. iFrame "Hout". iExists t'. iFrame. done.
Qed.

Lemma link_refines T A A' id b :
  tree_rel T A → al_blocks A !! id = Some b → ab_linked b = false →
  ordered (ta_bodies T) (ab_tv b) (al_root A) →
  Alarm.__add_alarm id A = Ok tt A' →
  wp (AlarmTree.__add_alarm id) (λ _ T', tree_rel T' A') T.
Proof.
  intros Hrel Hb Hl Hord HA. pose proof Hrel as [Hbod Hn]. rewrite Hbod in Hord.
  unfold AlarmTree.__add_alarm. apply wp_bind. unfold wp at 1, read_body.
  rewrite (rel_body _ _ _ _ Hrel Hb). simpl. apply wp_bind, wp_gets. rewrite Hbod.
  pose proof (hwp_adequate _ _ _ (ta_tree T) _ (place_in_tree T _ _ _ _ _ Hl Hb Hord) Hn ltac:(done)) as Hwp.
  unfold wp, on_tree in *. destruct ((rounds ≫= _) (ta_tree T)) as [[] tree|]; [|done].
  destruct Hwp as (h & (l1 & l2 & h1 & h2 & -> & Hd & Hsplit & HQ) & Hle & _).
  assert (insert_node (al_blocks A) (ab_tv b) id (al_root A) = Some (l1 ++ id :: l2)) as Hins.
  { apply insert_node_split; [|done]. intros x Hx. destruct Hord as [_ Hord].
    specialize (Hord x Hx). rewrite lookup_fmap in Hord. by apply fmap_is_Some in Hord. }
  unfold Alarm.__add_alarm, read_block, in_live_tree, mbind, M_bind in HA. rewrite Hb /= in HA.
  destruct (tree_alive A); [|done]. rewrite Hins in HA.
  injection HA as <-. split.
  - simpl. rewrite fmap_insert insert_id; [done|]. by rewrite lookup_fmap Hb.
  - eapply hmono; [exact HQ|]. etrans; [|exact Hle]. by apply map_union_subseteq_r.
Qed.
Lemma set_tv_refines T A id b tv :
  tree_rel T A → al_blocks A !! id = Some b →
  wp (set_tv id tv) (λ _ T', tree_rel T' (Alarms (<[id := with_tv tv b]> (al_blocks A)) (al_root A))) T.
Proof.
  intros Hrel Hb. pose proof Hrel as [Hbod Hn]. apply wp_bind. unfold wp at 1, read_body.
  rewrite (rel_body _ _ _ _ Hrel Hb). simpl. apply wp_modify. split.
  - simpl. by rewrite fmap_insert Hbod.
  - assert (nodes_rep (al_root A) (al_blocks A) ⊢
      nodes_rep (al_root A) (<[id := with_tv tv b]> (al_blocks A))) as He; [|exact (hprop_in _ _ He _ Hn)].
    rewrite nodes_take //. apply (nodes_put _ _ _ (with_tv tv b)).
Qed.

(** The block of a new object: its memory has any contents, and is not yet known. *)
Lemma init_alarm_refines T A id n data fcn :
  tree_rel T A → al_blocks A !! id = None → rs_nodes (ta_tree T) !! id = None →
  wp (new_block id n;; AlarmTree.init_alarm_ id data fcn)
    (λ _ T', tree_rel T' (Alarms (<[id := AlarmBlock false (Timeval 0 0) data fcn]> (al_blocks A)) (al_root A))) T.
Proof.
  intros [Hbod Hn] Hb Hnew. apply wp_bind. unfold wp at 1, new_block, on_tree, store, modify.
  set (T' := TreeAlarms _ _). apply wp_bind.
  assert ((nodes_rep (al_root A) (al_blocks A) ∗ loose id)%I (flat (ta_tree T'))) as HP.
  { assert (flat (ta_tree T') = <[Some id := inl n]> (flat (ta_tree T))) as ->.
    { unfold flat, rb_model. simpl. by rewrite fmap_insert kmap_insert insert_insert_ne. }
    eapply hprop_alloc; [|exact Hn|].
    - unfold flat, rb_model. by rewrite lookup_insert_ne // lookup_kmap lookup_fmap Hnew.
    - by iIntros "$"; iIntros "Hid"; iExists n. }
  eapply (wp_on_tree _ _ (λ _, True) (al_root A)); [exact HP| |].
  { iIntros "[Hn Hid]". iApply hwp_clear. iFrame "Hid". iIntros "Hid". iSplit; [done|].
    iDestruct "Hn" as "[Ht Hout]".
    iApply (nodes_put _ (al_blocks A) id (AlarmBlock false (Timeval 0 0) data fcn)).
    rewrite delete_id //. iFrame. }
  intros _ T'' HT'' _ HQ. apply wp_modify. split; [|exact HQ]. simpl. by rewrite fmap_insert HT'' Hbod.
Qed.

(** The memory of a block that is not in the tree goes away with its object. *)
Lemma free_block_refines T A id b :
  tree_rel T A → al_blocks A !! id = Some b → ab_linked b = false →
  wp (AlarmTree.free_block id) (λ _ T', tree_rel T' (Alarms (delete id (al_blocks A)) (al_root A))) T.
Proof.
  intros [Hbod Hn] Hb Hl. apply wp_modify. split; [simpl; by rewrite fmap_delete Hbod|].
  assert (flat (ta_tree (TreeAlarms (RbState (delete id (rs_nodes (ta_tree T))) (rs_root (ta_tree T)))
    (delete id (ta_bodies T)))) = delete (Some id) (flat (ta_tree T))) as ->.
  { unfold flat, rb_model. simpl. by rewrite fmap_delete kmap_delete delete_insert_ne. }
  eapply hprop_free; [|exact Hn]. rewrite nodes_take // /outside Hl.
  iIntros "(Ht & (%n & Hid & _) & Hout)". iSplitL "Hid"; [by iExists (inl n)|]. iFrame.
Qed.

(** *** Walks *)

Lemma first_refines T A :
  tree_rel T A → wp (on_tree rb_first) (λ r T', r = head (al_root A) ∧ tree_rel T' A) T.
Proof.
  intros [Hbod Hn]. eapply (wp_on_tree _ _ (λ r, r = head (al_root A))); [exact Hn| |].
  - iIntros "((%t & (%Hrb & %Ht) & Ht) & Hout)". iApply twp_wand; [apply extreme_spec|]. iFrame "Ht".
    iIntros (r t' [-> ->]) "Ht". iSplit; [by rewrite -Ht|]. iFrame "Hout". iExists t. by iFrame.
  - intros r T' HT' Hr HQ. split; [done|]. split; [by rewrite HT'|exact HQ].
Qed.

(** The queue of the expired blocks is the collected prefix, last first. *)
Lemma collect_refines T A tv queue :
  tree_rel T A → ordered (ta_bodies T) tv (al_root A) →
  collect_expired (al_blocks A) tv (al_root A) = Some queue →
  wp (collect tv) (λ r T', r = reverse queue ∧ tree_rel T' A) T.
Proof.
  intros Hrel Hord HA. pose proof Hrel as [Hbod Hn]. apply wp_bind, wp_gets. rewrite Hbod in Hord |- *.
  eapply (wp_on_tree _ _ (λ r, ∃ a c, split_late (body <$> al_blocks A) tv (al_root A) a c ∧ r = reverse a));
    [exact Hn| |].
  - iIntros "((%t & (%Hrb & %Ht) & Ht) & Hout)". iApply hwp_bind. iApply twp_wand.
    { by apply (twp_rounds (λ fuel t', t' = t ∧ (length (inorder t) < fuel)%nat)). }
    iFrame "Ht". iIntros (fuel t' [-> Hfuel]) "Ht". iApply hwp_bind. iApply twp_wand; [apply extreme_spec|].
    iFrame "Ht". iIntros (r t' [-> ->]) "Ht". iApply twp_wand.
    { apply (collect_loop_spec _ tv (inorder t) fuel [] [] t); [done|lia|by rewrite Ht]. }
    iFrame "Ht". iIntros (r t' (-> & a & b & Hs & ->)) "Ht". iSplit.
    { iPureIntro. exists a, b. rewrite -Ht app_nil_r. done. }
    iFrame "Hout". iExists t. by iFrame.
  - intros r T' HT' (a & b & Hs & ->) HQ. split; [|by split; [rewrite HT'|exact HQ]].
    f_equal. assert (collect_expired (al_blocks A) tv (al_root A) = Some a) as Ha; [|congruence].
    eapply collect_split; [|done]. intros x Hx. destruct Hord as [_ Hord].
    specialize (Hord x Hx). rewrite lookup_fmap in Hord. by apply fmap_is_Some in Hord.
Qed.

End refines.

(** ** Whole runs *)

(** A host of the queue: the queue, and whatever the clock and the callbacks use. *)
Section hosts.
Context {C : Type} {clk : Clock C}.

#[export] Instance pair_clock (X : Type) : Clock (X * C) := λ s,
  match gettimeofday s.2 with Ok t c => Ok t (s.1, c) | Fault f => Fault f end.
#[export] Instance pair_host : AlarmHost (alarms * C) := {|
  host_alarms := fst; host_set_alarms A s := (A, s.2) |}.
#[export] Instance pair_tree_host : TreeHost (tree_alarms * C) := {|
  host_tree := fst; host_set_tree T s := (T, s.2) |}.

Implicit Types (s : tree_alarms * C) (a : alarms * C) (id : alarm_id).

Definition host_rel s a : Prop := tree_rel s.1 a.1 ∧ alarms_ok a.1 ∧ s.2 = a.2.

(** What the sequence does without a fault, the tree does. *)
Definition simulates {X} (mT : M (tree_alarms * C) X) (mA : M (alarms * C) X) : Prop :=
  ∀ s a, host_rel s a → match mA a with
    | Ok v a' => wp mT (λ v' s', v' = v ∧ host_rel s' a') s
    | Fault _ => True
    end.

Lemma simulates_ret {X} (v : X) : simulates (mret v) (mret v).
Proof. by intros s a Hr. Qed.

Lemma simulates_bind {X Y} (mT : M _ X) mA (kT : X → M _ Y) kA :
  simulates mT mA → (∀ v, simulates (kT v) (kA v)) → simulates (mT ≫= kT) (mA ≫= kA).
Proof.
  intros Hm Hk s a Hr. unfold mbind at 1, M_bind at 1. specialize (Hm s a Hr).
  destruct (mA a) as [v a'|]; [|done]. specialize (Hk v).
  destruct (kA v a') as [w a''|] eqn:Hw; [|done].
  apply wp_bind. eapply wp_mono; [exact Hm|]. intros v' s' [-> Hr'].
  specialize (Hk s' a' Hr'). by rewrite Hw in Hk.
Qed.

Lemma simulates_for_each {X} (l : list X) bT bA :
  (∀ v, simulates (bT v) (bA v)) → simulates (for_each l bT) (for_each l bA).
Proof.
  intros Hb. induction l as [|v l IH]; simpl; [apply simulates_ret|].
  by apply simulates_bind.
Qed.

Lemma simulates_clock : simulates gettimeofday gettimeofday.
Proof.
  intros [T c] [A c'] (Hr & Hok & Hc). simpl in *. subst c'.
  unfold gettimeofday at 1, pair_clock. simpl. destruct (gettimeofday c) as [t c'|] eqn:Ht; [|done].
  unfold wp, gettimeofday at 1, pair_clock. simpl. by rewrite Ht.
Qed.

Lemma wp_on_tree_alarms {X} (m : M tree_alarms X) (Q : X → tree_alarms * C → Prop) s :
  wp m (λ v T, Q v (T, s.2)) s.1 → wp (on_tree_alarms m) Q s.
Proof. unfold wp, on_tree_alarms. simpl. by destruct (m s.1). Qed.

(** A step of the queue alone. *)
Lemma simulates_queue {X} (mT : M tree_alarms X) (mA : M alarms X) :
  (∀ T A, tree_rel T A → alarms_ok A → match mA A with
    | Ok v A' => wp mT (λ v' T', v' = v ∧ tree_rel T' A') T ∧ alarms_ok A'
    | Fault _ => True
    end) →
  simulates (on_tree_alarms mT) (on_alarms mA).
Proof.
  intros Hm [T c] [A c'] (Hr & Hok & Hc). specialize (Hm T A Hr Hok).
  unfold on_alarms, wp, on_tree_alarms in *. simpl in *. destruct (mA A) as [v A'|]; [|done].
  destruct Hm as [Hm Hok']. destruct (mT T) as [v' T'|]; [|done]. destruct Hm as [-> Hr']. done.
Qed.
(** *** The functions of alarm.h *)

Lemma ordered_ok A tv : alarms_ok A → ordered (body <$> al_blocks A) tv (al_root A).
Proof.
  intros Hok.
  assert (∀ x, x ∈ al_root A → late (body <$> al_blocks A) tv x = timer_lt tv (key A x)) as Hlate.
  { intros x Hx. destruct (ok_root_block _ _ Hok Hx) as [b Hb].
    by rewrite /late /key lookup_fmap Hb. }
  split.
  - eapply sorted_ext; [|apply (ok_sorted _ Hok)]. intros x y Hx Hy. cbv beta.
    rewrite (Hlate x Hx) (Hlate y Hy). unfold timer_lt. intros H1 H2. revert H1 H2. repeat case_match; lia.
  - intros x Hx. destruct (ok_root_block _ _ Hok Hx) as [b Hb]. rewrite lookup_fmap Hb. by eexists.
Qed.

Lemma del_alarm_simulates id : simulates (AlarmTree.del_alarm id) (Alarm.del_alarm id).
Proof.
  apply simulates_queue. intros T A Hr Hok.
  destruct (al_blocks A !! id) as [b|] eqn:Hb.
  - rewrite (del_alarm_eq A id b Hok Hb). split; [|by apply disarm_ok].
    eapply wp_mono; [by eapply del_alarm_refines|]. by intros [] T'.
  - by rewrite /Alarm.del_alarm_ /read_block /mbind /M_bind Hb.
Qed.

Lemma alarm_pending_simulates id : simulates (AlarmTree.alarm_pending id) (Alarm.alarm_pending id).
Proof.
  intros [T c] [A c'] (Hr & Hok & Hc). simpl in *.
  unfold Alarm.alarm_pending, on_alarms, read_block, mbind, M_bind. simpl.
  destruct (al_blocks A !! id) as [b|] eqn:Hb; simpl; [|done].
  apply wp_on_tree_alarms, wp_bind. eapply wp_mono; [by eapply empty_node_refines|].
  intros r T' [-> Hr']. apply wp_ret. by rewrite negb_involutive.
Qed.

(** Times of the clock are normalised. *)
Definition clock_ok : Prop := ∀ (c : C) t (c' : C), gettimeofday c = Ok t c' → timeval_ok t.

Lemma add_alarm_simulates id sc usc : clock_ok → timeval_ok (Timeval sc usc) →
  simulates (AlarmTree.add_alarm id sc usc) (Alarm.add_alarm id sc usc).
Proof.
  intros Hclk Htv [T c] [A c'] (Hr & Hok & Hc). simpl in *. subst c'.
  destruct (al_blocks A !! id) as [b|] eqn:Hb.
  2:{ by rewrite /Alarm.add_alarm /Alarm.del_alarm /on_alarms /Alarm.del_alarm_ /read_block
        /mbind /M_bind /= Hb. }
  unfold Alarm.add_alarm, Alarm.del_alarm, on_alarms, mbind at 1, M_bind at 1. simpl.
  rewrite (del_alarm_eq A id b Hok Hb).
  unfold read_block, write_block, mbind, M_bind. simpl. rewrite lookup_insert_eq. simpl.
  unfold gettimeofday at 1, pair_clock. simpl.
  destruct (gettimeofday c) as [now c'|] eqn:Hnow; [|done]. rewrite !insert_insert_eq.
  set (tv := timeradd (Timeval sc usc) now).
  pose proof (link_armed A id tv b Hok Hb) as Hlink. unfold wp in Hlink.
  cbn [fst snd al_root al_blocks].
  set (A0 := Alarms (<[id := with_tv tv (unlinked b)]> (al_blocks A)) (unlink id (al_root A))) in *.
  destruct (Alarm.__add_alarm id A0) as [[] A'|] eqn:Hadd; [|done].
  (* the same steps on the tree *)
  apply wp_bind, wp_on_tree_alarms. eapply wp_mono; [by eapply del_alarm_refines|].
  intros [] T1 Hr1. apply wp_bind, wp_on_tree_alarms.
  eapply wp_mono; [eapply (set_tv_refines _ _ _ _ _ Hr1), lookup_insert_eq|].
  intros [] T2 Hr2. simpl in Hr2. rewrite insert_insert_eq in Hr2.
  apply wp_bind. unfold wp at 1, gettimeofday at 1, pair_clock. simpl. rewrite Hnow.
  apply wp_bind, wp_on_tree_alarms.
  eapply wp_mono; [eapply (set_tv_refines _ _ _ _ _ Hr2), lookup_insert_eq|].
  intros [] T3 Hr3. simpl in Hr3. rewrite insert_insert_eq in Hr3.
  change (tree_rel T3 A0) in Hr3.
  apply wp_on_tree_alarms. eapply wp_mono.
  { eapply link_refines; [exact Hr3|apply lookup_insert_eq|done| |exact Hadd].
    rewrite (rel_bodies _ _ Hr3). simpl.
    eapply ordered_ext; [|exact (ordered_ok _ tv (disarm_ok A id b Hok Hb))]. simpl.
    intros x [Hne _]%elem_of_unlink. by rewrite !fmap_insert !lookup_insert_ne. }
  intros [] T4 Hr4. split; [done|]. split; [done|]. split; [|done]. simpl.
  eapply armed_ok; [exact Hok|exact Hb| |exact Hlink]. apply timeradd_ok; [done|by eapply Hclk].
Qed.
Lemma get_next_simulates : simulates AlarmTree.get_next_alarm_run Alarm.get_next_alarm_run.
Proof.
  apply simulates_bind; [apply simulates_clock|]. intros tv [T c] [A c'] (Hr & Hok & Hc). simpl in *.
  unfold gets, mbind at 1, M_bind at 1, mbind at 1, M_bind at 1. simpl. rewrite in_live_tree_ok //. simpl.
  destruct (al_root A) as [|this rest] eqn:Hroot; simpl.
  - apply wp_bind, wp_on_tree_alarms. eapply wp_mono; [by apply first_refines|].
    rewrite Hroot. intros r T' [-> Hr']. by apply wp_ret.
  - unfold on_alarms, read_block, mbind at 1, M_bind at 1. simpl.
    destruct (al_blocks A !! this) as [b|] eqn:Hb; simpl; [|done].
    apply wp_bind, wp_on_tree_alarms. eapply wp_mono; [by apply first_refines|].
    rewrite Hroot. intros r T' [-> Hr']. simpl. apply wp_bind, wp_on_tree_alarms.
    unfold wp at 1, read_body. rewrite (rel_body _ _ _ _ Hr' Hb). simpl. by apply wp_ret.
Qed.

Lemma erase_and_clear_simulates id :
  simulates (on_tree_alarms (AlarmTree.erase_and_clear id)) (on_alarms (Alarm.erase_and_clear id)).
Proof.
  apply simulates_queue. intros T A Hr Hok.
  destruct (al_blocks A !! id) as [b|] eqn:Hb.
  2:{ by rewrite /Alarm.erase_and_clear /read_block /mbind /M_bind Hb. }
  destruct (decide (id ∈ al_root A)) as [Hin|Hin].
  - rewrite (erase_and_clear_eq A id b Hb Hin (ok_tree_alive A Hok)). split; [|by apply disarm_ok].
    eapply wp_mono; [by eapply erase_and_clear_refines|]. by intros [] T'.
  - rewrite /Alarm.erase_and_clear /read_block /Alarm.rb_erase /mbind /M_bind Hb /=.
    by rewrite decide_False.
Qed.

Section callbacks.
Context (runT : alarm_fn → alarm_id → option addr → M (tree_alarms * C) unit)
  (runA : alarm_fn → alarm_id → option addr → M (alarms * C) unit)
  (Hrun : ∀ f id d, simulates (runT f id d) (runA f id d)).

Lemma run_one_simulates id : simulates
  (on_tree_alarms (AlarmTree.erase_and_clear id);; b ← on_tree_alarms (read_body id);
   runT (bd_function b) id (bd_data b))
  (on_alarms (Alarm.erase_and_clear id);; b ← on_alarms (read_block id);
   runA (ab_function b) id (ab_data b)).
Proof.
  apply simulates_bind; [apply erase_and_clear_simulates|]. intros _ [T c] [A c'] (Hr & Hok & Hc).
  simpl in *. unfold on_alarms, read_block, mbind at 1, M_bind at 1. simpl.
  destruct (al_blocks A !! id) as [b|] eqn:Hb; simpl; [|done].
  pose proof (Hrun (ab_function b) id (ab_data b) (T, c) (A, c') (conj Hr (conj Hok Hc))) as Hsim.
  destruct (runA _ _ _ (A, c')) as [v a'|]; [|done].
  apply wp_bind, wp_on_tree_alarms. unfold wp at 1, read_body.
  rewrite (rel_body _ _ _ _ Hr Hb). simpl. exact Hsim.
Qed.

Lemma do_alarm_run_simulates : simulates (AlarmTree.do_alarm_run runT) (Alarm.do_alarm_run runA).
Proof.
  apply simulates_bind; [apply simulates_clock|]. intros tv.
  intros [T c] [A c'] (Hr & Hok & Hc). simpl in *.
  destruct (collect_expired_spec A tv Hok) as (queue & rest & _ & Hq & _).
  pose proof (simulates_bind _ _ (λ _, AlarmTree.get_next_alarm_run) (λ _, Alarm.get_next_alarm_run)
    (simulates_for_each (reverse queue) _ _ run_one_simulates) (λ _, get_next_simulates)) as Hsim.
  unfold gets, mbind at 1, M_bind at 1, mbind at 1, M_bind at 1. simpl. rewrite in_live_tree_ok // Hq. simpl.
  destruct ((_ ≫= _ : M (alarms * C) (option timeval)) (A, c')) as [v a'|] eqn:HA; [|done].
  apply wp_bind, wp_on_tree_alarms. eapply wp_mono.
  { eapply collect_refines; [done| |exact Hq]. rewrite (rel_bodies _ _ Hr). by apply ordered_ok. }
  intros r T' [-> Hr']. specialize (Hsim (T', c) (A, c') (conj Hr' (conj Hok Hc))). by rewrite HA in Hsim.
Qed.
End callbacks.
End hosts.
