(* ===== verification/LinuxList.v ===== *)
(** * libmeshias/alarm/linux_list.h: intrusive lists

    The circular doubly linked lists that every queue and table of the daemon is made of,
    and the hash lists of the same header, on their memory: one cell per member of a
    [struct list_head], [struct hlist_head] or [struct hlist_node].  The barriers of the
    [_rcu] variants and [prefetch] are empty macros here, as in the header. *)

From S2P Require Export Prelude.

(** The members: [next] and [prev] of a [list_head], [first] of a [hlist_head], [next] and
    [pprev] of a [hlist_node]. *)
Inductive member := m_next | m_prev | m_first | m_hnext | m_pprev.

#[export] Instance member_eq_dec : EqDecision member.
Proof. solve_decision. Defined.
#[export] Instance member_countable : Countable member.
Proof.
  refine (inj_countable'
    (λ m, match m with m_next => 0 | m_prev => 1 | m_first => 2 | m_hnext => 3 | m_pprev => 4 end%nat)
    (λ n, match n with
          | 0 => m_next | 1 => m_prev | 2 => m_first | 3 => m_hnext | _ => m_pprev end%nat) _).
  by intros [].
Defined.

Definition LIST_POISON1 : Z := 0x00100100.
Definition LIST_POISON2 : Z := 0x00200200.

Section linux_list.
Context {A : Type} `{Countable A}.

(** What a member holds: a null pointer, the address of a node, the address of a member
    ([pprev]), or one of the poison addresses. *)
Inductive pointer := NULL | At (a : A) | Slot (c : A * member) | Poison (z : Z).

Definition list_memory : Type := gmap (A * member) pointer.

(** [x->m], and [x->m = v] in memory that exists. *)
Definition get (x : A) (m : member) : M list_memory pointer := λ s,
  demand UseAfterFree (s !! (x, m)) s.
Definition put (x : A) (m : member) (v : pointer) : M list_memory unit :=
  get x m;; modify (λ s, <[(x, m) := v]> s).

(** A pointer that is followed. *)
Definition node_of (p : pointer) : M list_memory A :=
  match p with
  | At a => mret a
  | NULL => abort NullDeref
  | Slot _ | Poison _ => abort ListCorrupt
  end.
Definition get_node (x : A) (m : member) : M list_memory A := p ← get x m; node_of p.

#[export] Instance pointer_eq_dec : EqDecision pointer.
Proof. solve_decision. Defined.

(** ** Doubly linked lists *)

Definition INIT_LIST_HEAD (ptr : A) : M list_memory unit :=
  put ptr m_next (At ptr);; put ptr m_prev (At ptr).

Definition __list_add (new prev next : A) : M list_memory unit :=
  put next m_prev (At new);;
  put new m_next (At next);;
  put new m_prev (At prev);;
  put prev m_next (At new).

Definition list_add (new head : A) : M list_memory unit :=
  next ← get_node head m_next; __list_add new head next.
Definition list_add_tail (new head : A) : M list_memory unit :=
  prev ← get_node head m_prev; __list_add new prev head.

Definition __list_add_rcu (new prev next : A) : M list_memory unit :=
  put new m_next (At next);;
  put new m_prev (At prev);;
  put next m_prev (At new);;
  put prev m_next (At new).
Definition list_add_rcu (new head : A) : M list_memory unit :=
  next ← get_node head m_next; __list_add_rcu new head next.
Definition list_add_tail_rcu (new head : A) : M list_memory unit :=
  prev ← get_node head m_prev; __list_add_rcu new prev head.

Definition __list_del (prev next : A) : M list_memory unit :=
  put next m_prev (At prev);;
  put prev m_next (At next).

(** [__list_del(entry->prev, entry->next)] *)
Definition unlink_entry (entry : A) : M list_memory unit :=
  prev ← get_node entry m_prev;
  next ← get_node entry m_next;
  __list_del prev next.

Definition list_del (entry : A) : M list_memory unit :=
  unlink_entry entry;;
  put entry m_next (Poison LIST_POISON1);;
  put entry m_prev (Poison LIST_POISON2).
Definition list_del_rcu (entry : A) : M list_memory unit :=
  unlink_entry entry;;
  put entry m_prev (Poison LIST_POISON2).
Definition list_del_init (entry : A) : M list_memory unit :=
  unlink_entry entry;;
  INIT_LIST_HEAD entry.

Definition list_move (list head : A) : M list_memory unit :=
  unlink_entry list;; list_add list head.
Definition list_move_tail (list head : A) : M list_memory unit :=
  unlink_entry list;; list_add_tail list head.

Definition list_empty (head : A) : M list_memory bool :=
  next ← get head m_next; mret (bool_decide (next = At head)).
Definition list_empty_careful (head : A) : M list_memory bool :=
  next ← get head m_next;
  if decide (next = At head)
  then prev ← get head m_prev; mret (bool_decide (next = prev))
  else mret false.

Definition __list_splice (list head : A) : M list_memory unit :=
  first ← get_node list m_next;
  last ← get_node list m_prev;
  at_ ← get_node head m_next;
  put first m_prev (At head);;
  put head m_next (At first);;
  put last m_next (At at_);;
  put at_ m_prev (At last).
Definition list_splice (list head : A) : M list_memory unit :=
  empty ← list_empty list; when (negb empty) (__list_splice list head).
Definition list_splice_init (list head : A) : M list_memory unit :=
  empty ← list_empty list;
  when (negb empty) (__list_splice list head;; INIT_LIST_HEAD list).

(** *** Loops *)

(** More rounds than a loop over the nodes of a list takes. *)
Definition list_rounds : M list_memory nat := gets (λ s, S (size s)).

(** From [pos] on to [head], by the member [m]; the body runs before the step. *)
Fixpoint each_from (m : member) (fuel : nat) (pos head : A) (body : A → M list_memory unit) :
    M list_memory unit :=
  if decide (pos = head) then mret tt else
  match fuel with
  | O => abort Diverges
  | S fuel =>
      body pos;;
      pos ← get_node pos m;
      each_from m fuel pos head body
  end.

(** [list_for_each], [list_for_each_prev]; [list_for_each_entry] and its [_reverse] are the
    same with the structures around the nodes. *)
Definition list_for_each (head : A) (body : A → M list_memory unit) : M list_memory unit :=
  fuel ← list_rounds; pos ← get_node head m_next; each_from m_next fuel pos head body.
Definition list_for_each_prev (head : A) (body : A → M list_memory unit) : M list_memory unit :=
  fuel ← list_rounds; pos ← get_node head m_prev; each_from m_prev fuel pos head body.
Definition list_for_each_entry_continue (pos head : A) (body : A → M list_memory unit) :
    M list_memory unit :=
  fuel ← list_rounds; pos ← get_node pos m_next; each_from m_next fuel pos head body.

(** The step is taken to [n], which was read before the body ran. *)
Fixpoint each_safe (fuel : nat) (pos n head : A) (body : A → M list_memory unit) :
    M list_memory unit :=
  if decide (pos = head) then mret tt else
  match fuel with
  | O => abort Diverges
  | S fuel =>
      body pos;;
      n' ← get_node n m_next;
      each_safe fuel n n' head body
  end.

(** [list_for_each_safe] and [list_for_each_entry_safe]. *)
Definition list_for_each_safe (head : A) (body : A → M list_memory unit) : M list_memory unit :=
  fuel ← list_rounds;
  pos ← get_node head m_next;
  n ← get_node pos m_next;
  each_safe fuel pos n head body.

(** ** Hash lists *)

Definition INIT_HLIST_HEAD (ptr : A) : M list_memory unit := put ptr m_first NULL.
Definition INIT_HLIST_NODE (ptr : A) : M list_memory unit :=
  put ptr m_hnext NULL;; put ptr m_pprev NULL.

Definition hlist_unhashed (h : A) : M list_memory bool :=
  p ← get h m_pprev; mret (bool_decide (p = NULL)).
Definition hlist_empty (h : A) : M list_memory bool :=
  p ← get h m_first; mret (bool_decide (p = NULL)).

(** [*slot = v] through a pointer to a pointer. *)
Definition put_slot (slot v : pointer) : M list_memory unit :=
  match slot with
  | Slot (x, m) => put x m v
  | NULL => abort NullDeref
  | At _ | Poison _ => abort ListCorrupt
  end.

(** [if (p) p->pprev = v] *)
Definition set_pprev (p v : pointer) : M list_memory unit :=
  if decide (p = NULL) then mret tt else n ← node_of p; put n m_pprev v.

Definition __hlist_del (n : A) : M list_memory unit :=
  next ← get n m_hnext;
  pprev ← get n m_pprev;
  put_slot pprev next;;
  set_pprev next pprev.
Definition hlist_del (n : A) : M list_memory unit :=
  __hlist_del n;;
  put n m_hnext (Poison LIST_POISON1);;
  put n m_pprev (Poison LIST_POISON2).
Definition hlist_del_rcu (n : A) : M list_memory unit :=
  __hlist_del n;;
  put n m_pprev (Poison LIST_POISON2).
Definition hlist_del_init (n : A) : M list_memory unit :=
  p ← get n m_pprev;
  when (negb (bool_decide (p = NULL))) (__hlist_del n;; INIT_HLIST_NODE n).

Definition hlist_add_head (n h : A) : M list_memory unit :=
  first ← get h m_first;
  put n m_hnext first;;
  set_pprev first (Slot (n, m_hnext));;
  put h m_first (At n);;
  put n m_pprev (Slot (h, m_first)).
Definition hlist_add_head_rcu (n h : A) : M list_memory unit :=
  first ← get h m_first;
  put n m_hnext first;;
  put n m_pprev (Slot (h, m_first));;
  set_pprev first (Slot (n, m_hnext));;
  put h m_first (At n).

Definition hlist_add_before (n next : A) : M list_memory unit :=
  pprev ← get next m_pprev;
  put n m_pprev pprev;;
  put n m_hnext (At next);;
  put next m_pprev (Slot (n, m_hnext));;
  pprev ← get n m_pprev;
  put_slot pprev (At n).
Definition hlist_add_after (n next : A) : M list_memory unit :=
  nn ← get n m_hnext;
  put next m_hnext nn;;
  put n m_hnext (At next);;
  put next m_pprev (Slot (n, m_hnext));;
  nn ← get next m_hnext;
  set_pprev nn (Slot (next, m_hnext)).

(** [hlist_for_each]: until the null pointer. *)
Fixpoint hlist_each_from (fuel : nat) (pos : pointer) (body : A → M list_memory unit) :
    M list_memory unit :=
  if decide (pos = NULL) then mret tt else
  match fuel with
  | O => abort Diverges
  | S fuel =>
      n ← node_of pos;
      body n;;
      pos ← get n m_hnext;
      hlist_each_from fuel pos body
  end.
(** [hlist_for_each_safe]: the next node is read before the body runs. *)
Fixpoint hlist_each_safe (fuel : nat) (pos : pointer) (body : A → M list_memory unit) :
    M list_memory unit :=
  if decide (pos = NULL) then mret tt else
  match fuel with
  | O => abort Diverges
  | S fuel =>
      node ← node_of pos;
      n ← get node m_hnext;
      body node;;
      hlist_each_safe fuel n body
  end.
Definition hlist_for_each_safe (head : A) (body : A → M list_memory unit) : M list_memory unit :=
  fuel ← list_rounds; pos ← get head m_first; hlist_each_safe fuel pos body.
Definition hlist_for_each (head : A) (body : A → M list_memory unit) : M list_memory unit :=
  fuel ← list_rounds; pos ← get head m_first; hlist_each_from fuel pos body.
End linux_list.

Arguments pointer A : clear implicits.
Arguments list_memory A {_ _}.

(** ** Programs with lists in their state *)

(** A program state that holds the links of its structures. *)
Class ListHost (A St : Type) `{Countable A} := {
  host_links : St → list_memory A;
  host_set_links : list_memory A → St → St }.

Class ListHostLaws (A St : Type) `{ListHost A St} : Prop := {
  links_get_set l s : host_links (host_set_links l s) = l;
  links_set_get s : host_set_links (host_links s) s = s }.

Section host.
Context {A St : Type} `{ListHost A St}.

Definition on_links {X} (m : M (list_memory A) X) : M St X := λ s,
  match m (host_links s) with
  | Ok x l => Ok x (host_set_links l s)
  | Fault f => Fault f
  end.

(** [list_for_each_entry_safe] with a body that works on the whole state. *)
Fixpoint entries_safe (fuel : nat) (pos n head : A) (body : A → M St unit) : M St unit :=
  if decide (pos = head) then mret tt else
  match fuel with
  | O => abort Diverges
  | S fuel =>
      body pos;;
      n' ← on_links (get_node n m_next);
      entries_safe fuel n n' head body
  end.
Definition list_for_each_entry_safe (head : A) (body : A → M St unit) : M St unit :=
  fuel ← on_links list_rounds;
  pos ← on_links (get_node head m_next);
  n ← on_links (get_node pos m_next);
  entries_safe fuel pos n head body.

(** [list_for_each_entry] around an [if] that returns the entry. *)
Fixpoint entries_until (fuel : nat) (pos head : A) (test : A → M St bool) : M St (option A) :=
  if decide (pos = head) then mret None else
  match fuel with
  | O => abort Diverges
  | S fuel =>
      stop ← test pos;
      if stop : bool then mret (Some pos) else
      pos ← on_links (get_node pos m_next);
      entries_until fuel pos head test
  end.
Definition list_find_entry (head : A) (test : A → M St bool) : M St (option A) :=
  fuel ← on_links list_rounds;
  pos ← on_links (get_node head m_next);
  entries_until fuel pos head test.

(** [list_for_each_entry] around a body without [return]. *)
Definition list_for_each_entry (head : A) (body : A → M St unit) : M St unit :=
  list_find_entry head (λ pos, body pos;; mret false);; mret tt.
End host.
