(* ===== verification/PacketList.v ===== *)
(** * packets_fifo.c on the nodes of its list

    [PacketsFifo] describes the queue of packets by the sequence of its entries and their
    loops by the entries that were in it when they started.  Here the same functions work on
    the memory of the nodes, through the functions of linux_list.h: the loops go from node
    to node while their bodies unlink and free the nodes they visit.  [PacketListSpec] shows
    that the two agree. *)

From S2P Require Export PacketsFifo LinuxList.

(** The links of the nodes ([&entry->list] standing for [entry]), the other fields of the
    entries, [id] and [dest], and the rest of the program; the sequence of packets in that
    is not used. *)
Record packet_nodes := PacketNodes {
  pn_links : list_memory addr;
  pn_bodies : gmap addr (Z * Z);
  pn_world : world }.

#[export] Instance packet_list_host : ListHost addr packet_nodes := {
  host_links := pn_links;
  host_set_links l Q := PacketNodes l (pn_bodies Q) (pn_world Q) }.
#[export] Instance packet_list_laws : ListHostLaws addr packet_nodes.
Proof. split; [done|by intros []]. Qed.

Section packet_list.
Context `{E : Env}.

(** What happens in the rest of the program. *)
Definition on_world {X} (m : M world X) : M packet_nodes X := λ Q,
  match m (pn_world Q) with
  | Ok x w => Ok x (PacketNodes (pn_links Q) (pn_bodies Q) w)
  | Fault f => Fault f
  end.

Definition read_packet (a : addr) : M packet_nodes (Z * Z) := λ Q,
  demand UseAfterFree (pn_bodies Q !! a) Q.

(** [calloc(1, sizeof(struct packets_fifo))] *)
Definition calloc_packet : M packet_nodes addr :=
  a ← on_world fresh_addr;
  modify (λ Q, PacketNodes (<[(a, m_next) := NULL]> (<[(a, m_prev) := NULL]> (pn_links Q)))
                           (<[a := (0, 0)]> (pn_bodies Q)) (pn_world Q));;
  mret a.

(** The assignments to [id] and [dest]. *)
Definition write_packet (a : addr) (id dest : Z) : M packet_nodes unit :=
  read_packet a;; modify (λ Q, PacketNodes (pn_links Q) (<[a := (id, dest)]> (pn_bodies Q)) (pn_world Q)).

(** [free]: the entry goes with the node inside it. *)
Definition free_packet (a : addr) : M packet_nodes unit :=
  read_packet a;;
  modify (λ Q, PacketNodes (filter (λ cell, cell.1.1 ≠ a) (pn_links Q)) (delete a (pn_bodies Q)) (pn_world Q)).

Definition packets_fifo_alloc : M packet_nodes addr :=
  queue ← calloc_packet;
  on_links (INIT_LIST_HEAD queue);;
  mret queue.

Definition packet_obj_accept (packet_obj : addr) : M packet_nodes unit :=
  obj ← read_packet packet_obj;
  on_world (nfq_set_verdict obj.1 NF_ACCEPT);;
  on_links (list_del packet_obj);;
  free_packet packet_obj.

Definition packet_obj_drop (packet_obj : addr) : M packet_nodes unit :=
  obj ← read_packet packet_obj;
  on_world (nfq_set_verdict obj.1 NF_DROP);;
  on_links (list_del packet_obj);;
  free_packet packet_obj;;
  on_world (stat_incr Stat.packets_dropped).

Definition packets_fifo_delete (queue : addr) : M packet_nodes unit :=
  list_for_each_entry_safe queue packet_obj_drop;;
  free_packet queue.

Definition packets_fifo_push (queue : addr) (id dest : Z) : M packet_nodes unit :=
  packet_obj ← calloc_packet;
  write_packet packet_obj id dest;;
  on_links (list_add packet_obj queue).

Definition packets_fifo_drop_packets (queue : addr) (dest : Z) : M packet_nodes unit :=
  list_for_each_entry_safe queue (λ entry,
    obj ← read_packet entry;
    when (obj.2 =? dest) (packet_obj_drop entry)).

Definition packets_fifo_process_route (queue route : addr) : M packet_nodes unit :=
  first ← on_world msh_route_alloc;
  list_for_each_entry_safe queue (λ entry,
    obj ← read_packet entry;
    on_world (msh_route_set_dst_ip first obj.2);;
    diff ← on_world (msh_route_compare first route RTFIND_BY_DEST_LONGEST_PREFIX_MATCHING);
    when (diff =? 0) (packet_obj_accept entry));;
  on_world (msh_route_destroy first).

Definition packets_fifo_is_empty (queue : addr) : M packet_nodes bool := on_links (list_empty queue).
End packet_list.
