(* ===== verification/RreqList.v ===== *)
(** * rreq_fifo.c on the nodes of its list

    [RreqFifo] describes the queue of RREQs by the sequence of the addresses of its entries.
    Here the same functions work on the memory of the nodes: they go from node to node,
    return from the loop at the entry they look for, and free entries while they visit
    them.  [RreqListSpec] shows that the two agree. *)

From S2P Require Export RreqFifo LinuxList.

(** The links of the nodes ([&entry->list] standing for [entry]) and the rest of the program
    with the other fields of the entries; the sequence of entries in that is not used. *)
Record rreq_nodes := RreqNodes {
  rn_links : list_memory addr;
  rn_world : world }.

#[export] Instance rreq_list_host : ListHost addr rreq_nodes := {
  host_links := rn_links;
  host_set_links l Q := RreqNodes l (rn_world Q) }.
#[export] Instance rreq_list_laws : ListHostLaws addr rreq_nodes.
Proof. split; [done|by intros []]. Qed.

Section rreq_list.
Context `{E : Env}.

(** What happens in the rest of the program. *)
Definition on_daemon {X} (m : M world X) : M rreq_nodes X := λ Q,
  match m (rn_world Q) with
  | Ok x w => Ok x (RreqNodes (rn_links Q) w)
  | Fault f => Fault f
  end.

(** The links of [calloc(1, sizeof(struct rreq_fifo))], and of the block that is freed. *)
Definition calloc_rreq : M rreq_nodes addr :=
  a ← on_daemon fresh_addr;
  modify (λ Q, RreqNodes (<[(a, m_next) := NULL]> (<[(a, m_prev) := NULL]> (rn_links Q))) (rn_world Q));;
  mret a.
Definition free_links (a : addr) : M rreq_nodes unit :=
  on_links (get a m_next);;
  modify (λ Q, RreqNodes (filter (λ cell, cell.1.1 ≠ a) (rn_links Q)) (rn_world Q)).

Definition __rreq_fifo_entry_delete (entry : addr) : M rreq_nodes unit :=
  on_daemon (del_alarm (AL_rreq entry));;
  on_links (list_del entry);;
  on_daemon (free_rreq entry);;
  free_links entry.

(** The alarm of the queue itself, which nothing ever arms, is left out, as in [RreqFifo]. *)
Definition rreq_fifo_alloc : M rreq_nodes addr :=
  queue ← calloc_rreq;
  on_links (INIT_LIST_HEAD queue);;
  mret queue.

Definition rreq_fifo_delete (queue : addr) : M rreq_nodes unit :=
  list_for_each_entry_safe queue __rreq_fifo_entry_delete;;
  free_links queue.

(** A new entry, its alarm due in [time] milliseconds, first in the list. *)
Definition rreq_fifo_insert (queue : addr) (rreq_id dst prev_tries time : Z) : M rreq_nodes unit :=
  entry ← calloc_rreq;
  on_daemon (
    write_rreq entry (RreqFifo rreq_id dst prev_tries);;
    let '(sc, usc) := set_alarm_time time in
    init_alarm (AL_rreq entry) (Some entry) fn_rreq_fifo_alarm_cb;;
    add_alarm (AL_rreq entry) sc usc);;
  on_links (list_add entry queue).

Definition rreq_fifo_push (queue : addr) (rreq_id dst : Z) : M rreq_nodes unit :=
  rreq_fifo_insert queue rreq_id dst (-1) PATH_DISCOVERY_TIME.

Definition rreq_fifo_push_owned (queue : addr) (rreq_id dst prev_tries : Z) : M rreq_nodes unit :=
  time ← demand ShiftUB (binary_exponential_backoff_time prev_tries);
  rreq_fifo_insert queue rreq_id dst prev_tries time.

(** [list_for_each_entry] around an [if] on the entry. *)
Definition first_entry (queue : addr) (test : rreq_fifo → bool) : M rreq_nodes (option addr) :=
  list_find_entry queue (λ entry, e ← on_daemon (read_rreq entry); mret (test e)).

Definition rreq_fifo_contains (queue : addr) (rreq_id dst : Z) : M rreq_nodes bool :=
  found ← first_entry queue (λ e, (rf_rreq_id e =? rreq_id) && (rf_dst e =? dst));
  mret (bool_decide (is_Some found)).

Definition rreq_fifo_waiting_response_for (queue : addr) (dst : Z) : M rreq_nodes bool :=
  found ← first_entry queue (λ e, (0 <=? rf_prev_tries e) && (rf_dst e =? dst));
  mret (bool_decide (is_Some found)).

Definition rreq_fifo_del (queue : addr) (rreq_id dst : Z) : M rreq_nodes unit :=
  found ← first_entry queue (λ e, (rf_rreq_id e <=? rreq_id) && (rf_dst e =? dst));
  match found with
  | Some entry => __rreq_fifo_entry_delete entry
  | None => mret tt
  end.
End rreq_list.
