(* ===== verification/TableList.v ===== *)
(** * routing_table.c on the nodes of its list

    [RoutingTable] describes the table by the sequence of the addresses of its routes.  Here
    the same functions, and those of msh_route.c that allocate and destroy routes, work on
    the memory of the nodes ([route->list], and [table->route_list] for the table): a route
    in the list is unlinked by its update callback while it is destroyed, and
    [routing_table_delete] frees routes that are still in the list.  [TableListSpec] shows
    that the two agree. *)

From S2P Require Export RoutingTable LinuxList.

(** The nodes: the head inside the table and one in every route. *)
Inductive table_node := TN_table | TN_route (route : addr).

#[export] Instance table_node_eq_dec : EqDecision table_node.
Proof. solve_decision. Defined.
#[export] Instance table_node_countable : Countable table_node.
Proof.
  refine (inj_countable' (λ n, match n with TN_table => None | TN_route a => Some a end)
    (λ o, match o with None => TN_table | Some a => TN_route a end) _).
  by intros [].
Defined.

(** [list_entry]: the route around a node. *)
Definition node_route (n : table_node) : option addr :=
  match n with TN_table => None | TN_route a => Some a end.

(** The links of the nodes and the rest of the program; the sequence of routes in that is
    not used. *)
Record table_nodes := TableNodes {
  tn_links : list_memory table_node;
  tn_world : world }.

#[export] Instance table_list_host : ListHost table_node table_nodes := {
  host_links := tn_links;
  host_set_links l Q := TableNodes l (tn_world Q) }.
#[export] Instance table_list_laws : ListHostLaws table_node table_nodes.
Proof. split; [done|by intros []]. Qed.

Section table_list.
Context `{E : Env}.

(** What happens in the rest of the program. *)
Definition on_rest {X} (m : M world X) : M table_nodes X := λ Q,
  match m (tn_world Q) with
  | Ok x w => Ok x (TableNodes (tn_links Q) w)
  | Fault f => Fault f
  end.

(** The links that come with [calloc], and go with [free]. *)
Definition calloc_node (n : table_node) : M table_nodes unit :=
  modify (λ Q, TableNodes (<[(n, m_next) := NULL]> (<[(n, m_prev) := NULL]> (tn_links Q))) (tn_world Q)).
Definition free_node (n : table_node) : M table_nodes unit :=
  on_links (get n m_next);;
  modify (λ Q, TableNodes (filter (λ cell, cell.1.1 ≠ n) (tn_links Q)) (tn_world Q)).

(** ** Routes *)

(** [calloc] gives the route null links; nothing initialises them before [list_add]. *)
Definition msh_route_alloc : M table_nodes addr :=
  route ← on_rest MshRoute.msh_route_alloc;
  calloc_node (TN_route route);;
  mret route.

(** [free(route)] *)
Definition free_route (route : addr) : M table_nodes unit :=
  free_node (TN_route route);;
  on_rest (MshRoute.free_route route).

Definition __routing_table_route_updated_cb (route : addr) (change_flag : Z) : M table_nodes unit :=
  if has_flag change_flag RTACTION_DESTROY then
    on_links (list_del (TN_route route));;
    nlroute ← on_rest (msh_route_get_rtnl_route route);
    on_rest (msh_route_set_rtnl_route route None);;
    match nlroute with
    | None => mret tt
    | Some nl =>
        ret ← on_rest (ext env_rtnl_route_del);
        on_rest (emit (EvNl (Some nl) (NL_route_del ret)));;
        on_rest (emit (EvNl (Some nl) NL_route_put))
    end
  else if has_flag change_flag RTACTION_CHANGE_NEXTHOP_IP then
    nlroute ← on_rest (msh_route_get_rtnl_route route);
    match nlroute with
    | None => mret tt
    | Some nl =>
        dst_len ← on_rest (msh_route_get_prefix_sz route);
        next_hop_addr ← on_rest (msh_route_get_next_hop route);
        flags ← on_rest (msh_route_get_flags route);
        when (has_flag flags RTFLAG_HAS_NEXTHOP)
          (on_rest (emit (EvNl (Some nl) (NL_set_gateway (in_addr2nl_addr next_hop_addr dst_len)))))
    end
  else mret tt.

Definition __msh_route_updated (route : addr) (change_flag : Z) : M table_nodes unit :=
  r ← on_rest (read_route route);
  match rt_updated_cb r with
  | Some fn_routing_table_route_updated_cb => __routing_table_route_updated_cb route change_flag
  | None => mret tt
  end.

Definition msh_route_set_next_hop (route : addr) (next_hop : Z) : M table_nodes unit :=
  on_rest (msh_route_set_flag route RTFLAG_HAS_NEXTHOP);;
  on_rest (upd_route route (set_rt_next_hop next_hop));;
  __msh_route_updated route RTACTION_CHANGE_NEXTHOP_IP.

Definition msh_route_destroy (route : addr) : M table_nodes unit :=
  __msh_route_updated route RTACTION_DESTROY;;
  on_rest (del_alarm (AL_route route));;
  on_rest (upd_route route (set_rt_precursors []));;
  free_route route.

Definition __msh_route_alarm_cb (alarm : alarm_id) (qdata : addr) : M table_nodes unit :=
  r ← on_rest (read_route qdata);
  if rt_alarm_action r =? RTACTION_UNSET_VALID_ENTRY then
    on_rest (msh_route_unset_flag qdata RTFLAG_VALID_ENTRY);;
    on_rest (upd_route qdata (set_rt_alarm_action RTACTION_DESTROY));;
    let '(sc, usc) := set_alarm_time DELETE_PERIOD in
    on_rest (add_alarm alarm sc usc)
  else if rt_alarm_action r =? RTACTION_DESTROY then msh_route_destroy qdata
  else mret tt.

(** packets_fifo.c allocates a route to compare with and destroys it again. *)
Definition packets_fifo_process_route (route : addr) : M table_nodes unit :=
  first ← msh_route_alloc;
  queue ← on_rest (gets w_packets);
  on_rest (for_each queue (λ entry,
    msh_route_set_dst_ip first (pf_dest entry);;
    diff ← msh_route_compare first route RTFIND_BY_DEST_LONGEST_PREFIX_MATCHING;
    when (diff =? 0) (packet_obj_accept entry)));;
  msh_route_destroy first.

(** ** The table *)

Definition routing_table_alloc : M table_nodes unit :=
  calloc_node TN_table;;
  on_links (INIT_LIST_HEAD TN_table);;
  find_route ← msh_route_alloc;
  on_rest (modify (set_w_find_route find_route)).

(** [list_for_each_entry] with the test [msh_route_compare(route, entry, attr_flags) == 0] *)
Definition routing_table_find (route : addr) (attr_flags : Z) : M table_nodes (option addr) :=
  found ← list_find_entry TN_table (λ n,
    entry ← demand ListCorrupt (node_route n);
    diff ← on_rest (msh_route_compare route entry attr_flags);
    mret (diff =? 0));
  mret (found ≫= node_route).

Definition routing_table_find_by_ip (ip : Z) : M table_nodes (option addr) :=
  find_route ← on_rest (gets w_find_route);
  on_rest (msh_route_set_dst_ip find_route ip);;
  routing_table_find find_route RTFIND_BY_DEST_LONGEST_PREFIX_MATCHING.

Definition routing_table_add (route : addr) : M table_nodes Z :=
  found ← routing_table_find route RTFIND_BY_DEST_LONGEST_PREFIX_MATCHING;
  match found with
  | Some _ => mret 1
  | None =>
      nlroute ← on_rest (build_nlroute route);
      errno ← on_rest (ext env_rtnl_route_add);
      on_rest (emit (EvNl (Some nlroute) (NL_route_add errno)));;
      if (errno <? 0) && negb (errno =? -17) then mret (-1)
      else
        on_rest (msh_route_set_rtnl_route route (Some nlroute));;
        on_rest (msh_route_set_lifetime route ACTIVE_ROUTE_TIMEOUT);;
        on_rest (msh_route_set_updated_callback route fn_routing_table_route_updated_cb None);;
        on_links (list_add (TN_route route) TN_table);;
        packets_fifo_process_route route;;
        mret 0
  end.

Definition routing_table_del (route : addr) : M table_nodes Z :=
  found ← routing_table_find route 0;
  match found with
  | Some _ => mret 1
  | None => abort NullDeref
  end.

Definition routing_table_delete : M table_nodes unit :=
  list_for_each_entry_safe TN_table (λ n,
    entry ← demand ListCorrupt (node_route n);
    routing_table_del entry;;
    free_route entry);;
  find_route ← on_rest (gets w_find_route);
  msh_route_destroy find_route.

Definition refresh_route (route : addr) (ip : Z) : M table_nodes unit :=
  on_rest (msh_route_set_lifetime route ACTIVE_ROUTE_TIMEOUT);;
  hop ← on_rest (msh_route_get_next_hop route);
  when (negb (hop =? ip)) (
    hop_route ← routing_table_find_by_ip hop;
    match hop_route with
    | Some r => on_rest (msh_route_set_lifetime r ACTIVE_ROUTE_TIMEOUT)
    | None => mret tt
    end).

Definition refresh_orig (orig_ip : Z) : M table_nodes unit :=
  when (negb (orig_ip =? 0)) (
    orig_route ← routing_table_find_by_ip orig_ip;
    match orig_route with
    | Some r => refresh_route r orig_ip
    | None => mret tt
    end).

Definition routing_table_update_route (dst_ip : Z) (invalid_route : option addr)
    (orig_ip : Z) : M table_nodes (Z * option addr) :=
  our_ip ← on_rest (data md_ip_addr);
  if negb (dst_ip =? our_ip) then
    dst_route ← routing_table_find_by_ip dst_ip;
    match dst_route with
    | None => mret (0, invalid_route)
    | Some r =>
        flags ← on_rest (msh_route_get_flags r);
        if negb (has_flag flags RTFLAG_VALID_ENTRY) then
          on_rest (stat_incr Stat.invalid_route);;
          mret (0, invalid_route)
        else
          refresh_route r dst_ip;;
          refresh_orig orig_ip;;
          mret (1, invalid_route)
    end
  else
    refresh_orig orig_ip;;
    mret (1, invalid_route).

Definition routing_table_foreach (callback_func : addr → M table_nodes unit) : M table_nodes unit :=
  list_for_each_entry TN_table (λ n, entry ← demand ListCorrupt (node_route n); callback_func entry).
End table_list.
