(* ===== verification/PrecursorList.v ===== *)
(** * The precursor lists of msh_route.c on their nodes

    [RouteObj] and [MshRoute] describe the precursors of a route by a sequence of addresses.
    Here the functions of msh_route.c that work on the list do so on the memory of its nodes:
    the head in the route and the entries on the heap.  [PrecursorListSpec] shows that the
    two agree. *)

From S2P Require Export MshRoute LinuxList.

(** The nodes: [route->precursors_list.list], and [entry->list] of the entry [n]. *)
Inductive precursor_node := PN_route (route : addr) | PN_entry (n : positive).

#[export] Instance precursor_node_eq_dec : EqDecision precursor_node.
Proof. solve_decision. Defined.
#[export] Instance precursor_node_countable : Countable precursor_node.
Proof.
  refine (inj_countable' (λ n, match n with PN_route a => inl a | PN_entry e => inr e end)
    (λ s, match s with inl a => PN_route a | inr e => PN_entry e end) _).
  by intros [].
Defined.

(** [list_entry]: the entry around a node. *)
Definition precursor_at (n : precursor_node) : option positive :=
  match n with PN_route _ => None | PN_entry e => Some e end.

(** The links of the nodes, the [dst_ip] of the entries, the bound below which the entries
    are, and the rest of the program; the precursors in its routes are not used. *)
Record precursor_nodes := PrecursorNodes {
  pc_links : list_memory precursor_node;
  pc_dst : gmap positive Z;
  pc_brk : positive;
  pc_world : world }.

#[export] Instance precursor_list_host : ListHost precursor_node precursor_nodes := {
  host_links := pc_links;
  host_set_links l Q := PrecursorNodes l (pc_dst Q) (pc_brk Q) (pc_world Q) }.
#[export] Instance precursor_list_laws : ListHostLaws precursor_node precursor_nodes.
Proof. split; [done|by intros []]. Qed.

Section precursor_list.
Context `{E : Env}.

(** What happens in the rest of the program. *)
Definition on_object {X} (m : M world X) : M precursor_nodes X := λ Q,
  match m (pc_world Q) with
  | Ok x w => Ok x (PrecursorNodes (pc_links Q) (pc_dst Q) (pc_brk Q) w)
  | Fault f => Fault f
  end.

(** The links that come with [calloc], and go with [free]. *)
Definition blank_links (n : precursor_node) (l : list_memory precursor_node) : list_memory precursor_node :=
  <[(n, m_next) := NULL]> (<[(n, m_prev) := NULL]> l).
Definition links_without (n : precursor_node) (l : list_memory precursor_node) : list_memory precursor_node :=
  filter (λ cell, cell.1.1 ≠ n) l.

(** [calloc(1, sizeof(struct precursor_t))], an access to [entry->dst_ip], and [free(entry)] *)
Definition calloc_precursor : M precursor_nodes positive := λ Q,
  let e := pc_brk Q in
  Ok e (PrecursorNodes (blank_links (PN_entry e) (pc_links Q)) (<[e := 0]> (pc_dst Q)) (Pos.succ e) (pc_world Q)).
Definition read_precursor (e : positive) : M precursor_nodes Z := λ Q,
  demand UseAfterFree (pc_dst Q !! e) Q.
Definition write_precursor (e : positive) (dst_ip : Z) : M precursor_nodes unit :=
  read_precursor e;;
  modify (λ Q, PrecursorNodes (pc_links Q) (<[e := dst_ip]> (pc_dst Q)) (pc_brk Q) (pc_world Q)).
Definition free_precursor (e : positive) : M precursor_nodes unit :=
  read_precursor e;;
  modify (λ Q, PrecursorNodes (links_without (PN_entry e) (pc_links Q)) (delete e (pc_dst Q)) (pc_brk Q) (pc_world Q)).

Definition msh_route_alloc : M precursor_nodes addr :=
  route ← on_object MshRoute.msh_route_alloc;
  modify (λ Q, PrecursorNodes (blank_links (PN_route route) (pc_links Q)) (pc_dst Q) (pc_brk Q) (pc_world Q));;
  on_links (INIT_LIST_HEAD (PN_route route));;
  mret route.

(** [free(route)]: the head of the list goes with the route. *)
Definition free_route (route : addr) : M precursor_nodes unit :=
  on_links (get (PN_route route) m_next);;
  modify (λ Q, PrecursorNodes (links_without (PN_route route) (pc_links Q)) (pc_dst Q) (pc_brk Q) (pc_world Q));;
  on_object (MshRoute.free_route route).

Definition msh_route_destroy (route : addr) : M precursor_nodes unit :=
  on_object (__msh_route_updated route RTACTION_DESTROY);;
  on_object (del_alarm (AL_route route));;
  list_for_each_entry_safe (PN_route route) (λ n,
    entry ← demand ListCorrupt (precursor_at n);
    on_links (list_del n);;
    free_precursor entry);;
  free_route route.

(** [list_for_each_entry] with the test [entry->dst_ip.s_addr == dst_ip.s_addr] *)
Definition find_precursor (route : addr) (dst_ip : Z) : M precursor_nodes (option precursor_node) :=
  list_find_entry (PN_route route) (λ n,
    entry ← demand ListCorrupt (precursor_at n);
    ip ← read_precursor entry;
    mret (ip =? dst_ip)).

Definition msh_route_add_precursor (route : addr) (dst_ip : Z) : M precursor_nodes unit :=
  found ← find_precursor route dst_ip;
  match found with
  | Some _ => mret tt
  | None =>
      entry ← calloc_precursor;
      write_precursor entry dst_ip;;
      on_links (list_add (PN_entry entry) (PN_route route))
  end.

Definition msh_route_del_precursor (route : addr) (dst_ip : Z) : M precursor_nodes unit :=
  found ← find_precursor route dst_ip;
  match found with
  | Some n =>
      entry ← demand ListCorrupt (precursor_at n);
      on_links (list_del n);;
      free_precursor entry
  | None => mret tt
  end.

Definition msh_route_foreach_precursor (route : addr)
    (callback_func : addr → Z → M precursor_nodes unit) : M precursor_nodes unit :=
  list_for_each_entry (PN_route route) (λ n,
    entry ← demand ListCorrupt (precursor_at n);
    ip ← read_precursor entry;
    callback_func route ip).
End precursor_list.
