(* ===== verification/LinuxListSpec.v ===== *)
(** * The lists of linux_list.h as sequences

    A list in memory is a chain of links: a link of [x] to [y] owns [x->next] and
    [y->prev].  With one cell per member no two of these are the same cell, so that the
    empty list, the ends of a list and its middle need no separate treatment.  A hash list is
    a chain of cells: the cell of the head or of a node's [next] holds the next node, and
    that node's [pprev] holds the address of the cell. *)

From S2P Require Export SepLogic LinuxList.

Section lists.
Context {A : Type} `{Countable A}.
Implicit Types (x y h e new p n : A) (l : list A) (v w : pointer A).

#[export] Instance list_model : HeapModel (list_memory A) (A * member) (pointer A) := λ s, s.
Notation lprop := (hpropI (A * member) (pointer A)).

Definition mem_at x (m : member) (v : pointer A) : lprop := cell (x, m) v.

(** ** Members *)

Lemma hwp_get x (m : member) v (Q : pointer A → lprop) :
  mem_at x m v ∗ (mem_at x m v -∗ Q v) ⊢ hwp (get x m) Q.
Proof. apply hwp_read. intros s Hs. by rewrite /get Hs. Qed.

Lemma hwp_put x (m : member) v w (Q : unit → lprop) :
  mem_at x m v ∗ (mem_at x m w -∗ Q tt) ⊢ hwp (put x m w) Q.
Proof.
  apply hwp_write. intros s [u Hu]. unfold put, get, mbind, M_bind.
  unfold flat, list_model in Hu. rewrite Hu. by eexists.
Qed.

Lemma hwp_get_node x (m : member) y (Q : A → lprop) :
  mem_at x m (At y) ∗ (mem_at x m (At y) -∗ Q y) ⊢ hwp (get_node x m) Q.
Proof.
  iIntros "[Hx HQ]". iApply hwp_bind. iApply hwp_get. iFrame "Hx". iIntros "Hx".
  iApply hwp_ret. by iApply "HQ".
Qed.

(** The first node, or [y]. *)
Definition first_of l y : A := match l with [] => y | a :: _ => a end.

(** ** Chains *)

Definition link x y : lprop := (mem_at x m_next (At y) ∗ mem_at y m_prev (At x))%I.

(** From [x] through [l] to [y]. *)
Fixpoint chain x l y : lprop :=
  match l with
  | [] => link x y
  | a :: l => link x a ∗ chain a l y
  end%I.

(** The circular list with the head [h]. *)
Definition dll h l : lprop := chain h l h.

(** A node in no list. *)
Definition unlisted x : lprop := (∃ v w, mem_at x m_next v ∗ mem_at x m_prev w)%I.

Lemma chain_app x l1 a l2 y : chain x (l1 ++ a :: l2) y ⊣⊢ chain x l1 a ∗ chain a l2 y.
Proof.
  revert x. induction l1 as [|b l1 IH]; intros x; simpl; [done|]. by rewrite IH assoc.
Qed.

(** The first link of a chain. *)
Lemma chain_head x l y : chain x l y ⊢
  mem_at x m_next (At (first_of l y)) ∗ (mem_at x m_next (At (first_of l y)) -∗ chain x l y).
Proof. destruct l as [|b l]; simpl; [iIntros "[$ $]"|iIntros "[[$ $] $]"]; by iIntros "$". Qed.

(** The last link of a chain. *)
Lemma chain_last x l y : chain x l y ⊢ ∃ p, link p y ∗ ∀ z, link p z -∗ chain x l z.
Proof.
  revert x. induction l as [|a l IH]; intros x; simpl.
  - iIntros "Hl". iExists x. iFrame. by iIntros (z) "$".
  - rewrite IH. iIntros "[$ (%p & Hp & HW)]". iExists p. iFrame.
Qed.

(** The two links of a node, and the chain without it. *)
Lemma chain_unlink x l1 e l2 y : chain x (l1 ++ e :: l2) y ⊢
  ∃ p n, link p e ∗ link e n ∗ (link p n -∗ chain x (l1 ++ l2) y).
Proof.
  rewrite chain_app (chain_last x l1). iIntros "[(%p & Hp & HW) He]". iExists p.
  destruct l2 as [|b l2]; simpl.
  - iExists y. iFrame. rewrite app_nil_r. iApply "HW".
  - iDestruct "He" as "[He Hl]". iExists b. iFrame "Hp He". iIntros "Hp". rewrite chain_app. iFrame "Hl".
    by iApply "HW".
Qed.

(** ** Linking and unlinking *)

Tactic Notation "lget" constr(H) := iApply hwp_bind; iApply hwp_get; iFrame H; iIntros H.
Tactic Notation "lnode" constr(H) := iApply hwp_bind; iApply hwp_get_node; iFrame H; iIntros H.
Tactic Notation "lput" constr(H) := iApply hwp_bind; iApply hwp_put; iFrame H; iIntros H.
Tactic Notation "lput_last" constr(H) := iApply hwp_put; iFrame H; iIntros H.

Lemma init_list_head_spec h : unlisted h ⊢ hwp (INIT_LIST_HEAD h) (λ _, dll h []).
Proof. iIntros "(%v & %w & Hn & Hp)". lput "Hn". lput_last "Hp". iFrame. Qed.

Lemma list_add_between new p n :
  link p n ∗ unlisted new ⊢ hwp (__list_add new p n) (λ _, link p new ∗ link new n).
Proof.
  iIntros "[[Hn Hp] (%v & %w & Hn' & Hp')]". lput "Hp". lput "Hn'". lput "Hp'". lput_last "Hn". iFrame.
Qed.

Lemma list_add_rcu_between new p n :
  link p n ∗ unlisted new ⊢ hwp (__list_add_rcu new p n) (λ _, link p new ∗ link new n).
Proof.
  iIntros "[[Hn Hp] (%v & %w & Hn' & Hp')]". lput "Hn'". lput "Hp'". lput "Hp". lput_last "Hn". iFrame.
Qed.

(** Either way of adding a node, after the head and before it. *)
Section adding.
Context (add : A → A → A → M (list_memory A) unit)
  (Hadd : ∀ new p n, link p n ∗ unlisted new ⊢ hwp (add new p n) (λ _, link p new ∗ link new n)).

Lemma add_after_head new h l :
  dll h l ∗ unlisted new ⊢
    hwp (next ← get_node h m_next; add new h next) (λ _, dll h (new :: l)).
Proof.
  unfold dll. destruct l as [|b l]; simpl; iIntros "[H Hnew]".
  - iDestruct "H" as "[Hn Hp]". lnode "Hn". iApply Hadd. iFrame.
  - iDestruct "H" as "[[Hn Hp] Hl]". lnode "Hn". iApply hwp_wand. iSplitR "Hl".
    + iApply (Hadd new h b). iFrame.
    + iIntros (_) "[$ $]". iFrame.
Qed.

Lemma add_before_head new h l :
  dll h l ∗ unlisted new ⊢
    hwp (prev ← get_node h m_prev; add new prev h) (λ _, dll h (l ++ [new])).
Proof.
  unfold dll. rewrite (chain_last h l). iIntros "[(%p & [Hn Hp] & HW) Hnew]". lnode "Hp".
  iApply hwp_wand. iSplitR "HW"; [iApply (Hadd new p h); iFrame|].
  iIntros (_) "[Hp Hn]". rewrite chain_app. simpl. iFrame. by iApply "HW".
Qed.
End adding.

(** The list without a node, whose members still point to its neighbours. *)
Lemma unlink_entry_spec h l1 e l2 (Q : unit → lprop) :
  dll h (l1 ++ e :: l2) ∗
    (dll h (l1 ++ l2) -∗ ∀ p n, mem_at e m_next (At n) -∗ mem_at e m_prev (At p) -∗ Q tt)
  ⊢ hwp (unlink_entry e) Q.
Proof.
  unfold dll. rewrite chain_unlink. iIntros "[(%p & %n & [Hpn Hep] & [Hen Hnp] & HW) HQ]".
  lnode "Hep". lnode "Hen". lput "Hnp". lput_last "Hpn".
  iApply ("HQ" with "[HW Hpn Hnp] Hen Hep"). iApply "HW". iFrame.
Qed.

Lemma list_del_spec h l1 e l2 :
  dll h (l1 ++ e :: l2) ⊢ hwp (list_del e) (λ _, dll h (l1 ++ l2) ∗
    mem_at e m_next (Poison LIST_POISON1) ∗ mem_at e m_prev (Poison LIST_POISON2)).
Proof.
  iIntros "Hl". iApply hwp_bind. iApply unlink_entry_spec. iFrame "Hl". iIntros "Hl" (p n) "Hn Hp".
  lput "Hn". lput_last "Hp". iFrame.
Qed.

Lemma list_del_init_spec h l1 e l2 :
  dll h (l1 ++ e :: l2) ⊢ hwp (list_del_init e) (λ _, dll h (l1 ++ l2) ∗ dll e []).
Proof.
  iIntros "Hl". iApply hwp_bind. iApply unlink_entry_spec. iFrame "Hl". iIntros "Hl" (p n) "Hn Hp".
  lput "Hn". lput_last "Hp". iFrame.
Qed.

(** Postconditions under a frame. *)
Lemma hwp_frame {X} (m : M (list_memory A) X) (P R : lprop) (Q : X → lprop) :
  (P ⊢ hwp m Q) → P ∗ R ⊢ hwp m (λ u, R ∗ Q u).
Proof. iIntros (Hm) "[HP HR]". iApply hwp_wand. iSplitL "HP"; [by iApply Hm|]. iIntros (u) "$". done. Qed.

Lemma list_add_spec new h l : dll h l ∗ unlisted new ⊢ hwp (list_add new h) (λ _, dll h (new :: l)).
Proof. apply add_after_head, list_add_between. Qed.
Lemma list_add_tail_spec new h l :
  dll h l ∗ unlisted new ⊢ hwp (list_add_tail new h) (λ _, dll h (l ++ [new])).
Proof. apply add_before_head, list_add_between. Qed.
Lemma list_add_rcu_spec new h l : dll h l ∗ unlisted new ⊢ hwp (list_add_rcu new h) (λ _, dll h (new :: l)).
Proof. apply add_after_head, list_add_rcu_between. Qed.
Lemma list_add_tail_rcu_spec new h l :
  dll h l ∗ unlisted new ⊢ hwp (list_add_tail_rcu new h) (λ _, dll h (l ++ [new])).
Proof. apply add_before_head, list_add_rcu_between. Qed.

(** To another list. *)
Lemma list_move_spec h l1 e l2 h' (m : list A) :
  dll h (l1 ++ e :: l2) ∗ dll h' m ⊢ hwp (list_move e h') (λ _, dll h (l1 ++ l2) ∗ dll h' (e :: m)).
Proof.
  iIntros "[Hl Hm]". iApply hwp_bind. iApply unlink_entry_spec. iFrame "Hl". iIntros "Hl" (p n) "Hn Hp".
  iApply (hwp_frame with "[Hl Hm Hn Hp]"); [apply list_add_spec|]. iFrame.
Qed.
Lemma list_move_tail_spec h l1 e l2 h' (m : list A) :
  dll h (l1 ++ e :: l2) ∗ dll h' m ⊢
    hwp (list_move_tail e h') (λ _, dll h (l1 ++ l2) ∗ dll h' (m ++ [e])).
Proof.
  iIntros "[Hl Hm]". iApply hwp_bind. iApply unlink_entry_spec. iFrame "Hl". iIntros "Hl" (p n) "Hn Hp".
  iApply (hwp_frame with "[Hl Hm Hn Hp]"); [apply list_add_tail_spec|]. iFrame.
Qed.

(** ** Emptiness and joining *)

Lemma chain_next x l y a : a ∈ x :: l → chain x l y ⊢ ∃ v, mem_at a m_next v.
Proof.
  revert x. induction l as [|b l IH]; intros x; simpl.
  - intros ->%list_elem_of_singleton. iIntros "[Hx _]". by iExists _.
  - intros [->|Ha]%elem_of_cons; [iIntros "[[Hx _] _]"; by iExists _|].
    rewrite (IH b Ha). by iIntros "[_ $]".
Qed.

Lemma chain_NoDup x l y : chain x l y ⊢ ⌜NoDup (x :: l)⌝.
Proof.
  revert x. induction l as [|b l IH]; intros x; simpl.
  - iIntros "_". iPureIntro. apply NoDup_singleton.
  - iIntros "[[Hx _] Hl]". iDestruct (IH with "Hl") as %Hnd.
    destruct (decide (x ∈ b :: l)) as [Hx|Hx]; [|iPureIntro; by apply NoDup_cons].
    rewrite (chain_next _ _ _ _ Hx). iDestruct "Hl" as (v) "Hx'".
    iDestruct (cell_ne with "[$Hx $Hx']") as %Hne. done.
Qed.

Lemma list_empty_spec h l (Q : bool → lprop) :
  dll h l ∗ (dll h l -∗ Q (bool_decide (l = []))) ⊢ hwp (list_empty h) Q.
Proof.
  iIntros "[Hl HQ]". unfold dll. iDestruct (chain_NoDup with "Hl") as %[Hh _]%NoDup_cons.
  destruct l as [|b l]; simpl.
  - iDestruct "Hl" as "[Hn Hp]". lget "Hn". iApply hwp_ret. rewrite bool_decide_true //.
    iApply "HQ". iFrame.
  - iDestruct "Hl" as "[[Hn Hp] Hl]". lget "Hn". iApply hwp_ret. rewrite bool_decide_false.
    + iApply "HQ". iFrame.
    + intros [= ->]. apply Hh. by left.
Qed.

Lemma list_empty_careful_spec h l (Q : bool → lprop) :
  dll h l ∗ (dll h l -∗ Q (bool_decide (l = []))) ⊢ hwp (list_empty_careful h) Q.
Proof.
  iIntros "[Hl HQ]". unfold dll. iDestruct (chain_NoDup with "Hl") as %[Hh _]%NoDup_cons.
  destruct l as [|b l]; simpl.
  - iDestruct "Hl" as "[Hn Hp]". lget "Hn". rewrite decide_True //. lget "Hp". iApply hwp_ret.
    rewrite bool_decide_true //. iApply "HQ". iFrame.
  - iDestruct "Hl" as "[[Hn Hp] Hl]". lget "Hn". rewrite decide_False; [|intros [= ->]; apply Hh; by left].
    iApply hwp_ret. iApply "HQ". iFrame.
Qed.

(** The nodes of [list] in front of those of [head]; the emptied head dangles. *)
Lemma splice_nodes L H' b l m :
  dll L (b :: l) ∗ dll H' m ⊢
    hwp (__list_splice L H') (λ _, dll H' (b :: l ++ m) ∗ unlisted L).
Proof.
  unfold dll. simpl. rewrite (chain_last b l L).
  iIntros "[[[HLn HbL] (%p & [HpL HLp] & HW)] Hm]".
  lnode "HLn". lnode "HLp". destruct m as [|c m]; simpl.
  - iDestruct "Hm" as "[Hn Hp]". lnode "Hn". lput "HbL". lput "Hn". lput "HpL". lput_last "Hp".
    rewrite app_nil_r. iFrame. iApply "HW". iFrame.
  - iDestruct "Hm" as "[[Hn Hp] Hm]". lnode "Hn". lput "HbL". lput "Hn". lput "HpL". lput_last "Hp".
    rewrite chain_app. iFrame. iApply "HW". iFrame.
Qed.

Lemma list_splice_init_spec L H' l m :
  dll L l ∗ dll H' m ⊢ hwp (list_splice_init L H') (λ _, dll H' (l ++ m) ∗ dll L []).
Proof.
  iIntros "[Hl Hm]". iApply hwp_bind. iApply list_empty_spec. iFrame "Hl". iIntros "Hl".
  destruct l as [|b l].
  - iApply hwp_ret. iFrame.
  - iApply hwp_bind. iApply hwp_wand. iSplitL; [iApply splice_nodes; iFrame|].
    iIntros (_) "[Hm HL]". iApply (hwp_frame with "[Hm HL]"); [apply (init_list_head_spec L)|]. iFrame.
Qed.

Lemma list_splice_spec L H' l m :
  dll L l ∗ dll H' m ⊢ hwp (list_splice L H') (λ _, dll H' (l ++ m) ∗ unlisted L).
Proof.
  iIntros "[Hl Hm]". iApply hwp_bind. iApply list_empty_spec. iFrame "Hl". iIntros "Hl".
  destruct l as [|b l].
  - iApply hwp_ret. iFrame.
  - iApply splice_nodes. iFrame.
Qed.

(** ** Loops *)

Lemma chain_size x l y (s : list_memory A) (hp hf : gmap (A * member) (pointer A)) :
  flat s = hp ∪ hf → chain x l y hp → (length l < size s)%nat.
Proof.
  intros Hs Hc. pose proof (hprop_in _ _ (chain_NoDup x l y) hp Hc) as Hnd.
  assert (list_to_set ((λ a, (a, m_next)) <$> x :: l) ⊆ dom s) as Hsub.
  { intros k (a & -> & Ha)%elem_of_list_to_set%list_elem_of_fmap.
    destruct (hprop_in _ _ (chain_next x l y a Ha) hp Hc) as [v Hv].
    apply (elem_of_dom (M := gmap (A * member))). exists v. change s with (flat s). by eapply owned_lookup. }
  apply subseteq_size in Hsub. rewrite size_list_to_set in Hsub; [|exact (NoDup_fmap_2 (λ a, (a, m_next)) _ Hnd)].
  rewrite size_dom length_fmap /= in Hsub. exact Hsub.
Qed.

Lemma hwp_rounds h l (Q : nat → lprop) :
  dll h l ∗ (∀ fuel, ⌜(length l < fuel)%nat⌝ -∗ dll h l -∗ Q fuel) ⊢ hwp list_rounds Q.
Proof.
  apply hwp_gets. intros s hp hf Hs HP.
  assert (length l < S (size s))%nat as Hlen.
  { destruct HP as (h1 & h2 & -> & Hd & Hl & _). rewrite -map_union_assoc in Hs.
    pose proof (chain_size _ _ _ _ _ _ Hs Hl). lia. }
  assert (dll h l ∗ (∀ fuel, ⌜(length l < fuel)%nat⌝ -∗ dll h l -∗ Q fuel) ⊢ Q (S (size s))) as He.
  { iIntros "[Hl HQ]". by iApply ("HQ" with "[//] Hl"). }
  exact (hprop_in _ _ He hp HP).
Qed.

(** A loop whose body leaves the list alone: [I] follows the nodes seen. *)
Lemma each_from_spec h (I : list A → lprop) (body : A → M (list_memory A) unit) :
  (∀ l1 x l2, dll h (l1 ++ x :: l2) ∗ I l1 ⊢
    hwp (body x) (λ _, dll h (l1 ++ x :: l2) ∗ I (l1 ++ [x]))) →
  ∀ l2 l1 fuel, (length l2 < fuel)%nat →
    dll h (l1 ++ l2) ∗ I l1 ⊢
      hwp (each_from m_next fuel (first_of l2 h) h body) (λ _, dll h (l1 ++ l2) ∗ I (l1 ++ l2)).
Proof.
  intros Hbody l2. induction l2 as [|x l2 IH]; intros l1 fuel Hfuel;
    (destruct fuel as [|fuel]; [simpl in Hfuel; lia|]); simpl; iIntros "[Hl HI]".
  - rewrite decide_True //. iApply hwp_ret. rewrite app_nil_r. iFrame.
  - iDestruct (chain_NoDup with "Hl") as %[Hh _]%NoDup_cons.
    rewrite decide_False; [|set_solver]. iApply hwp_bind. iApply hwp_wand. iSplitL.
    { iApply (Hbody l1 x l2). iFrame. }
    iIntros (_) "[Hl HI]". unfold dll. rewrite {1}chain_app (chain_head x). iDestruct "Hl" as "(Hl1 & Hx & HW)".
    lnode "Hx". specialize (IH (l1 ++ [x]) fuel). rewrite -!app_assoc /= in IH.
    iApply IH; [simpl in Hfuel; lia|]. iFrame "HI". unfold dll. rewrite chain_app. iFrame "Hl1". by iApply "HW".
Qed.

(** [list_for_each] and [list_for_each_entry] visit the nodes of the list in order. *)
Lemma list_for_each_spec h l (I : list A → lprop) (body : A → M (list_memory A) unit) :
  (∀ l1 x l2, dll h (l1 ++ x :: l2) ∗ I l1 ⊢
    hwp (body x) (λ _, dll h (l1 ++ x :: l2) ∗ I (l1 ++ [x]))) →
  dll h l ∗ I [] ⊢ hwp (list_for_each h body) (λ _, dll h l ∗ I l).
Proof.
  iIntros (Hbody) "[Hl HI]". iApply hwp_bind. iApply hwp_rounds. iFrame "Hl". iIntros (fuel Hfuel) "Hl".
  unfold dll at 1. rewrite chain_head. iDestruct "Hl" as "[Hh HW]". lnode "Hh".
  iApply (each_from_spec h I body Hbody l []); [done|]. iFrame "HI". by iApply "HW".
Qed.

(** A loop whose body may take the node it is called with off the list: [kept] are the
    nodes that stayed, [I] follows the nodes seen and those kept. *)
Lemma each_safe_spec h (I : list A → list A → lprop) (body : A → M (list_memory A) unit) :
  (∀ seen kept x l2, dll h (kept ++ x :: l2) ∗ I seen kept ⊢
    hwp (body x) (λ _, ∃ kept', dll h (kept' ++ l2) ∗ I (seen ++ [x]) kept')) →
  ∀ l2 seen kept fuel n, (length l2 < fuel)%nat →
    (∀ x rest, l2 = x :: rest → n = first_of rest h) →
    dll h (kept ++ l2) ∗ I seen kept ⊢
      hwp (each_safe fuel (first_of l2 h) n h body) (λ _, ∃ kept', dll h kept' ∗ I (seen ++ l2) kept').
Proof.
  intros Hbody l2. induction l2 as [|x l2 IH]; intros seen kept fuel n Hfuel Hn;
    (destruct fuel as [|fuel]; [simpl in Hfuel; lia|]); simpl; iIntros "[Hl HI]".
  - rewrite decide_True //. iApply hwp_ret. rewrite !app_nil_r. iExists kept. iFrame.
  - iDestruct (chain_NoDup with "Hl") as %[Hh _]%NoDup_cons.
    rewrite decide_False; [|set_solver]. iApply hwp_bind. iApply hwp_wand. iSplitL.
    { iApply (Hbody seen kept x l2). iFrame. }
    iIntros (_) "(%kept' & Hl & HI)". rewrite (Hn x l2 eq_refl).
    specialize (IH (seen ++ [x]) kept' fuel). rewrite -!app_assoc /= in IH. simpl in Hfuel.
    unfold dll. destruct l2 as [|y l2]; simpl.
    + rewrite {1}chain_head. iDestruct "Hl" as "[Hh HW]". lnode "Hh".
      iApply IH; [lia|done|]. iFrame "HI". by iApply "HW".
    + rewrite {1}chain_app {1}(chain_head y). iDestruct "Hl" as "(Hl1 & Hy & HW)". lnode "Hy".
      iApply IH; [simpl in *; lia|by intros ? ? [= -> ->]|]. iFrame "HI". unfold dll. rewrite chain_app.
      iFrame "Hl1". by iApply "HW".
Qed.

(** [list_for_each_safe] and [list_for_each_entry_safe] visit every node of the list they
    start on, in order, even when the body unlinks the node it is called with. *)
Lemma list_for_each_safe_spec h l (I : list A → list A → lprop) (body : A → M (list_memory A) unit) :
  (∀ seen kept x l2, dll h (kept ++ x :: l2) ∗ I seen kept ⊢
    hwp (body x) (λ _, ∃ kept', dll h (kept' ++ l2) ∗ I (seen ++ [x]) kept')) →
  dll h l ∗ I [] [] ⊢ hwp (list_for_each_safe h body) (λ _, ∃ kept, dll h kept ∗ I l kept).
Proof.
  iIntros (Hbody) "[Hl HI]". iApply hwp_bind. iApply hwp_rounds. iFrame "Hl". iIntros (fuel Hfuel) "Hl".
  unfold dll at 1. rewrite {1}chain_head. iDestruct "Hl" as "[Hh HW]". lnode "Hh".
  iDestruct ("HW" with "Hh") as "Hl". iApply hwp_bind.
  destruct l as [|x l]; simpl.
  - iDestruct "Hl" as "[Hh Hp]". iApply hwp_get_node. iFrame "Hh". iIntros "Hh".
    iApply (each_safe_spec h I body Hbody [] [] []); [done|done|]. iFrame.
  - iDestruct "Hl" as "[Hh Hl]". rewrite {1}chain_head. iDestruct "Hl" as "[Hx HW]".
    iApply hwp_get_node. iFrame "Hx". iIntros "Hx".
    iApply (each_safe_spec h I body Hbody (x :: l) [] []); [done|by intros ? ? [= -> ->]|].
    iFrame "HI". unfold dll. simpl. iFrame "Hh". by iApply "HW".
Qed.
End lists.

(** ** Hash lists *)

Section hlists.
Context {A : Type} `{Countable A}.
Implicit Types (a h n x : A) (l : list A) (c : A * member) (v w : pointer A).
Notation lprop := (hpropI (A * member) (pointer A)).

(** The first node of [l]. *)
Definition hptr l : pointer A := match l with [] => NULL | a :: _ => At a end.

(** The nodes of [l] behind the cell [c], without the cell. *)
Fixpoint hrest c l : lprop :=
  match l with
  | [] => emp
  | a :: l => mem_at a m_pprev (Slot c) ∗ mem_at a m_hnext (hptr l) ∗ hrest (a, m_hnext) l
  end%I.
Definition hchain c l : lprop := (cell c (hptr l) ∗ hrest c l)%I.
Definition hlist h l : lprop := hchain (h, m_first) l.

(** A node in no list. *)
Definition unhashed n : lprop := (∃ v w, mem_at n m_hnext v ∗ mem_at n m_pprev w)%I.

(** The cell that points to a node, and the chain around it. *)
Lemma hchain_at c l1 l2 : hchain c (l1 ++ l2) ⊢ ∃ c', hchain c' l2 ∗ ∀ l, hchain c' l -∗ hchain c (l1 ++ l).
Proof.
  revert c. induction l1 as [|a l1 IH]; intros c; simpl.
  - iIntros "Hl". iExists c. iFrame. by iIntros (l) "$".
  - unfold hchain at 1. simpl. iIntros "(Hc & Ha & Hn & Hr)".
    iDestruct (IH (a, m_hnext) with "[Hn Hr]") as (c') "[Hl HW]"; [by iFrame|].
    iExists c'. iFrame "Hl". iIntros (l) "Hl". iDestruct ("HW" with "Hl") as "[Hn Hr]".
    unfold hchain. simpl. iFrame.
Qed.

Lemma hwp_put_slot c v w (Q : unit → lprop) :
  cell c v ∗ (cell c w -∗ Q tt) ⊢ hwp (put_slot (Slot c) w) Q.
Proof. destruct c as [x m]. apply hwp_put. Qed.

(** The first node gets another cell. *)
Lemma hwp_set_pprev c c' l (Q : unit → lprop) :
  hrest c l ∗ (hrest c' l -∗ Q tt) ⊢ hwp (set_pprev (hptr l) (Slot c')) Q.
Proof.
  destruct l as [|a l]; simpl; iIntros "[Hl HQ]"; unfold set_pprev.
  - iApply hwp_ret. by iApply "HQ".
  - iDestruct "Hl" as "[Ha Hl]". iApply hwp_bind. iApply hwp_ret.
    iApply hwp_put. iFrame "Ha". iIntros "Ha". iApply "HQ". iFrame.
Qed.

Tactic Notation "hget" constr(H) := iApply hwp_bind; iApply hwp_get; iFrame H; iIntros H.
Tactic Notation "hput" constr(H) := iApply hwp_bind; iApply hwp_put; iFrame H; iIntros H.
Tactic Notation "hput_last" constr(H) := iApply hwp_put; iFrame H; iIntros H.

Lemma init_hlist_head_spec h v : mem_at h m_first v ⊢ hwp (INIT_HLIST_HEAD h) (λ _, hlist h []).
Proof. iIntros "Hh". hput_last "Hh". by iFrame. Qed.

Lemma hlist_empty_spec h l (Q : bool → lprop) :
  hlist h l ∗ (hlist h l -∗ Q (bool_decide (l = []))) ⊢ hwp (hlist_empty h) Q.
Proof.
  iIntros "[[Hh Hl] HQ]". hget "Hh". iApply hwp_ret.
  replace (bool_decide (hptr l = NULL)) with (bool_decide (l = [])) by (by destruct l).
  iApply "HQ". iFrame.
Qed.

Lemma hlist_add_head_spec n h l : hlist h l ∗ unhashed n ⊢ hwp (hlist_add_head n h) (λ _, hlist h (n :: l)).
Proof.
  iIntros "[[Hh Hl] (%v & %w & Hn & Hp)]". hget "Hh". hput "Hn".
  iApply hwp_bind. iApply hwp_set_pprev. iFrame "Hl". iIntros "Hl". hput "Hh". hput_last "Hp". iFrame.
Qed.

Lemma hlist_add_head_rcu_spec n h l :
  hlist h l ∗ unhashed n ⊢ hwp (hlist_add_head_rcu n h) (λ _, hlist h (n :: l)).
Proof.
  iIntros "[[Hh Hl] (%v & %w & Hn & Hp)]". hget "Hh". hput "Hn". hput "Hp".
  iApply hwp_bind. iApply hwp_set_pprev. iFrame "Hl". iIntros "Hl". hput_last "Hh". iFrame.
Qed.

(** [__hlist_del]: the node keeps its own pointers. *)
Lemma hlist_unlink_spec h l1 n l2 (Q : unit → lprop) :
  hlist h (l1 ++ n :: l2) ∗
    (hlist h (l1 ++ l2) -∗ ∀ v c, mem_at n m_hnext v -∗ mem_at n m_pprev (Slot c) -∗ Q tt)
  ⊢ hwp (__hlist_del n) Q.
Proof.
  unfold hlist. rewrite hchain_at. iIntros "[(%c & [Hc (Hp & Hn & Hl)] & HW) HQ]". simpl.
  hget "Hn". hget "Hp". iApply hwp_bind. iApply hwp_put_slot. iFrame "Hc". iIntros "Hc".
  iApply hwp_set_pprev. iFrame "Hl". iIntros "Hl". iApply ("HQ" with "[HW Hc Hl] Hn Hp").
  iApply "HW". iFrame.
Qed.

Lemma hlist_del_spec h l1 n l2 :
  hlist h (l1 ++ n :: l2) ⊢ hwp (hlist_del n) (λ _, hlist h (l1 ++ l2) ∗
    mem_at n m_hnext (Poison LIST_POISON1) ∗ mem_at n m_pprev (Poison LIST_POISON2)).
Proof.
  iIntros "Hl". iApply hwp_bind. iApply hlist_unlink_spec. iFrame "Hl". iIntros "Hl" (v c) "Hn Hp".
  hput "Hn". hput_last "Hp". iFrame.
Qed.

(** [hlist_del_init] takes the node out, and leaves it alone when it is in no list. *)
Lemma hlist_del_init_spec h l1 n l2 :
  hlist h (l1 ++ n :: l2) ⊢ hwp (hlist_del_init n) (λ _, hlist h (l1 ++ l2) ∗
    mem_at n m_hnext NULL ∗ mem_at n m_pprev NULL).
Proof.
  unfold hlist at 1. rewrite hchain_at. iIntros "(%c & [Hc (Hp & Hn & Hl)] & HW)".
  hget "Hp". rewrite bool_decide_false //=. iApply hwp_bind.
  iApply (hlist_unlink_spec h l1 n l2). iSplitL; [iApply "HW"; iFrame|].
  iIntros "Hl" (v c') "Hn Hp". hput "Hn". hput_last "Hp". iFrame.
Qed.

Lemma hlist_del_init_none n v :
  mem_at n m_hnext v ∗ mem_at n m_pprev NULL ⊢
    hwp (hlist_del_init n) (λ _, mem_at n m_hnext v ∗ mem_at n m_pprev NULL).
Proof. iIntros "[Hn Hp]". hget "Hp". rewrite bool_decide_true //=. iApply hwp_ret. iFrame. Qed.

Lemma hlist_add_before_spec h l1 n x l2 :
  hlist h (l1 ++ x :: l2) ∗ unhashed n ⊢ hwp (hlist_add_before n x) (λ _, hlist h (l1 ++ n :: x :: l2)).
Proof.
  unfold hlist. rewrite {1}hchain_at. iIntros "[(%c & [Hc (Hp & Hn & Hl)] & HW) (%v & %w & Hn' & Hp')]".
  hget "Hp". hput "Hp'". hput "Hn'". hput "Hp". hget "Hp'". iApply hwp_put_slot. iFrame "Hc". iIntros "Hc".
  iApply "HW". unfold hchain. simpl. iFrame.
Qed.

Lemma hlist_add_after_spec h l1 n x l2 :
  hlist h (l1 ++ n :: l2) ∗ unhashed x ⊢ hwp (hlist_add_after n x) (λ _, hlist h (l1 ++ n :: x :: l2)).
Proof.
  unfold hlist. rewrite {1}hchain_at. iIntros "[(%c & [Hc (Hp & Hn & Hl)] & HW) (%v & %w & Hn' & Hp')]".
  hget "Hn". hput "Hn'". hput "Hn". hput "Hp'". hget "Hn'".
  iApply hwp_set_pprev. iFrame "Hl". iIntros "Hl".
  iApply "HW". unfold hchain. simpl. iFrame.
Qed.
End hlists.
