(* ===== verification/ListState.v ===== *)
(** * Lists in memory, as states

    The lists of linux_list.h said without the logic of [LinuxListSpec]: when a memory
    holds a list, what adding and deleting a node makes of it, and the loops over it in a
    program that has the list in its state ([ListHost]). *)

From S2P Require Export LinuxListSpec.

Section state.
Context {A : Type} `{Countable A}.
Implicit Types (s : gmap (A * member) (pointer A)) (x y h e : A) (l : list A).
Notation lprop := (hpropI (A * member) (pointer A)).

(** The members along a chain from [x] through [l] to [y]. *)
Fixpoint linked s x l y : Prop :=
  match l with
  | [] => s !! (x, m_next) = Some (At y) ∧ s !! (y, m_prev) = Some (At x)
  | a :: l => s !! (x, m_next) = Some (At a) ∧ s !! (a, m_prev) = Some (At x) ∧ linked s a l y
  end.

(** The list of the head [h] has the nodes [l]. *)
Definition is_list s h l : Prop := linked s h l h ∧ NoDup (h :: l).

(** Both members of a node exist. *)
Definition allocated s x : Prop := is_Some (s !! (x, m_next)) ∧ is_Some (s !! (x, m_prev)).

(** The cells of a chain. *)
Definition chain_cells x l y : gset (A * member) :=
  list_to_set ((λ a, (a, m_next)) <$> x :: l) ∪ list_to_set ((λ a, (a, m_prev)) <$> l ++ [y]).

Lemma elem_of_chain_cells x l y k : k ∈ chain_cells x l y ↔
  (∃ a, k = (a, m_next) ∧ a ∈ x :: l) ∨ (∃ a, k = (a, m_prev) ∧ a ∈ l ++ [y]).
Proof.
  unfold chain_cells. rewrite elem_of_union !elem_of_list_to_set !list_elem_of_fmap. done.
Qed.

Lemma linked_chain s l : ∀ x y, linked s x l y → NoDup (x :: l) → NoDup (l ++ [y]) →
  ∃ hp : gmap (A * member) (pointer A), hp ⊆ s ∧ dom hp = chain_cells x l y ∧ chain x l y hp.
Proof.
  induction l as [|a l IH]; intros x y Hl Hnd Hnd'.
  - destruct Hl as [Hn Hp].
    exists ({[(x, m_next) := At y]} ∪ {[(y, m_prev) := At x]}). split_and!.
    + apply map_union_least; by apply map_singleton_subseteq_l.
    + rewrite dom_union_L !dom_singleton_L. apply set_eq. intros k. rewrite elem_of_chain_cells. set_solver.
    + eexists _, _. split_and!; [reflexivity| |apply lookup_singleton_eq..].
      by apply map_disjoint_singleton_r, lookup_singleton_ne.
  - destruct Hl as (Hn & Hp & Hl). apply NoDup_cons in Hnd as [Hx Hnd]. simpl in Hnd'.
    apply NoDup_cons in Hnd' as [Ha Hnd'].
    destruct (IH a y Hl Hnd Hnd') as (hp & Hle & Hdom & Hc).
    assert ({[(x, m_next) := At a]} ∪ {[(a, m_prev) := At x]} ##ₘ hp) as Hd.
    { apply map_disjoint_dom. rewrite dom_union !dom_singleton Hdom. intros k.
      rewrite elem_of_chain_cells elem_of_union !elem_of_singleton. naive_solver. }
    eexists (_ ∪ hp). split_and!; [| |eexists _, _; split_and!; [reflexivity|exact Hd| |exact Hc]].
    + apply map_union_least; [|done]. apply map_union_least; by apply map_singleton_subseteq_l.
    + rewrite !dom_union_L !dom_singleton_L Hdom. apply set_eq. intros k.
      rewrite !elem_of_chain_cells elem_of_union elem_of_chain_cells. set_solver.
    + eexists _, _. split_and!; [reflexivity| |apply lookup_singleton_eq..].
      by apply map_disjoint_singleton_r, lookup_singleton_ne.
Qed.

Lemma chain_linked l : ∀ s x y (hp : gmap (A * member) (pointer A)),
  chain x l y hp → hp ⊆ s → linked s x l y.
Proof.
  induction l as [|a l IH]; intros s x y hp Hc Hle.
  - destruct Hc as (h1 & h2 & -> & Hd & Hn & Hp). split; eapply lookup_weaken; [|exact Hle| |exact Hle].
    + by apply lookup_union_Some_l.
    + by apply lookup_union_Some_r.
  - destruct Hc as (h0 & h3 & -> & Hd0 & (h1 & h2 & -> & Hd & Hn & Hp) & Hc). split_and!.
    + eapply lookup_weaken; [|exact Hle]. apply lookup_union_Some_l. by apply lookup_union_Some_l.
    + eapply lookup_weaken; [|exact Hle]. apply lookup_union_Some_l. by apply lookup_union_Some_r.
    + eapply IH; [exact Hc|]. etrans; [|exact Hle]. by apply map_union_subseteq_r.
Qed.

Lemma dll_is_list s h l (hp : gmap (A * member) (pointer A)) : dll h l hp → hp ⊆ s → is_list s h l.
Proof.
  intros Hl Hle. split; [by eapply chain_linked|].
  exact (hprop_in _ _ (chain_NoDup h l h) hp Hl).
Qed.

(** ** Runs *)

Definition outside_of l s s' : Prop := ∀ x m, x ∉ l → s' !! (x, m) = s !! (x, m).

Lemma wp_list {X} (m : M (list_memory A) X) s h l (Q : X → lprop) :
  is_list s h l → (dll h l ⊢ hwp m Q) →
  wp m (λ v s', (∃ hp, Q v hp ∧ hp ⊆ s') ∧ outside_of (h :: l) s s') s.
Proof.
  intros [Hl Hnd] Hm. pose proof Hnd as [Hh Hnd']%NoDup_cons.
  destruct (linked_chain s l h h Hl Hnd) as (hp & Hle & Hdom & Hc).
  { apply NoDup_app. split_and!; [done|set_solver|apply NoDup_singleton]. }
  eapply wp_mono; [by apply (hwp_adequate m _ Q s hp Hm)|].
  intros v s' (hp' & HQ & Hle' & _ & Hsame). split; [by exists hp'|]. intros x mm Hx.
  apply Hsame. rewrite Hdom elem_of_chain_cells. set_solver.
Qed.

Lemma wp_list_new {X} (m : M (list_memory A) X) s h l e (Q : X → lprop) :
  is_list s h l → allocated s e → e ∉ h :: l → (dll h l ∗ unlisted e ⊢ hwp m Q) →
  wp m (λ v s', (∃ hp, Q v hp ∧ hp ⊆ s') ∧ outside_of (e :: h :: l) s s') s.
Proof.
  intros [Hl Hnd] [[v Hv] [w Hw]] He Hm. pose proof Hnd as [Hh Hnd']%NoDup_cons.
  destruct (linked_chain s l h h Hl Hnd) as (hp & Hle & Hdom & Hc).
  { apply NoDup_app. split_and!; [done|set_solver|apply NoDup_singleton]. }
  set (he := {[(e, m_next) := v]} ∪ {[(e, m_prev) := w]} : gmap (A * member) (pointer A)).
  assert (hp ##ₘ he) as Hd.
  { apply map_disjoint_dom. unfold he. rewrite Hdom dom_union !dom_singleton. intros k.
    rewrite elem_of_chain_cells elem_of_union !elem_of_singleton. set_solver. }
  assert (hp ∪ he ⊆ s) as Hle2.
  { apply map_union_least; [done|]. apply map_union_least; by apply map_singleton_subseteq_l. }
  eapply wp_mono; [apply (hwp_adequate m _ Q s (hp ∪ he) Hm); [|exact Hle2]|].
  - exists hp, he. split_and!; [done..|]. exists v, w, {[(e, m_next) := v]}, {[(e, m_prev) := w]}.
    split_and!; [done| |apply lookup_singleton_eq..]. by apply map_disjoint_singleton_r, lookup_singleton_ne.
  - intros u s' (hp' & HQ & Hle' & _ & Hsame). split; [by exists hp'|]. intros x mm Hx.
    apply Hsame. unfold he. rewrite !dom_union_L Hdom !dom_singleton_L elem_of_union elem_of_chain_cells. set_solver.
Qed.
(** ** Adding and deleting *)

Lemma list_add_state s h l new : is_list s h l → allocated s new → new ∉ h :: l →
  wp (list_add new h) (λ _ s', is_list s' h (new :: l) ∧ outside_of (new :: h :: l) s s') s.
Proof.
  intros Hl Hall Hnew.
  eapply wp_mono; [by eapply (wp_list_new _ _ _ _ _ _ Hl Hall Hnew), list_add_spec|].
  intros _ s' [(hp & HQ & Hle) Hsame]. split; [by eapply dll_is_list|done].
Qed.

Lemma list_add_tail_state s h l new : is_list s h l → allocated s new → new ∉ h :: l →
  wp (list_add_tail new h) (λ _ s', is_list s' h (l ++ [new]) ∧ outside_of (new :: h :: l) s s') s.
Proof.
  intros Hl Hall Hnew.
  eapply wp_mono; [by eapply (wp_list_new _ _ _ _ _ _ Hl Hall Hnew), list_add_tail_spec|].
  intros _ s' [(hp & HQ & Hle) Hsame]. split; [by eapply dll_is_list|done].
Qed.

Lemma list_del_state s h l e : is_list s h l → e ∈ l →
  wp (list_del e) (λ _ s', is_list s' h (unlink e l) ∧
    s' !! (e, m_next) = Some (Poison LIST_POISON1) ∧ s' !! (e, m_prev) = Some (Poison LIST_POISON2) ∧
    outside_of (h :: l) s s') s.
Proof.
  intros Hl (l1 & l2 & ->)%list_elem_of_split. pose proof Hl as [_ [_ Hnd]%NoDup_cons].
  rewrite unlink_split //.
  eapply wp_mono; [by eapply (wp_list _ _ _ _ _ Hl), list_del_spec|].
  intros _ s' [(hp & (h1 & h2 & -> & Hd & HQ & (h3 & h4 & -> & Hd' & Hn & Hp)) & Hle) Hsame].
  assert (h3 ∪ h4 ⊆ s') as Hle2 by (etrans; [by apply map_union_subseteq_r|exact Hle]).
  split_and!; [| | |done].
  - eapply dll_is_list; [exact HQ|]. etrans; [apply map_union_subseteq_l|exact Hle].
  - eapply lookup_weaken; [|exact Hle2]. by apply lookup_union_Some_l.
  - eapply lookup_weaken; [|exact Hle2]. by apply lookup_union_Some_r.
Qed.

Lemma list_empty_state s h l : is_list s h l →
  wp (list_empty h) (λ r s', r = bool_decide (l = []) ∧ s' = s) s.
Proof.
  intros [Hl Hnd].
  assert (s !! (h, m_next) = Some (At (first_of l h))) as Hn by (destruct l; apply Hl).
  unfold list_empty. apply wp_bind. unfold wp at 1, get. rewrite Hn. split; [|done].
  apply bool_decide_ext. destruct l as [|a l]; [done|]. apply NoDup_cons in Hnd as [Hh _].
  split; [|done]. intros [= ->]. set_solver.
Qed.
(** ** Reading *)

Lemma is_list_head s h l : is_list s h l → s !! (h, m_next) = Some (At (first_of l h)).
Proof. intros [Hl _]. destruct l; apply Hl. Qed.

Lemma linked_next s l1 : ∀ a x l2 y, linked s a (l1 ++ x :: l2) y → s !! (x, m_next) = Some (At (first_of l2 y)).
Proof.
  induction l1 as [|b l1 IH]; intros a x l2 y; simpl.
  - intros (_ & _ & Hl). destruct l2; apply Hl.
  - intros (_ & _ & Hl). by eapply IH.
Qed.
Lemma is_list_next s h l1 x l2 : is_list s h (l1 ++ x :: l2) → s !! (x, m_next) = Some (At (first_of l2 h)).
Proof. intros [Hl _]. by eapply linked_next. Qed.

Lemma linked_ext s s' l : ∀ x y, (∀ a m, a ∈ x :: l ++ [y] → s' !! (a, m) = s !! (a, m)) →
  linked s x l y → linked s' x l y.
Proof.
  induction l as [|a l IH]; intros x y Hs; simpl.
  - rewrite (Hs x m_next) ?(Hs y m_prev) //; set_solver.
  - rewrite (Hs x m_next) ?(Hs a m_prev); [|set_solver..]. intros (? & ? & ?). split_and!; [done..|].
    apply IH; [|done]. set_solver.
Qed.
Lemma is_list_ext s s' h l : (∀ a m, a ∈ h :: l → s' !! (a, m) = s !! (a, m)) → is_list s h l → is_list s' h l.
Proof. intros Hs [Hl Hnd]. split; [|done]. eapply linked_ext; [|done]. set_solver. Qed.

Lemma linked_allocated s l : ∀ x y, linked s x l y →
  (∀ a, a ∈ x :: l → is_Some (s !! (a, m_next))) ∧ ∀ a, a ∈ l ++ [y] → is_Some (s !! (a, m_prev)).
Proof.
  induction l as [|b l IH]; intros x y; simpl.
  - intros [Hn Hp]. split; intros a ->%list_elem_of_singleton; by eexists.
  - intros (Hn & Hp & [Hns Hps]%IH). split; intros a [->|Ha]%elem_of_cons; by [eexists|auto].
Qed.
(** The nodes of a list are in memory. *)
Lemma is_list_allocated s h l x : is_list s h l → x ∈ h :: l → allocated s x.
Proof. intros [[Hn Hp]%linked_allocated _] Hx. split; [by apply Hn|apply Hp]. set_solver. Qed.

(** A list has fewer nodes than the memory has cells. *)
Lemma is_list_size s h l : is_list s h l → (length l < size s)%nat.
Proof.
  intros [Hl Hnd].
  assert (list_to_set ((λ a, (a, m_next)) <$> h :: l) ⊆@{gset (A * member)} dom s) as Hsub.
  { intros k. rewrite elem_of_list_to_set list_elem_of_fmap elem_of_dom. intros (a & -> & Ha). by eapply linked_allocated. }
  apply subseteq_size in Hsub. rewrite size_dom size_list_to_set in Hsub.
  - rewrite length_fmap in Hsub. simpl in Hsub. lia.
  - apply NoDup_fmap_2; [|done]. by intros ?? [=].
Qed.
Lemma fmap_unlink {B} `{EqDecision B} (f : B → A) `{!Inj (=) (=) f} (b : B) (bs : list B) :
  f <$> unlink b bs = unlink (f b) (f <$> bs).
Proof.
  unfold unlink. induction bs as [|y bs IH]; [done|]. rewrite fmap_cons !filter_cons.
  destruct (decide (y ≠ b)) as [Hy|Hy].
  - rewrite decide_True; [by rewrite fmap_cons IH|]. by intros ?%(inj f).
  - apply dec_stable in Hy as ->. rewrite decide_False; [done|]. by intros Hn; apply Hn.
Qed.

(** There is a memory with the links of the nodes [N] and a list of some of them. *)
Definition has_nodes s (N : gset A) : Prop :=
  ∀ x m, m = m_next ∨ m = m_prev → is_Some (s !! (x, m)) ↔ x ∈ N.

Lemma loops_exist (N : gset A) :
  ∃ s, has_nodes s N ∧ (∀ x m, is_Some (s !! (x, m)) → x ∈ N) ∧
    ∀ x m, x ∈ N → m = m_next ∨ m = m_prev → s !! (x, m) = Some (At x).
Proof.
  induction N as [|y N Hy (s & Hn & Ho & Hs)] using set_ind_L.
  - exists ∅. split_and!; [|by intros x m; rewrite lookup_empty; intros []|set_solver].
    intros x m _. rewrite lookup_empty. split; [by intros []|set_solver].
  - exists (<[(y, m_next) := At y]> (<[(y, m_prev) := At y]> s)).
    assert (∀ x m, m = m_next ∨ m = m_prev → <[(y, m_next) := At y]> (<[(y, m_prev) := At y]> s) !! (x, m) =
      if decide (x = y) then Some (At y) else s !! (x, m)) as Hlk.
    { intros x m Hm. case_decide as Hx; [|by rewrite !lookup_insert_ne //; congruence].
      subst x. destruct Hm as [-> | ->]; [by rewrite lookup_insert_eq|by rewrite lookup_insert_ne // lookup_insert_eq]. }
    split_and!.
    + intros x m Hm. rewrite Hlk // elem_of_union elem_of_singleton. case_decide; [|rewrite Hn //; tauto].
      split; [by left|by eexists].
    + intros x m. rewrite !lookup_insert_is_Some elem_of_union elem_of_singleton.
      intros [[= <- _]|[_ [[= <- _]|[_ Hx%Ho]]]]; auto.
    + intros x m Hx Hm. rewrite Hlk //. case_decide; [by subst|]. apply Hs; [set_solver|done].
Qed.

Lemma list_exists h l (N : gset A) : NoDup (h :: l) → (∀ x, x ∈ h :: l → x ∈ N) →
  ∃ s, is_list s h l ∧ has_nodes s N.
Proof.
  induction l as [|a l IH]; intros Hnd Hl.
  - destruct (loops_exist N) as (s & Hn & _ & Hs). exists s. split; [|done].
    split; [|done]. by split; apply Hs; auto; apply Hl; left.
  - destruct IH as (s & Hs & Hn); [|set_solver|].
    { rewrite !NoDup_cons in Hnd |- *. set_solver. }
    assert (allocated s a) as Hall by (split; (apply Hn; [by auto|apply Hl; set_solver])).
    assert (a ∉ h :: l) as Ha by (rewrite !NoDup_cons in Hnd; set_solver).
    pose proof (list_add_state s h l a Hs Hall Ha) as ([] & s' & _ & Hs' & Hout)%wp_run.
    exists s'. split; [done|]. intros x m Hm. destruct (decide (x ∈ a :: h :: l)) as [Hx|Hx].
    + assert (allocated s' x) as [? ?] by (apply (is_list_allocated _ _ _ _ Hs'); set_solver).
      split; [intros _; apply Hl; set_solver|by destruct Hm as [-> | ->]].
    + rewrite Hout //. by apply Hn.
Qed.

(** The links without those of a freed node. *)
Lemma freed_links (l : gmap (A * member) (pointer A)) a x m :
  filter (λ cell, cell.1.1 ≠ a) l !! (x, m) = if decide (x = a) then None else l !! (x, m).
Proof.
  destruct (decide (x = a)) as [->|Hx].
  - apply map_lookup_filter_None. right. intros v _ Hv. by apply Hv.
  - destruct (l !! (x, m)) as [v|] eqn:Hl.
    + by apply map_lookup_filter_Some.
    + apply map_lookup_filter_None. by left.
Qed.

End state.

(** ** Loops of a program *)

Section loops.
Context {A St : Type} `{HA : Countable A} {Host : ListHost A St} {Laws : ListHostLaws A St}.
Implicit Types (s : St) (h x : A) (l kept rest : list A).

Lemma wp_on_links {X} (m : M (list_memory A) X) (Q : X → St → Prop) s :
  wp m (λ v ls, Q v (host_set_links ls s)) (host_links s) → wp (on_links m) Q s.
Proof. unfold wp, on_links. by destruct (m _). Qed.

Lemma wp_on_links_next x y (Q : A → St → Prop) s :
  host_links s !! (x, m_next) = Some (At y) → Q y s → wp (on_links (get_node x m_next)) Q s.
Proof.
  intros Hx HQ. apply wp_on_links, wp_bind. unfold wp at 1, get. rewrite Hx. simpl.
  unfold wp. simpl. by rewrite links_set_get.
Qed.

Lemma wp_on_links_rounds (Q : nat → St → Prop) s :
  Q (S (size (host_links s))) s → wp (on_links list_rounds) Q s.
Proof. intros HQ. apply wp_on_links, wp_gets. by rewrite links_set_get. Qed.

(** A chain of [next] pointers from the first of [rest] through all of them to the head. *)
Definition threaded s h rest : Prop :=
  h ∉ rest ∧ (∃ y, host_links s !! (h, m_next) = Some (At y)) ∧
  ∀ l1 x l2, rest = l1 ++ x :: l2 → host_links s !! (x, m_next) = Some (At (first_of l2 h)).

Lemma is_list_threaded s h kept rest : is_list (host_links s) h (kept ++ rest) → threaded s h rest.
Proof.
  intros Hl. pose proof Hl as [_ [Hh _]%NoDup_cons]. split_and!; [set_solver|eexists; by eapply is_list_head|].
  intros l1 x l2 ->. eapply (is_list_next _ _ (kept ++ l1)). by rewrite -assoc.
Qed.

Lemma entries_threaded_wp h (I : list A → St → Prop) body :
  (∀ rest s, I rest s → threaded s h rest) →
  (∀ x rest s, I (x :: rest) s → wp (body x) (λ _ s', I rest s') s) →
  ∀ rest fuel n s, I rest s → (rest ≠ [] → n = first_of (tail rest) h) → (length rest ≤ fuel)%nat →
  wp (entries_safe fuel (first_of rest h) n h body) (λ _ s', I [] s') s.
Proof.
  intros HI Hbody. induction rest as [|x rest IH]; intros fuel n s Hs Hn Hfuel; simpl.
  { destruct fuel; simpl; rewrite decide_True //; by apply wp_ret. }
  destruct fuel as [|fuel]; simpl in Hfuel; [lia|]. simpl.
  rewrite decide_False; [|intros ->; destruct (HI _ _ Hs) as [Hh _]; set_solver].
  rewrite (Hn ltac:(done)). simpl. apply wp_bind. eapply wp_mono; [by eapply Hbody|].
  intros [] s' Hs'. destruct (HI _ _ Hs') as (_ & [z Hz] & Hnext). apply wp_bind.
  destruct rest as [|y rest]; simpl.
  - eapply wp_on_links_next; [exact Hz|]. apply IH; [done|done|simpl; lia].
  - eapply wp_on_links_next; [by apply (Hnext [])|]. apply IH; [done|done|simpl in *; lia].
Qed.

(** The body may change what it likes, as long as the nodes it has not visited yet stay
    chained to the head. *)
Lemma list_for_each_threaded_wp h (I : list A → St → Prop) body l s :
  (∀ rest s, I rest s → threaded s h rest) →
  (∀ x rest s, I (x :: rest) s → wp (body x) (λ _ s', I rest s') s) →
  is_list (host_links s) h l → I l s → wp (list_for_each_entry_safe h body) (λ _ s', I [] s') s.
Proof.
  intros HI Hbody Hl Hs. unfold list_for_each_entry_safe.
  apply wp_bind, wp_on_links_rounds, wp_bind.
  eapply wp_on_links_next; [by eapply is_list_head|]. apply wp_bind.
  assert (length l ≤ S (size (host_links s)))%nat as Hsize by by apply Nat.lt_le_incl, Nat.lt_lt_succ_r, (is_list_size _ h).
  destruct l as [|x l].
  - eapply wp_on_links_next; [by eapply (is_list_head _ _ [])|]. by eapply (entries_threaded_wp h I _ HI Hbody []).
  - eapply wp_on_links_next; [by eapply (is_list_next _ _ [])|]. by eapply (entries_threaded_wp h I _ HI Hbody (x :: l)).
Qed.

(** The same when a list with the nodes left so far is kept. *)
Lemma list_for_each_entry_safe_wp h (I : list A → list A → St → Prop) body l s :
  (∀ kept rest s, I kept rest s → is_list (host_links s) h (kept ++ rest)) →
  (∀ kept x rest s, I kept (x :: rest) s → wp (body x) (λ _ s', ∃ kept', I kept' rest s') s) →
  I [] l s → wp (list_for_each_entry_safe h body) (λ _ s', ∃ kept', I kept' [] s') s.
Proof.
  intros HI Hbody Hs. apply (list_for_each_threaded_wp h (λ rest s, ∃ kept, I kept rest s) body l).
  - intros rest s' [kept Hk]. by eapply is_list_threaded, HI.
  - intros x rest s' [kept Hk]. by eapply Hbody.
  - by apply (HI []).
  - by exists [].
Qed.

(** The loop that looks for an entry: the test is run on the entries up to the first one it
    accepts. *)
Lemma entries_until_wp h (I : list A → list A → St → Prop) test Q :
  (∀ seen rest s, I seen rest s → is_list (host_links s) h (seen ++ rest)) →
  (∀ seen x rest s, I seen (x :: rest) s →
    wp (test x) (λ b s', if b : bool then Q (Some x) s' else I (seen ++ [x]) rest s') s) →
  (∀ seen s, I seen [] s → Q None s) →
  ∀ rest seen fuel s, I seen rest s → (length rest ≤ fuel)%nat →
  wp (entries_until fuel (first_of rest h) h test) Q s.
Proof.
  intros HI Htest Hend. induction rest as [|x rest IH]; intros seen fuel s Hs Hfuel; simpl.
  { destruct fuel; simpl; rewrite decide_True //; apply wp_ret; by eapply Hend. }
  destruct fuel as [|fuel]; simpl in Hfuel; [lia|]. simpl. rewrite decide_False.
  2: { intros ->. destruct (HI _ _ _ Hs) as [_ Hnd]. apply NoDup_cons in Hnd as [Hh _]. set_solver. }
  apply wp_bind. eapply wp_mono; [by eapply Htest|]. intros [] s' Hs'; [by apply wp_ret|].
  apply wp_bind. eapply wp_on_links_next.
  - eapply (is_list_next _ _ seen x). eapply HI in Hs'. by rewrite -assoc in Hs'.
  - eapply IH; [done|lia].
Qed.

Lemma list_find_entry_wp h (I : list A → list A → St → Prop) test Q l s :
  (∀ seen rest s, I seen rest s → is_list (host_links s) h (seen ++ rest)) →
  (∀ seen x rest s, I seen (x :: rest) s →
    wp (test x) (λ b s', if b : bool then Q (Some x) s' else I (seen ++ [x]) rest s') s) →
  (∀ seen s, I seen [] s → Q None s) →
  I [] l s → wp (list_find_entry h test) Q s.
Proof.
  intros HI Htest Hend Hs. pose proof (HI _ _ _ Hs) as Hl. unfold list_find_entry.
  apply wp_bind, wp_on_links_rounds, wp_bind. eapply wp_on_links_next; [by eapply is_list_head|].
  eapply (entries_until_wp h I test Q HI Htest Hend); [done|].
  by apply Nat.lt_le_incl, Nat.lt_lt_succ_r, (is_list_size _ h).
Qed.
End loops.

(** ** Simulation *)

(** One run, from related states: when [m] returns, [m'] returns the same, in a related
    state. *)
Definition simulated {S W X} (R : S → W → Prop) (m' : M S X) (m : M W X) (s : S) (w : W) : Prop :=
  match m w with
  | Ok x w' => wp m' (λ y s', y = x ∧ R s' w') s
  | Fault _ => True
  end.

Lemma simulated_bind {S W X Y} (R : S → W → Prop) (m' : M S X) (m : M W X) (k' : X → M S Y) k s w :
  simulated R m' m s w →
  (∀ x s1 w1, m w = Ok x w1 → R s1 w1 → simulated R (k' x) (k x) s1 w1) →
  simulated R (m' ≫= k') (m ≫= k) s w.
Proof.
  unfold simulated. intros Hm Hk. unfold mbind at 1, M_bind at 1. destruct (m w) as [x w1|]; [|done].
  destruct (k x w1) as [y w2|] eqn:Hkw; [|done]. apply wp_bind. eapply wp_mono; [exact Hm|].
  intros ? s1 [-> Hs1]. specialize (Hk x s1 w1 eq_refl Hs1). by rewrite Hkw in Hk.
Qed.

Lemma simulated_ret {S W X} (R : S → W → Prop) (x : X) s w : R s w → simulated R (mret x) (mret x) s w.
Proof. done. Qed.

(** A loop over the entries that were in the sequence when it started is simulated by the
    loop from node to node. *)
Section loop_simulation.
Context {A St W En : Type} `{HA : Countable A} {Host : ListHost A St} {Laws : ListHostLaws A St}.
Context (R : St → W → Prop) (h : A) (entries : W → list En) (node : En → A).
Hypothesis R_list : ∀ s w, R s w → is_list (host_links s) h (node <$> entries w).

(** The body leaves the sequence alone or takes out its entry. *)
Definition unlinks_at_most (e : En) (w w' : W) : Prop :=
  entries w' = entries w ∨ entries w' = filter (λ e', node e' ≠ node e) (entries w).

Lemma filter_node_split (l1 l2 : list En) e :
  NoDup (node <$> l1 ++ e :: l2) → filter (λ e', node e' ≠ node e) (l1 ++ e :: l2) = l1 ++ l2.
Proof.
  rewrite fmap_app fmap_cons. intros (_ & H1 & H2)%NoDup_app. apply NoDup_cons in H2 as [H2 _].
  assert (∀ l : list En, node e ∉ node <$> l → filter (λ e', node e' ≠ node e) l = l) as Hid.
  { induction l as [|x l IH]; [done|]. rewrite fmap_cons not_elem_of_cons. intros [? ?].
    rewrite filter_cons_True; [by rewrite IH|done]. }
  rewrite filter_app filter_cons_False; [|by intros Hn; apply Hn].
  rewrite !Hid; [done|done|]. intros Hin. eapply H1; [done|left].
Qed.

Lemma loop_simulated (body' : A → M St unit) (body : En → M W unit) s w :
  (∀ e s w, R s w → e ∈ entries w → simulated R (body' (node e)) (body e) s w) →
  (∀ e w w', body e w = Ok tt w' → unlinks_at_most e w w') →
  R s w → simulated R (list_for_each_entry_safe h body') (for_each (entries w) body) s w.
Proof.
  intros Hsim Hat Hs. unfold simulated. destruct (for_each (entries w) body w) as [[] wf|] eqn:Hrun; [|done].
  eapply wp_mono; [apply (list_for_each_entry_safe_wp h
    (λ kept rest s, ∃ w1 es1 es2, R s w1 ∧ entries w1 = es1 ++ es2 ∧
       kept = node <$> es1 ∧ rest = node <$> es2 ∧ for_each es2 body w1 = Ok tt wf) body' (node <$> entries w))|].
  - intros ? ? s1 (w1 & es1 & es2 & Hs1 & Hp & -> & -> & _). rewrite -fmap_app -Hp. by apply R_list.
  - intros ? x ? s1 (w1 & es1 & es2 & Hs1 & Hp & -> & Hx & Hbody).
    destruct es2 as [|e es2]; simplify_eq/=. revert Hbody. unfold mbind, M_bind.
    destruct (body e w1) as [[] w2|] eqn:Hb; [|done]. intros Hrest.
    assert (e ∈ entries w1) as He by (rewrite Hp; set_solver).
    pose proof (Hsim e s1 w1 Hs1 He) as Hsm. unfold simulated in Hsm. rewrite Hb in Hsm.
    eapply wp_mono; [exact Hsm|]. intros _ s2 [_ Hs2].
    pose proof (R_list _ _ Hs1) as [_ [_ Hnd]%NoDup_cons]. rewrite Hp in Hnd.
    destruct (Hat e w1 w2 Hb) as [Hp2|Hp2]; rewrite Hp in Hp2.
    + exists (node <$> es1 ++ [e]), w2, (es1 ++ [e]), es2. by rewrite -assoc.
    + exists (node <$> es1), w2, es1, es2. by rewrite Hp2 filter_node_split.
  - by exists w, [], (entries w).
  - intros [] s1 (_ & w1 & es1 & es2 & Hs1 & _ & _ & Hx & Hend). destruct es2; [|done]. by injection Hend as <-.
Qed.

(** The plain loop, over a body that leaves the sequence alone. *)
Lemma visit_simulated (body' : A → M St unit) (body : En → M W unit) s w :
  (∀ e s w, R s w → e ∈ entries w → simulated R (body' (node e)) (body e) s w) →
  (∀ e w w', body e w = Ok tt w' → entries w' = entries w) →
  R s w → simulated R (list_for_each_entry h body') (for_each (entries w) body) s w.
Proof.
  intros Hsim Hsame Hs. unfold simulated. destruct (for_each (entries w) body w) as [[] wf|] eqn:Hrun; [|done].
  apply wp_bind. apply (list_find_entry_wp h
    (λ seen rest s, ∃ w1 es1 es2, R s w1 ∧ entries w1 = es1 ++ es2 ∧
       seen = node <$> es1 ∧ rest = node <$> es2 ∧ for_each es2 body w1 = Ok tt wf) _ _ (node <$> entries w)).
  - intros ? ? s1 (w1 & es1 & es2 & Hs1 & Hp & -> & -> & _). rewrite -fmap_app -Hp. by apply R_list.
  - intros ? x ? s1 (w1 & es1 & es2 & Hs1 & Hp & -> & Hx & Hbody).
    destruct es2 as [|e es2]; simplify_eq/=. revert Hbody. unfold mbind at 1, M_bind at 1.
    destruct (body e w1) as [[] w2|] eqn:Hb; [|done]. intros Hrest. apply wp_bind.
    assert (e ∈ entries w1) as He by (rewrite Hp; set_solver).
    pose proof (Hsim e s1 w1 Hs1 He) as Hsm. unfold simulated in Hsm. rewrite Hb in Hsm.
    eapply wp_mono; [exact Hsm|]. intros [] s2 [_ Hs2]. apply wp_ret.
    exists w2, (es1 ++ [e]), es2. split_and!; [done| |by rewrite fmap_app|done|done].
    by rewrite (Hsame _ _ _ Hb) Hp -assoc.
  - intros ? s1 (w1 & es1 & es2 & Hs1 & _ & _ & Hx & Hend). destruct es2; [|done]. injection Hend as <-.
    by apply wp_ret.
  - by exists w, [], (entries w).
Qed.
End loop_simulation.
