(* ===== verification/MshRouteSpec.v ===== *)
(** * The route operations keep the invariant

    For each operation of [MshRoute] its effect and that the invariant holds after
    it.  A specification has a continuation [Q]: it is applied to the state the
    operation leaves. *)

From S2P Require Export Invariant.

Section route_specs.
Context `{E : Env} {EO : EnvOk E}.
Implicit Types w : world.

(** ** Reads and field updates *)

Lemma read_route_eq w a r : w_routes w !! a = Some r → read_route a w = Ok r w.
Proof. intros Ha. unfold read_route. by rewrite Ha. Qed.

Lemma get_eq {A} w a r (f : msh_route → A) :
  w_routes w !! a = Some r → (r ← read_route a; mret (f r)) w = Ok (f r) w.
Proof. intros Ha. unfold mbind, M_bind. by erewrite read_route_eq. Qed.

Lemma upd_route_eq w a r f :
  w_routes w !! a = Some r →
  upd_route a f w = Ok tt (set_w_routes (<[a := f r]> (w_routes w)) w).
Proof. intros Ha. unfold upd_route, mbind, M_bind, read_route. by rewrite Ha. Qed.

Lemma rwp_bind_upd R `{!PreOrder R, !Finer inward R} {B} (k : unit → M world B) w a r f Q :
  world_ok w → w_routes w !! a = Some r → route_step r (f r) →
  (world_ok (set_w_routes (<[a := f r]> (w_routes w)) w) →
   rwp R (k tt) Q (set_w_routes (<[a := f r]> (w_routes w)) w)) →
  rwp R (upd_route a f ≫= k) Q w.
Proof.
  intros Hw Ha Hstep Hk. eapply rwp_bind_step; [apply _|by apply upd_route_eq| | |].
  - by eapply upd_route_world_ok, Hstep.
  - from_inward; eapply upd_route_inward; [done|done|apply Hstep..].
  - apply Hk. by eapply upd_route_world_ok, Hstep.
Qed.

(** An update that may change where the route leads. *)
Lemma rwp_bind_quiet_upd {B} (k : unit → M world B) w a r f Q :
  world_ok w → w_routes w !! a = Some r → route_fits r (f r) →
  (world_ok (set_w_routes (<[a := f r]> (w_routes w)) w) →
   rwp quiet (k tt) Q (set_w_routes (<[a := f r]> (w_routes w)) w)) →
  rwp quiet (upd_route a f ≫= k) Q w.
Proof.
  intros Hw Ha Hstep Hk. eapply rwp_bind_step; [apply _|by apply upd_route_eq| | |].
  - by eapply upd_route_world_ok.
  - by eapply upd_route_quiet; [done|done|apply Hstep..].
  - apply Hk. by eapply upd_route_world_ok.
Qed.

Lemma upd_route_spec w a r f (Q : unit → world → Prop) :
  world_ok w → w_routes w !! a = Some r → route_step r (f r) →
  Q tt (set_w_routes (<[a := f r]> (w_routes w)) w) →
  rwp inward (upd_route a f) Q w.
Proof.
  intros Hw Ha Hstep HQ. eapply rwp_step; [by apply upd_route_eq| | |exact HQ].
  - by eapply upd_route_world_ok, Hstep.
  - eapply upd_route_inward; [done|done|apply Hstep..].
Qed.

(** *** Updates that may happen to any route *)

Lemma world_route_ok w a r : world_ok w → w_routes w !! a = Some r → route_ok r.
Proof. intros Hw. apply (to_routes _ _ _ (wo_table _ Hw)). Qed.

Lemma lor_u16 x y : is_u16 x → is_u16 y → is_u16 (Z.lor x y).
Proof.
  intros Hx Hy.
  assert (∀ z, is_u16 z → z = Z.land z (Z.ones 16)) as Hz
    by (intros z Hz; rewrite Z.land_ones by lia; by rewrite Z.mod_small).
  rewrite (Hz _ Hx), (Hz _ Hy), <-Z.land_lor_distr_l, Z.land_ones by lia.
  by apply Z.mod_pos_bound.
Qed.

Lemma set_flag_step flag r :
  flag ≠ RTFLAG_UNMANAGED → route_ok r → route_step r (set_flag flag r).
Proof.
  intros Hne [H1 H2 H3 H4 H5 H6 H7]. unfold set_flag. unfold managed in H7.
  rewrite (proj2 (Z.eqb_neq _ _) Hne).
  repeat case_match; (split; [split; [|split; done]|done]); split; try done; try (by apply lor_u16);
    unfold managed; simpl; rewrite has_flag_lor; by destruct (has_flag (rt_flags r) RTFLAG_UNMANAGED).
Qed.

(** Clearing flags sets none. *)
Lemma has_flag_unset x m f :
  has_flag x f = false → has_flag (u16 (Z.land x m)) f = false.
Proof.
  unfold has_flag, u16. rewrite !negb_false_iff, !Z.eqb_eq. intros Hx.
  rewrite <-Z.land_ones by lia. apply Z.bits_inj_0. intros i.
  apply (f_equal (λ y, Z.testbit y i)) in Hx. rewrite Z.bits_0, Z.land_spec in Hx.
  rewrite !Z.land_spec. 
  by destruct (Z.testbit x i), (Z.testbit f i), (Z.testbit m i), (Z.testbit (Z.ones 16) i).
Qed.

Lemma unset_flag_step flag r : route_ok r → route_step r (unset_flag flag r).
Proof.
  intros [H1 H2 H3 H4 H5 H6 H7]. unfold unset_flag.
  unfold managed in H7. apply negb_true_iff in H7.
  repeat case_match; (split; [split; [|split; done]|done]); split; try done; try apply u16_range;
    unfold managed; apply negb_true_iff; first [by apply has_flag_unset|exact H7].
Qed.

Lemma hop_count_step n r : is_u8 n → route_ok r → route_step r (set_rt_hop_count n r).
Proof. by intros ? []. Qed.
Lemma next_hop_fits ip r : is_u32 ip → route_ok r → route_fits r (set_rt_next_hop ip r).
Proof. by intros ? []. Qed.
Lemma dest_seq_num_step n r : is_u32 n → route_ok r → route_step r (set_rt_dest_seq_num n r).
Proof. by intros ? []. Qed.
Lemma precursors_step l r : route_ok r → route_step r (set_rt_precursors l r).
Proof. by intros []. Qed.
Lemma alarm_action_step x r : route_ok r → route_step r (set_rt_alarm_action x r).
Proof. by intros []. Qed.
Lemma add_precursor_step ip r : route_ok r → route_step r (add_precursor ip r).
Proof. unfold add_precursor. case_decide; [by intros []|apply precursors_step]. Qed.
Lemma dst_ip_step ip r :
  is_u32 ip → ¬ in_table r → route_ok r → route_step r (set_rt_dst_ip ip r).
Proof. by intros ? ? []. Qed.

(** ** Allocation *)

Definition new_block (a : addr) : alarm_block :=
  AlarmBlock false (Timeval 0 0) (Some a) fn_msh_route_alarm_cb.

(** The state after [msh_route_alloc]. *)
Definition with_new_route (w : world) : world :=
  let a := w_brk w in
  set_w_alarms (Alarms (<[AL_route a := new_block a]> (al_blocks (w_alarms w))) (al_root (w_alarms w)))
    (set_w_routes (<[a := zero_route]> (w_routes w)) (set_w_brk (Pos.succ a) w)).

Lemma msh_route_alloc_eq w : msh_route_alloc w = Ok (w_brk w) (with_new_route w).
Proof. done. Qed.

(** The address to be allocated next is free. *)
Lemma brk_free w :
  world_ok w → w_routes w !! w_brk w = None ∧ al_blocks (w_alarms w) !! AL_route (w_brk w) = None ∧
  AL_route (w_brk w) ∉ al_root (w_alarms w) ∧ w_brk w ≠ w_find_route w.
Proof.
  intros Hw.
  assert (w_routes w !! w_brk w = None) as Hr.
  { apply eq_None_not_Some. intros Hs%(ho_routes _ _ _ _ _ (wo_heap _ Hw)). lia. }
  assert (al_blocks (w_alarms w) !! AL_route (w_brk w) = None) as Hb.
  { apply eq_None_not_Some. intros [b Hb]. apply (bo_owner _ _ _ _ (wo_blocks _ Hw)) in Hb.
    destruct Hb as [[? ?] _]. congruence. }
  split_and!; [done|done| |].
  - intros (b & ? & _)%(ok_linked _ (wo_alarms _ Hw)). congruence.
  - intros Heq. destruct (find_route_live _ Hw) as (r & ? & _). congruence.
Qed.

(** A new unlinked block leaves the queue well formed. *)
Lemma new_block_alarms_ok A id b :
  alarms_ok A → al_blocks A !! id = None → ab_linked b = false → timeval_ok (ab_tv b) →
  alarms_ok (Alarms (<[id := b]> (al_blocks A)) (al_root A)).
Proof.
  intros Hok Hid Hl Htv.
  assert (id ∉ al_root A) as Hni by (intros (b' & ? & _)%(ok_linked _ Hok); congruence).
  split; simpl; [apply Hok| | |].
  - intros x. rewrite (ok_linked _ Hok), lookup_insert. case_decide; [subst|done].
    rewrite Hid. naive_solver congruence.
  - intros x b'. rewrite lookup_insert. case_decide; [by intros [= <-]|apply Hok].
  - eapply sorted_ext; [|apply Hok]. intros x y Hx Hy. unfold key; simpl.
    rewrite !lookup_insert_ne; [done|congruence..].
Qed.

Lemma with_new_route_ok w : world_ok w → world_ok (with_new_route w).
Proof.
  intros Hw. destruct (brk_free _ Hw) as (Hr & Hb & Hroot & Hfind).
  destruct Hw as [Hh Ht Hq Ha [H1 H2 H3 H4 H5] Hd]. split; simpl; [| |done| | |done].
  - apply (heap_ok_brk _ (Pos.succ (w_brk w))) in Hh; [|lia].
    destruct Hh as [Hr1 ? ? ? ? Hr6 ?]. split; try done.
    + intros x. rewrite lookup_insert_is_Some'. intros [<-|Hx]; [lia|by apply Hr1].
    + intros x n. unfold handle. rewrite lookup_insert. case_decide; [done|apply Hr6].
  - destruct Ht as [Hnd Hl Hu (rf & Hf & Hni) Hro]. split; [done| | | |].
    + intros x. rewrite Hl, lookup_insert. case_decide; [subst|done].
      rewrite Hr. split; [by intros (?&?&?)|by intros (?&[= <-]&?)].
    + intros x y rx ry (? & Hx & ?)%Hl (? & Hy & ?)%Hl.
      rewrite !lookup_insert_ne by congruence. by apply Hu; apply Hl; eauto.
    + rewrite lookup_insert_ne by done. eauto.
    + intros x r. rewrite lookup_insert. case_decide; [by intros [= <-]|apply Hro].
  - by apply new_block_alarms_ok.
  - split.
    + intros x. rewrite !lookup_insert_is_Some'. intros [<-|Hx]; auto.
    + intros x Hx. rewrite lookup_insert_ne by done. auto.
    + by rewrite lookup_insert_ne.
    + intros id b. rewrite lookup_insert. case_decide as Hd'.
      * subst. intros [= <-]. by rewrite lookup_insert_eq.
      * intros Hid. specialize (H4 _ _ Hid). destruct id as [x| |]; [|done..].
        rewrite lookup_insert_ne by congruence. done.
    + intros b. rewrite lookup_insert_ne by congruence. apply H5.
Qed.

Lemma with_new_route_quiet w : world_ok w → quiet w (with_new_route w).
Proof.
  intros Hw.
  assert (∀ x, x ∈ w_table w → w_routes (with_new_route w) !! x = w_routes w !! x) as Hold.
  { intros x Hx. simpl. rewrite lookup_insert_ne; [done|].
    intros <-. apply (table_live _ _ Hw) in Hx as (r & Hr & _). by rewrite (proj1 (brk_free _ Hw)) in Hr. }
  split; [|done]. split; [|done..]. split; [split; try done| | | |done].
  - apply kernel_ok_ext. intros x Hx. unfold handle. by rewrite (Hold x Hx).
  - intros x Hx. simpl. rewrite lookup_insert_is_Some'. by right.
  - intros x Hx. split; [done|]. by rewrite (Hold x Hx).
  - intros x n Hx Hn. split; [|done]. unfold handle in *. by rewrite (Hold x Hx).
Qed.

Lemma msh_route_alloc_spec w (Q : addr → world → Prop) :
  world_ok w → Q (w_brk w) (with_new_route w) → rwp quiet msh_route_alloc Q w.
Proof.
  intros Hw HQ. eapply rwp_step; [apply msh_route_alloc_eq| | |done].
  - by apply with_new_route_ok.
  - by apply with_new_route_quiet.
Qed.

(** ** Timers *)

(** Arming a timer that the invariant allows to be armed. *)
Lemma add_alarm_spec w id sc usc b (Q : unit → world → Prop) :
  world_ok w → al_blocks (w_alarms w) !! id = Some b → id ≠ AL_route (w_find_route w) →
  timeval_ok (Timeval sc usc) →
  (∀ A, armed id (timeradd (Timeval sc usc) (env_now (w_tick w))) b (w_alarms w) A → alarms_ok A →
     Q tt (set_w_alarms A (set_w_tick (S (w_tick w)) w))) →
  rwp inward (add_alarm id sc usc) Q w.
Proof.
  intros Hw Hb Hid Htv HQ. apply (wp_add_alarm id sc usc b); [apply Hw|done|done|].
  intros now w' A Hnow Hok Harm HokA. injection Hnow as <- <-. split_and!.
  - eapply (arm_world_ok (set_w_tick (S (w_tick w)) w)); eauto with msh.
  - etrans; [apply tick_inward|]. eapply alarms_inward, armed_kept, Harm.
  - by apply HQ.
Qed.

(** The route after [msh_route_set_lifetime]. *)
Definition touched (r : msh_route) : msh_route :=
  set_rt_alarm_action RTACTION_UNSET_VALID_ENTRY (set_flag RTFLAG_VALID_ENTRY r).

Lemma touched_same_path r : same_path r (touched r).
Proof. split; try done. simpl. rewrite has_flag_lor. apply orb_false_r. Qed.


(** [w'] is [w] with the lifetime of the route [a] set to [ms] from now. *)
Record lifetime_set (a : addr) (r : msh_route) (ms : Z) (w w' : world) : Prop := {
  ls_routes : w_routes w' = <[a := touched r]> (w_routes w);
  ls_state : ∃ A, w' = set_w_alarms A (set_w_tick (S (w_tick w)) (set_w_routes (w_routes w') w));
  ls_armed : ∃ b t, al_blocks (w_alarms w) !! AL_route a = Some b ∧ timeval_ok t ∧
    usecs t = usecs (env_now (w_tick w)) + ms * 1000 ∧
    armed (AL_route a) t b (w_alarms w) (w_alarms w') }.

Lemma msh_route_set_lifetime_spec w a r ms :
  world_ok w → w_routes w !! a = Some r → a ≠ w_find_route w →
  rwp inward (msh_route_set_lifetime a ms) (λ _, lifetime_set a r ms w) w.
Proof.
  intros Hw Hr Hne. pose proof (world_route_ok _ _ _ Hw Hr) as Hro.
  unfold msh_route_set_lifetime.
  rwp_read by apply read_route_eq.
  rewrite (proj1 (negb_true_iff _) (ro_managed _ Hro)).
  eapply rwp_bind_upd; [apply _..|done|done|by apply set_flag_step|]. intros Hw1.
  eapply rwp_bind_upd; [apply _..|done|simpl; apply lookup_insert_eq|by apply alarm_action_step, set_flag_step, Hro|].
  simpl. rewrite insert_insert_eq. fold (touched r). intros Hw2.
  destruct (route_block w a) as [b Hb]; [done|by eexists|].
  destruct (set_alarm_time ms) as [sc usc] eqn:Htv.
  apply (add_alarm_spec _ _ _ _ b); [done|done|simpl; congruence|by eapply set_alarm_time_ok|].
  intros A Harm HA. split; simpl; [done|by exists A|].
  eexists b, _. split_and!; [done| | |exact Harm].
  - apply timeradd_ok; [by eapply set_alarm_time_ok|apply env_now_ok].
  - rewrite timeradd_usecs. erewrite set_alarm_time_usecs by done. simpl. lia.
Qed.

(** The timer [id] runs, or does not, as before. *)
Definition timer_kept (id : alarm_id) (w w' : world) : Prop :=
  al_blocks (w_alarms w') !! id = al_blocks (w_alarms w) !! id ∧
  (id ∈ al_root (w_alarms w') ↔ id ∈ al_root (w_alarms w)).

#[export] Instance timer_kept_preorder id : PreOrder (timer_kept id).
Proof. split; [done|]. intros w1 w2 w3 [H1 H2] [H3 H4]. split; [congruence|tauto]. Qed.

Lemma timer_kept_same id w w' : w_alarms w' = w_alarms w → timer_kept id w w'.
Proof. unfold timer_kept. by intros ->. Qed.

(** Arming a timer leaves the others. *)
Lemma armed_timer_kept id t b w w' x :
  armed id t b (w_alarms w) (w_alarms w') → x ≠ id → timer_kept x w w'.
Proof.
  intros (Hbl & l1 & l2 & Hun & Hroot & _) Hx. split.
  - rewrite Hbl. by apply lookup_insert_ne.
  - assert (x ∈ unlink id (al_root (w_alarms w)) ↔ x ∈ al_root (w_alarms w)) as <- by (rewrite elem_of_unlink; tauto).
    rewrite Hroot, Hun. set_solver.
Qed.

(** Only timers of routes have changed, and time may have passed. *)
Record route_timers (w w' : world) : Prop := {
  rtm_kept id : (∀ b, id ≠ AL_route b) → timer_kept id w w';
  rtm_tick : (w_tick w ≤ w_tick w')%nat }.

#[export] Instance route_timers_preorder : PreOrder route_timers.
Proof.
  split; [by split|]. intros w1 w2 w3 [H1 T1] [H2 T2]. split; [|lia].
  intros id Hid. etrans; [by apply H1|by apply H2].
Qed.

(** The lifetime of any usable route can be set. *)
Lemma set_lifetime_spec w a ms :
  world_ok w → usable w a → rwp inward (msh_route_set_lifetime a ms) (λ _, route_timers w) w.
Proof.
  intros Hw [[r Hr] Hne]. eapply rwp_mono; [by apply msh_route_set_lifetime_spec|].
  intros [] w' _ _ [_ [A HA] (b & t & _ & _ & _ & Harm)]. split; [|rewrite HA; simpl; lia].
  intros id Hid. by eapply armed_timer_kept.
Qed.

(** ** The next hop *)

(** [w'] differs from [w] in the log and the counters at most, and the kernel has the
    same routes. *)
Record same_objects (w w' : world) : Prop := {
  so_routes : w_routes w' = w_routes w;
  so_table : w_table w' = w_table w;
  so_packets : w_packets w' = w_packets w;
  so_alarms : w_alarms w' = w_alarms w;
  so_installed : installed (w_trace w') = installed (w_trace w) }.

#[export] Instance same_objects_preorder : PreOrder same_objects.
Proof. split; [done|]. intros w1 w2 w3 [] []. split; congruence. Qed.

Definition logged (ev : event) (w : world) : world := set_w_trace (w_trace w ++ [ev]) w.

Lemma logged_same ev w : asks ev = false → same_objects w (logged ev w).
Proof. intros Ha. split; try done. simpl. apply installed_silent. by apply Forall_singleton. Qed.

Lemma emit_nl_spec w nl c :
  world_ok w → asks (EvNl nl c) = false →
  rwp quiet (emit (EvNl nl c)) (λ _ w', w' = logged (EvNl nl c) w) w.
Proof. intros Hw Ha. eapply rwp_step; [done|by apply trace_world_ok|by apply trace_quiet|done]. Qed.

Lemma next_hop_updated_spec w a r :
  world_ok w → w_routes w !! a = Some r →
  rwp quiet (__msh_route_updated a RTACTION_CHANGE_NEXTHOP_IP) (λ _, same_objects w) w.
Proof.
  intros Hw Hr. unfold __msh_route_updated.
  rwp_read by apply read_route_eq.
  destruct (rt_updated_cb r) as [[]|]; [|rwp_return].
  unfold __routing_table_route_updated_cb. simpl.
  rwp_read by apply get_eq.
  destruct (rt_nlroute r) as [nl|]; [|rwp_return].
  rwp_read by apply get_eq.
  rwp_read by apply get_eq.
  rwp_read by apply get_eq.
  apply rwp_when; [apply _|done| |done]. intros _.
  eapply rwp_mono; [by apply emit_nl_spec|]. intros [] w' _ _ ->. by apply logged_same.
Qed.

Lemma msh_route_set_next_hop_spec w a r hop :
  world_ok w → w_routes w !! a = Some r → is_u32 hop →
  rwp quiet (msh_route_set_next_hop a hop) (λ _, same_objects (set_w_routes
    (<[a := set_rt_next_hop hop (set_flag RTFLAG_HAS_NEXTHOP r)]> (w_routes w)) w)) w.
Proof.
  intros Hw Hr Hhop. pose proof (world_route_ok _ _ _ Hw Hr) as Hro.
  unfold msh_route_set_next_hop.
  eapply rwp_bind_upd; [apply _..|done|done|by apply set_flag_step|]. intros Hw1.
  apply (rwp_bind_quiet_upd _ _ a (set_flag RTFLAG_HAS_NEXTHOP r)); [done|simpl; apply lookup_insert_eq|apply next_hop_fits, set_flag_step, Hro; done|].
  simpl. rewrite insert_insert_eq. intros Hw2.
  exact (next_hop_updated_spec _ _ _ Hw2 (lookup_insert_eq _ _ _)).
Qed.

(** ** Comparison *)

(** Lookups compare the whole destination address. *)
Lemma msh_route_compare_eq w a b ra rb :
  world_ok w → w_routes w !! a = Some ra → w_routes w !! b = Some rb →
  msh_route_compare a b RTFIND_BY_DEST_LONGEST_PREFIX_MATCHING w =
    Ok (if rt_dst_ip ra =? rt_dst_ip rb then 0 else 1) w.
Proof.
  intros Hw Ha Hb. unfold msh_route_compare, mbind, M_bind. simpl.
  rewrite (read_route_eq _ _ _ Ha), (read_route_eq _ _ _ Hb).
  destruct (route_block w a) as [ba Hba]; [done|by eexists|].
  destruct (route_block w b) as [bb Hbb]; [done|by eexists|].
  unfold on_alarms, read_block; simpl. rewrite Hba; simpl. rewrite Hbb; simpl.
  rewrite compare_exact.
  - by destruct w.
  - apply (world_route_ok _ _ _ Hw Ha).
  - apply (world_route_ok _ _ _ Hw Hb).
  - apply (world_route_ok _ _ _ Hw Hb).
Qed.

(** ** Reading the lifetime *)

Lemma msh_route_get_lifetime_spec w a r b :
  world_ok w → w_routes w !! a = Some r → al_blocks (w_alarms w) !! AL_route a = Some b →
  rwp inward (msh_route_get_lifetime a) (λ x w', w' = set_w_tick (S (w_tick w)) w ∧
    x = if has_flag (rt_flags r) RTFLAG_VALID_ENTRY && timer_gt (ab_tv b) (env_now (w_tick w))
        then lifetime_left (ab_tv b) (env_now (w_tick w)) else 0) w.
Proof.
  intros Hw Hr Hb. unfold msh_route_get_lifetime.
  eapply rwp_bind_step; [apply _|done|by apply tick_world_ok|by apply tick_inward|].
  eapply rwp_bind_pure; [apply _|by apply tick_world_ok|by apply read_route_eq|].
  eapply rwp_bind_pure; [apply _|by apply tick_world_ok| |].
  { unfold on_alarms, read_block; simpl. rewrite Hb. simpl. by destruct w. }
  destruct (has_flag _ _), (timer_gt _ _); simpl; rwp_return; by apply tick_world_ok.
Qed.

Lemma lifetime_left_range tv now : is_u32 (lifetime_left tv now).
Proof. apply u32_range. Qed.

(** A live route's lifetime can be read, whatever its timer. *)
Lemma get_lifetime_spec w a :
  world_ok w → is_Some (w_routes w !! a) →
  rwp inward (msh_route_get_lifetime a)
    (λ x w', w' = set_w_tick (S (w_tick w)) w ∧ is_u32 x) w.
Proof.
  intros Hw [r Hr]. destruct (route_block w a) as [b Hb]; [done|by eexists|].
  eapply rwp_mono; [by eapply msh_route_get_lifetime_spec|].
  intros x w' _ _ [-> ->]. split; [done|]. case_match; [apply lifetime_left_range|done].
Qed.
End route_specs.
