(* ===== verification/PacketsFifoSpec.v ===== *)
(** * The queue of waiting packets: every packet gets its verdict

    [packets_fifo_process_route] accepts, and [packets_fifo_drop_packets] drops,
    exactly the packets for one destination, in the order of the list, and leaves
    the others waiting. *)

From S2P Require Export MshRouteSpec.

Section packets_specs.
Context `{E : Env} {EO : EnvOk E}.
Implicit Types w : world.

(** The verdicts given to [es], in order. *)
Definition verdicts (v : Z) (es : list packets_fifo) : list event :=
  (λ e, EvVerdict (pf_id e) v) <$> es.

Lemma verdict_ids_verdicts v es : verdict_ids (verdicts v es) = pf_id <$> es.
Proof. induction es as [|e es IH]; [done|]. rewrite fmap_cons, <-IH. done. Qed.
Lemma verdicts_silent v es : Forall (λ ev, asks ev = false) (verdicts v es).
Proof. by apply Forall_fmap, Forall_true. Qed.

(** Unlinking an entry from a list of entries with distinct addresses. *)
Lemma filter_addr_split (l1 l2 : list packets_fifo) e :
  NoDup (pf_addr <$> l1 ++ e :: l2) →
  filter (λ e', pf_addr e' ≠ pf_addr e) (l1 ++ e :: l2) = l1 ++ l2.
Proof.
  rewrite fmap_app, fmap_cons. intros (_ & H1 & H2)%NoDup_app. apply NoDup_cons in H2 as [H2 _].
  assert (∀ l : list packets_fifo, pf_addr e ∉ pf_addr <$> l → filter (λ e', pf_addr e' ≠ pf_addr e) l = l) as Hid.
  { induction l as [|x l IH]; [done|]. rewrite fmap_cons, not_elem_of_cons. intros [? ?].
    rewrite filter_cons_True by done. by rewrite IH. }
  rewrite filter_app, filter_cons_False by (intros Hn; by apply Hn).
  rewrite !Hid; [done|done|]. intros Hin. eapply H1; [done|left].
Qed.

(** ** One verdict *)

(** The packet [e] leaves the queue with the verdict [v]. *)
Definition settled (v : Z) (e : packets_fifo) (w : world) : world :=
  set_w_packets (filter (λ e', pf_addr e' ≠ pf_addr e) (w_packets w))
    (set_w_trace (w_trace w ++ [EvVerdict (pf_id e) v]) (set_w_tick (S (w_tick w)) w)).

Lemma settle_eq v e w :
  e ∈ w_packets w →
  (nfq_set_verdict (pf_id e) v;; packets_list_del (pf_addr e)) w = Ok tt (settled v e w).
Proof.
  intros He. unfold nfq_set_verdict, packets_list_del, ext, emit, modify, mbind, M_bind, mret, M_ret.
  simpl. by rewrite decide_True by by apply list_elem_of_fmap_2.
Qed.

Lemma packet_obj_accept_eq e w :
  e ∈ w_packets w → packet_obj_accept e w = Ok tt (settled NF_ACCEPT e w).
Proof. apply settle_eq. Qed.

Lemma packet_obj_drop_eq e w :
  e ∈ w_packets w → packet_obj_drop e w =
    Ok tt (set_w_stats (stats_incr Stat.packets_dropped (w_stats w)) (settled NF_DROP e w)).
Proof.
  intros He. pose proof (settle_eq NF_DROP e w He) as Hs.
  unfold packet_obj_drop. revert Hs. unfold mbind, M_bind.
  destruct (nfq_set_verdict _ _ w) as [? s|]; [|done]. by intros ->.
Qed.

Lemma settled_ok v e w : world_ok w → world_ok (settled v e w).
Proof.
  intros [[H1 H2 H3 H4 H5 H6 H7] Ht Hq Ha Hb Hd]. split; simpl; try done. split; try done.
  - intros x [_ Hx]%list_elem_of_filter. auto.
  - clear -H5. induction (w_packets w) as [|x l IH]; [constructor|].
    apply NoDup_cons in H5 as [Hx Hl]. rewrite filter_cons. case_decide; [|auto].
    apply NoDup_cons. split; [|auto]. intros (y & Hy & [_ Hin]%list_elem_of_filter)%list_elem_of_fmap.
    apply Hx. rewrite Hy. by apply list_elem_of_fmap_2.
Qed.

Lemma ledger_settled v e w : world_ok w → e ∈ w_packets w → ledger (settled v e w) ≡ₚ ledger w.
Proof.
  intros Hw (l1 & l2 & Heq)%list_elem_of_split. unfold ledger, settled; simpl.
  pose proof (ho_packets_nodup _ _ _ _ _ (wo_heap _ Hw)) as Hnd. rewrite Heq in Hnd |- *.
  rewrite filter_addr_split by done. rewrite verdict_ids_app, <-(assoc_L (++)).
  apply Permutation_app_head. rewrite !fmap_app, fmap_cons. simpl. by rewrite Permutation_middle.
Qed.

Lemma settled_quiet v e w : world_ok w → e ∈ w_packets w → quiet w (settled v e w).
Proof.
  intros Hw He. split; [|done]. split; [|simpl|done..].
  - split; [split|..]; try done; [by apply ledger_settled|by apply logs_event|by eapply in_kernel_event|].
    intros a n _. by apply (entry_event w (settled v e w) (EvVerdict (pf_id e) v)).
  - rewrite sent_app. by rewrite app_nil_r.
Qed.

(** ** The loops *)

(** A loop over the queue that gives the verdict [v] to the entries that satisfy
    [P], maintaining [J]. *)
Lemma for_each_settle (P : packets_fifo → Prop) `{∀ e, Decision (P e)} (J : world → Prop) v body w :
  world_ok w → J w →
  (∀ e w', world_ok w' → quiet w w' → J w' → e ∈ w_packets w' →
     rwp quiet (body e) (λ _ w'', J w'' ∧
       if decide (P e)
       then w_packets w'' = filter (λ e', pf_addr e' ≠ pf_addr e) (w_packets w') ∧
            w_trace w'' = w_trace w' ++ [EvVerdict (pf_id e) v]
       else w_packets w'' = w_packets w' ∧ w_trace w'' = w_trace w') w') →
  rwp quiet (for_each (w_packets w) body) (λ _ w', J w' ∧
    w_packets w' = filter (λ e, ¬ P e) (w_packets w) ∧
    w_trace w' = w_trace w ++ verdicts v (filter P (w_packets w))) w.
Proof.
  intros Hw HJ Hbody.
  apply (rwp_for_each quiet (λ rest w', J w' ∧ ∃ visited, w_packets w = visited ++ rest ∧
    w_packets w' = filter (λ e, ¬ P e) visited ++ rest ∧
    w_trace w' = w_trace w ++ verdicts v (filter P visited))); [done|..].
  - split; [done|]. exists []. by rewrite app_nil_r.
  - intros e rest w' Hw' Hq (HJ' & vis & Hvis & Hp & Ht).
    eapply rwp_mono; [apply Hbody; try done|].
    { rewrite Hp. set_solver. }
    intros [] w'' _ _ [HJ'' Hstep]. split; [done|]. exists (vis ++ [e]).
    split; [by rewrite <-(assoc_L (++))|]. rewrite !filter_app.
    pose proof (ho_packets_nodup _ _ _ _ _ (wo_heap _ Hw')) as Hnd.
    destruct (decide (P e)) as [He|He]; destruct Hstep as [-> ->].
    + rewrite Hp in Hnd |- *. rewrite filter_addr_split by done.
      rewrite (filter_cons_False (λ e, ¬ P e)), (filter_cons_True P) by tauto.
      rewrite !app_nil_r, Ht. split; [done|]. unfold verdicts. by rewrite fmap_app, (assoc_L (++)).
    + rewrite (filter_cons_True (λ e, ¬ P e)), (filter_cons_False P) by tauto.
      rewrite Hp, Ht, app_nil_r. split; [|done]. by rewrite <-(assoc_L (++)).
  - intros w' _ _ (HJ' & vis & -> & -> & ->). by rewrite !app_nil_r.
Qed.

Lemma drop_packets_spec w dest :
  world_ok w →
  rwp quiet (packets_fifo_drop_packets dest) (λ _ w', w_packets w' =
      filter (λ e, ¬ pf_dest e = dest) (w_packets w) ∧
    w_trace w' = w_trace w ++ verdicts NF_DROP (filter (λ e, pf_dest e = dest) (w_packets w)) ∧
    w_routes w' = w_routes w ∧ w_alarms w' = w_alarms w) w.
Proof.
  intros Hw. unfold packets_fifo_drop_packets.
  rwp_read by reflexivity.
  eapply rwp_mono; [apply (for_each_settle (λ e, pf_dest e = dest)
    (λ w', w_routes w' = w_routes w ∧ w_alarms w' = w_alarms w) NF_DROP); [done|done|]|].
  - intros e w' Hw' Hq [HJ1 HJ2] He. case_decide as Hd.
    + rewrite (proj2 (Z.eqb_eq _ _)) by done. simpl.
      eapply rwp_step; [by apply packet_obj_drop_eq| | |done].
      * by apply stats_world_ok, settled_ok.
      * etrans; [by apply (settled_quiet NF_DROP e)|from_inward; apply stats_inward].
    + rewrite (proj2 (Z.eqb_neq _ _)) by done. simpl. by rwp_return.
  - naive_solver.
Qed.

(** *** packets_fifo_process_route *)

(** The state of the loop: [first] is the scratch route allocated in [w]. *)
Definition scratch_state (w w' : world) : Prop :=
  (∃ r, w_routes w' = <[w_brk w := r]> (w_routes w) ∧ rt_updated_cb r = None) ∧
  w_alarms w' = w_alarms (with_new_route w) ∧ w_table w' = w_table w ∧
  w_rreqs w' = w_rreqs w ∧ w_brk w' = Pos.succ (w_brk w).

(** Destroying the scratch route undoes its allocation. *)
Definition without_scratch (w w' : world) : world :=
  set_w_alarms (w_alarms w) (set_w_routes (w_routes w) w').

Lemma destroy_scratch_eq w w' :
  world_ok w → scratch_state w w' → msh_route_destroy (w_brk w) w' = Ok tt (without_scratch w w').
Proof.
  intros Hw ((r & Hr & Hcb) & Ha & _). destruct (brk_free _ Hw) as (Hf & Hb & Hroot & _).
  assert (w_routes w' !! w_brk w = Some r) as Hlk by (rewrite Hr; apply lookup_insert_eq).
  enough (wp (msh_route_destroy (w_brk w)) (λ _ w'', w'' = without_scratch w w') w') as Hwp
    by (apply wp_run in Hwp as ([] & ? & ? & ->); done).
  apply wp_bind, wp_bind, (wp_read_route _ r); [done|]. rewrite Hcb. apply wp_ret.
  apply wp_bind, wp_on_alarms, wp_bind. change (host_alarms w') with (w_alarms w').
  unfold wp at 1, read_block. rewrite Ha. simpl. rewrite lookup_insert_eq. apply wp_ret.
  apply wp_bind, (wp_upd_route _ r); [done|].
  apply wp_bind, wp_modify, wp_on_alarms, wp_modify. simpl.
  rewrite Hr, insert_insert_eq, !delete_insert_id by done. unfold without_scratch. simpl.
  by destruct (w_alarms w).
Qed.

Lemma without_scratch_ok w w' :
  world_ok w → world_ok w' → w_find_route w' = w_find_route w → scratch_state w w' →
  world_ok (without_scratch w w').
Proof.
  intros Hw [Hh Ht Hq Ha Hb Hd] Hf ((r & Hr & Hcb) & Hal & Htab & Hrq & Hbrk).
  destruct Hw as [Hh0 Ht0 _ Ha0 Hb0 _].
  split; simpl; [|by rewrite Htab, Hf|done|done|by rewrite Hrq, Hf|done].
  destruct Hh as [H1 H2 H3 H4 H5 H6 H7]. split; try done.
  - intros a Hs%(ho_routes _ _ _ _ _ Hh0). rewrite Hbrk. lia.
  - intros a n Hs%(ho_handles _ _ _ _ _ Hh0). rewrite Hbrk. lia.
Qed.

Lemma without_scratch_quiet w w' :
  world_ok w → scratch_state w w' → quiet w w' → quiet w (without_scratch w w').
Proof.
  intros Hw ((r & Hr & _) & _ & Ht & _) [[[[? ? Hin ? ? ? ?] ? Hk He ?] ? ? ? ?] ?].
  split; [|done]. split; [|done..]. split; [split; try done|done| | |done].
  - intros Hw'%Hin. unfold in_kernel in *. simpl. eapply kernel_ok_ext; [|exact Hw'].
    intros a Ha. rewrite Ht in Ha. unfold handle. rewrite Hr, lookup_insert_ne; [done|].
    intros <-. destruct (table_live _ _ Hw Ha) as (? & Hl & _). by rewrite (proj1 (brk_free _ Hw)) in Hl.
  - intros a Ha. split; [by apply Hk|done].
  - intros a n Ha Hn. split; [done|]. by apply (He a).
Qed.

Lemma packets_fifo_process_route_spec w route r :
  world_ok w → w_routes w !! route = Some r →
  rwp quiet (packets_fifo_process_route route) (λ _ w',
    w_packets w' = filter (λ e, ¬ pf_dest e = rt_dst_ip r) (w_packets w) ∧
    w_trace w' = w_trace w ++ verdicts NF_ACCEPT (filter (λ e, pf_dest e = rt_dst_ip r) (w_packets w)) ∧
    w_routes w' = w_routes w ∧ w_alarms w' = w_alarms w ∧ w_table w' = w_table w) w.
Proof.
  intros Hw Hr. destruct (brk_free _ Hw) as (Hf & _).
  assert (route ≠ w_brk w) as Hne by congruence.
  unfold packets_fifo_process_route.
  apply wp_bind. rewrite wp_run. eexists _, _. split; [apply msh_route_alloc_eq|].
  pose proof (with_new_route_ok _ Hw) as Hw0. pose proof (with_new_route_quiet _ Hw) as Hq0.
  apply wp_bind, wp_gets, wp_bind. eapply wp_mono.
  - apply (for_each_settle (λ e, pf_dest e = rt_dst_ip r) (scratch_state w) NF_ACCEPT _
      (with_new_route w)); [done| |].
    { split; [|done]. by exists zero_route. }
    intros e w' Hw' Hq ((rf & Hrf & Hcb) & Hal & Htab & Hrq & Hbrk) He.
    assert (w_routes w' !! w_brk w = Some rf) as Hlk by (rewrite Hrf; apply lookup_insert_eq).
    eapply rwp_bind_upd; [apply _..|done|exact Hlk| |].
    { apply dst_ip_step; [|unfold in_table; congruence|by eapply world_route_ok].
      by apply (ho_packets _ _ _ _ _ (wo_heap _ Hw')). }
    set (w1 := set_w_routes _ w'). intros Hw1.
    assert (scratch_state w w1) as HJ.
    { split_and!; [|done..]. exists (set_rt_dst_ip (pf_dest e) rf). simpl.
      by rewrite Hrf, insert_insert_eq. }
    rwp_read by (apply (msh_route_compare_eq _ _ _ (set_rt_dst_ip (pf_dest e) rf) r);
      [done|simpl; apply lookup_insert_eq|simpl; rewrite lookup_insert_ne by done;
       rewrite Hrf, lookup_insert_ne; done]).
    simpl. case_decide as Hd.
    + rewrite (proj2 (Z.eqb_eq (pf_dest e) (rt_dst_ip r))) by done. simpl.
      eapply rwp_step; [by apply packet_obj_accept_eq|by apply settled_ok|by apply settled_quiet|].
      split; [exact HJ|done].
    + rewrite (proj2 (Z.eqb_neq (pf_dest e) (rt_dst_ip r))) by done. simpl. by rwp_return.
  - intros [] w' (Hw' & Hq & HJ & Hp & Htr). unfold wp. erewrite destroy_scratch_eq by done.
    assert (quiet w w') as Hqw by by etrans.
    split_and!; try done.
    + apply without_scratch_ok; [done|done| |done]. apply Hqw.
    + by apply without_scratch_quiet.
    + apply HJ.
Qed.
(** ** The end of the queue *)

Lemma packets_fifo_delete_spec w :
  NoDup (pf_addr <$> w_packets w) →
  wp packets_fifo_delete (λ _ w', w_packets w' = [] ∧ w_trace w' = w_trace w ++ verdicts NF_DROP (w_packets w) ∧
    w_data w' = w_data w ∧ w_table w' = w_table w ∧ w_routes w' = w_routes w ∧ w_rreqs w' = w_rreqs w ∧
    w_rreq_queue w' = w_rreq_queue w) w.
Proof.
  intros Hnd. unfold packets_fifo_delete. apply wp_bind, wp_gets.
  apply (wp_for_each (λ pre l w', w_packets w' = l ∧ w_trace w' = w_trace w ++ verdicts NF_DROP pre ∧
    w_data w' = w_data w ∧ w_table w' = w_table w ∧ w_routes w' = w_routes w ∧ w_rreqs w' = w_rreqs w ∧
    w_rreq_queue w' = w_rreq_queue w)).
  - by rewrite app_nil_r.
  - intros pre e l w' Hl (Hp & Ht & Hrest). unfold wp. rewrite packet_obj_drop_eq by (rewrite Hp; left).
    simpl. pose proof (filter_addr_split [] l e) as Hf. simpl in Hf. rewrite Hp, Hf.
    + split; [done|]. split; [|done]. rewrite Ht, <-(assoc_L (++)). unfold verdicts. by rewrite fmap_app.
    + rewrite Hl, fmap_app in Hnd. by apply NoDup_app in Hnd as (_ & _ & Hnd).
  - done.
Qed.

End packets_specs.
