(* ===== verification/PacketListSpec.v ===== *)
(** * The packet queue on its nodes implements its sequence

    The functions of packets_fifo.c on the memory of the nodes ([PacketList]) do what the
    functions on the sequence of entries ([PacketsFifo]) do: the memory holds the list of the
    entries and nothing else, a freed node is never read, and what the loops call in the
    rest of the program does not see the queue ([Blind]). *)

From S2P Require Export PacketList PacketsFifoSpec ListState Blind.

(** ** The sequence of packets *)

#[export] Instance packets_hidden : Hidden (list packets_fifo) := {
  hide := set_w_packets;
  seen := w_packets }.
#[export] Instance packets_hidden_laws : HiddenLaws (list packets_fifo).
Proof. by repeat split. Qed.
#[export] Instance packets_hidden_routes : HiddenRoutes (list packets_fifo).
Proof. by repeat split. Qed.
#[export] Instance packets_hidden_table : HiddenTable (list packets_fifo).
Proof. by repeat split. Qed.

Notation Blind := (Blind (list packets_fifo)).

(** ** The memory of a queue *)

(** What the entries hold besides their nodes. *)
Definition packet_bodies (es : list packets_fifo) : gmap addr (Z * Z) :=
  list_to_map ((λ e, (pf_addr e, (pf_id e, pf_dest e))) <$> es).

Lemma packet_bodies_filter a es :
  packet_bodies (filter (λ e, pf_addr e ≠ a) es) = delete a (packet_bodies es).
Proof.
  unfold packet_bodies. induction es as [|e es IH]; simpl; [by rewrite delete_empty|].
  rewrite filter_cons. case_decide as He; simpl; rewrite IH.
  - by rewrite delete_insert_ne.
  - destruct (decide (pf_addr e = a)) as [->|]; [|done]. by rewrite delete_insert_eq.
Qed.

Lemma packet_bodies_lookup es e :
  NoDup (pf_addr <$> es) → e ∈ es → packet_bodies es !! pf_addr e = Some (pf_id e, pf_dest e).
Proof.
  intros Hnd He. apply elem_of_list_to_map_1.
  - rewrite -list_fmap_compose. exact Hnd.
  - apply list_elem_of_fmap. by exists e.
Qed.

Lemma addrs_filter a (es : list packets_fifo) :
  pf_addr <$> filter (λ e, pf_addr e ≠ a) es = unlink a (pf_addr <$> es).
Proof.
  unfold unlink. induction es as [|e es IH]; [done|]. rewrite fmap_cons !filter_cons. by repeat case_decide; rewrite ?fmap_cons ?IH.
Qed.

(** The memory [Q] holds the queue at [head] with the entries of [w], nothing else, and the
    rest of [w]. *)
Record queue_rel (head : addr) (Q : packet_nodes) (w : world) : Prop := {
  qr_list : is_list (pn_links Q) head (pf_addr <$> w_packets w);
  qr_links x m : is_Some (pn_links Q !! (x, m)) → x ∈ head :: (pf_addr <$> w_packets w);
  qr_bodies : pn_bodies Q = <[head := (0, 0)]> (packet_bodies (w_packets w));
  qr_brk x : x ∈ head :: (pf_addr <$> w_packets w) → (x < w_brk w)%positive;
  qr_world : pn_world Q = set_w_packets [] w }.

Section simulation.
Context `{E : Env}.
Implicit Types (w : world) (Q : packet_nodes) (head a : addr).

(** What does not see the queue. *)
Lemma simulated_blind {X} head (m : M world X) `{!Blind m} Q w :
  queue_rel head Q w → simulated (queue_rel head) (on_world m) m Q w.
Proof.
  intros [Hl Hd Hb Hk Hw]. unfold simulated. pose proof (blind [] w) as Hm. destruct (m w) as [x w1|]; [|done].
  destruct Hm as (Heq & Hp & Hbrk). cbn [hide seen packets_hidden] in Heq, Hp. unfold wp, on_world. rewrite Hw Heq. split; [done|].
  split; simpl; rewrite ?Hp; [done..| |done]. intros y Hy. specialize (Hk y Hy). lia.
Qed.

Lemma queue_rel_nodup head Q w : queue_rel head Q w → head ∉ pf_addr <$> w_packets w ∧ NoDup (pf_addr <$> w_packets w).
Proof. intros [[_ Hnd] _ _ _ _]. by apply NoDup_cons in Hnd. Qed.

Lemma wp_read_packet head Q w e (P : Z * Z → packet_nodes → Prop) :
  queue_rel head Q w → e ∈ w_packets w → P (pf_id e, pf_dest e) Q → wp (read_packet (pf_addr e)) P Q.
Proof.
  intros HQ He HP. destruct (queue_rel_nodup _ _ _ HQ) as [Hh Hnd]. unfold read_packet, wp.
  rewrite (qr_bodies _ _ _ HQ) lookup_insert_ne.
  - by rewrite packet_bodies_lookup.
  - intros ->. by apply Hh, list_elem_of_fmap_2.
Qed.

(** [list_del] and [free] of an entry. *)
Lemma unlink_packet_spec head Q w e :
  queue_rel head Q w → e ∈ w_packets w →
  wp (on_links (list_del (pf_addr e));; free_packet (pf_addr e)) (λ _ Q',
    queue_rel head Q' (set_w_packets (filter (λ e', pf_addr e' ≠ pf_addr e) (w_packets w)) w)) Q.
Proof.
  intros HQ He. destruct (queue_rel_nodup _ _ _ HQ) as [Hh Hnd]. destruct HQ as [Hl Hd Hb Hk Hw].
  assert (pf_addr e ∈ pf_addr <$> w_packets w) as Hin by by apply list_elem_of_fmap_2.
  assert (head ≠ pf_addr e) as Hne by (by intros ->).
  apply wp_bind, wp_on_links. eapply wp_mono; [by apply (list_del_state _ head)|].
  intros _ links (Hl' & _ & _ & Hout). unfold free_packet, read_packet. apply wp_bind. unfold wp at 1.
  cbn [pn_bodies host_set_links packet_list_host]. rewrite Hb lookup_insert_ne // packet_bodies_lookup //=.
  unfold wp, modify. split; cbn [pn_links pn_bodies pn_world w_packets set_w_packets host_set_links packet_list_host];
    rewrite ?addrs_filter.
  - eapply is_list_ext; [|exact Hl']. intros x m Hx. rewrite freed_links decide_False //.
    intros ->. apply elem_of_cons in Hx as [?|[? _]%elem_of_unlink]; done.
  - intros x m. rewrite freed_links. case_decide as Hxe; [by intros [? ?]|]. intros Hx.
    rewrite elem_of_cons elem_of_unlink.
    assert (x ∈ head :: (pf_addr <$> w_packets w)) as [?|?]%elem_of_cons; [|by left|by right].
    destruct (decide (x ∈ head :: (pf_addr <$> w_packets w))) as [|Hnx]; [done|].
    apply (Hd x m). by rewrite -Hout.
  - by rewrite packet_bodies_filter delete_insert_ne.
  - intros x Hx. apply Hk. rewrite elem_of_cons elem_of_unlink in Hx. rewrite elem_of_cons. tauto.
  - by rewrite Hw.
Qed.

(** ** The operations *)

Lemma simulated_blind_bind {X Y} head (m : M world X) `{!Blind m} (k' : X → M packet_nodes Y) k Q w :
  queue_rel head Q w →
  (∀ x Q1 w1, w_packets w1 = w_packets w → queue_rel head Q1 w1 → simulated (queue_rel head) (k' x) (k x) Q1 w1) →
  simulated (queue_rel head) (on_world m ≫= k') (m ≫= k) Q w.
Proof.
  intros HQ Hk. apply simulated_bind; [by apply simulated_blind|]. intros x Q1 w1 Hm HQ1.
  pose proof (blind (m:=m) [] w) as Hb. rewrite Hm in Hb. apply Hk; [apply Hb|done].
Qed.

Lemma simulated_read_bind {Y} head (k' : Z * Z → M packet_nodes Y) m e Q w :
  queue_rel head Q w → e ∈ w_packets w → simulated (queue_rel head) (k' (pf_id e, pf_dest e)) m Q w →
  simulated (queue_rel head) (obj ← read_packet (pf_addr e); k' obj) m Q w.
Proof.
  intros HQ He. unfold simulated. destruct (m w) as [x w1|]; [|done]. intros Hk.
  apply wp_bind. by eapply wp_read_packet.
Qed.

(** The entry goes, and the program goes on. *)
Lemma unlink_simulated {X} head (k' : M packet_nodes X) (k : M world X) e Q w :
  queue_rel head Q w → e ∈ w_packets w →
  (∀ Q1 w1, queue_rel head Q1 w1 → simulated (queue_rel head) k' k Q1 w1) →
  simulated (queue_rel head) (on_links (list_del (pf_addr e));; free_packet (pf_addr e);; k')
    (packets_list_del (pf_addr e);; k) Q w.
Proof.
  intros HQ He Hk. unfold simulated. unfold mbind at 1, M_bind at 1, packets_list_del.
  rewrite decide_True; [|by apply list_elem_of_fmap_2]. cbv beta iota.
  set (w1 := set_w_packets _ w). pose proof (unlink_packet_spec _ _ _ _ HQ He) as Hu. fold w1 in Hu.
  destruct (k w1) as [y w2|] eqn:Hkw; [|done].
  apply wp_run in Hu as ([] & Q1 & Heq & HQ1). specialize (Hk Q1 w1 HQ1). unfold simulated in Hk. rewrite Hkw in Hk.
  revert Heq. unfold mbind, M_bind, wp. destruct (on_links _ Q) as [[] Q2|]; [|done]. intros ->. exact Hk.
Qed.

Lemma accept_simulated head e Q w : queue_rel head Q w → e ∈ w_packets w →
  simulated (queue_rel head) (PacketList.packet_obj_accept (pf_addr e)) (PacketsFifo.packet_obj_accept e) Q w.
Proof.
  intros HQ He. apply simulated_read_bind; [done..|]. apply simulated_blind_bind; [apply _|done|].
  intros _ Q1 w1 Hp HQ1. rewrite -Hp in He.
  pose proof (unlink_packet_spec _ _ _ _ HQ1 He) as Hu. unfold simulated, packets_list_del.
  rewrite decide_True; [|by apply list_elem_of_fmap_2]. eapply wp_mono; [exact Hu|]. by intros [].
Qed.

Lemma drop_simulated head e Q w : queue_rel head Q w → e ∈ w_packets w →
  simulated (queue_rel head) (PacketList.packet_obj_drop (pf_addr e)) (PacketsFifo.packet_obj_drop e) Q w.
Proof.
  intros HQ He. apply simulated_read_bind; [done..|]. apply simulated_blind_bind; [apply _|done|].
  intros _ Q1 w1 Hp HQ1. rewrite -Hp in He. apply unlink_simulated; [done..|].
  intros Q2 w2 HQ2. by apply simulated_blind.
Qed.

Lemma accept_unlinks e w w' : PacketsFifo.packet_obj_accept e w = Ok tt w' → unlinks_at_most w_packets pf_addr e w w'.
Proof.
  unfold PacketsFifo.packet_obj_accept, nfq_set_verdict, packets_list_del, mbind, M_bind, ext, emit, modify, mret, M_ret.
  simpl. case_decide; [|done]. intros [= <-]. by right.
Qed.
Lemma drop_unlinks e w w' : PacketsFifo.packet_obj_drop e w = Ok tt w' → unlinks_at_most w_packets pf_addr e w w'.
Proof.
  unfold PacketsFifo.packet_obj_drop, nfq_set_verdict, packets_list_del, mbind, M_bind, ext, emit, modify, mret, M_ret.
  simpl. case_decide; [|done]. intros [= <-]. by right.
Qed.

Lemma blind_then {X Y} (m : M world X) `{!Blind m} (k : X → M world Y) w y w' :
  (m ≫= k) w = Ok y w' → ∃ x w1, w_packets w1 = w_packets w ∧ k x w1 = Ok y w'.
Proof.
  unfold mbind, M_bind. pose proof (blind (m:=m) [] w) as Hb. destruct (m w) as [x w1|]; [|done].
  intros Hk. exists x, w1. split; [apply Hb|done].
Qed.

Lemma drop_packets_simulated head dest Q w : queue_rel head Q w →
  simulated (queue_rel head) (PacketList.packets_fifo_drop_packets head dest) (PacketsFifo.packets_fifo_drop_packets dest) Q w.
Proof.
  intros HQ. apply (loop_simulated (Host:=packet_list_host) _ head w_packets pf_addr (qr_list head)); [| |done].
  - intros e Q1 w1 HQ1 He. apply simulated_read_bind; [done..|]. unfold when. simpl.
    destruct (pf_dest e =? dest); [by apply drop_simulated|]. apply wp_ret. by split.
  - intros e w1 w2. unfold when. case_match; [apply drop_unlinks|]. intros [= <-]. by left.
Qed.

Lemma process_route_simulated head route Q w : queue_rel head Q w →
  simulated (queue_rel head) (PacketList.packets_fifo_process_route head route) (PacketsFifo.packets_fifo_process_route route) Q w.
Proof.
  intros HQ. apply simulated_blind_bind; [apply _|done|]. intros first Q1 w1 _ HQ1.
  apply (simulated_bind (queue_rel head) _ (for_each (w_packets w1) _)); [apply (loop_simulated (Host:=packet_list_host) _ head w_packets pf_addr (qr_list head)); [| |done]|].
  - intros e Q2 w2 HQ2 He. apply simulated_read_bind; [done..|].
    apply simulated_blind_bind; [apply _|done|]. intros [] Q3 w3 Hp3 HQ3.
    apply simulated_blind_bind; [apply _|done|]. intros diff Q4 w4 Hp4 HQ4. unfold when.
    destruct (diff =? 0); [apply accept_simulated; [done|congruence]|]. apply wp_ret. by split.
  - intros e w2 w5 (? & w3 & Hp3 & (diff & w4 & Hp4 & Hk)%blind_then)%blind_then; [|apply _..].
    unfold unlinks_at_most. rewrite -Hp3 -Hp4. unfold when in Hk. destruct (diff =? 0); [by apply accept_unlinks|].
    injection Hk as <-. by left.
  - intros [] Q2 w2 _ HQ2. by apply (simulated_blind head (msh_route_destroy first)).
Qed.

Lemma is_empty_simulated head Q w : queue_rel head Q w →
  simulated (queue_rel head) (PacketList.packets_fifo_is_empty head) PacketsFifo.packets_fifo_is_empty Q w.
Proof.
  intros HQ. pose proof (qr_list _ _ _ HQ) as Hl. unfold simulated. simpl.
  apply wp_on_links. eapply wp_mono; [by apply list_empty_state|]. intros r ls [-> ->].
  split; [|by destruct Q]. apply bool_decide_ext. by destruct (w_packets w).
Qed.

(** ** Memory that comes and goes *)

Lemma wp_calloc_packet Q (P : addr → packet_nodes → Prop) :
  (let a := w_brk (pn_world Q) in
   P a (PacketNodes (<[(a, m_next) := NULL]> (<[(a, m_prev) := NULL]> (pn_links Q)))
          (<[a := (0, 0)]> (pn_bodies Q)) (set_w_brk (Pos.succ a) (pn_world Q)))) →
  wp calloc_packet P Q.
Proof. done. Qed.

Lemma packets_fifo_alloc_spec w : w_packets w = [] →
  wp PacketList.packets_fifo_alloc (λ head Q', ∃ w', fresh_addr w = Ok head w' ∧ queue_rel head Q' w') (PacketNodes ∅ ∅ w).
Proof.
  intros Hp. apply wp_bind, wp_calloc_packet. cbn [pn_links pn_bodies pn_world]. set (a := w_brk w).
  apply wp_bind, wp_on_links. unfold INIT_LIST_HEAD, put, get, modify, wp, mbind, M_bind. cbn [host_links packet_list_host pn_links].
  rewrite lookup_insert_eq /= lookup_insert_ne // lookup_insert_ne // lookup_insert_eq /=.
  eexists. split; [reflexivity|]. split; cbn [pn_links pn_bodies pn_world w_packets set_w_brk]; rewrite ?Hp.
  - split; [|apply NoDup_singleton]. split; [by rewrite lookup_insert_ne // lookup_insert_eq|by rewrite lookup_insert_eq].
  - intros x m. rewrite fmap_nil list_elem_of_singleton. intros [v Hv].
    rewrite !lookup_insert_Some lookup_empty in Hv. naive_solver.
  - done.
  - intros x ->%list_elem_of_singleton. simpl. lia.
  - by destruct w; simplify_eq/=.
Qed.

Lemma push_simulated head id dest Q w : queue_rel head Q w →
  simulated (queue_rel head) (PacketList.packets_fifo_push head id dest) (PacketsFifo.packets_fifo_push id dest) Q w.
Proof.
  intros [Hl Hd Hb Hk Hw]. unfold simulated. simpl. apply wp_bind, wp_calloc_packet. rewrite Hw.
  cbn [w_brk set_w_packets]. set (a := w_brk w).
  assert (a ∉ head :: (pf_addr <$> w_packets w)) as Ha by (intros Hin%Hk; unfold a in Hin; lia).
  apply wp_bind. unfold write_packet, read_packet, modify, wp at 1, mbind at 1, M_bind at 1.
  cbn [pn_bodies]. rewrite lookup_insert_eq /=.
  apply wp_on_links. cbn [host_links packet_list_host pn_links].
  eapply wp_mono; [apply (list_add_state _ head (pf_addr <$> w_packets w)); [| |done]|].
  - eapply is_list_ext; [|exact Hl]. intros x m Hx.
    rewrite !lookup_insert_ne; [done|intros Heq; apply Ha; by injection Heq as ->..].
  - split; eexists; [by rewrite lookup_insert_eq|by rewrite lookup_insert_ne // lookup_insert_eq].
  - intros [] links [Hl' Hout]. split; [done|].
    split; cbn [pn_links pn_bodies pn_world host_set_links packet_list_host w_packets set_w_packets set_w_brk w_brk fmap list_fmap pf_addr].
    + exact Hl'.
    + intros x m Hx. destruct (decide (x ∈ a :: head :: (pf_addr <$> w_packets w))) as [Hin|Hnin]; [set_solver|].
      rewrite Hout // in Hx. apply not_elem_of_cons in Hnin as [Hne Hnin].
      rewrite !lookup_insert_ne in Hx; [|congruence..]. by destruct Hnin; apply (Hd x m).
    + rewrite insert_insert_eq Hb. unfold packet_bodies. simpl. rewrite insert_insert_ne //. set_solver.
    + intros x Hx. assert (x = a ∨ x ∈ head :: (pf_addr <$> w_packets w)) as [->|Hx'%Hk] by set_solver;
        unfold a; lia.
    + done.
Qed.

(** The memory of a queue without entries is gone with its head. *)
Lemma free_queue_spec head Q w : queue_rel head Q w → w_packets w = [] →
  wp (free_packet head) (λ _ Q', Q' = PacketNodes ∅ ∅ w) Q.
Proof.
  intros [Hl Hd Hb Hk Hw] Hp. rewrite Hp in Hd Hb. unfold free_packet, read_packet, modify, wp, mbind, M_bind.
  rewrite Hb lookup_insert_eq /=. f_equal.
  - apply (map_eq (M:=gmap (addr * member))). intros [x m]. rewrite freed_links lookup_empty. case_decide as Hx; [done|].
    destruct (pn_links Q !! (x, m)) eqn:Hlk; [|done].
    destruct Hx. apply list_elem_of_singleton, (Hd x m). by rewrite Hlk.
  - by rewrite Hb delete_insert_eq delete_empty.
  - rewrite Hw. by destruct w; simplify_eq/=.
Qed.

Lemma delete_implements head Q w : queue_rel head Q w →
  ∃ w', PacketsFifo.packets_fifo_delete w = Ok tt w' ∧ w_packets w' = [] ∧
    PacketList.packets_fifo_delete head Q = Ok tt (PacketNodes ∅ ∅ w').
Proof.
  intros HQ. destruct (queue_rel_nodup _ _ _ HQ) as [_ Hnd].
  pose proof (packets_fifo_delete_spec w Hnd) as Hdel. apply wp_run in Hdel as ([] & w' & Hdel & Hp & _).
  exists w'. split; [done|]. split; [done|].
  pose proof (loop_simulated (Host:=packet_list_host) _ head w_packets pf_addr (qr_list head)
    PacketList.packet_obj_drop PacketsFifo.packet_obj_drop Q w
    (drop_simulated head) drop_unlinks HQ) as Hloop.
  unfold simulated in Hloop. change (for_each _ _ w) with (PacketsFifo.packets_fifo_delete w) in Hloop. rewrite Hdel in Hloop.
  apply wp_run in Hloop as ([] & Q1 & Hrun & _ & HQ1).
  pose proof (free_queue_spec _ _ _ HQ1 Hp) as Hfree. apply wp_run in Hfree as ([] & Q2 & Hfree & ->).
  unfold PacketList.packets_fifo_delete. by rewrite (bind_eq _ _ _ _ _ Hrun).
Qed.
End simulation.
