(* ===== verification/RoutingTableSpec.v ===== *)
(** * The routing table is a finite map

    [table_lookup] is what the table promises: at most one route per destination.
    The list code of routing_table.c implements it, and its operations keep the
    invariant. *)

From S2P Require Export PacketsFifoSpec.

Section table_specs.
Context `{E : Env} {EO : EnvOk E}.
Implicit Types w : world.

(** ** The abstract lookup *)

Definition goes_to (ip : Z) (w : world) (a : addr) : Prop :=
  rt_dst_ip <$> w_routes w !! a = Some ip.
#[export] Instance goes_to_dec ip w a : Decision (goes_to ip w a).
Proof. unfold goes_to. apply _. Defined.

Definition table_lookup (w : world) (ip : Z) : option addr :=
  head (filter (goes_to ip w) (w_table w)).

Lemma table_lookup_Some w ip a :
  world_ok w → table_lookup w ip = Some a ↔ a ∈ w_table w ∧ goes_to ip w a.
Proof.
  intros Hw. unfold table_lookup.
  assert (∀ x, x ∈ filter (goes_to ip w) (w_table w) ↔ goes_to ip w x ∧ x ∈ w_table w) as Hin
    by (intros; apply list_elem_of_filter).
  destruct (filter _ _) as [|b l] eqn:Hf; simpl.
  - specialize (Hin a). set_solver.
  - destruct (proj1 (Hin b)) as [Hgb Hb]; [left|]. split; [by intros [= <-]|].
    intros [Ha Hga]. f_equal. unfold goes_to in *.
    apply fmap_Some in Hga as (ra & Hra & ->). apply fmap_Some in Hgb as (rb & Hrb & Heq).
    by eapply (to_unique _ _ _ (wo_table _ Hw)).
Qed.

Lemma table_lookup_None w ip :
  table_lookup w ip = None ↔ ∀ a, a ∈ w_table w → ¬ goes_to ip w a.
Proof.
  unfold table_lookup.
  assert (∀ x, x ∈ filter (goes_to ip w) (w_table w) ↔ goes_to ip w x ∧ x ∈ w_table w) as Hin
    by (intros; apply list_elem_of_filter).
  destruct (filter _ _) as [|b l]; simpl.
  - split; [|done]. intros _ a Ha Hg. specialize (Hin a). set_solver.
  - split; [done|]. intros Hno. destruct (proj1 (Hin b)) as [Hgb Hb]; [left|]. by destruct (Hno b).
Qed.

(** The lookup depends on the list and the destinations of its entries only. *)
Lemma table_lookup_ext w w' ip :
  w_table w' = w_table w →
  (∀ a, a ∈ w_table w → rt_dst_ip <$> w_routes w' !! a = rt_dst_ip <$> w_routes w !! a) →
  table_lookup w' ip = table_lookup w ip.
Proof.
  intros Ht Hr. unfold table_lookup. rewrite Ht. f_equal. apply filter_ext_in.
  intros a Ha. unfold goes_to. by rewrite Hr.
Qed.

Lemma table_lookup_usable w ip a : world_ok w → table_lookup w ip = Some a → usable w a.
Proof. intros Hw [Ha _]%table_lookup_Some; [|done]. by apply table_usable. Qed.

(** A route in the table stays the route to its destination, and only a route to [d]
    can be new after [learns d]. *)
Lemma stable_lookup w w' ip a :
  world_ok w → world_ok w' → stable w w' → table_lookup w ip = Some a → table_lookup w' ip = Some a.
Proof.
  intros Hw Hw' Hst. rewrite !table_lookup_Some by done. intros [Ha Hg].
  apply (st_kept _ _ Hst) in Ha as [Ha Heq]. split; [done|]. unfold goes_to. by rewrite Heq.
Qed.

Lemma learns_lookup d w w' ip :
  world_ok w → world_ok w' → learns d w w' → ip ≠ d → table_lookup w' ip = table_lookup w ip.
Proof.
  intros Hw Hw' [Hq _ Ht _] Hne. assert (stable w w') as Hst by by from_quiet.
  destruct (table_lookup w ip) as [a|] eqn:Hl; [eapply stable_lookup; [exact Hw|exact Hw'|exact Hst|exact Hl]|].
  rewrite table_lookup_None in Hl |- *. intros a Ha. unfold goes_to. intros Hg.
  destruct (Ht a Ha) as [Hin|Hd]; [|rewrite Hg in Hd; congruence].
  apply (Hl a Hin). unfold goes_to. rewrite <-Hg. symmetry. by apply (st_kept _ _ Hst).
Qed.

Lemma local_lookup d w w' ip :
  world_ok w → world_ok w' → local d w w' → table_lookup w' ip = table_lookup w ip.
Proof.
  intros Hw Hw' [Hq Ht _ _]. apply table_lookup_ext; [done|]. intros a Ha.
  by apply (st_kept w w'); [by from_quiet|].
Qed.

(** The table's route to [ip] and where it leads. *)
Definition route_to (w : world) (ip : Z) : option msh_route :=
  a ← table_lookup w ip; w_routes w !! a.
Definition hop_to (w : world) (ip : Z) : option Z := rt_next_hop <$> route_to w ip.

Lemma hop_to_lookup w ip a :
  table_lookup w ip = Some a → hop_to w ip = rt_next_hop <$> w_routes w !! a.
Proof. intros Ha. unfold hop_to, route_to. by rewrite Ha. Qed.

Lemma hop_to_kept w w' ip :
  world_ok w → table_lookup w' ip = table_lookup w ip →
  (∀ a, a ∈ w_table w → goes_to ip w a → hop_kept w w' a) → hop_to w' ip = hop_to w ip.
Proof.
  intros Hw Hl Hk. unfold hop_to, route_to. rewrite Hl.
  destruct (table_lookup w ip) as [a|] eqn:Ha; [|done]. simpl.
  apply table_lookup_Some in Ha as [Ha Hg]; [|done]. by apply Hk.
Qed.

Lemma learns_hop_to d w w' ip :
  world_ok w → world_ok w' → learns d w w' → ip ≠ d → hop_to w' ip = hop_to w ip.
Proof.
  intros Hw Hw' Hle Hne. apply hop_to_kept; [done|by apply (learns_lookup d)|].
  intros a Ha Hg. apply Hle; [done|]. unfold goes_to in Hg. congruence.
Qed.

Lemma local_hop_to d w w' ip :
  world_ok w → world_ok w' → local d w w' → ip ≠ d → hop_to w' ip = hop_to w ip.
Proof. intros Hw Hw' Hl. by apply learns_hop_to; [..|by apply local_learns]. Qed.

(** ** The lookup of the code *)

Lemma find_in_eq w route r entries :
  world_ok w → w_routes w !! route = Some r → (∀ a, a ∈ entries → a ∈ w_table w) →
  find_in entries route RTFIND_BY_DEST_LONGEST_PREFIX_MATCHING w =
    Ok (head (filter (goes_to (rt_dst_ip r) w) entries)) w.
Proof.
  intros Hw Hr. induction entries as [|a l IH]; intros Hin; [done|].
  destruct (table_live w a Hw) as (ra & Hra & _); [apply Hin; left|].
  simpl. unfold mbind at 1, M_bind at 1. erewrite msh_route_compare_eq by done.
  assert (goes_to (rt_dst_ip r) w a ↔ rt_dst_ip r = rt_dst_ip ra) as Hiff.
  { unfold goes_to. rewrite Hra. simpl. split; congruence. }
  destruct (Z.eqb_spec (rt_dst_ip r) (rt_dst_ip ra)) as [Heq|Hneq]; simpl.
  - by rewrite filter_cons_True by tauto.
  - rewrite filter_cons_False by tauto. apply IH. set_solver.
Qed.

Lemma routing_table_find_eq w route r :
  world_ok w → w_routes w !! route = Some r →
  routing_table_find route RTFIND_BY_DEST_LONGEST_PREFIX_MATCHING w =
    Ok (table_lookup w (rt_dst_ip r)) w.
Proof.
  intros Hw Hr. unfold routing_table_find, mbind, M_bind, gets. by eapply find_in_eq.
Qed.

(** Nothing is compared, so that the first route is found. *)
Lemma routing_table_del_eq route w :
  w_table w ≠ [] → routing_table_del route w = Ok 1 w.
Proof.
  intros Ht. unfold routing_table_del, routing_table_find, mbind, M_bind, gets, find_in.
  by destruct (w_table w).
Qed.

(** The state after a lookup: the scratch route has the address looked up. *)
Definition with_find_ip (ip : Z) (w : world) : world :=
  set_w_routes (alter (set_rt_dst_ip ip) (w_find_route w) (w_routes w)) w.

Lemma with_find_ip_eq ip w r :
  w_routes w !! w_find_route w = Some r →
  with_find_ip ip w = set_w_routes (<[w_find_route w := set_rt_dst_ip ip r]> (w_routes w)) w.
Proof.
  intros Hr. unfold with_find_ip. f_equal. apply map_eq. intros i.
  destruct (decide (i = w_find_route w)) as [->|Hne].
  - by rewrite lookup_alter_eq, lookup_insert_eq, Hr.
  - by rewrite lookup_alter_ne, lookup_insert_ne by done.
Qed.

Lemma with_find_ip_ok ip w : world_ok w → is_u32 ip → world_ok (with_find_ip ip w).
Proof.
  intros Hw Hip. destruct (find_route_live _ Hw) as (r & Hr & Hni).
  erewrite with_find_ip_eq by done. eapply upd_route_world_ok; [done..|].
  apply dst_ip_step; [done|done|by eapply world_route_ok].
Qed.

Lemma with_find_ip_inward ip w : world_ok w → inward w (with_find_ip ip w).
Proof.
  intros Hw. destruct (find_route_live _ Hw) as (r & Hr & Hni).
  erewrite with_find_ip_eq by done. by eapply upd_route_inward.
Qed.

Lemma with_find_ip_other ip w a :
  a ≠ w_find_route w → w_routes (with_find_ip ip w) !! a = w_routes w !! a.
Proof. intros. simpl. by rewrite lookup_alter_ne. Qed.

Lemma with_find_ip_lookup ip w ip' :
  world_ok w → table_lookup (with_find_ip ip w) ip' = table_lookup w ip'.
Proof.
  intros Hw. apply table_lookup_ext; [done|]. intros a Ha. rewrite with_find_ip_other; [done|].
  intros ->. by apply (find_route_not_in_table w).
Qed.

Lemma routing_table_find_by_ip_eq ip w :
  world_ok w → is_u32 ip →
  routing_table_find_by_ip ip w = Ok (table_lookup w ip) (with_find_ip ip w).
Proof.
  intros Hw Hip. destruct (find_route_live _ Hw) as (r & Hr & Hni).
  pose proof (with_find_ip_ok ip w Hw Hip) as Hw1.
  unfold routing_table_find_by_ip, msh_route_set_dst_ip, mbind, M_bind, gets.
  rewrite (upd_route_eq _ _ _ _ Hr), <-(with_find_ip_eq ip w r) by done.
  rewrite (routing_table_find_eq _ _ (set_rt_dst_ip ip r)); [|done|].
  - by rewrite with_find_ip_lookup.
  - rewrite (with_find_ip_eq ip w r) by done. simpl. apply lookup_insert_eq.
Qed.

(** Continuing after a lookup. *)
Lemma rwp_bind_find R `{!PreOrder R, !Finer inward R} {B} (k : option addr → M world B) Q w ip :
  world_ok w → is_u32 ip →
  (world_ok (with_find_ip ip w) → rwp R (k (table_lookup w ip)) Q (with_find_ip ip w)) →
  rwp R (routing_table_find_by_ip ip ≫= k) Q w.
Proof.
  intros Hw Hip Hk. pose proof (with_find_ip_ok ip w Hw Hip).
  eapply rwp_bind_step; [apply _|by apply routing_table_find_by_ip_eq|done| |by apply Hk].
  by from_inward; apply with_find_ip_inward.
Qed.

(** ** Keeping routes alive *)

Lemma with_find_ip_timers w w' ip : route_timers w w' → route_timers w (with_find_ip ip w').
Proof. intros [H1 H2]. by split. Qed.

Lemma next_hop_u32 w a r : world_ok w → w_routes w !! a = Some r → is_u32 (rt_next_hop r).
Proof. intros Hw Hr. apply (world_route_ok _ _ _ Hw Hr). Qed.

Lemma refresh_route_spec w a ip :
  world_ok w → usable w a → rwp inward (refresh_route a ip) (λ _, route_timers w) w.
Proof.
  intros Hw Ha. unfold refresh_route.
  rwp_then set_lifetime_spec; [done..|]. intros [] w1 Hw1 HR1 Htm.
  assert (usable w1 a) as [[r Hr] _] by by eapply usable_inward.
  rwp_read by apply get_eq.
  apply rwp_when; [apply _|done| |done]. intros _.
  apply rwp_bind_find; [apply _..|done|by eapply next_hop_u32|]. intros Hw2.
  destruct (table_lookup _ _) as [h|] eqn:Hh; [|rwp_return; by apply with_find_ip_timers].
  eapply rwp_mono; [apply set_lifetime_spec; [done|]|].
  - eapply usable_inward; [by apply with_find_ip_inward|by eapply table_lookup_usable].
  - intros [] w3 _ _ Htm3. etrans; [by apply with_find_ip_timers|exact Htm3].
Qed.

Lemma refresh_orig_spec w ip :
  world_ok w → is_u32 ip →
  rwp inward (refresh_orig ip) (λ _ w', route_timers w w' ∧ (ip = 0 → w_alarms w' = w_alarms w)) w.
Proof.
  intros Hw Hip. unfold refresh_orig. apply rwp_when; [apply _|done| |done]. intros Hne%negb_true_iff%Z.eqb_neq.
  apply rwp_bind_find; [apply _..|done|done|]. intros Hw2.
  destruct (table_lookup _ _) as [h|] eqn:Hh; [|by rwp_return].
  eapply rwp_mono; [apply refresh_route_spec; [done|]|].
  - eapply usable_inward; [by apply with_find_ip_inward|by eapply table_lookup_usable].
  - intros [] w3 _ _ Htm. split; [|done]. etrans; [by apply with_find_ip_timers|exact Htm].
Qed.

(** The table has a route to [ip] that is valid. *)
Definition valid_route (w : world) (ip : Z) : bool :=
  match table_lookup w ip with
  | Some a => from_option (λ r, has_flag (rt_flags r) RTFLAG_VALID_ENTRY) false (w_routes w !! a)
  | None => false
  end.

(** The daemon can deliver to [ip]. *)
Definition reachable (w : world) (ip : Z) : bool :=
  (ip =? md_ip_addr (w_data w)) || valid_route w ip.

(** Only timers of routes are touched, and none without a valid route. *)
Lemma routing_table_update_route_timers w dst_ip invalid orig_ip :
  world_ok w → is_u32 dst_ip → is_u32 orig_ip →
  rwp inward (routing_table_update_route dst_ip invalid orig_ip)
    (λ res w', res = (if reachable w dst_ip then 1 else 0, invalid) ∧ route_timers w w' ∧
       (orig_ip = 0 → valid_route w dst_ip = false → w_alarms w' = w_alarms w)) w.
Proof.
  intros Hw Hd Ho. unfold routing_table_update_route, reachable.
  rwp_read by reflexivity.
  destruct (Z.eqb_spec dst_ip (md_ip_addr (w_data w))) as [Heq|Hne]; simpl.
  { rwp_then refresh_orig_spec; [done|done|]. intros [] w1 Hw1 _ [Htm Hsame]. rwp_return. by split_and!; [|done|intros ? _; apply Hsame]. }
  apply rwp_bind_find; [apply _..|done|done|]. intros Hw1. unfold valid_route.
  destruct (table_lookup w dst_ip) as [a|] eqn:Ha; [|by rwp_return].
  assert (usable w a) as Hua by by eapply table_lookup_usable.
  assert (usable (with_find_ip dst_ip w) a) as Hu1.
  { by eapply usable_inward; [apply with_find_ip_inward|]. }
  destruct (proj1 Hu1) as [r Hr].
  rewrite with_find_ip_other in Hr by apply Hua. rewrite Hr. simpl.
  rwp_read by (apply get_eq; by rewrite with_find_ip_other by apply Hua).
  destruct (has_flag (rt_flags r) RTFLAG_VALID_ENTRY); simpl.
  - rwp_then refresh_route_spec; [done|done|]. intros [] w2 Hw2 _ Htm2.
    rwp_then refresh_orig_spec; [done|done|]. intros [] w3 Hw3 _ [Htm3 _]. rwp_return.
    split; [done|]. split; [|done]. etrans; [|exact Htm3]. etrans; [by apply with_find_ip_timers|exact Htm2].
  - eapply rwp_bind_step; [apply _|done|by apply stats_world_ok|apply stats_inward|].
    rwp_return. by apply stats_world_ok.
Qed.

Lemma routing_table_update_route_spec w dst_ip invalid orig_ip :
  world_ok w → is_u32 dst_ip → is_u32 orig_ip →
  rwp inward (routing_table_update_route dst_ip invalid orig_ip)
    (λ res _, res = (if reachable w dst_ip then 1 else 0, invalid)) w.
Proof. intros. eapply rwp_mono; [by apply routing_table_update_route_timers|]. by intros ? ? _ _ []. Qed.

(** ** Adding a route *)

(** The gateway of the object [n] is the next hop of [r], when that is another host. *)
Definition leads_to (gw : option string) (r : msh_route) : Prop :=
  has_flag (rt_flags r) RTFLAG_HAS_NEXTHOP = true → rt_dst_ip r ≠ rt_next_hop r →
  gw = Some (in_addr2nl_addr (rt_next_hop r) 0).

(** A libnl object for the route [r], new and with its destination, interface and
    gateway. *)
Record built (r : msh_route) (w : world) (nl : addr) (w' : world) : Prop := {
  bu_objects : same_objects w w';
  bu_describes : describes (w_trace w') nl (in_addr2nl_addr (rt_dst_ip r) 0) (md_net_iface (w_data w'));
  bu_leads : leads_to (nr_gateway (nl_object (nl_after (w_trace w')) nl)) r;
  bu_below : (nl < w_brk w')%positive;
  bu_fresh a : handle (w_routes w') a ≠ Some nl }.

Lemma build_nlroute_spec w a r :
  world_ok w → w_routes w !! a = Some r → rwp quiet (build_nlroute a) (built r w) w.
Proof.
  intros Hw Hr. unfold build_nlroute.
  eapply rwp_bind_step; [apply _|done|by apply brk_world_ok|by from_inward; apply brk_inward|].
  set (w1 := set_w_brk _ w). set (nl := w_brk w). assert (world_ok w1) as Hw1 by by apply brk_world_ok.
  rwp_read by (apply get_eq; exact Hr). rwp_read by (apply get_eq; exact Hr).
  rewrite (ro_prefix_sz r) by by eapply world_route_ok.
  rwp_read by reflexivity.
  rwp_then emit_nl_spec; [done|done|]. intros [] w2 Hw2 _ Hs2.
  rwp_then emit_nl_spec; [done|done|]. intros [] w3 Hw3 _ Hs3.
  rwp_then emit_nl_spec; [done|done|]. intros [] w4 Hw4 _ Hs4.
  assert (describes (w_trace w4) nl (in_addr2nl_addr (rt_dst_ip r) 0) (md_net_iface (w_data w))) as Hd4.
  { rewrite Hs4. apply describes_later; [done|]. rewrite Hs3. apply describes_dst. rewrite Hs2. apply describes_oif. }
  assert (same_objects w w4 ∧ w_brk w4 = Pos.succ (w_brk w) ∧ w_data w4 = w_data w) as (Hs & Hb & Hdata)
    by (rewrite Hs4, Hs3, Hs2; split; [repeat (etrans; [|by apply logged_same])|]; done).
  rwp_read by (apply get_eq; by rewrite (so_routes _ _ Hs)).
  eapply (rwp_bind _ quiet _ _ (λ _ w', (w' = w4 ∨ ∃ gw, w' = logged (EvNl (Some nl) (NL_set_gateway gw)) w4) ∧
    leads_to (nr_gateway (nl_object (nl_after (w_trace w')) nl)) r)); [|apply _|].
  - unfold leads_to. apply rwp_when; [apply _|done| |by intros ->; split; [left|]]. intros _.
    rwp_read by (apply get_eq; by rewrite (so_routes _ _ Hs)).
    apply rwp_when; [apply _|done| |]; destruct (Z.eqb_spec (rt_dst_ip r) (rt_next_hop r)); try done.
    2: { intros _. split; [by left|done]. }
    intros _. eapply rwp_mono; [by apply emit_nl_spec|]. intros [] w' _ _ ->. split; [right; by eexists|].
    intros _ _. simpl. rewrite nl_after_snoc. unfold nl_object. simpl. by rewrite lookup_insert_eq.
  - intros [] w5 Hw5 _ [Hs5 Hgw]. rwp_return.
    assert (same_objects w4 w5 ∧ w_brk w5 = w_brk w4 ∧ w_data w5 = w_data w4) as (Hs' & Hb' & Hdata')
      by (destruct Hs5 as [->|[gw ->]]; [|split; [by apply logged_same|]]; done).
    split; [by etrans| |done|rewrite Hb', Hb; unfold nl; lia|].
    + rewrite Hdata', Hdata. destruct Hs5 as [->|[gw ->]]; [done|]. by apply describes_later.
    + intros b Hb2. rewrite (so_routes _ _ Hs'), (so_routes _ _ Hs) in Hb2.
      apply (ho_handles _ _ _ _ _ (wo_heap _ Hw)) in Hb2. unfold nl in Hb2. lia.
Qed.

(** The route [a] enters the table. *)
Definition with_callback (r : msh_route) : msh_route :=
  set_rt_cb_data None (set_rt_updated_cb (Some fn_routing_table_route_updated_cb) r).
Definition linked (a : addr) (r : msh_route) (w : world) : world :=
  set_w_table (a :: w_table w) (set_w_routes (<[a := with_callback r]> (w_routes w)) w).

Lemma linked_ok w a r :
  world_ok w → w_routes w !! a = Some r → ¬ in_table r → a ≠ w_find_route w →
  table_lookup w (rt_dst_ip r) = None → world_ok (linked a r w).
Proof.
  intros Hw Hr Hni Hne Hno. rewrite table_lookup_None in Hno.
  assert (a ∉ w_table w) as Ha.
  { intros (r' & ? & ?)%table_live; [|done]. congruence. }
  assert (∀ b, is_Some (<[a:=with_callback r]> (w_routes w) !! b) ↔ is_Some (w_routes w !! b)) as Hdom.
  { intros b. rewrite lookup_insert_is_Some'. split; [intros [<-|]; [by eexists|done]|by right]. }
  pose proof (world_route_ok _ _ _ Hw Hr) as Hro.
  destruct Hw as [Hh [Hnd Hl Hu Hf Hok] Hq Hal Hb Hd]. split; simpl; try done.
  - destruct Hh as [H1 H2 H3 H4 H5 H6 H7]. split; try done; [intros b; rewrite Hdom; apply H1|].
    intros b n. unfold handle. rewrite lookup_insert. case_decide; [subst|apply H6].
    intros Hn. apply (H6 b). unfold handle. by rewrite Hr.
  - split.
    + by apply NoDup_cons.
    + intros b. rewrite elem_of_cons, Hl, lookup_insert. case_decide; [subst|naive_solver].
      split; [by eexists|by left].
    + intros b c rb rc. rewrite !elem_of_cons, !lookup_insert.
      assert (∀ b' rb', b' ∈ w_table w → w_routes w !! b' = Some rb' → rt_dst_ip rb' ≠ rt_dst_ip r) as Hd'.
      { intros b' rb' Hb' Hrb' Heq. apply (Hno b' Hb'). unfold goes_to. rewrite Hrb'. simpl. congruence. }
      intros [->|Hb'] [->|Hc']; repeat case_decide; simplify_eq; try done.
      * intros [= <-] Hrc Heq. simpl in Heq. by destruct (Hd' c rc).
      * intros Hrb [= <-] Heq. simpl in Heq. by destruct (Hd' b rb).
      * by apply Hu.
    + destruct Hf as (rf & Hrf & Hnf). rewrite lookup_insert_ne by done. by exists rf.
    + intros b rb. rewrite lookup_insert. case_decide; [|apply Hok]. intros [= <-].
      by destruct Hro.
  - destruct Hb as [H1 H2 H3 H4 H5]. split; try done.
    + intros b. rewrite Hdom. apply H1.
    + intros id b Hid. specialize (H4 id b Hid). destruct id; [|done..]. by rewrite Hdom.
Qed.

(** The route [a] with the libnl object [nl] enters the kernel and the table, as [r]. *)
Record entered (a : addr) (r : msh_route) (nl : addr) (result : Z) (w w' : world) : Prop := {
  en_state : ∃ A n, w' = set_w_alarms A (set_w_tick n (set_w_routes (<[a := r]> (w_routes w))
    (set_w_table (a :: w_table w) (logged (EvNl (Some nl) (NL_route_add result)) w))));
  en_armed i : i ∈ al_root (w_alarms w) → i ∈ al_root (w_alarms w') }.

Lemma entered_quiet w w' a r0 r nl result :
  world_ok w → w_routes w !! a = Some r0 → ¬ in_table r0 → entered a r nl result w w' →
  granted result = true → rt_nlroute r = Some nl → (∀ b, handle (w_routes w) b ≠ Some nl) →
  describes (w_trace w) nl (in_addr2nl_addr (rt_dst_ip r) 0) (md_net_iface (w_data w)) →
  quiet w w'.
Proof.
  intros Hw Hr0 Hni [(A & n & ->) Harm] Hg Hnl Hfresh [Hd Ho].
  assert (a ∉ w_table w) as Ha by (intros (r' & ? & ?)%table_live; [congruence|done]).
  split; [|done]. split; [|simpl; by rewrite sent_app, app_nil_r|done..]. split; [split; try done| | | |done].
  - unfold ledger. simpl. by rewrite verdict_ids_app, app_nil_r.
  - by apply logs_event.
  - unfold in_kernel. simpl. rewrite installed_add by done. intros. by apply kernel_ok_link.
  - intros b Hb. simpl. rewrite lookup_insert_is_Some'. by right.
  - intros b Hb. split; [by right|]. simpl. rewrite lookup_insert_ne; [done|]. by intros ->.
  - intros b n' Hb Hn. simpl. rewrite installed_add by done. rewrite lookup_insert_ne by (intros ->; by apply (Hfresh b)).
    split; [|done]. unfold handle in *. rewrite lookup_insert_ne; [done|]. by intros ->.
Qed.

Lemma linked_lookup a r w :
  world_ok (linked a r w) → table_lookup (linked a r w) (rt_dst_ip r) = Some a.
Proof.
  intros Hw. apply table_lookup_Some; [done|]. split; [left|].
  unfold goes_to, linked. simpl. by rewrite lookup_insert_eq.
Qed.

(** The packets that waited for a route to [d] are accepted. *)
Definition released (d : Z) (w w' : world) : Prop := ∀ e,
  e ∈ w_packets w → pf_dest e = d → EvVerdict (pf_id e) NF_ACCEPT ∈ w_trace w'.

Lemma verdicts_elem v e l : e ∈ l → EvVerdict (pf_id e) v ∈ verdicts v l.
Proof. intros He. unfold verdicts. apply list_elem_of_fmap. by exists e. Qed.

(** The kernel has the route [r] of the table: its destination, its next hop as gateway. *)
Definition kernel_has (w : world) (r : msh_route) : Prop := ∃ a n k,
  table_lookup w (rt_dst_ip r) = Some a ∧ handle (w_routes w) a = Some n ∧
  installed (w_trace w) !! n = Some k ∧ nr_dst k = Some (in_addr2nl_addr (rt_dst_ip r) 0) ∧
  leads_to (nr_gateway k) r.

(** The route [a] has entered the table, the kernel route [nl] being its own. *)
Record table_entered (a : addr) (r : msh_route) (nl : addr) (result : Z) (w w' : world) : Prop := {
  en_ok : world_ok w';
  en_quiet : quiet w w';
  en_table : w_table w' = a :: w_table w;
  en_lookup : table_lookup w' (rt_dst_ip r) = Some a;
  en_packets : w_packets w' = w_packets w;
  en_trace : w_trace w' = w_trace w ++ [EvNl (Some nl) (NL_route_add result)];
  en_route : ∃ r', w_routes w' = <[a := r']> (w_routes w) ∧ same_path r r' ∧ rt_nlroute r' = Some nl }.

Lemma enter_table_spec {X} (k : M world X) Q w a r nl result :
  world_ok w → w_routes w !! a = Some r → ¬ in_table r → a ≠ w_find_route w →
  table_lookup w (rt_dst_ip r) = None → granted result = true →
  describes (w_trace w) nl (in_addr2nl_addr (rt_dst_ip r) 0) (md_net_iface (w_data w)) →
  leads_to (nr_gateway (nl_object (nl_after (w_trace w)) nl)) r →
  (nl < w_brk w)%positive → (∀ b, handle (w_routes w) b ≠ Some nl) →
  (∀ w', table_entered a r nl result w w' → wp k Q w') →
  wp (emit (EvNl (Some nl) (NL_route_add result));;
      msh_route_set_rtnl_route a (Some nl);;
      msh_route_set_lifetime a ACTIVE_ROUTE_TIMEOUT;;
      msh_route_set_updated_callback a fn_routing_table_route_updated_cb None;;
      modify (λ w, set_w_table (a :: w_table w) w);;
      k) Q w.
Proof.
  intros Hw Hr Hni Hne Hno Hg Hd Hlead Hb Hfresh Hk.
  set (r4 := set_rt_nlroute (Some nl) r). set (r5 := touched r4).
  set (w1 := logged (EvNl (Some nl) (NL_route_add result)) w).
  set (w4 := set_w_routes (<[a := r4]> (w_routes w)) w1).
  assert (world_ok w4) as Hw4.
  { apply (replace_route_world_ok w1 a r); [by apply trace_world_ok|done| |done|done|by intros n [= <-]].
    by destruct (world_route_ok _ _ _ Hw Hr). }
  apply wp_bind, wp_modify, wp_bind, (wp_upd_route a r); [done|]. fold r4.
  change (set_w_routes _ _) with w4.
  apply wp_bind. eapply wp_mono.
  { apply (msh_route_set_lifetime_spec w4 a r4); [done|apply lookup_insert_eq|done]. }
  intros [] w5 (Hw5 & Hi5 & [Hro5 (A & Hs5) _]).
  assert (w_routes w5 = <[a := r5]> (w_routes w)) as Hr5 by (by rewrite Hro5; simpl; rewrite insert_insert_eq).
  apply wp_bind, (wp_upd_route a r5); [by rewrite Hr5, lookup_insert_eq|].
  apply wp_bind, wp_modify. change (set_w_table _ _) with (linked a r5 w5).
  assert (world_ok (linked a r5 w5)) as Hl.
  { apply linked_ok; [done|by rewrite Hr5, lookup_insert_eq|done|by rewrite Hs5|].
    rewrite <-Hno. apply table_lookup_ext; [by rewrite Hs5|]. intros b Hb'. rewrite Hr5, lookup_insert_ne; [done|].
    intros ->. destruct (table_live w b Hw Hb') as (? & ? & ?). congruence. }
  assert (w_routes (linked a r5 w5) = <[a := with_callback r5]> (w_routes w)) as Hrl
    by (simpl; by rewrite Hr5, insert_insert_eq).
  assert (quiet w (linked a r5 w5)) as Hq.
  { eapply (entered_quiet _ _ a r (with_callback r5) nl result); [done..| |done|done|done|done]. split.
    - exists A, (S (w_tick w)). rewrite Hs5, Hr5. unfold linked. cbn [w_routes set_w_routes set_w_alarms set_w_tick].
      by rewrite insert_insert_eq.
    - apply (st_armed w4 w5). by from_inward. }
  apply Hk. split; [done|done|by rewrite Hs5|by apply (linked_lookup a r5)|by rewrite Hs5|by rewrite Hs5|].
  exists (with_callback r5). split; [done|]. split; [|done].
  transitivity r5; [etrans; [|apply (touched_same_path r4)]; done|done].
Qed.

(** The last part of [routing_table_add], when the kernel grants the request. *)
Lemma enter_and_process_spec w a r nl result :
  world_ok w → w_routes w !! a = Some r → ¬ in_table r → a ≠ w_find_route w →
  table_lookup w (rt_dst_ip r) = None → granted result = true →
  describes (w_trace w) nl (in_addr2nl_addr (rt_dst_ip r) 0) (md_net_iface (w_data w)) →
  leads_to (nr_gateway (nl_object (nl_after (w_trace w)) nl)) r →
  (nl < w_brk w)%positive → (∀ b, handle (w_routes w) b ≠ Some nl) →
  rwp quiet (emit (EvNl (Some nl) (NL_route_add result));;
             msh_route_set_rtnl_route a (Some nl);;
             msh_route_set_lifetime a ACTIVE_ROUTE_TIMEOUT;;
             msh_route_set_updated_callback a fn_routing_table_route_updated_cb None;;
             modify (λ w, set_w_table (a :: w_table w) w);;
             packets_fifo_process_route a;;
             mret 0)
    (λ ret w', ret = 0 ∧ w_table w' = a :: w_table w ∧ table_lookup w' (rt_dst_ip r) = Some a ∧
       w_packets w' = filter (λ e, ¬ pf_dest e = rt_dst_ip r) (w_packets w) ∧
       released (rt_dst_ip r) w w' ∧ kernel_has w' r ∧
       ∃ r', w_routes w' = <[a := r']> (w_routes w) ∧ same_path r r') w.
Proof.
  intros Hw Hr Hni Hne Hno Hg Hd Hlead Hb Hfresh.
  apply (enter_table_spec _ _ w a r nl result); [done..|].
  intros wl [Hl Hq Htl Hlkl Hpl Htrl (r' & Hrl & Hpath & Hnl)].
  apply wp_bind. eapply wp_mono.
  { apply (packets_fifo_process_route_spec wl a r'); [done|]. rewrite Hrl. apply lookup_insert_eq. }
  intros [] w' (Hw' & Hq' & Hp & Htr & Hro & _ & Ht). apply wp_ret.
  assert (rt_dst_ip r' = rt_dst_ip r) as Hdst by apply Hpath. rewrite Hdst, Hpl in Hp, Htr.
  assert (table_lookup w' (rt_dst_ip r) = Some a) as Hlk.
  { rewrite <-Hlkl. apply table_lookup_ext; [done|]. intros b _. by rewrite Hro. }
  split_and!; [done|by etrans|done|by rewrite Ht|done|done| | |].
  - intros e He Hde. rewrite Htr. apply elem_of_app. right.
    by apply verdicts_elem, list_elem_of_filter.
  - assert (installed (w_trace w') !! nl = Some (nl_object (nl_after (w_trace w)) nl)) as Hin.
    { rewrite Htr, installed_silent by apply verdicts_silent. rewrite Htrl, installed_add by done. apply lookup_insert_eq. }
    exists a, nl, (nl_object (nl_after (w_trace w)) nl). split_and!; [done| |done|apply Hd|done].
    unfold handle. by rewrite Hro, Hrl, lookup_insert_eq.
  - exists r'. by rewrite Hro, Hrl.
Qed.

(** The outcome of [routing_table_add]: a route to that destination is there
    already, the kernel refused it, or it is now the route to its destination and
    the packets that waited for it are accepted. *)
Definition kernel_refuses (n : nat) : bool :=
  (env_rtnl_route_add n <? 0) && negb (env_rtnl_route_add n =? -17).

Definition add_post (a : addr) (dst : Z) (w : world) (ret : Z) (w' : world) : Prop :=
  match table_lookup w dst with
  | Some _ => ret = 1 ∧ w' = w
  | None =>
      ((∃ n, kernel_refuses n = true) ∧
       ret = -1 ∧ w_table w' = w_table w ∧ w_packets w' = w_packets w) ∨
      ((∃ n, kernel_refuses n = false) ∧
       ret = 0 ∧ w_table w' = a :: w_table w ∧ table_lookup w' dst = Some a ∧
       w_packets w' = filter (λ e, ¬ pf_dest e = dst) (w_packets w) ∧ released dst w w')
  end.

Lemma routing_table_add_spec w a r :
  world_ok w → w_routes w !! a = Some r → ¬ in_table r → a ≠ w_find_route w →
  rwp quiet (routing_table_add a) (λ ret w', add_post a (rt_dst_ip r) w ret w' ∧
    (ret = 0 → kernel_has w' r) ∧
    ∃ r', w_routes w' = <[a := r']> (w_routes w) ∧ same_path r r') w.
Proof.
  intros Hw Hr Hni Hne. unfold routing_table_add, add_post.
  rwp_read by apply routing_table_find_eq.
  destruct (table_lookup w (rt_dst_ip r)) as [b|] eqn:Hlook.
  { rwp_return. split; [done|]. split; [done|]. exists r. by rewrite insert_id. }
  rwp_then build_nlroute_spec; [done|done|]. intros nl w1 Hw1 Hq1 [Hs Hd Hlead Hb Hf].
  eapply rwp_bind_step; [apply _|done|by apply tick_world_ok|by from_inward; apply tick_inward|].
  set (w2 := set_w_tick _ w1). assert (world_ok w2) as Hw2 by by apply tick_world_ok.
  assert (w_routes w2 !! a = Some r) as Hr2 by (simpl; by rewrite (so_routes _ _ Hs)).
  change ((_ <? 0) && _) with (kernel_refuses (w_tick w1)).
  destruct (kernel_refuses (w_tick w1)) eqn:Hk.
  - rwp_then emit_nl_spec; [done|by apply negb_false_iff|]. intros [] w3 Hw3 _ Hw3'. rwp_return.
    rewrite Hw3'. simpl. rewrite (so_table _ _ Hs), (so_packets _ _ Hs), (so_routes _ _ Hs).
    split; [left; split_and!; by eauto|]. split; [done|]. exists r. by rewrite insert_id.
  - eapply rwp_mono.
    { apply (enter_and_process_spec w2 a r nl (env_rtnl_route_add (w_tick w1))); try done; [| |by apply negb_true_iff].
      - simpl. rewrite (bl_find_route w w1); [done|by from_quiet].
      - rewrite <-Hlook. apply table_lookup_ext; [apply Hs|]. intros b' _. simpl. by rewrite (so_routes _ _ Hs). }
    intros ret w' _ _ (-> & Ht & Hl & Hp & Hrel & Hkern & r' & Hr' & Hpath). unfold released in Hrel. simpl in *.
    rewrite (so_table _ _ Hs) in Ht. rewrite (so_packets _ _ Hs) in Hp, Hrel. rewrite (so_routes _ _ Hs) in Hr'.
    split; [right; split_and!; by eauto|]. split; [done|]. by exists r'.
Qed.

(** All that [routing_table_add] can teach is a route to that destination. *)
Lemma add_learns a dst w ret r r' w' :
  world_ok w → world_ok w' → w_routes w !! a = Some r → ¬ in_table r → quiet w w' →
  add_post a dst w ret w' → w_routes w' = <[a := r']> (w_routes w) → learns dst w w'.
Proof.
  unfold add_post. intros Hw Hw' Hr Hni Hq Hpost Hro.
  assert (hops_kept dst w w') as Hh.
  { intros b (rb & Hrb & Hin)%table_live _; [|done]. unfold hop_kept.
    rewrite Hro, lookup_insert_ne; [done|congruence]. }
  destruct (table_lookup w dst) as [b|].
  { by destruct Hpost as [_ ->]. }
  destruct Hpost as [(_ & _ & Ht & Hp)|(_ & _ & Ht & Hl & Hp & _)].
  - split; [done..|rewrite Ht; by left|by rewrite Hp].
  - split; [done..| |].
    + intros x. rewrite Ht. intros [->|Hx]%elem_of_cons; [right|by left].
      by apply table_lookup_Some in Hl as [_ Hl].
    + rewrite Hp, list_filter_filter. apply list_filter_iff. tauto.
Qed.

(** The kernel never refuses a route. *)
Definition kernel_accepts : Prop := ∀ n, kernel_refuses n = false.

(** A new route to an unknown destination gets into the table. *)
Lemma add_post_new a dst w ret w' :
  kernel_accepts → table_lookup w dst = None → add_post a dst w ret w' →
  table_lookup w' dst = Some a ∧ w_packets w' = filter (λ e, ¬ pf_dest e = dst) (w_packets w) ∧
  released dst w w' ∧ ret = 0.
Proof.
  unfold add_post. intros Hk ->. intros [([n Hn] & _)|(_ & -> & _ & Hl & Hp & Hr)]; [|done].
  by rewrite Hk in Hn.
Qed.

(** The kernel sends the packets for [d] to [hop]. *)
Definition kernel_via (w : world) (d hop : Z) : Prop := ∃ a n k,
  table_lookup w d = Some a ∧ handle (w_routes w) a = Some n ∧ installed (w_trace w) !! n = Some k ∧
  nr_dst k = Some (in_addr2nl_addr d 0) ∧ (hop ≠ d → nr_gateway k = Some (in_addr2nl_addr hop 0)).

Lemma kernel_has_via w r :
  kernel_has w r → has_flag (rt_flags r) RTFLAG_HAS_NEXTHOP = true → kernel_via w (rt_dst_ip r) (rt_next_hop r).
Proof.
  intros (a & n & k & Hl & Hn & Hk & Hd & Hlead) Hf. exists a, n, k. split_and!; [done..|].
  intros Hne. apply Hlead; [done|by apply not_eq_sym].
Qed.
Lemma kernel_has_direct w r : kernel_has w r → kernel_via w (rt_dst_ip r) (rt_dst_ip r).
Proof. intros (a & n & k & Hl & Hn & Hk & Hd & _). by exists a, n, k. Qed.

(** The kernel goes on so. *)
Lemma kernel_via_stable w w' d hop :
  world_ok w → world_ok w' → stable w w' → kernel_via w d hop → kernel_via w' d hop.
Proof.
  intros Hw Hw' Hs (a & n & k & Hl & Hn & Hk & Hd). pose proof (stable_lookup _ _ _ _ Hw Hw' Hs Hl) as Hl'.
  apply table_lookup_Some in Hl as [Ha _]; [|done].
  destruct (st_entry _ _ Hs a n Ha Hn) as [Hn' Hk']. exists a, n, k. split_and!; [done|done|congruence|apply Hd..].
Qed.
Lemma kernel_via_same w w' d hop :
  w_table w' = w_table w → w_routes w' = w_routes w → w_trace w' = w_trace w →
  kernel_via w d hop → kernel_via w' d hop.
Proof.
  intros Ht Hr Htr (a & n & k & Hl & Hrest). exists a, n, k. rewrite Hr, Htr. split; [|done].
  rewrite <-Hl. apply table_lookup_ext; [done|]. intros b _. by rewrite Hr.
Qed.
End table_specs.
