(* ===== verification/TableListSpec.v ===== *)
(** * The routing table on its nodes implements its sequence

    The functions of routing_table.c on the memory of the nodes ([TableList]) do what the
    functions on the sequence of routes ([RoutingTable]) do: every live route has its links,
    the list holds the routes of the sequence, and a route that is destroyed leaves the list
    before its memory is freed.  [routing_table_delete] frees the routes without unlinking
    them; it still reads no freed node. *)

From S2P Require Export TableList RoutingTableSpec ListState Blind.

(** ** The table and the callbacks *)

(** What says which routes are in the table: the sequence, and the callback of every live
    route.  Only the sequence is hidden. *)
Record table_part := TablePart {
  tp_table : list addr;
  tp_callbacks : gmap addr (option updated_fn) }.

Definition callbacks (w : world) : gmap addr (option updated_fn) := rt_updated_cb <$> w_routes w.

#[export] Instance table_part_hidden : Hidden table_part := {
  hide t := set_w_table (tp_table t);
  seen w := TablePart (w_table w) (callbacks w) }.
#[export] Instance table_part_hidden_laws : HiddenLaws table_part.
Proof. by repeat split. Qed.
#[export] Instance table_part_hidden_routes_read : HiddenRoutesRead table_part.
Proof. done. Qed.

Notation Apart := (Blind table_part).

Section apart.
Context `{E : Env}.
Implicit Types w : world.

(** A change to a route that is not to its callback. *)
Lemma update_apart f : (∀ r, rt_updated_cb (f r) = rt_updated_cb r) → BlindUpdate table_part f.
Proof.
  intros Hf a t w. unfold upd_route, read_route, write_route, modify, mbind, M_bind. simpl.
  destruct (w_routes w !! a) as [r|] eqn:Ha; [|done]. simpl. split_and!; [done| |done]. f_equal.
  unfold callbacks. simpl. rewrite fmap_insert Hf. apply insert_id. by rewrite lookup_fmap Ha.
Qed.

#[export] Instance dst_ip_apart ip : BlindUpdate table_part (set_rt_dst_ip ip).
Proof. by apply update_apart. Qed.
#[export] Instance next_hop_apart ip : BlindUpdate table_part (set_rt_next_hop ip).
Proof. by apply update_apart. Qed.
#[export] Instance nlroute_apart nl : BlindUpdate table_part (set_rt_nlroute nl).
Proof. by apply update_apart. Qed.
#[export] Instance precursors_apart l : BlindUpdate table_part (set_rt_precursors l).
Proof. by apply update_apart. Qed.
#[export] Instance alarm_action_apart x : BlindUpdate table_part (set_rt_alarm_action x).
Proof. by apply update_apart. Qed.
#[export] Instance set_flag_apart f : BlindUpdate table_part (set_flag f).
Proof. apply update_apart. intros r. unfold set_flag. by repeat case_match. Qed.
#[export] Instance unset_flag_apart f : BlindUpdate table_part (unset_flag f).
Proof. apply update_apart. intros r. unfold unset_flag. by repeat case_match. Qed.

#[export] Instance gets_packets_apart : Apart (gets w_packets).
Proof. by apply gets_blind. Qed.
#[export] Instance packets_list_del_apart a : Apart (packets_list_del a).
Proof. intros t w. unfold packets_list_del. simpl. by case_decide. Qed.
#[export] Instance for_each_apart {X} (l : list X) (body : X → M world unit) :
  (∀ x, Apart (body x)) → Apart (for_each l body).
Proof. intros Hb. induction l as [|x l IH]; simpl; apply _. Qed.

#[export] Instance get_field_apart {X} a (f : msh_route → X) : Apart (r ← read_route a; mret (f r)) := _.
#[export] Instance set_lifetime_apart a ms : Apart (msh_route_set_lifetime a ms).
Proof. unfold msh_route_set_lifetime, msh_route_set_flag, set_alarm_time. apply _. Qed.
#[export] Instance build_nlroute_apart a : Apart (build_nlroute a).
Proof.
  unfold build_nlroute, msh_route_get_prefix_sz, msh_route_get_dst_ip, msh_route_get_flags,
    msh_route_get_next_hop. apply _.
Qed.
End apart.

(** ** The memory of a table *)

(** The head is there, and the links of every live route. *)
Definition node_live (w : world) (n : table_node) : Prop :=
  match n with TN_table => True | TN_route a => is_Some (w_routes w !! a) end.

(** The memory [Q] has the links of the table and of the live routes of [w] and no others,
    and the rest of [w]. *)
Record links_rel (Q : table_nodes) (w : world) : Prop := {
  lr_next n : is_Some (tn_links Q !! (n, m_next)) ↔ node_live w n;
  lr_prev n : is_Some (tn_links Q !! (n, m_prev)) ↔ node_live w n;
  lr_brk a : is_Some (w_routes w !! a) → (a < w_brk w)%positive;
  lr_world : tn_world Q = set_w_table [] w }.

(** Besides, its list has the routes of the sequence, which carry the callback of the
    table. *)
Record table_rel (Q : table_nodes) (w : world) : Prop := {
  tr_list : is_list (tn_links Q) TN_table (TN_route <$> w_table w);
  tr_callback a : a ∈ w_table w → callbacks w !! a = Some (Some fn_routing_table_route_updated_cb);
  tr_links :> links_rel Q w }.

#[export] Instance TN_route_inj : Inj (=) (=) TN_route.
Proof. by intros ?? [=]. Qed.

Section simulation.
Context `{E : Env}.
Implicit Types (w : world) (Q : table_nodes) (a route : addr).
Notation simulated := (simulated table_rel).

Lemma callbacks_live w w' a : callbacks w' = callbacks w → is_Some (w_routes w' !! a) ↔ is_Some (w_routes w !! a).
Proof.
  intros Hc. rewrite -!(fmap_is_Some rt_updated_cb) -!lookup_fmap. by fold (callbacks w) (callbacks w'); rewrite Hc.
Qed.
Lemma node_live_same w w' n : callbacks w' = callbacks w → node_live w' n ↔ node_live w n.
Proof. destruct n; [done|apply callbacks_live]. Qed.

(** The links are those of a world that differs only in what is apart from them. *)
Lemma links_rel_same Q w w' :
  links_rel Q w → callbacks w' = callbacks w → (w_brk w ≤ w_brk w')%positive →
  links_rel (TableNodes (tn_links Q) (set_w_table [] w')) w'.
Proof.
  intros [Hn Hp Hk _] Hc Hb. split; simpl.
  - intros n. by rewrite Hn (node_live_same w w').
  - intros n. by rewrite Hp (node_live_same w w').
  - intros a Ha%(callbacks_live w w')%Hk; [lia|done].
  - done.
Qed.

Lemma live_or_not_in_table Q w a r :
  table_rel Q w → w_routes w !! a = Some r → rt_updated_cb r = None → a ∉ w_table w.
Proof. intros HQ Hr Hc Ha%(tr_callback _ _ HQ). unfold callbacks in Ha. by rewrite lookup_fmap Hr /= Hc in Ha. Qed.

Lemma in_table_live Q w a : table_rel Q w → a ∈ w_table w → is_Some (w_routes w !! a).
Proof.
  intros HQ Ha%(tr_callback _ _ HQ). unfold callbacks in Ha. rewrite lookup_fmap in Ha.
  by apply fmap_Some in Ha as (r & -> & _).
Qed.

(** What is apart from the table. *)
Lemma links_apart {X} (m : M world X) `{!Apart m} Q w x w1 :
  links_rel Q w → m w = Ok x w1 →
  ∃ Q1, on_rest m Q = Ok x Q1 ∧ tn_links Q1 = tn_links Q ∧ links_rel Q1 w1 ∧
    w_table w1 = w_table w ∧ callbacks w1 = callbacks w.
Proof.
  intros HQ Hm. pose proof (blind (T:=table_part) (m:=m) (TablePart [] ∅) w) as Hb. rewrite Hm in Hb.
  destruct Hb as (Heq & [= Ht Hc] & Hbrk). simpl in Heq.
  exists (TableNodes (tn_links Q) (set_w_table [] w1)). split_and!; [|done| |done..].
  - unfold on_rest. by rewrite (lr_world _ _ HQ) Heq.
  - by eapply (links_rel_same _ w).
Qed.

Lemma simulated_apart {X} (m : M world X) `{!Apart m} Q w : table_rel Q w → simulated (on_rest m) m Q w.
Proof.
  intros [Hl Hc HQ]. unfold ListState.simulated. destruct (m w) as [x w1|] eqn:Hm; [|done].
  destruct (links_apart m Q w x w1 HQ Hm) as (Q1 & Hrun & Hsame & HQ1 & Ht & Hcb).
  unfold wp. rewrite Hrun. split; [done|]. split; [by rewrite Hsame Ht|by rewrite Ht Hcb|done].
Qed.

Lemma apart_same {X} (m : M world X) `{!Apart m} w x w1 :
  m w = Ok x w1 → w_table w1 = w_table w ∧ callbacks w1 = callbacks w.
Proof.
  intros Hm. pose proof (blind (T:=table_part) (m:=m) (TablePart [] ∅) w) as Hb. rewrite Hm in Hb.
  by destruct Hb as (_ & [= Ht Hc] & _).
Qed.

Lemma simulated_apart_bind {X Y} (m : M world X) `{!Apart m} (k' : X → M table_nodes Y) k Q w :
  table_rel Q w →
  (∀ x Q1 w1, w_table w1 = w_table w → callbacks w1 = callbacks w → table_rel Q1 w1 →
    simulated (k' x) (k x) Q1 w1) →
  simulated (on_rest m ≫= k') (m ≫= k) Q w.
Proof.
  intros HQ Hk. apply simulated_bind; [by apply simulated_apart|]. intros x Q1 w1 Hm HQ1.
  apply apart_same in Hm as [Ht Hc]; [|done]. by apply Hk.
Qed.

(** ** Links that change *)

Lemma links_rel_relink Q w ns links :
  links_rel Q w → (∀ n, n ∈ ns → allocated links n ∧ node_live w n) → outside_of ns (tn_links Q) links →
  links_rel (TableNodes links (tn_world Q)) w.
Proof.
  intros [Hn Hp Hk Hw] Hns Hout. split; simpl; [| |done..]; intros n;
    (destruct (decide (n ∈ ns)) as [[[? ?] ?]%Hns|Hni]; [by split|rewrite Hout //]).
Qed.

Lemma node_in_table_live Q w n : table_rel Q w → n ∈ TN_table :: (TN_route <$> w_table w) → node_live w n.
Proof.
  intros HQ [->|(a & -> & Ha)%list_elem_of_fmap]%elem_of_cons; [done|]. by eapply in_table_live.
Qed.

(** [list_del] of a route in the table. *)
Lemma unlink_route_spec Q w a : table_rel Q w → a ∈ w_table w →
  wp (on_links (list_del (TN_route a))) (λ _ Q', table_rel Q' (set_w_table (unlink a (w_table w)) w)) Q.
Proof.
  intros HQ Ha. pose proof HQ as [Hl Hc HQl].
  apply wp_on_links. eapply wp_mono; [apply (list_del_state _ TN_table); [exact Hl|by apply list_elem_of_fmap_2]|].
  intros [] links (Hl' & Hn & Hp & Hout). split; simpl.
  - by rewrite fmap_unlink.
  - intros b [_ Hb]%elem_of_unlink. by apply Hc.
  - destruct (links_rel_relink Q w (TN_table :: (TN_route <$> w_table w)) links HQl) as [Hn' Hp' Hk Hw]; [|done|].
    + intros n Hin. split; [|by eapply node_in_table_live].
      destruct (decide (n = TN_route a)) as [->|Hna]; [by split; eexists|].
      apply (is_list_allocated _ _ _ _ Hl'). rewrite elem_of_cons elem_of_unlink. set_solver.
    + by split.
Qed.

(** ** Memory that comes and goes *)

Lemma alloc_simulated Q w : table_rel Q w → simulated TableList.msh_route_alloc MshRoute.msh_route_alloc Q w.
Proof.
  intros HQ. pose proof HQ as [Hl Hc [Hn Hp Hk Hw]]. unfold ListState.simulated. rewrite msh_route_alloc_eq.
  assert (¬ is_Some (w_routes w !! w_brk w)) as Hfresh by (intros ?%Hk; lia).
  assert (w_brk w ∉ w_table w) as Hnt by (by intros ?%(in_table_live Q)).
  assert (∀ a, w_routes (with_new_route w) !! a = if decide (a = w_brk w) then Some zero_route else w_routes w !! a) as Hr.
  { intros a. simpl. case_decide as Ha; [by rewrite Ha lookup_insert_eq|by rewrite lookup_insert_ne]. }
  unfold wp, TableList.msh_route_alloc, on_rest, calloc_node, modify, mbind, M_bind. rewrite Hw msh_route_alloc_eq.
  simpl. split; [done|].
  assert (∀ n, n ≠ TN_route (w_brk w) → node_live (with_new_route w) n ↔ node_live w n) as Hlive.
  { intros [|a] Ha; [done|]. unfold node_live. rewrite Hr decide_False //. congruence. }
  split; [| |split]; simpl.
  - eapply is_list_ext; [|exact Hl]. intros n m Hin. rewrite !lookup_insert_ne //; intros [= <- _]; set_solver.
  - intros a Ha. rewrite -(Hc a Ha). unfold callbacks. rewrite !lookup_fmap Hr decide_False //. by intros ->.
  - intros n. destruct (decide (n = TN_route (w_brk w))) as [->|Hne].
    + rewrite lookup_insert_eq. simpl. rewrite lookup_insert_eq. split; by eexists.
    + rewrite !lookup_insert_ne; [|congruence..]. by rewrite Hn Hlive.
  - intros n. destruct (decide (n = TN_route (w_brk w))) as [->|Hne].
    + rewrite lookup_insert_ne // lookup_insert_eq. simpl. rewrite lookup_insert_eq. split; by eexists.
    + rewrite !lookup_insert_ne; [|congruence..]. by rewrite Hp Hlive.
  - intros a. rewrite -/(w_routes (with_new_route w)) Hr. case_decide; [subst; lia|]. intros ?%Hk. lia.
  - done.
Qed.

(** [free] of a route: its links go, and no others. *)
Lemma free_route_links Q w a w' :
  links_rel Q w → is_Some (w_routes w !! a) → MshRoute.free_route a w = Ok tt w' →
  w_table w' = w_table w ∧ callbacks w' = delete a (callbacks w) ∧
  wp (TableList.free_route a) (λ _ Q', links_rel Q' w' ∧ outside_of [TN_route a] (tn_links Q) (tn_links Q')) Q.
Proof.
  intros [Hn Hp Hk Hw] Ha [= <-]. split; [done|]. split; [by apply fmap_delete|].
  assert (node_live w (TN_route a)) as [v Hv]%Hn by done.
  assert (∀ (n : table_node) mm, is_Some (tn_links Q !! (n, mm)) ↔ node_live w n →
    is_Some (filter (λ cell, cell.1.1 ≠ TN_route a) (tn_links Q) !! (n, mm)) ↔
    match n with TN_table => True | TN_route b => is_Some (delete a (w_routes w) !! b) end) as Hgone.
  { intros n mm Hlive. rewrite freed_links. case_decide as Hna; [rewrite Hna lookup_delete_eq|rewrite Hlive].
    - by split; intros [].
    - destruct n; [done|]. rewrite lookup_delete_ne //. congruence. }
  unfold TableList.free_route, free_node. apply wp_bind, wp_bind, wp_on_links. unfold wp at 1, get. simpl. rewrite Hv /=.
  unfold wp, modify, on_rest. simpl. rewrite Hw /=. split; [split; simpl|].
  - intros n. by apply Hgone.
  - intros n. by apply Hgone.
  - intros b Hb. apply Hk. destruct (decide (b = a)) as [->|]; [done|]. by rewrite lookup_delete_ne in Hb.
  - done.
  - intros n mm Hna. rewrite freed_links decide_False //. by intros ->; apply Hna; left.
Qed.

Lemma free_simulated Q w a : table_rel Q w → is_Some (w_routes w !! a) → a ∉ w_table w →
  simulated (TableList.free_route a) (MshRoute.free_route a) Q w.
Proof.
  intros [Hl Hc HQ] Ha Hnt. unfold ListState.simulated. destruct (MshRoute.free_route a w) as [[] w'|] eqn:Hf; [|done].
  destruct (free_route_links Q w a w' HQ Ha Hf) as (Ht & Hcb & Hwp).
  eapply wp_mono; [exact Hwp|]. intros [] Q' [HQ' Hout]. split; [done|]. split; [| |done]; rewrite Ht.
  - eapply is_list_ext; [|exact Hl]. intros n m Hn. apply Hout. set_solver.
  - intros b Hb. rewrite Hcb lookup_delete_ne; [by apply Hc|]. by intros ->.
Qed.

(** ** Routes *)

(** The end of [msh_route_destroy], once the route is not in the table. *)
Lemma destroy_end_simulated Q w a : table_rel Q w → is_Some (w_routes w !! a) → a ∉ w_table w →
  simulated (on_rest (del_alarm (AL_route a));; on_rest (upd_route a (set_rt_precursors []));; TableList.free_route a)
    (del_alarm (AL_route a);; upd_route a (set_rt_precursors []);; MshRoute.free_route a) Q w.
Proof.
  intros HQ Ha Hnt. apply simulated_apart_bind; [apply _|done|]. intros [] Q1 w1 Ht1 Hc1 HQ1.
  apply simulated_apart_bind; [apply _|done|]. intros [] Q2 w2 Ht2 Hc2 HQ2.
  apply free_simulated; [done| |by rewrite Ht2 Ht1]. by rewrite (callbacks_live w1) // (callbacks_live w).
Qed.

Lemma list_del_simulated Q w a : table_rel Q w → simulated (on_links (list_del (TN_route a))) (table_list_del a) Q w.
Proof.
  intros HQ. unfold ListState.simulated, table_list_del. case_decide as Ha; [|done].
  eapply wp_mono; [by apply unlink_route_spec|]. by intros [].
Qed.

(** The callback takes the route out of the table. *)
Lemma destroyed_cb_simulated Q w a : table_rel Q w →
  simulated (TableList.__routing_table_route_updated_cb a RTACTION_DESTROY)
    (MshRoute.__routing_table_route_updated_cb a RTACTION_DESTROY) Q w.
Proof.
  intros HQ. apply simulated_bind; [by apply list_del_simulated|]. intros [] Q1 w1 _ HQ1.
  apply simulated_apart_bind; [apply _|done|]. intros nl Q2 w2 _ _ HQ2.
  apply simulated_apart_bind; [apply _|done|]. intros [] Q3 w3 _ _ HQ3.
  destruct nl as [nl|]; [|by apply simulated_ret].
  apply simulated_apart_bind; [apply _|done|]. intros ret Q4 w4 _ _ HQ4.
  apply simulated_apart_bind; [apply _|done|]. intros [] Q5 w5 _ _ HQ5. by apply simulated_apart.
Qed.

Lemma destroyed_cb_unlinks w a w' :
  MshRoute.__routing_table_route_updated_cb a RTACTION_DESTROY w = Ok tt w' →
  w_table w' = unlink a (w_table w) ∧ callbacks w' = callbacks w.
Proof.
  unfold MshRoute.__routing_table_route_updated_cb. simpl. unfold mbind at 1, M_bind at 1, table_list_del.
  case_decide as Ha; [|done]. set (w1 := set_w_table _ w). intros Hrun.
  change (unlink a (w_table w)) with (w_table w1). change (callbacks w) with (callbacks w1).
  eapply apart_same, Hrun. unfold msh_route_get_rtnl_route, msh_route_set_rtnl_route. apply _.
Qed.

(** After the callback the route is alive and out of the table. *)
Lemma destroyed_updated Q w a w' : table_rel Q w →
  MshRoute.__msh_route_updated a RTACTION_DESTROY w = Ok tt w' →
  is_Some (w_routes w' !! a) ∧ a ∉ w_table w'.
Proof.
  intros HQ. unfold MshRoute.__msh_route_updated. destruct (w_routes w !! a) as [r|] eqn:Hr.
  2:{ unfold read_route, mbind, M_bind. by rewrite Hr. }
  rewrite (bind_eq _ _ _ _ _ (read_route_eq _ _ _ Hr)). destruct (rt_updated_cb r) as [[]|] eqn:Hcb.
  - intros [Ht Hc]%destroyed_cb_unlinks. rewrite Ht elem_of_unlink (callbacks_live w) // Hr.
    split; [by eexists|]. by intros [? _].
  - intros [= <-]. rewrite Hr. split; [by eexists|]. by eapply live_or_not_in_table.
Qed.

Lemma destroy_simulated Q w a : table_rel Q w →
  simulated (TableList.msh_route_destroy a) (MshRoute.msh_route_destroy a) Q w.
Proof.
  intros HQ. apply simulated_bind.
  - apply simulated_apart_bind; [apply _|done|]. intros r Q1 w1 _ _ HQ1.
    destruct (rt_updated_cb r) as [[]|]; [by apply destroyed_cb_simulated|by apply simulated_ret].
  - intros [] Q1 w1 Hup HQ1. destruct (destroyed_updated Q w a w1 HQ Hup) as [Ha Hnt].
    by apply destroy_end_simulated.
Qed.

Lemma set_next_hop_simulated Q w a hop : table_rel Q w →
  simulated (TableList.msh_route_set_next_hop a hop) (MshRoute.msh_route_set_next_hop a hop) Q w.
Proof.
  intros HQ. apply simulated_apart_bind; [unfold msh_route_set_flag; apply _|done|]. intros [] Q1 w1 _ _ HQ1.
  apply simulated_apart_bind; [apply _|done|]. intros [] Q2 w2 _ _ HQ2.
  apply simulated_apart_bind; [apply _|done|]. intros r Q3 w3 _ _ HQ3.
  destruct (rt_updated_cb r) as [[]|]; [|by apply simulated_ret].
  apply simulated_apart_bind; [unfold msh_route_get_rtnl_route; apply _|done|]. intros [nl|] Q4 w4 _ _ HQ4; [|by apply simulated_ret].
  apply simulated_apart_bind; [unfold msh_route_get_prefix_sz; apply _|done|]. intros len Q5 w5 _ _ HQ5.
  apply simulated_apart_bind; [unfold msh_route_get_next_hop; apply _|done|]. intros nh Q6 w6 _ _ HQ6.
  apply simulated_apart_bind; [unfold msh_route_get_flags; apply _|done|]. intros flags Q7 w7 _ _ HQ7.
  unfold when. case_match; [by apply simulated_apart; [apply _|]|by apply simulated_ret].
Qed.

Lemma alarm_cb_simulated Q w alarm a : table_rel Q w →
  simulated (TableList.__msh_route_alarm_cb alarm a) (MshRoute.__msh_route_alarm_cb alarm a) Q w.
Proof.
  intros HQ. apply simulated_apart_bind; [apply _|done|]. intros r Q1 w1 _ _ HQ1.
  case_match; [|case_match; [by apply destroy_simulated|by apply simulated_ret]].
  apply simulated_apart_bind; [unfold msh_route_unset_flag; apply _|done|]. intros [] Q2 w2 _ _ HQ2.
  apply simulated_apart_bind; [apply _|done|]. intros [] Q3 w3 _ _ HQ3.
  unfold set_alarm_time. by apply simulated_apart; [apply _|].
Qed.

Lemma table_process_route_simulated Q w route : table_rel Q w →
  simulated (TableList.packets_fifo_process_route route) (PacketsFifo.packets_fifo_process_route route) Q w.
Proof.
  intros HQ. apply simulated_bind; [by apply alloc_simulated|]. intros first Q1 w1 _ HQ1.
  apply simulated_apart_bind; [apply _|done|]. intros queue Q2 w2 _ _ HQ2.
  apply simulated_apart_bind; [unfold packet_obj_accept; apply _|done|]. intros [] Q3 w3 _ _ HQ3.
  by apply destroy_simulated.
Qed.

(** ** The table *)

Lemma find_simulated Q w route flags : table_rel Q w →
  simulated (TableList.routing_table_find route flags) (RoutingTable.routing_table_find route flags) Q w.
Proof.
  intros HQ. unfold ListState.simulated. destruct (RoutingTable.routing_table_find route flags w) as [found w'|] eqn:Hrun; [|done].
  apply wp_bind. apply (list_find_entry_wp TN_table (λ seen rest Q, ∃ w1 es1 es2, table_rel Q w1 ∧
    w_table w1 = es1 ++ es2 ∧ seen = TN_route <$> es1 ∧ rest = TN_route <$> es2 ∧ find_in es2 route flags w1 = Ok found w')
    _ _ (TN_route <$> w_table w)).
  - intros ? ? Q1 (w1 & es1 & es2 & HQ1 & Ht & -> & -> & _). rewrite -fmap_app -Ht. apply HQ1.
  - intros ? n ? Q1 (w1 & es1 & es2 & HQ1 & Ht & -> & Hn & Hfind). destruct es2 as [|a es2]; simplify_eq/=.
    pose proof (simulated_apart (msh_route_compare route a flags) Q1 w1 HQ1) as Hcmp. unfold ListState.simulated in Hcmp.
    revert Hfind. unfold mbind at 1, M_bind at 1.
    destruct (msh_route_compare route a flags w1) as [diff w2|] eqn:Hd; [|done]. intros Hfind.
    apply apart_same in Hd as [Ht2 _]; [|apply _]. apply wp_bind, wp_ret, wp_bind. eapply wp_mono; [exact Hcmp|]. intros ? Q2 [-> HQ2].
    apply wp_ret. destruct (diff =? 0); [injection Hfind as <- <-; by apply wp_ret|].
    exists w2, (es1 ++ [a]), es2. split_and!; [done| |by rewrite fmap_app|done|done]. by rewrite Ht2 Ht -assoc.
  - intros ? Q1 (w1 & es1 & es2 & HQ1 & _ & _ & Hn & Hfind). destruct es2; [|done]. injection Hfind as <- <-. by apply wp_ret.
  - by exists w, [], (w_table w).
Qed.

Lemma find_by_ip_simulated Q w ip : table_rel Q w →
  simulated (TableList.routing_table_find_by_ip ip) (RoutingTable.routing_table_find_by_ip ip) Q w.
Proof.
  intros HQ. apply simulated_apart_bind; [apply _|done|]. intros fr Q1 w1 _ _ HQ1.
  apply simulated_apart_bind; [apply _|done|]. intros [] Q2 w2 _ _ HQ2. by apply find_simulated.
Qed.

Lemma refresh_route_simulated Q w a ip : table_rel Q w →
  simulated (TableList.refresh_route a ip) (RoutingTable.refresh_route a ip) Q w.
Proof.
  intros HQ. apply simulated_apart_bind; [apply _|done|]. intros [] Q1 w1 _ _ HQ1.
  apply simulated_apart_bind; [unfold msh_route_get_next_hop; apply _|done|]. intros hop Q2 w2 _ _ HQ2.
  unfold when. case_match; [|by apply simulated_ret].
  apply simulated_bind; [by apply find_by_ip_simulated|]. intros [r|] Q3 w3 _ HQ3; [|by apply simulated_ret].
  by apply simulated_apart; [apply _|].
Qed.

Lemma refresh_orig_simulated Q w ip : table_rel Q w →
  simulated (TableList.refresh_orig ip) (RoutingTable.refresh_orig ip) Q w.
Proof.
  intros HQ. unfold TableList.refresh_orig, RoutingTable.refresh_orig, when. case_match; [|by apply simulated_ret].
  apply simulated_bind; [by apply find_by_ip_simulated|]. intros [r|] Q1 w1 _ HQ1; [|by apply simulated_ret].
  by apply refresh_route_simulated.
Qed.

Lemma update_route_simulated Q w dst invalid orig : table_rel Q w →
  simulated (TableList.routing_table_update_route dst invalid orig)
    (RoutingTable.routing_table_update_route dst invalid orig) Q w.
Proof.
  intros HQ. apply simulated_apart_bind; [apply _|done|]. intros our Q1 w1 _ _ HQ1. case_match.
  2:{ apply simulated_bind; [by apply refresh_orig_simulated|]. intros [] Q2 w2 _ HQ2. by apply simulated_ret. }
  apply simulated_bind; [by apply find_by_ip_simulated|]. intros [r|] Q2 w2 _ HQ2; [|by apply simulated_ret].
  apply simulated_apart_bind; [unfold msh_route_get_flags; apply _|done|]. intros flags Q3 w3 _ _ HQ3. case_match.
  { apply simulated_apart_bind; [apply _|done|]. intros [] Q4 w4 _ _ HQ4. by apply simulated_ret. }
  apply simulated_bind; [by apply refresh_route_simulated|]. intros [] Q4 w4 _ HQ4.
  apply simulated_bind; [by apply refresh_orig_simulated|]. intros [] Q5 w5 _ HQ5. by apply simulated_ret.
Qed.

Lemma foreach_simulated Q w (callback : addr → M world unit) :
  (∀ a, Apart (callback a)) → table_rel Q w →
  simulated (TableList.routing_table_foreach (λ a, on_rest (callback a)))
    (RoutingTable.routing_table_foreach callback) Q w.
Proof.
  intros Hcb HQ. apply (visit_simulated (Host:=table_list_host) _ TN_table w_table TN_route tr_list); [| |done].
  - intros a Q1 w1 HQ1 _. by apply simulated_apart; [apply _|].
  - intros a w1 w2 Hrun. eapply apart_same, Hrun. apply _.
Qed.

(** ** Adding a route *)

(** A route does not differ from itself. *)
Lemma compare_routes_refl r tv attr z : compare_routes r r tv tv attr = Some z → z = 0.
Proof.
  assert (timer_ne tv tv = false) as Htv by (unfold timer_ne; by rewrite !Z.eqb_refl).
  unfold compare_routes. rewrite !Z.eqb_refl Htv !bool_decide_true // !andb_false_r /=.
  destruct (if has_flag attr _ then _ else _) as [m|]; simpl; [|done]. by rewrite Z.eqb_refl andb_false_r; intros [= <-].
Qed.

Lemma compare_self a flags w z w' : msh_route_compare a a flags w = Ok z w' → z = 0.
Proof.
  unfold msh_route_compare. case_match; [|by intros [= <- _]].
  unfold mbind, M_bind, read_route, on_alarms, read_block.
  destruct (w_routes w !! a) as [r|] eqn:Hr; rewrite /= ?Hr /=; [|done].
  destruct (al_blocks (w_alarms w) !! AL_route a) as [b|] eqn:Hb; rewrite /= ?Hb /=; [|done].
  destruct (compare_routes r r _ _ flags) eqn:Hc; simpl; [|done]. intros [= <- _]. by eapply compare_routes_refl.
Qed.

(** A route that the lookup does not find is not in the list. *)
Lemma find_in_notin route flags entries : ∀ w w', find_in entries route flags w = Ok None w' → route ∉ entries.
Proof.
  induction entries as [|a entries IH]; intros w w'; simpl; [intros _; apply not_elem_of_nil|].
  unfold mbind at 1, M_bind at 1. destruct (msh_route_compare route a flags w) as [z w1|] eqn:Hc; [|done].
  destruct (Z.eqb_spec z 0) as [|Hz]; [done|]. intros Hf%IH. apply not_elem_of_cons. split; [|done].
  intros ->. by apply Hz, (compare_self _ _ _ _ _ Hc).
Qed.

(** The callback comes, then the node. *)
Lemma set_callback_links Q w a r : table_rel Q w → w_routes w !! a = Some r →
  wp (on_rest (msh_route_set_updated_callback a fn_routing_table_route_updated_cb None)) (λ _ Q',
    let w' := set_w_routes (<[a := set_rt_cb_data None (set_rt_updated_cb (Some fn_routing_table_route_updated_cb) r)]> (w_routes w)) w in
    table_rel Q' w' ∧ callbacks w' !! a = Some (Some fn_routing_table_route_updated_cb)) Q.
Proof.
  intros [Hl Hc [Hn Hp Hk Hw]] Hr. unfold msh_route_set_updated_callback, wp, on_rest. rewrite Hw.
  rewrite (upd_route_eq (set_w_table [] w) a r) //=.
  assert (callbacks (set_w_routes (<[a := set_rt_cb_data None (set_rt_updated_cb (Some fn_routing_table_route_updated_cb) r)]> (w_routes w)) w) =
    <[a := Some fn_routing_table_route_updated_cb]> (callbacks w)) as Hcb by by rewrite /callbacks /= fmap_insert.
  assert (∀ b, is_Some (<[a := set_rt_cb_data None (set_rt_updated_cb (Some fn_routing_table_route_updated_cb) r)]> (w_routes w) !! b)
     ↔ is_Some (w_routes w !! b)) as Hlive.
  { intros b. rewrite lookup_insert_is_Some. destruct (decide (a = b)) as [<-|]; [|tauto]. rewrite Hr. naive_solver. }
  split; [|by rewrite Hcb lookup_insert_eq]. split; [done| |split]; simpl.
  - intros b Hb. rewrite Hcb. destruct (decide (b = a)) as [->|]; [by rewrite lookup_insert_eq|].
    rewrite lookup_insert_ne //. by apply Hc.
  - intros [|b]; [by rewrite Hn|]. by rewrite Hn /= Hlive.
  - intros [|b]; [by rewrite Hp|]. by rewrite Hp /= Hlive.
  - intros b. rewrite Hlive. apply Hk.
  - done.
Qed.

Lemma list_add_links Q w a : table_rel Q w → callbacks w !! a = Some (Some fn_routing_table_route_updated_cb) →
  a ∉ w_table w →
  wp (on_links (list_add (TN_route a) TN_table)) (λ _ Q', table_rel Q' (set_w_table (a :: w_table w) w)) Q.
Proof.
  intros HQ Ha Hnt. pose proof HQ as [Hl Hc HQl].
  assert (node_live w (TN_route a)) as Hlive.
  { unfold callbacks in Ha. rewrite lookup_fmap in Ha. by apply fmap_Some in Ha as (r & Hr & _); exists r. }
  apply wp_on_links. eapply wp_mono; [apply (list_add_state _ TN_table (TN_route <$> w_table w)); [done| |set_solver]|].
  { by split; [apply (lr_next _ _ HQl)|apply (lr_prev _ _ HQl)]. }
  intros [] links [Hl' Hout]. split; simpl.
  - done.
  - by intros b [->|Hb%Hc]%elem_of_cons.
  - destruct (links_rel_relink Q w (TN_route a :: TN_table :: (TN_route <$> w_table w)) links HQl) as [Hn' Hp' Hk Hw]; [|done|].
    + intros n [->|Hin]%elem_of_cons; (split; [apply (is_list_allocated _ _ _ _ Hl'); set_solver|]);
        [done|by eapply node_in_table_live].
    + by split.
Qed.

#[export] Instance find_in_apart entries route flags : Apart (find_in entries route flags).
Proof. induction entries; simpl; apply _. Qed.

Lemma find_None route flags w w' :
  RoutingTable.routing_table_find route flags w = Ok None w' → route ∉ w_table w'.
Proof.
  intros Hf. change (find_in (w_table w) route flags w = Ok None w') in Hf.
  destruct (apart_same _ _ _ _ Hf) as [-> _]. by eapply find_in_notin.
Qed.

(** The route gets its callback and enters the list. *)
Lemma enter_simulated {X} Q w a (k' : M table_nodes X) (k : M world X) : table_rel Q w → a ∉ w_table w →
  (∀ Q1 w1, table_rel Q1 w1 → simulated k' k Q1 w1) →
  simulated
    (on_rest (msh_route_set_updated_callback a fn_routing_table_route_updated_cb None);;
     on_links (list_add (TN_route a) TN_table);; k')
    (msh_route_set_updated_callback a fn_routing_table_route_updated_cb None;;
     modify (λ w, set_w_table (a :: w_table w) w);; k) Q w.
Proof.
  intros HQ Hnt Hk. unfold ListState.simulated. destruct (w_routes w !! a) as [r|] eqn:Hr.
  2:{ unfold msh_route_set_updated_callback, upd_route, read_route, mbind, M_bind. by rewrite Hr. }
  pose proof (set_callback_links Q w a r HQ Hr) as (? & Q1 & Hrun1 & HQ1 & Hcb)%wp_run.
  rewrite (bind_eq _ _ _ _ _ (upd_route_eq w a r _ Hr)). set (w1 := set_w_routes _ w) in *.
  pose proof (list_add_links Q1 w1 a HQ1 Hcb Hnt) as (? & Q2 & Hrun2 & HQ2)%wp_run.
  rewrite (bind_eq (modify _) _ w1 tt _ eq_refl).
  specialize (Hk _ _ HQ2). unfold ListState.simulated in Hk. destruct (k _) as [y w2|]; [|done].
  apply wp_bind. unfold wp at 1. rewrite Hrun1. apply wp_bind. unfold wp at 1. by rewrite Hrun2.
Qed.

Lemma add_simulated Q w a : table_rel Q w →
  simulated (TableList.routing_table_add a) (RoutingTable.routing_table_add a) Q w.
Proof.
  intros HQ. apply simulated_bind; [by apply find_simulated|].
  intros [found|] Q1 w1 Hf HQ1; [by apply simulated_ret|]. apply find_None in Hf.
  apply simulated_apart_bind; [apply _|done|]. intros nl Q2 w2 Ht2 _ HQ2.
  apply simulated_apart_bind; [apply _|done|]. intros errno Q3 w3 Ht3 _ HQ3.
  apply simulated_apart_bind; [apply _|done|]. intros [] Q4 w4 Ht4 _ HQ4.
  destruct ((errno <? 0) && _); [by apply simulated_ret|].
  apply simulated_apart_bind; [unfold msh_route_set_rtnl_route; apply _|done|]. intros [] Q5 w5 Ht5 _ HQ5.
  apply simulated_apart_bind; [apply _|done|]. intros [] Q6 w6 Ht6 _ HQ6.
  apply enter_simulated; [done|congruence|]. intros Q7 w7 HQ7.
  apply simulated_bind; [by apply table_process_route_simulated|]. intros [] Q8 w8 _ HQ8. by apply simulated_ret.
Qed.

Lemma table_del_simulated Q w a : table_rel Q w →
  simulated (TableList.routing_table_del a) (RoutingTable.routing_table_del a) Q w.
Proof.
  intros HQ. apply simulated_bind; [by apply find_simulated|].
  intros [found|] Q1 w1 _ HQ1; [by apply simulated_ret|done].
Qed.

(** ** The end of the table *)

(** The lookup stops at the first node without reading it, even when its route is freed. *)
Lemma del_finds_the_first Q a first :
  tn_links Q !! (TN_table, m_next) = Some (At (TN_route first)) → TableList.routing_table_del a Q = Ok 1 Q.
Proof.
  intros Hn. unfold TableList.routing_table_del, TableList.routing_table_find, list_find_entry,
    on_links, get_node, get, list_rounds, gets, mbind, M_bind. simpl. rewrite Hn /=. by destruct Q.
Qed.

(** A step of the loop: the route is freed, the others stay chained. *)
Lemma delete_step Q w a rest first w' :
  links_rel Q w → is_Some (w_routes w !! a) → NoDup (a :: rest) →
  threaded Q TN_table (TN_route <$> a :: rest) →
  tn_links Q !! (TN_table, m_next) = Some (At (TN_route first)) →
  MshRoute.free_route a w = Ok tt w' →
  w_table w' = w_table w ∧ callbacks w' = delete a (callbacks w) ∧
  wp (entry ← demand ListCorrupt (node_route (TN_route a)); TableList.routing_table_del entry;; TableList.free_route entry)
    (λ _ Q', links_rel Q' w' ∧ threaded Q' TN_table (TN_route <$> rest) ∧
       tn_links Q' !! (TN_table, m_next) = Some (At (TN_route first))) Q.
Proof.
  intros HQ Ha Hnd (Hh & _ & Hnext) Hfirst Hf. apply NoDup_cons in Hnd as [Har _].
  destruct (free_route_links Q w a w' HQ Ha Hf) as (Ht & Hc & Hwp). split; [done|]. split; [done|].
  apply wp_bind, wp_ret, wp_bind. unfold wp at 1. rewrite (del_finds_the_first _ _ _ Hfirst).
  eapply wp_mono; [exact Hwp|]. intros [] Q' [HQ' Hout]. split; [done|].
  assert (tn_links Q' !! (TN_table, m_next) = Some (At (TN_route first))) as Hfirst' by (rewrite Hout; [done|set_solver]).
  split; [|done]. split_and!; [set_solver|by eexists|].
  intros l1 x l2 Heq. rewrite -(Hnext (TN_route a :: l1) x l2); [|by rewrite fmap_cons Heq]. apply Hout.
  intros ->%list_elem_of_singleton. apply Har, (list_elem_of_fmap_inj_2 TN_route). rewrite Heq. set_solver.
Qed.

(** Half way: the routes [l] are left, [first] was the first of the list. *)
Record deleting (first : addr) (l : list addr) (Q : table_nodes) (w : world) : Prop := {
  dg_links : links_rel Q w;
  dg_table : w_table w ≠ [];
  dg_nodup : NoDup l;
  dg_threaded : threaded Q TN_table (TN_route <$> l);
  dg_first : tn_links Q !! (TN_table, m_next) = Some (At (TN_route first));
  dg_left a : a ∈ l → callbacks w !! a = Some (Some fn_routing_table_route_updated_cb);
  dg_find_route : callbacks w !! w_find_route w = Some None }.

Lemma deleting_step first a l Q w w' : deleting first (a :: l) Q w →
  (RoutingTable.routing_table_del a;; MshRoute.free_route a) w = Ok tt w' →
  wp (entry ← demand ListCorrupt (node_route (TN_route a)); TableList.routing_table_del entry;; TableList.free_route entry)
    (λ _ Q', deleting first l Q' w') Q.
Proof.
  intros [HQ Ht Hnd Hth Hf Hl Hfr]. rewrite (bind_eq _ _ _ _ _ (routing_table_del_eq a w Ht)). intros Hrun.
  assert (callbacks w !! a = Some (Some fn_routing_table_route_updated_cb)) as Ha by (apply Hl; left).
  assert (is_Some (w_routes w !! a)) as Hlive.
  { unfold callbacks in Ha. rewrite lookup_fmap in Ha. by apply fmap_Some in Ha as (r & -> & _). }
  assert (w_find_route w' = w_find_route w) as Hsame by by injection Hrun as <-.
  destruct (delete_step Q w a l first w' HQ Hlive Hnd Hth Hf Hrun) as (Ht' & Hc' & Hwp).
  apply NoDup_cons in Hnd as [Hnl Hnd].
  eapply wp_mono; [exact Hwp|]. intros [] Q' (HQ' & Hth' & Hf'). split; [done|by rewrite Ht'|done..| |].
  - intros b Hb. rewrite Hc' lookup_delete_ne; [by apply Hl; right|by intros ->].
  - rewrite Hsame Hc' lookup_delete_ne //. intros Heq. by rewrite -Heq Ha in Hfr.
Qed.

Lemma delete_loop Q w wf : table_rel Q w → callbacks w !! w_find_route w = Some None →
  for_each (w_table w) (λ entry, RoutingTable.routing_table_del entry;; MshRoute.free_route entry) w = Ok tt wf →
  wp (list_for_each_entry_safe TN_table (λ n,
    entry ← demand ListCorrupt (node_route n); TableList.routing_table_del entry;; TableList.free_route entry))
    (λ _ Q', links_rel Q' wf ∧ callbacks wf !! w_find_route wf = Some None) Q.
Proof.
  intros HQ Hfr Hrun. pose proof HQ as [Hl Hc HQl]. pose proof Hl as [_ [_ Hnd]%NoDup_cons].
  apply (NoDup_fmap_1 TN_route) in Hnd. destruct (w_table w) as [|first l] eqn:Ht.
  { injection Hrun as <-. eapply wp_mono; [eapply (list_for_each_threaded_wp TN_table
      (λ rest Q', rest = [] ∧ Q' = Q) _ []); [|by intros ??? [? _]|exact Hl|done]|by intros _ Q' [_ ->]].
    intros rest Q' [-> ->]. by eapply (is_list_threaded _ _ []). }
  eapply wp_mono; [eapply (list_for_each_threaded_wp TN_table (λ rest Q', ∃ w1 l2,
    rest = TN_route <$> l2 ∧ deleting first l2 Q' w1 ∧
    for_each l2 (λ entry, RoutingTable.routing_table_del entry;; MshRoute.free_route entry) w1 = Ok tt wf) _
    (TN_route <$> first :: l))| ].
  - by intros rest Q' (w1 & l2 & -> & [] & _).
  - intros n rest Q' (w1 & l2 & Heq & Hd & Hfor). destruct l2 as [|a l2]; simplify_eq/=. revert Hfor.
    intros ([] & w2 & Hstep & Hfor')%bind_ok.
    eapply wp_mono; [by eapply deleting_step|]. intros [] Q2 Hd2. by exists w2, l2.
  - exact Hl.
  - exists w, (first :: l). split; [done|]. split; [|done]. split; [done|by rewrite Ht|done| |..|done].
    + by eapply (is_list_threaded _ _ []).
    + by eapply is_list_head in Hl.
    + intros a Ha. by apply Hc.
  - intros [] Q' (w1 & l2 & Hn & [] & Hfor). destruct l2; [|done]. by injection Hfor as <-.
Qed.

(** A route without a callback is destroyed without a look at the list. *)
Lemma destroy_links Q w a w' : links_rel Q w → callbacks w !! a = Some None →
  MshRoute.msh_route_destroy a w = Ok tt w' → wp (TableList.msh_route_destroy a) (λ _ Q', links_rel Q' w') Q.
Proof.
  intros HQ Hcb (u & w1 & Hup & (u1 & w2 & Hdel & (u2 & w3 & Hpre & Hfree)%bind_ok)%bind_ok)%bind_ok.
  destruct u, u1, u2. apply bind_ok in Hup as (r & w0 & Hread & Hup).
  assert (rt_updated_cb r = None ∧ w0 = w) as [Hr ->].
  { unfold callbacks in Hcb. rewrite lookup_fmap in Hcb. apply fmap_Some in Hcb as (r' & Hr' & ->).
    rewrite (read_route_eq _ _ _ Hr') in Hread. by injection Hread as <- <-. }
  rewrite Hr in Hup. injection Hup as <-.
  destruct (links_apart _ _ _ _ _ HQ Hread) as (Q1 & Hrun1 & _ & HQ1 & _ & _).
  destruct (links_apart _ _ _ _ _ HQ1 Hdel) as (Q2 & Hrun2 & _ & HQ2 & _ & Hc2).
  destruct (links_apart _ _ _ _ _ HQ2 Hpre) as (Q3 & Hrun3 & _ & HQ3 & _ & Hc3).
  assert (is_Some (w_routes w3 !! a)) as Hlive.
  { rewrite -(fmap_is_Some rt_updated_cb) -lookup_fmap. fold (callbacks w3). rewrite Hc3 Hc2 Hcb. by eexists. }
  unfold TableList.msh_route_destroy, TableList.__msh_route_updated.
  apply wp_bind, wp_bind. unfold wp at 1. rewrite Hrun1 Hr. apply wp_ret.
  apply wp_bind. unfold wp at 1. rewrite Hrun2. apply wp_bind. unfold wp at 1. rewrite Hrun3.
  destruct (free_route_links Q3 w3 a w' HQ3 Hlive Hfree) as (_ & _ & Hwp).
  eapply wp_mono; [exact Hwp|]. by intros [] Q' [HQ' _].
Qed.

(** All routes are freed, those of the table while their nodes point at each other. *)
Lemma table_delete_simulated Q w : table_rel Q w → callbacks w !! w_find_route w = Some None →
  ListState.simulated links_rel TableList.routing_table_delete RoutingTable.routing_table_delete Q w.
Proof.
  intros HQ Hfr. unfold ListState.simulated. destruct (RoutingTable.routing_table_delete w) as [[] w'|] eqn:Hrun; [|done].
  unfold RoutingTable.routing_table_delete in Hrun. rewrite (bind_eq (gets w_table) _ w _ _ eq_refl) in Hrun.
  apply bind_ok in Hrun as ([] & w1 & Hfor & Hrun).
  apply wp_bind. eapply wp_mono; [by eapply delete_loop|]. intros [] Q1 [HQ1 Hfr1].
  rewrite (bind_eq (gets w_find_route) _ w1 _ _ eq_refl) in Hrun. apply wp_bind. unfold wp at 1, on_rest.
  rewrite (lr_world _ _ HQ1) /=. eapply wp_mono; [eapply (destroy_links _ w1); [|done..]|by intros []].
  destruct HQ1 as [Hn Hp Hk Hw]. by split.
Qed.

(** ** A new table *)

(** The program before the table exists: no routes, no nodes. *)
Lemma table_alloc_spec w : w_routes w = ∅ → w_table w = [] →
  ∃ w', RoutingTable.routing_table_alloc w = Ok tt w' ∧ w_routes w' !! w_find_route w' = Some zero_route ∧
    wp TableList.routing_table_alloc (λ _ Q', table_rel Q' w') (TableNodes ∅ w).
Proof.
  intros Hr Ht. unfold RoutingTable.routing_table_alloc.
  exists (set_w_find_route (w_brk w) (with_new_route (set_w_table [] w))).
  split; [by rewrite (bind_eq (modify _) _ w tt _ eq_refl) (bind_eq _ _ _ _ _ (msh_route_alloc_eq _))|].
  split; [by rewrite /= lookup_insert_eq|].
  set (Q0 := TableNodes (<[(TN_table, m_prev) := At TN_table]> (<[(TN_table, m_next) := At TN_table]>
    (<[(TN_table, m_next) := NULL]> {[(TN_table, m_prev) := NULL]}))) w).
  assert (table_rel Q0 (set_w_table [] w)) as HQ0.
  { split; [split; [|apply NoDup_singleton]|by intros ? ?%elem_of_nil|split]; simpl.
    - by rewrite lookup_insert_eq lookup_insert_ne // lookup_insert_eq.
    - intros [|a]; [rewrite lookup_insert_ne // lookup_insert_eq; by split; [|eexists]|].
      rewrite !lookup_insert_ne // lookup_empty /= Hr. by split; intros [].
    - intros [|a]; [rewrite lookup_insert_eq; by split; [|eexists]|].
      rewrite !lookup_insert_ne // lookup_empty /= Hr. by split; intros [].
    - intros a. rewrite Hr. by intros [].
    - by destruct w; simplify_eq/=. }
  pose proof (alloc_simulated Q0 (set_w_table [] w) HQ0) as Ha. unfold ListState.simulated in Ha.
  rewrite msh_route_alloc_eq in Ha.
  apply wp_bind, wp_modify, wp_bind, wp_on_links. cbn [host_links table_list_host tn_links].
  assert (INIT_LIST_HEAD TN_table (<[(TN_table, m_next) := NULL]> {[(TN_table, m_prev) := NULL]}) = Ok tt (tn_links Q0)) as Hinit.
  { unfold INIT_LIST_HEAD, put, get, modify, mbind, M_bind. by rewrite lookup_insert_eq /= lookup_insert_ne // lookup_insert_ne // lookup_singleton_eq. }
  unfold wp at 1. rewrite Hinit. apply wp_bind. eapply wp_mono; [exact Ha|]. intros ? Q1 [-> HQ1].
  unfold wp, on_rest, modify. rewrite (lr_world _ _ HQ1) /=. destruct HQ1 as [Hl Hc [Hn Hp Hk Hw]]. by split.
Qed.

(** Every state of the daemon has such a memory. *)
Lemma table_nodes_exist w : world_ok w → ∃ Q, table_rel Q w.
Proof.
  intros Hw. destruct (wo_table _ Hw) as [Hnd Hin _ _ _].
  assert (∀ n, n ∈ ({[TN_table]} ∪ set_map TN_route (dom (w_routes w)) : gset table_node) ↔ node_live w n) as HN.
  { intros n. rewrite elem_of_union elem_of_singleton elem_of_map. destruct n as [|a]; simpl; [naive_solver|].
    rewrite -elem_of_dom. naive_solver. }
  destruct (list_exists TN_table (TN_route <$> w_table w) ({[TN_table]} ∪ set_map TN_route (dom (w_routes w))))
    as (links & Hl & Hn).
  - apply NoDup_cons. split; [set_solver|]. by apply (NoDup_fmap_2 TN_route).
  - intros n [->|(a & -> & (r & Hr & _)%Hin)%list_elem_of_fmap]%elem_of_cons; apply HN; [done|by exists r].
  - exists (TableNodes links (set_w_table [] w)). split; [done| |split]; simpl.
    + intros a (r & Hr & Hcb)%Hin. unfold callbacks. by rewrite lookup_fmap Hr /= Hcb.
    + intros n. rewrite -HN. apply Hn. by left.
    + intros n. rewrite -HN. apply Hn. by right.
    + apply (ho_routes _ _ _ _ _ (wo_heap _ Hw)).
    + done.
Qed.
End simulation.
