(* ===== verification/PrecursorListSpec.v ===== *)
(** * The precursor lists on their nodes implement their sequences

    The functions of msh_route.c on the memory of the nodes ([PrecursorList]) do what the
    functions on the sequence of precursors of a route ([RouteObj], [MshRoute]) do.  There is
    one list per live route; an operation on one leaves the others alone. *)

From S2P Require Export PrecursorList MshRouteSpec ListState Blind.

(** ** The precursors of all routes *)

Record precursors_part := PrecursorsPart { pp_precursors : gmap addr (list Z) }.

Definition precursors (w : world) : gmap addr (list Z) := rt_precursors <$> w_routes w.

(** The rest of the program: the routes without their precursors. *)
Definition bare (w : world) : world := set_w_routes (set_rt_precursors [] <$> w_routes w) w.

#[export] Instance precursors_part_hidden : Hidden precursors_part := {
  hide _ := bare;
  seen w := PrecursorsPart (precursors w) }.
#[export] Instance precursors_part_hidden_laws : HiddenLaws precursors_part.
Proof. by repeat split. Qed.
#[export] Instance precursors_part_hidden_table : HiddenTable precursors_part.
Proof. by repeat split. Qed.

Notation Beside := (Blind precursors_part).

Section beside.
Context `{E : Env}.
Implicit Types w : world.

(** A read of other fields, and a change to other fields, of a route. *)
Lemma read_beside {X} a (k : msh_route → M world X) :
  (∀ r, k (set_rt_precursors [] r) = k r) → (∀ r, Beside (k r)) → Beside (r ← read_route a; k r).
Proof.
  intros Hk Hb t w. unfold read_route, mbind, M_bind. simpl. rewrite lookup_fmap.
  destruct (w_routes w !! a) as [r|]; simpl; [|done]. rewrite Hk. apply (Hb r t w).
Qed.
#[export] Instance get_field_beside {X} a (f : msh_route → X) :
  (∀ r, f (set_rt_precursors [] r) = f r) → Beside (r ← read_route a; mret (f r)).
Proof. intros Hf. apply read_beside; [intros r; by rewrite Hf|apply _]. Qed.

Lemma set_nlroute_beside nl : BlindUpdate precursors_part (set_rt_nlroute nl).
Proof.
  intros a t w. unfold upd_route, read_route, write_route, modify, mbind, M_bind. simpl. rewrite lookup_fmap.
  destruct (w_routes w !! a) as [r|] eqn:Ha; [|done]. simpl. split_and!; [|f_equal|done].
  - unfold bare. simpl. by rewrite fmap_insert.
  - unfold precursors. simpl. rewrite fmap_insert. apply insert_id. by rewrite lookup_fmap Ha.
Qed.

#[export] Instance updated_beside a flag : Beside (__msh_route_updated a flag).
Proof.
  apply read_beside; [done|]. intros r. destruct (rt_updated_cb r) as [[]|]; [|apply _].
  unfold __routing_table_route_updated_cb, msh_route_get_rtnl_route,
    msh_route_set_rtnl_route, msh_route_get_prefix_sz, msh_route_get_next_hop, msh_route_get_flags.
  repeat first [apply get_field_beside; done | apply upd_route_blind, set_nlroute_beside | apply bind_blind; [|intros] | case_match | apply _].
Qed.
End beside.

(** ** The memory of the lists *)

#[export] Instance PN_entry_inj : Inj (=) (=) PN_entry.
Proof. by intros ?? [=]. Qed.

(** The entries of a list hold the addresses [ips]. *)
Definition hold (dst : gmap positive Z) (es : list positive) (ips : list Z) : Prop :=
  Forall2 (λ e ip, dst !! e = Some ip) es ips.

(** [own] has the entries of every live route; the memory [Q] has their lists and no other
    nodes, and the rest of [w]. *)
Record precursors_rel_ (own : gmap addr (list positive)) (Q : precursor_nodes) (w : world) : Prop := {
  pr_own : dom own = dom (w_routes w);
  pr_list a es : own !! a = Some es → is_list (pc_links Q) (PN_route a) (PN_entry <$> es);
  pr_hold a es ips : own !! a = Some es → precursors w !! a = Some ips → hold (pc_dst Q) es ips;
  pr_disjoint a b es es' e : own !! a = Some es → own !! b = Some es' → e ∈ es → e ∈ es' → a = b;
  pr_owned e : is_Some (pc_dst Q !! e) → ∃ a es, own !! a = Some es ∧ e ∈ es;
  pr_links n m : is_Some (pc_links Q !! (n, m)) →
    match n with PN_route a => is_Some (own !! a) | PN_entry e => is_Some (pc_dst Q !! e) end;
  pr_brk e : is_Some (pc_dst Q !! e) → (e < pc_brk Q)%positive;
  pr_fresh a : is_Some (own !! a) → (a < w_brk w)%positive;
  pr_world : pc_world Q = bare w }.

Definition precursors_rel (Q : precursor_nodes) (w : world) : Prop := ∃ own, precursors_rel_ own Q w.

Section simulation.
Context `{E : Env}.
Implicit Types (w : world) (Q : precursor_nodes) (a : addr) (e : positive) (es : list positive) (ips : list Z).
Notation simulated := (simulated precursors_rel).

Lemma owned_route own Q w a es : precursors_rel_ own Q w → own !! a = Some es →
  ∃ r, w_routes w !! a = Some r ∧ precursors w !! a = Some (rt_precursors r) ∧ hold (pc_dst Q) es (rt_precursors r).
Proof.
  intros HQ Ha. assert (a ∈ dom (w_routes w)) as [r Hr]%elem_of_dom.
  { rewrite -(pr_own _ _ _ HQ). by apply elem_of_dom. }
  assert (precursors w !! a = Some (rt_precursors r)) as Hp by (unfold precursors; by rewrite lookup_fmap Hr).
  exists r. split; [done|]. split; [done|]. by eapply pr_hold.
Qed.

Lemma route_owned own Q w a r : precursors_rel_ own Q w → w_routes w !! a = Some r → ∃ es, own !! a = Some es.
Proof. intros HQ Hr. apply elem_of_dom. rewrite (pr_own _ _ _ HQ). apply elem_of_dom. by exists r. Qed.

Lemma hold_same dst dst' es ips :
  hold dst es ips → (∀ e, e ∈ es → dst' !! e = dst !! e) → hold dst' es ips.
Proof.
  intros Hh Hs. induction Hh as [|e ip es ips He Hh IH]; [constructor|].
  constructor; [by rewrite Hs; [|left]|]. apply IH. intros x Hx. apply Hs. by right.
Qed.
Lemma hold_live dst es ips e : hold dst es ips → e ∈ es → is_Some (dst !! e).
Proof. intros Hh Hin. induction Hh as [|x ip es ips Hx Hh IH]; [by apply elem_of_nil in Hin|]. apply elem_of_cons in Hin as [->|?]; [by eexists|auto]. Qed.

(** What does not see the precursors. *)
Lemma beside_rel {X} (m : M world X) `{!Beside m} own Q w x w' :
  precursors_rel_ own Q w → m w = Ok x w' →
  ∃ Q', on_object m Q = Ok x Q' ∧ precursors_rel_ own Q' w' ∧ pc_dst Q' = pc_dst Q.
Proof.
  intros [Ho Hl Hh Hd He Hlk Hb Hf Hw] Hm. pose proof (blind (T:=precursors_part) (m:=m) (PrecursorsPart ∅) w) as Hbl.
  rewrite Hm in Hbl. destruct Hbl as (Heq & [= Hp] & Hbrk). simpl in Heq.
  exists (PrecursorNodes (pc_links Q) (pc_dst Q) (pc_brk Q) (bare w')).
  split; [by rewrite /on_object Hw Heq|]. split; [|done]. split; simpl; rewrite ?Hp; [|done..| |done].
  - rewrite Ho. trans (dom (precursors w)); [by rewrite dom_fmap_L|]. by rewrite -Hp dom_fmap_L.
  - intros a Ha%Hf. lia.
Qed.

Lemma simulated_beside {X} (m : M world X) `{!Beside m} Q w : precursors_rel Q w → simulated (on_object m) m Q w.
Proof.
  intros [own HQ]. unfold ListState.simulated. destruct (m w) as [x w'|] eqn:Hm; [|done].
  destruct (beside_rel m own Q w x w' HQ Hm) as (Q' & Hrun & HQ' & _). unfold wp. rewrite Hrun. split; [done|]. by exists own.
Qed.

(** ** A list that changes *)

(** The world with other precursors for one route. *)
Definition with_precursors a ips w : world :=
  set_w_routes (alter (set_rt_precursors ips) a (w_routes w)) w.

Lemma with_precursors_eq a r ips w : w_routes w !! a = Some r →
  with_precursors a ips w = set_w_routes (<[a := set_rt_precursors ips r]> (w_routes w)) w.
Proof.
  intros Hr. unfold with_precursors. f_equal. apply (map_eq (M:=gmap addr)). intros b.
  destruct (decide (b = a)) as [->|Hne]; [by rewrite lookup_alter_eq lookup_insert_eq Hr|].
  by rewrite lookup_alter_ne // lookup_insert_ne.
Qed.

Lemma with_precursors_dom a ips w : dom (w_routes (with_precursors a ips w)) = dom (w_routes w).
Proof. apply dom_alter_L. Qed.
Lemma with_precursors_bare a ips w : bare (with_precursors a ips w) = bare w.
Proof.
  unfold bare, with_precursors, set_w_routes. simpl. f_equal. apply (map_eq (M:=gmap addr)). intros b. rewrite !lookup_fmap.
  destruct (decide (b = a)) as [->|Hne]; [rewrite lookup_alter_eq; by destruct (w_routes w !! a)|by rewrite lookup_alter_ne].
Qed.
Lemma with_precursors_precursors a ips w b : is_Some (w_routes w !! a) →
  precursors (with_precursors a ips w) !! b = if decide (b = a) then Some ips else precursors w !! b.
Proof.
  intros [r Hr]. unfold precursors. rewrite !lookup_fmap. simpl. case_decide as Hb.
  - by rewrite Hb lookup_alter_eq Hr.
  - by rewrite lookup_alter_ne.
Qed.

(** The list of [a] has the entries [es'] from now on: some of the old ones, and new ones;
    the rest of the memory is as it was. *)
Record relisted a es es' ips' Q Q' : Prop := {
  re_list : is_list (pc_links Q') (PN_route a) (PN_entry <$> es');
  re_hold : hold (pc_dst Q') es' ips';
  re_new e : e ∈ es' → e ∉ es → (pc_brk Q ≤ e)%positive;
  re_links n m : n ∉ PN_route a :: (PN_entry <$> es ++ es') → pc_links Q' !! (n, m) = pc_links Q !! (n, m);
  re_freed e m : e ∈ es → e ∉ es' → pc_links Q' !! (PN_entry e, m) = None;
  re_dst e : e ∉ es' → pc_dst Q' !! e = if decide (e ∈ es) then None else pc_dst Q !! e;
  re_brk : (pc_brk Q ≤ pc_brk Q')%positive;
  re_bound e : e ∈ es' → (e < pc_brk Q')%positive;
  re_world : pc_world Q' = pc_world Q }.

Lemma relisted_rel own Q w a es es' ips' Q' :
  precursors_rel_ own Q w → own !! a = Some es → relisted a es es' ips' Q Q' →
  precursors_rel_ (<[a := es']> own) Q' (with_precursors a ips' w).
Proof.
  intros HQ Ha [Rl Rh Rn Rlk Rf Rd Rb Rbd Rw]. pose proof HQ as [Ho Hl Hh Hd He Hlk Hb Hf Hw].
  destruct (owned_route own Q w a es HQ Ha) as (r & Hr & _).
  (* an entry of another route is neither an old nor a new one of this *)
  assert (∀ b es2 e, b ≠ a → own !! b = Some es2 → e ∈ es2 → e ∉ es ∧ e ∉ es') as Hother.
  { intros b es2 e Hba Hb2 Hin. destruct (owned_route own Q w b es2 HQ Hb2) as (r' & _ & _ & Hho).
    assert (e ∉ es) as Hne by (intros Hin'; apply Hba; by eapply Hd). split; [done|].
    intros Hin'. pose proof (Rn e Hin' Hne). pose proof (Hb e (hold_live _ _ _ _ Hho Hin)). lia. }
  split.
  - rewrite dom_insert_L with_precursors_dom Ho. assert (a ∈ dom (w_routes w)) by (apply elem_of_dom; by exists r). set_solver.
  - intros b es2. rewrite lookup_insert_Some. intros [[<- <-]|[Hba Hb2]]; [done|].
    eapply is_list_ext; [|by apply Hl]. intros n m Hn. apply Rlk.
    apply elem_of_cons in Hn as [->|(e & -> & Hin)%list_elem_of_fmap].
    + rewrite elem_of_cons list_elem_of_fmap. by intros [[= ?]|(? & [=] & _)].
    + destruct (Hother b es2 e) as [He1 He2]; [done..|].
      rewrite elem_of_cons list_elem_of_fmap. by intros [[=]|(? & [= <-] & [?|?]%elem_of_app)].
  - intros b es2 ips2. rewrite with_precursors_precursors; [|by exists r].
    rewrite lookup_insert_Some. intros [[<- <-]|[Hba Hb2]].
    + rewrite decide_True //. by intros [= <-].
    + rewrite decide_False //. intros Hp. pose proof (Hh b es2 ips2 Hb2 Hp) as Hho.
      eapply hold_same; [exact Hho|]. intros e Hin.
      destruct (Hother b es2 e) as [He1 He2]; [done..|]. by rewrite Rd // decide_False.
  - intros b c es2 es3 e. rewrite !lookup_insert_Some.
    intros [[<- <-]|[Hb1 Hb2]] [[<- <-]|[Hc1 Hc2]] Hin1 Hin2; [done| | |by eapply Hd].
    + by destruct (Hother c es3 e) as [_ ?].
    + by destruct (Hother b es2 e) as [_ ?].
  - intros e Hlive. destruct (decide (e ∈ es')) as [Hin|Hni]; [exists a, es'; by rewrite lookup_insert_eq|].
    rewrite Rd // in Hlive. case_decide as Hin; [by destruct Hlive|].
    destruct (He e Hlive) as (b & es2 & Hb2 & Hin2). exists b, es2. rewrite lookup_insert_ne //.
    intros <-. congruence.
  - intros n m Hlive. destruct (decide (n ∈ PN_route a :: (PN_entry <$> es ++ es'))) as [Hn|Hn].
    + apply elem_of_cons in Hn as [->|(e & -> & Hin)%list_elem_of_fmap]; [by rewrite lookup_insert_eq; eexists|].
      destruct (decide (e ∈ es')) as [Hin'|Hni]; [by eapply hold_live|].
      apply elem_of_app in Hin as [Hin|?]; [|done]. rewrite Rf in Hlive; [by destruct Hlive|done..].
    + rewrite Rlk // in Hlive. apply Hlk in Hlive. rewrite elem_of_cons list_elem_of_fmap in Hn. destruct n as [b|e].
      * rewrite lookup_insert_ne //. intros <-. by apply Hn; left.
      * rewrite Rd; [|intros ?; apply Hn; right; exists e; set_solver].
        rewrite decide_False //. intros ?; apply Hn; right; exists e; set_solver.
  - intros e Hlive. destruct (decide (e ∈ es')) as [Hin|Hni]; [by apply Rbd|].
    rewrite Rd // in Hlive. case_decide; [by destruct Hlive|]. apply Hb in Hlive. lia.
  - intros b Hlive. apply Hf. rewrite lookup_insert_is_Some in Hlive. destruct Hlive as [->|[_ ?]]; [by eexists|done].
  - by rewrite Rw Hw with_precursors_bare.
Qed.

(** ** Looking for an entry *)

Lemma wp_read_precursor e ip Q (P : Z → precursor_nodes → Prop) :
  pc_dst Q !! e = Some ip → P ip Q → wp (read_precursor e) P Q.
Proof. intros He HP. unfold wp, read_precursor. by rewrite He. Qed.

Lemma find_precursor_spec own Q w a ip es ips :
  precursors_rel_ own Q w → own !! a = Some es → hold (pc_dst Q) es ips →
  wp (find_precursor a ip) (λ found Q', Q' = Q ∧ match found with
    | Some n => ∃ e es1 es2 ips1 ips2, n = PN_entry e ∧ es = es1 ++ e :: es2 ∧ ips = ips1 ++ ip :: ips2 ∧
        hold (pc_dst Q) (es1 ++ es2) (ips1 ++ ips2) ∧ ip ∉ ips1
    | None => ip ∉ ips
    end) Q.
Proof.
  intros HQ Ha Hh. pose proof (pr_list _ _ _ HQ a es Ha) as Hl.
  apply (list_find_entry_wp (PN_route a) (λ seen rest Q', Q' = Q ∧ ∃ es1 es2 ips1 ips2, es = es1 ++ es2 ∧
    ips = ips1 ++ ips2 ∧ seen = PN_entry <$> es1 ∧ rest = PN_entry <$> es2 ∧ hold (pc_dst Q) es1 ips1 ∧
    hold (pc_dst Q) es2 ips2 ∧ ip ∉ ips1) _ _ (PN_entry <$> es)).
  - intros ? ? ? (-> & es1 & es2 & ips1 & ips2 & -> & -> & -> & -> & _). by rewrite -fmap_app.
  - intros ? n ? ? (-> & es1 & es2 & ips1 & ips2 & -> & -> & -> & Hn & H1 & H2 & Hni).
    destruct es2 as [|e es2]; simplify_eq/=. apply Forall2_cons_inv_l in H2 as (ip' & ips2' & He & H2 & ->).
    apply wp_bind, wp_ret, wp_bind. eapply wp_read_precursor; [exact He|]. apply wp_ret.
    destruct (Z.eqb_spec ip' ip) as [->|Hne].
    + split; [done|]. exists e, es1, es2, ips1, ips2'. split_and!; [done..| |done]. by apply Forall2_app.
    + split; [done|]. exists (es1 ++ [e]), es2, (ips1 ++ [ip']), ips2'. rewrite -!assoc fmap_app.
      split_and!; [done..| |done|set_solver]. apply Forall2_app; [done|]. by constructor.
  - intros ? ? (-> & es1 & es2 & ips1 & ips2 & -> & -> & -> & Hn & H1 & H2 & Hni). destruct es2; [|done].
    apply Forall2_nil_inv_l in H2 as ->. by rewrite app_nil_r.
  - split; [done|]. exists [], es, [], ips. split_and!; [done..|constructor|done|by apply not_elem_of_nil].
Qed.

(** ** Adding and removing an entry *)

Lemma update_precursors_eq a r f ips w :
  w_routes w !! a = Some r → f r = set_rt_precursors ips r → upd_route a f w = Ok tt (with_precursors a ips w).
Proof. intros Hr Hf. by rewrite (upd_route_eq _ _ _ _ Hr) Hf (with_precursors_eq a r). Qed.

Lemma relist_same own Q w a es ips :
  precursors_rel_ own Q w → own !! a = Some es → precursors w !! a = Some ips →
  precursors_rel_ own Q (with_precursors a ips w).
Proof.
  intros HQ Ha Hp. destruct (owned_route own Q w a es HQ Ha) as (r & Hr & Hp' & _).
  rewrite (with_precursors_eq a r) //. rewrite Hp in Hp'. injection Hp' as ->.
  replace (set_rt_precursors (rt_precursors r) r) with r by by destruct r. rewrite insert_id //. by destruct w.
Qed.

(** A new entry in front. *)
Lemma push_precursor_spec own Q w a ip es ips :
  precursors_rel_ own Q w → own !! a = Some es → hold (pc_dst Q) es ips →
  wp (entry ← calloc_precursor; write_precursor entry ip;; on_links (list_add (PN_entry entry) (PN_route a)))
    (λ _ Q', precursors_rel Q' (with_precursors a (ip :: ips) w)) Q.
Proof.
  intros HQ Ha Hh. set (e := pc_brk Q).
  assert (∀ x, is_Some (pc_dst Q !! x) → x ≠ e) as Hne by (intros x Hx%(pr_brk _ _ _ HQ) ->; unfold e in Hx; lia).
  assert (e ∉ es) as Hni by (intros Hin; by eapply Hne; [eapply hold_live|]).
  apply wp_bind. unfold wp at 1, calloc_precursor. fold e. apply wp_bind, wp_bind.
  eapply wp_read_precursor; [apply lookup_insert_eq|]. apply wp_modify, wp_on_links.
  cbn [pc_links pc_dst pc_brk pc_world host_links host_set_links precursor_list_host].
  assert (∀ n m, n ≠ PN_entry e → blank_links (PN_entry e) (pc_links Q) !! (n, m) = pc_links Q !! (n, m)) as Hblank.
  { intros n m Hn. unfold blank_links. by rewrite !lookup_insert_ne //; congruence. }
  eapply wp_mono; [apply (list_add_state _ (PN_route a) (PN_entry <$> es))|].
  - eapply is_list_ext; [|by eapply pr_list]. intros n m Hn. apply Hblank. set_solver.
  - split; unfold blank_links; [rewrite lookup_insert_eq|rewrite lookup_insert_ne // lookup_insert_eq]; by eexists.
  - set_solver.
  - intros [] links [Hl' Hout]. exists (<[a := e :: es]> own). eapply relisted_rel; [exact HQ|exact Ha|].
    split; simpl; [exact Hl'| | | | | | | |done].
    + rewrite insert_insert_eq. constructor; [apply lookup_insert_eq|]. eapply hold_same; [exact Hh|].
      intros x Hx. rewrite lookup_insert_ne //. by intros <-.
    + intros x [->|Hx]%elem_of_cons Hnx; [unfold e; lia|done].
    + intros n m Hn. rewrite Hout; [apply Hblank|]; set_solver.
    + set_solver.
    + intros x Hx. apply not_elem_of_cons in Hx as [Hx1 Hx2]. rewrite insert_insert_eq lookup_insert_ne //.
      by rewrite decide_False.
    + unfold e. lia.
    + intros x [->|Hx]%elem_of_cons; [unfold e; lia|]. pose proof (pr_brk _ _ _ HQ x (hold_live _ _ _ _ Hh Hx)). unfold e. lia.
Qed.

(** An entry that goes. *)
Lemma remove_precursor_spec own Q w a es1 e es2 ips :
  precursors_rel_ own Q w → own !! a = Some (es1 ++ e :: es2) → hold (pc_dst Q) (es1 ++ es2) ips →
  wp (on_links (list_del (PN_entry e));; free_precursor e)
    (λ _ Q', precursors_rel_ (<[a := es1 ++ es2]> own) Q' (with_precursors a ips w)) Q.
Proof.
  intros HQ Ha Hh. pose proof (pr_list _ _ _ HQ a _ Ha) as Hl.
  destruct (owned_route own Q w a _ HQ Ha) as (r & _ & _ & Hho).
  destruct (hold_live _ _ _ e Hho) as [ip Hip]; [set_solver|].
  pose proof Hl as [_ [_ Hnd]%NoDup_cons]. apply (NoDup_fmap_1 PN_entry) in Hnd.
  assert (e ∉ es1 ++ es2) as Hni.
  { apply NoDup_app in Hnd as (_ & Hx & [Hy _]%NoDup_cons). intros [Hin|Hin]%elem_of_app; [|done]. eapply Hx; [done|left]. }
  assert (unlink (PN_entry e) (PN_entry <$> es1 ++ e :: es2) = PN_entry <$> es1 ++ es2) as Hun
    by by rewrite -fmap_unlink unlink_split.
  apply wp_bind, wp_on_links. eapply wp_mono; [apply (list_del_state _ (PN_route a)); [exact Hl|apply list_elem_of_fmap_2; set_solver]|].
  intros [] links (Hl' & _ & _ & Hout). rewrite Hun in Hl'. apply wp_bind.
  cbn [host_set_links precursor_list_host]. eapply wp_read_precursor; [exact Hip|]. apply wp_modify.
  cbn [pc_links pc_dst pc_brk pc_world].
  assert (∀ n m, n ≠ PN_entry e → links_without (PN_entry e) links !! (n, m) = links !! (n, m)) as Hwithout.
  { intros n m Hn. unfold links_without. by rewrite freed_links decide_False. }
  eapply relisted_rel; [exact HQ|exact Ha|]. split; simpl.
  - eapply is_list_ext; [|exact Hl']. intros n m Hn. apply Hwithout. intros ->. set_solver.
  - eapply hold_same; [exact Hh|]. intros x Hx. rewrite lookup_delete_ne //. by intros <-.
  - intros x Hx Hnx. set_solver.
  - intros n m Hn. rewrite Hwithout; [apply Hout|]; set_solver.
  - intros x m Hx Hnx. assert (x = e) as -> by set_solver. unfold links_without. by rewrite freed_links decide_True.
  - intros x Hx. destruct (decide (x = e)) as [->|Hne].
    + rewrite lookup_delete_eq decide_True //. set_solver.
    + rewrite lookup_delete_ne // decide_False //. set_solver.
  - done.
  - intros x Hx. eapply (pr_brk _ _ _ HQ), hold_live; [exact Hho|set_solver].
  - done.
Qed.

Lemma add_precursor_simulated Q w a ip : precursors_rel Q w →
  simulated (PrecursorList.msh_route_add_precursor a ip) (MshRoute.msh_route_add_precursor a ip) Q w.
Proof.
  intros [own HQ]. unfold ListState.simulated, MshRoute.msh_route_add_precursor.
  destruct (w_routes w !! a) as [r|] eqn:Hr; [|by unfold upd_route, read_route, mbind, M_bind; rewrite Hr].
  destruct (route_owned own Q w a r HQ Hr) as [es Ha].
  destruct (owned_route own Q w a es HQ Ha) as (r' & Hr' & Hp & Hh). simplify_eq.
  assert (wp (PrecursorList.msh_route_add_precursor a ip) (λ _ Q', precursors_rel Q'
    (with_precursors a (rt_precursors (add_precursor ip r)) w)) Q) as Hrun.
  { apply wp_bind. eapply wp_mono; [by eapply find_precursor_spec|]. unfold add_precursor.
    intros [n|] ? [-> Hf].
    - destruct Hf as (e & es1 & es2 & ips1 & ips2 & -> & -> & Hips & _). rewrite decide_True; [|rewrite Hips; set_solver].
      apply wp_ret. exists own. by eapply relist_same.
    - rewrite decide_False //. by eapply push_precursor_spec. }
  rewrite (update_precursors_eq a r _ (rt_precursors (add_precursor ip r))) //.
  - eapply wp_mono; [exact Hrun|]. by intros [].
  - unfold add_precursor. case_decide; [|done]. by destruct r.
Qed.

Lemma remove_first_app ip ips1 ips2 : ip ∉ ips1 → remove_first ip (ips1 ++ ip :: ips2) = ips1 ++ ips2.
Proof.
  induction ips1 as [|x ips1 IH]; simpl; [by rewrite Z.eqb_refl|]. intros [Hne Hni]%not_elem_of_cons.
  rewrite (proj2 (Z.eqb_neq x ip)); [by rewrite IH|congruence].
Qed.
Lemma remove_first_notin ip ips : ip ∉ ips → remove_first ip ips = ips.
Proof.
  induction ips as [|x ips IH]; simpl; [done|]. intros [Hne Hni]%not_elem_of_cons.
  rewrite (proj2 (Z.eqb_neq x ip)); [by rewrite IH|congruence].
Qed.

Lemma del_precursor_simulated Q w a ip : precursors_rel Q w →
  simulated (PrecursorList.msh_route_del_precursor a ip) (MshRoute.msh_route_del_precursor a ip) Q w.
Proof.
  intros [own HQ]. unfold ListState.simulated, MshRoute.msh_route_del_precursor.
  destruct (w_routes w !! a) as [r|] eqn:Hr; [|by unfold upd_route, read_route, mbind, M_bind; rewrite Hr].
  destruct (route_owned own Q w a r HQ Hr) as [es Ha].
  destruct (owned_route own Q w a es HQ Ha) as (r' & Hr' & Hp & Hh). simplify_eq.
  rewrite (update_precursors_eq a r _ (remove_first ip (rt_precursors r))) //.
  apply wp_bind. eapply wp_mono; [by eapply find_precursor_spec|]. intros [n|] ? [-> Hf].
  - destruct Hf as (e & es1 & es2 & ips1 & ips2 & -> & -> & Hips & Hh2 & Hni).
    apply wp_bind, wp_ret. rewrite Hips remove_first_app //.
    eapply wp_mono; [by eapply remove_precursor_spec|]. intros [] Q' HQ'. split; [done|]. by eexists.
  - apply wp_ret. split; [done|]. exists own. rewrite remove_first_notin //. by eapply relist_same.
Qed.

(** ** Visiting the entries *)

Lemma zip_hold dst es ips e ip : hold dst es ips → (e, ip) ∈ zip es ips → dst !! e = Some ip.
Proof.
  intros Hh. induction Hh as [|x y es ips Hx Hh IH]; simpl; [by intros ?%elem_of_nil|].
  intros [[= -> ->]|?]%elem_of_cons; [done|by apply IH].
Qed.
Lemma zip_hold_nodes dst es ips : hold dst es ips → (PN_entry ∘ fst) <$> zip es ips = PN_entry <$> es.
Proof. intros Hh. induction Hh as [|x y es ips Hx Hh IH]; [done|]. simpl. f_equal. exact IH. Qed.
Lemma for_each_zip {S} dst es ips (body : Z → M S unit) :
  hold dst es ips → for_each (zip es ips) (λ p, body p.2) = for_each ips body.
Proof. intros Hh. induction Hh as [|x y es ips Hx Hh IH]; [done|]. by rewrite /= IH. Qed.

Lemma foreach_precursor_simulated Q w a (callback : addr → Z → M world unit) :
  (∀ ip, Beside (callback a ip)) → precursors_rel Q w →
  simulated (PrecursorList.msh_route_foreach_precursor a (λ route ip, on_object (callback route ip)))
    (MshRoute.msh_route_foreach_precursor a callback) Q w.
Proof.
  intros Hcb [own HQ]. unfold ListState.simulated, MshRoute.msh_route_foreach_precursor.
  destruct (w_routes w !! a) as [r|] eqn:Hr; [|by unfold read_route, mbind, M_bind; rewrite Hr].
  destruct (route_owned own Q w a r HQ Hr) as [es Ha].
  destruct (owned_route own Q w a es HQ Ha) as (r' & Hr' & Hp & Hh). simplify_eq.
  rewrite (bind_eq _ _ _ _ _ (read_route_eq _ _ _ Hr)). set (ips := rt_precursors r) in *.
  rewrite -(for_each_zip _ _ _ (callback a) Hh).
  pose (T s w := precursors_rel_ own s w ∧ hold (pc_dst s) es ips).
  assert (ListState.simulated T (PrecursorList.msh_route_foreach_precursor a (λ route ip, on_object (callback route ip)))
    (for_each (zip es ips) (λ p, callback a p.2)) Q w) as Hs.
  { apply (visit_simulated (Host:=precursor_list_host) T (PN_route a) (λ _, zip es ips) (PN_entry ∘ fst)); [| |done|by split].
    - intros s w1 [HT Hh1]. rewrite (zip_hold_nodes _ _ _ Hh1). by eapply pr_list.
    - intros [e ip] s w1 [HT Hh1] Hin. unfold ListState.simulated. cbn [fst snd compose].
      destruct (callback a ip w1) as [[] w2|] eqn:Hrun; [|done].
      apply wp_bind, wp_ret, wp_bind. eapply wp_read_precursor; [by eapply zip_hold|].
      destruct (beside_rel _ own s w1 _ _ HT Hrun) as (s' & Hrun' & HT' & Hdst). unfold wp. rewrite Hrun'.
      split; [done|]. split; [done|]. by rewrite Hdst. }
  unfold ListState.simulated in Hs. destruct (for_each _ _ w) as [[] w'|]; [|done].
  eapply wp_mono; [exact Hs|]. intros [] Q' (_ & HQ' & _). split; [done|]. by exists own.
Qed.

(** ** Routes that come and go *)

Lemma with_precursors_twice a ips ips' w : with_precursors a ips (with_precursors a ips' w) = with_precursors a ips w.
Proof.
  unfold with_precursors, set_w_routes. simpl. f_equal. apply (map_eq (M:=gmap addr)). intros b.
  destruct (decide (b = a)) as [->|Hne]; [rewrite !lookup_alter_eq; by destruct (w_routes w !! a)|by rewrite !lookup_alter_ne].
Qed.

(** The loop of [msh_route_destroy] frees every entry of the route. *)
Lemma free_precursors_spec own Q w a es : precursors_rel_ own Q w → own !! a = Some es →
  wp (list_for_each_entry_safe (PN_route a) (λ n,
    entry ← demand ListCorrupt (precursor_at n);
    on_links (list_del n);;
    free_precursor entry)) (λ _ Q', precursors_rel_ (<[a := []]> own) Q' (with_precursors a [] w)) Q.
Proof.
  intros HQ Ha. destruct (owned_route own Q w a es HQ Ha) as (r & Hr & Hp & _).
  eapply wp_mono; [apply (list_for_each_entry_safe_wp (PN_route a) (λ kept rest Q', ∃ es' ips, kept = [] ∧
    rest = PN_entry <$> es' ∧ precursors_rel_ (<[a := es']> own) Q' (with_precursors a ips w)) _ (PN_entry <$> es))|].
  - intros ? ? Q' (es' & ips & -> & -> & HQ'). eapply pr_list; [exact HQ'|apply lookup_insert_eq].
  - intros ? n ? Q' (es' & ips & -> & Hn & HQ'). destruct es' as [|e es']; simplify_eq/=.
    assert (<[a := e :: es']> own !! a = Some (e :: es')) as Ha' by apply lookup_insert_eq.
    destruct (owned_route _ _ _ _ _ HQ' Ha') as (r' & Hr' & Hp' & Hh).
    apply Forall2_cons_inv_l in Hh as (ip & ips' & _ & Hh & _).
    apply wp_bind, wp_ret. eapply wp_mono; [by apply (remove_precursor_spec _ Q' _ a [] e es' ips' HQ' Ha')|].
    intros [] Q2 HQ2. rewrite insert_insert_eq with_precursors_twice in HQ2. by exists [], es', ips'.
  - exists es, (rt_precursors r). rewrite (insert_id own) //. split_and!; [done..|]. by eapply relist_same.
  - intros [] Q' (? & es' & ips & -> & Hn & HQ'). destruct es'; [|done].
    assert (<[a := []]> own !! a = Some []) as Ha' by apply lookup_insert_eq.
    destruct (owned_route _ _ _ _ _ HQ' Ha') as (r' & Hr' & Hp' & Hh). apply Forall2_nil_inv_l in Hh.
    rewrite with_precursors_precursors ?decide_True in Hp'; [|done|by exists r]. injection Hp' as Hips. by rewrite Hips Hh in HQ'.
Qed.

Lemma free_route_spec own Q w a w' : precursors_rel_ own Q w → own !! a = Some [] →
  MshRoute.free_route a w = Ok tt w' →
  wp (PrecursorList.free_route a) (λ _ Q', precursors_rel_ (delete a own) Q' w') Q.
Proof.
  intros HQ Ha [= <-]. pose proof (pr_list _ _ _ HQ a [] Ha) as [[Hn _] _].
  destruct HQ as [Ho Hl Hh Hd He Hlk Hb Hf Hw].
  apply wp_bind, wp_on_links. unfold wp at 1, get. simpl. rewrite Hn /=. apply wp_bind, wp_modify.
  unfold wp, on_object. simpl. rewrite Hw /=.
  assert (∀ n m, n ≠ PN_route a → links_without (PN_route a) (pc_links Q) !! (n, m) = pc_links Q !! (n, m)) as Hwithout.
  { intros n m Hne. unfold links_without. by rewrite freed_links decide_False. }
  split; simpl.
  - by rewrite !dom_delete_L Ho.
  - intros b es [Hba Hb2]%lookup_delete_Some. eapply is_list_ext; [|by apply Hl].
    intros n m Hin. apply Hwithout. intros ->. set_solver.
  - intros b es ips [Hba Hb2]%lookup_delete_Some. unfold precursors. simpl. rewrite fmap_delete lookup_delete_ne //.
    by apply Hh.
  - intros b c es es' e [_ Hb2]%lookup_delete_Some [_ Hc2]%lookup_delete_Some. by eapply Hd.
  - intros e (b & es & Hb2 & Hin)%He. exists b, es. split; [|done]. rewrite lookup_delete_ne //.
    intros <-. rewrite Ha in Hb2. injection Hb2 as <-. by apply elem_of_nil in Hin.
  - intros n m. unfold links_without. rewrite freed_links. case_decide as Hna; [by intros []|]. intros Hlive%Hlk.
    destruct n as [b|e]; [|done]. rewrite lookup_delete_ne //. congruence.
  - done.
  - intros b [_ ?]%lookup_delete_is_Some. by apply Hf.
  - unfold bare, set_w_routes. simpl. by rewrite fmap_delete.
Qed.

Lemma destroy_precursors_simulated Q w a : precursors_rel Q w →
  simulated (PrecursorList.msh_route_destroy a) (MshRoute.msh_route_destroy a) Q w.
Proof.
  intros HQ. apply simulated_bind; [by apply simulated_beside; [apply _|]|]. intros [] Q1 w1 _ HQ1.
  apply simulated_bind; [by apply simulated_beside; [apply _|]|]. intros [] Q2 w2 _ [own HQ2].
  unfold ListState.simulated. destruct (w_routes w2 !! a) as [r|] eqn:Hr; [|by unfold upd_route, read_route, mbind, M_bind; rewrite Hr].
  rewrite (bind_eq _ _ _ _ _ (update_precursors_eq a r _ [] w2 Hr eq_refl)).
  destruct (MshRoute.free_route a _) as [[] w'|] eqn:Hfree; [|done].
  destruct (route_owned own Q2 w2 a r HQ2 Hr) as [es Ha].
  apply wp_bind. eapply wp_mono; [by apply (free_precursors_spec own Q2 w2 a es)|]. intros [] Q3 HQ3.
  eapply wp_mono; [apply (free_route_spec _ Q3 _ a w' HQ3); [apply lookup_insert_eq|exact Hfree]|].
  intros [] Q4 HQ4. split; [done|]. by eexists.
Qed.

Lemma alloc_precursors_simulated Q w : precursors_rel Q w →
  simulated PrecursorList.msh_route_alloc MshRoute.msh_route_alloc Q w.
Proof.
  intros [own HQ]. pose proof HQ as [Ho Hl Hh Hd He Hlk Hb Hf Hw]. set (a := w_brk w).
  assert (own !! a = None) as Hnone.
  { apply eq_None_not_Some. intros Hx%Hf. unfold a in Hx. lia. }
  unfold ListState.simulated. rewrite msh_route_alloc_eq. fold a.
  assert (bare (with_new_route w) = with_new_route (bare w)) as Hbare.
  { unfold bare, with_new_route, set_w_routes. simpl. by rewrite fmap_insert. }
  apply wp_bind. unfold wp at 1, on_object. rewrite Hw msh_route_alloc_eq -Hbare.
  change (w_brk (bare w)) with a. apply wp_bind, wp_modify, wp_bind, wp_on_links.
  cbn [pc_links pc_dst pc_brk pc_world host_links host_set_links precursor_list_host].
  unfold INIT_LIST_HEAD, put, get, modify, wp, mbind, M_bind, blank_links.
  rewrite lookup_insert_eq /= lookup_insert_ne // lookup_insert_ne // lookup_insert_eq /=.
  split; [done|]. exists (<[a := []]> own). split; simpl.
  - by rewrite !dom_insert_L Ho.
  - intros b es. rewrite lookup_insert_Some. intros [[<- <-]|[Hba Hb2]].
    + split; [|apply NoDup_singleton]. split; [by rewrite lookup_insert_ne // lookup_insert_eq|by rewrite lookup_insert_eq].
    + eapply is_list_ext; [|by apply Hl]. intros n m Hin.
      assert (n ≠ PN_route a) by set_solver. rewrite !lookup_insert_ne; [done|congruence..].
  - intros b es ips. unfold precursors. simpl. rewrite fmap_insert !lookup_insert_Some.
    intros [[<- <-]|[Hba Hb2]] [[Hab <-]|[Hab Hp]]; [constructor|done..|by eapply Hh].
  - intros b c es es' e. rewrite !lookup_insert_Some.
    intros [[<- <-]|[_ Hb2]] [[<- <-]|[_ Hc2]] Hin1 Hin2; [done|by apply elem_of_nil in Hin1|by apply elem_of_nil in Hin2|by eapply Hd].
  - intros e (b & es & Hb2 & Hin)%He. exists b, es. split; [|done]. rewrite lookup_insert_ne //. congruence.
  - intros n m. destruct (decide (n = PN_route a)) as [->|Hn]; [by rewrite lookup_insert_eq; eexists|].
    rewrite !lookup_insert_ne; [|congruence..]. intros Hlive%Hlk. destruct n as [b|e]; [|done].
    rewrite lookup_insert_ne //. congruence.
  - done.
  - intros b. rewrite lookup_insert_is_Some. intros [<-|[_ Hx%Hf]]; unfold a; lia.
  - done.
Qed.

(** ** Every state has such a memory *)

Lemma bare_nodes_exist w : (∀ a, is_Some (w_routes w !! a) → (a < w_brk w)%positive) → ∃ Q, precursors_rel Q (bare w).
Proof.
  intros Hf. set (own := (λ _, []) <$> w_routes w : gmap addr (list positive)).
  destruct (loops_exist (set_map PN_route (dom (w_routes w)))) as (links & Hn & Ho & Hs).
  assert (∀ a es, own !! a = Some es → es = [] ∧ is_Some (w_routes w !! a)) as Hown.
  { intros a es. unfold own. rewrite lookup_fmap. intros (r & -> & ->)%fmap_Some. split; [done|by eexists]. }
  exists (PrecursorNodes links ∅ 1 (bare w)), own. split; simpl.
  - by rewrite !dom_fmap_L.
  - intros a es [-> Ha]%Hown. split; [|apply NoDup_singleton].
    assert (PN_route a ∈ (set_map PN_route (dom (w_routes w)) : gset precursor_node)).
    { apply elem_of_map. exists a. split; [done|]. by apply elem_of_dom. }
    split; apply Hs; auto.
  - intros a es ips [-> Ha]%Hown. unfold precursors. simpl. rewrite !lookup_fmap.
    destruct Ha as [r ->]. simpl. intros [= <-]. constructor.
  - intros a b es es' e [-> _]%Hown. by intros _ ?%elem_of_nil.
  - intros e. rewrite lookup_empty. by intros [].
  - intros n m (a & -> & Ha%elem_of_dom)%Ho%elem_of_map. unfold own. rewrite lookup_fmap. destruct Ha as [r ->]. by eexists.
  - intros e. rewrite lookup_empty. by intros [].
  - intros a [es [_ Ha]%Hown]. by apply Hf.
  - unfold bare, set_w_routes. simpl. f_equal. rewrite -map_fmap_compose. by apply map_fmap_ext.
Qed.

Lemma precursors_exist Q w a ips :
  precursors_rel Q w → precursors w !! a = Some [] → ∃ Q', precursors_rel Q' (with_precursors a ips w).
Proof.
  intros [own HQ] Hp. assert (is_Some (own !! a)) as [es Ha].
  { apply elem_of_dom. rewrite (pr_own _ _ _ HQ) -(dom_fmap_L rt_precursors). apply elem_of_dom. by eexists. }
  destruct (owned_route own Q w a es HQ Ha) as (r & Hr & _).
  induction ips as [|ip ips [Q1 [own1 HQ1]]]; [exists Q, own; by eapply relist_same|].
  assert (precursors (with_precursors a ips w) !! a = Some ips) as Hp1.
  { rewrite with_precursors_precursors ?decide_True //. }
  assert (is_Some (own1 !! a)) as [es1 Ha1].
  { apply elem_of_dom. rewrite (pr_own _ _ _ HQ1) -(dom_fmap_L rt_precursors). apply elem_of_dom. by eexists. }
  pose proof (push_precursor_spec own1 Q1 _ a ip es1 ips HQ1 Ha1 (pr_hold _ _ _ HQ1 _ _ _ Ha1 Hp1))
    as (? & Q2 & _ & HQ2)%wp_run.
  exists Q2. by rewrite with_precursors_twice in HQ2.
Qed.

(** The routes in [X] have their precursors, the others none. *)
Definition bare_outside (X : gset addr) w : world :=
  set_w_routes (map_imap (λ a r, Some (if decide (a ∈ X) then r else set_rt_precursors [] r)) (w_routes w)) w.

Lemma bare_outside_lookup X w a :
  w_routes (bare_outside X w) !! a = (λ r, if decide (a ∈ X) then r else set_rt_precursors [] r) <$> w_routes w !! a.
Proof. unfold bare_outside. simpl. rewrite map_lookup_imap. by destruct (w_routes w !! a). Qed.

Lemma bare_outside_ext X w w' :
  (∀ a, w_routes w' !! a = (λ r, if decide (a ∈ X) then r else set_rt_precursors [] r) <$> w_routes w !! a) →
  w' = set_w_routes (w_routes w') w → bare_outside X w = w'.
Proof.
  intros Ha ->. unfold bare_outside, set_w_routes. simpl. f_equal. apply (map_eq (M:=gmap addr)). intros a.
  rewrite map_lookup_imap. simpl in Ha. rewrite Ha. by destruct (w_routes w !! a).
Qed.

Lemma precursor_nodes_exist w : (∀ a, is_Some (w_routes w !! a) → (a < w_brk w)%positive) → ∃ Q, precursors_rel Q w.
Proof.
  intros Hf. assert (∀ X, ∃ Q, precursors_rel Q (bare_outside X w)) as Hall.
  { induction X as [|a X HaX [Q HQ]] using set_ind_L.
    - destruct (bare_nodes_exist w Hf) as [Q HQ]. exists Q.
      rewrite (bare_outside_ext ∅ w (bare w)) //. intros a. simpl. by rewrite lookup_fmap.
    - destruct (w_routes w !! a) as [r|] eqn:Hr.
      + destruct (precursors_exist Q _ a (rt_precursors r) HQ) as [Q' HQ'].
        { unfold precursors. rewrite lookup_fmap bare_outside_lookup Hr /= decide_False //. }
        exists Q'. rewrite (bare_outside_ext _ w (with_precursors a (rt_precursors r) (bare_outside X w))) //.
        intros b. unfold with_precursors. simpl. destruct (decide (b = a)) as [->|Hne].
        * rewrite lookup_alter_eq map_lookup_imap Hr /= decide_False // decide_True; [by destruct r|set_solver].
        * rewrite lookup_alter_ne // map_lookup_imap. destruct (w_routes w !! b); [|done]. simpl.
          by destruct (decide (b ∈ X)), (decide (b ∈ {[a]} ∪ X)); try set_solver.
      + exists Q. rewrite (bare_outside_ext _ w (bare_outside X w)) //. intros b. rewrite bare_outside_lookup.
        destruct (decide (b = a)) as [->|Hne]; [by rewrite Hr|].
        by destruct (decide (b ∈ X)), (decide (b ∈ {[a]} ∪ X)); try set_solver. }
  destruct (Hall (dom (w_routes w))) as [Q HQ]. exists Q. rewrite (bare_outside_ext _ w w) in HQ; [done| |by destruct w].
  intros a. destruct (w_routes w !! a) as [r|] eqn:Hr; [|done]. simpl. rewrite decide_True //. apply elem_of_dom. by eexists.
Qed.
End simulation.
