(* ===== verification/RreqFifoSpec.v ===== *)
(** * The queue of RREQs keeps the invariant

    Insertion, search and deletion of the entries of rreq_fifo.c. *)

From S2P Require Export RoutingTableSpec.

Section rreq_specs.
Context `{E : Env} {EO : EnvOk E}.
Implicit Types w : world.

(** ** Search *)

Definition satisfies (test : rreq_fifo → bool) (w : world) (a : addr) : bool :=
  from_option test false (w_rreqs w !! a).

(** The first entry that satisfies the test. *)
Definition find_rreq (test : rreq_fifo → bool) (w : world) : option addr :=
  head (filter (λ a, satisfies test w a = true) (w_rreq_queue w)).

Lemma first_rreq_eq w test entries :
  (∀ a, a ∈ entries → is_Some (w_rreqs w !! a)) →
  first_rreq test entries w =
    Ok (head (filter (λ a, satisfies test w a = true) entries)) w.
Proof.
  induction entries as [|a l IH]; intros Hin; [done|].
  destruct (Hin a) as [e He]; [left|]. simpl. unfold mbind at 1, M_bind at 1, read_rreq at 1.
  rewrite He. simpl. assert (satisfies test w a = test e) as Ht by (unfold satisfies; by rewrite He).
  destruct (test e).
  - by rewrite filter_cons_True.
  - rewrite filter_cons_False by congruence. apply IH. set_solver.
Qed.

Lemma queue_live w a : world_ok w → a ∈ w_rreq_queue w → is_Some (w_rreqs w !! a).
Proof. intros Hw. apply (qo_linked _ _ (wo_queue _ Hw)). Qed.

Lemma find_rreq_eq w test :
  world_ok w → (entries ← gets w_rreq_queue; first_rreq test entries) w = Ok (find_rreq test w) w.
Proof. intros Hw. apply first_rreq_eq. intros a. by apply queue_live. Qed.

Lemma find_rreq_Some w test a :
  find_rreq test w = Some a → a ∈ w_rreq_queue w ∧ ∃ e, w_rreqs w !! a = Some e ∧ test e = true.
Proof.
  unfold find_rreq. destruct (filter _ _) as [|b l] eqn:Hf; simpl; [done|]. intros [= ->].
  assert (a ∈ filter (λ a, satisfies test w a = true) (w_rreq_queue w)) as Ha by (rewrite Hf; left).
  apply list_elem_of_filter in Ha as [Ht Hin]. split; [done|].
  unfold satisfies in Ht. destruct (w_rreqs w !! a) as [e|]; [by exists e|done].
Qed.

(** The RREQ [rreq_id] for [dst] is remembered. *)
Definition remembers (w : world) (rreq_id dst : Z) : bool :=
  bool_decide (is_Some (find_rreq (λ e, (rf_rreq_id e =? rreq_id) && (rf_dst e =? dst)) w)).

(** A RREQ of ours for [dst] waits for an answer. *)
Definition discovering (w : world) (dst : Z) : bool :=
  bool_decide (is_Some (find_rreq (λ e, (0 <=? rf_prev_tries e) && (rf_dst e =? dst)) w)).

Lemma rreq_fifo_contains_eq w rreq_id dst :
  world_ok w → rreq_fifo_contains rreq_id dst w = Ok (remembers w rreq_id dst) w.
Proof.
  intros Hw. unfold rreq_fifo_contains, mbind, M_bind, gets.
  by rewrite first_rreq_eq by (intros a; by apply queue_live).
Qed.

Lemma rreq_fifo_waiting_response_for_eq w dst :
  world_ok w → rreq_fifo_waiting_response_for dst w = Ok (discovering w dst) w.
Proof.
  intros Hw. unfold rreq_fifo_waiting_response_for, mbind, M_bind, gets.
  by rewrite first_rreq_eq by (intros a; by apply queue_live).
Qed.

(** ** Insertion *)

(** [w'] is [w] with the new entry [e], due in [ms] milliseconds. *)
Record rreq_added (e : rreq_fifo) (ms : Z) (w w' : world) : Prop := {
  ra_rreqs : w_rreqs w' = <[w_brk w := e]> (w_rreqs w);
  ra_queue : w_rreq_queue w' = w_brk w :: w_rreq_queue w;
  ra_pkts : w_pkts w' = w_pkts w;
  ra_data : w_data w' = w_data w;
  ra_trace : w_trace w' = w_trace w;
  ra_routes : w_routes w' = w_routes w;
  ra_table : w_table w' = w_table w;
  ra_packets : w_packets w' = w_packets w;
  ra_armed : ∃ t b, timeval_ok t ∧ usecs t = usecs (env_now (w_tick w)) + ms * 1000 ∧
    al_blocks (w_alarms w') !! AL_rreq (w_brk w) = Some (linked_at t b) }.

Definition new_rreq_block (a : addr) : alarm_block :=
  AlarmBlock false (Timeval 0 0) (Some a) fn_rreq_fifo_alarm_cb.

Lemma brk_free_rreq w :
  world_ok w → w_rreqs w !! w_brk w = None ∧ al_blocks (w_alarms w) !! AL_rreq (w_brk w) = None.
Proof.
  intros Hw. assert (w_rreqs w !! w_brk w = None) as Hr.
  { apply eq_None_not_Some. intros Hs%(ho_rreqs _ _ _ _ _ (wo_heap _ Hw)). lia. }
  split; [done|]. apply eq_None_not_Some. intros [b Hb].
  apply (bo_owner _ _ _ _ (wo_blocks _ Hw)) in Hb as [[? ?] _]. congruence.
Qed.

(** The state with the entry [e] at the new address, its alarm in [A]. *)
Definition with_new_rreq (e : rreq_fifo) (A : alarms) (w : world) : world :=
  set_w_rreq_queue (w_brk w :: w_rreq_queue w)
    (set_w_alarms A (set_w_tick (S (w_tick w))
      (set_w_rreqs (<[w_brk w := e]> (w_rreqs w)) (set_w_brk (Pos.succ (w_brk w)) w)))).

Lemma with_new_rreq_ok w e t A :
  world_ok w → rreq_entry_ok e → alarms_ok A →
  al_blocks A = <[AL_rreq (w_brk w) := linked_at t (new_rreq_block (w_brk w))]> (al_blocks (w_alarms w)) →
  world_ok (with_new_rreq e A w).
Proof.
  intros Hw He HA Hbl. destruct (brk_free_rreq _ Hw) as [Hr Hb].
  destruct Hw as [Hh Ht [Hnd Hl Hent] _ [H1 H2 H3 H4 H5] Hd]. split; simpl; [|done| |done| |done].
  - apply (heap_ok_brk _ (Pos.succ (w_brk w))) in Hh; [|lia].
    destruct Hh as [? Hr1 ? ? ? ? ?]. split; try done.
    intros x. rewrite lookup_insert_is_Some'. intros [<-|Hx]; [lia|by apply Hr1].
  - split.
    + apply NoDup_cons. split; [|done]. rewrite Hl, Hr. by intros [? [=]].
    + intros x. rewrite elem_of_cons, Hl, lookup_insert_is_Some'. naive_solver.
    + intros x e'. rewrite lookup_insert. case_decide; [by intros [= <-]|apply Hent].
  - rewrite Hbl. split.
    + intros x Hx. rewrite lookup_insert_ne by done. auto.
    + intros x. rewrite !lookup_insert_is_Some'. intros [<-|Hx]; auto.
    + by rewrite lookup_insert_ne.
    + intros id b. rewrite lookup_insert. case_decide as Hd'.
      * subst. intros [= <-]. by rewrite lookup_insert_eq.
      * intros Hid. specialize (H4 _ _ Hid). destruct id as [|x|]; [done| |done].
        by rewrite lookup_insert_ne by congruence.
    + intros b. rewrite lookup_insert_ne by done. apply H5.
Qed.

Lemma rreq_fifo_insert_spec w rreq_id dst prev_tries ms :
  world_ok w → rreq_entry_ok (RreqFifo rreq_id dst prev_tries) →
  rwp stable (rreq_fifo_insert rreq_id dst prev_tries ms)
    (λ _, rreq_added (RreqFifo rreq_id dst prev_tries) ms w) w.
Proof.
  intros Hw He. destruct (brk_free_rreq _ Hw) as [Hr Hb].
  set (a := w_brk w) in *. set (e := RreqFifo rreq_id dst prev_tries) in *.
  unfold rreq_fifo_insert. destruct (set_alarm_time ms) as [sc usc] eqn:Htv.
  apply wp_bind. unfold wp at 1, fresh_addr. simpl.
  apply wp_bind, wp_modify. fold a e.
  apply wp_bind, (wp_init_alarm (AL_rreq a)). simpl.
  set (A0 := Alarms (<[AL_rreq a := new_rreq_block a]> (al_blocks (w_alarms w))) (al_root (w_alarms w))).
  assert (alarms_ok A0) as HA0 by (apply new_block_alarms_ok; [apply Hw|done..]).
  apply wp_bind. eapply (wp_add_alarm (AL_rreq a) sc usc (new_rreq_block a)).
  { exact HA0. } { simpl. apply lookup_insert_eq. } { by eapply set_alarm_time_ok. }
  intros now w' A Hnow Hnok Harm HA. injection Hnow as <- <-. apply wp_modify. simpl in Harm.
  assert (world_ok (with_new_rreq e A w)) as Hok.
  { eapply with_new_rreq_ok; [done..|]. destruct Harm as [-> _]. simpl. by rewrite insert_insert_eq. }
  split_and!; [exact Hok| |].
  - split; [done..|]. intros id Hid. by eapply armed_kept.
  - split; simpl; try done. eexists _, _. split_and!; [| |destruct Harm as [-> _]; apply lookup_insert_eq].
    + by apply timeradd_ok; [eapply set_alarm_time_ok|].
    + rewrite timeradd_usecs. erewrite set_alarm_time_usecs by done. simpl. lia.
Qed.

Lemma rreq_fifo_push_spec w rreq_id dst :
  world_ok w → is_u32 rreq_id → is_u32 dst →
  rwp stable (rreq_fifo_push rreq_id dst)
    (λ _, rreq_added (RreqFifo rreq_id dst (-1)) PATH_DISCOVERY_TIME w) w.
Proof.
  intros Hw Hi Hd. unfold rreq_fifo_push. apply rreq_fifo_insert_spec; [done|].
  split; simpl; [done..|unfold RREQ_RETRIES; lia].
Qed.

Lemma rreq_fifo_push_owned_spec w rreq_id dst prev_tries :
  world_ok w → is_u32 rreq_id → is_u32 dst → 0 ≤ prev_tries ≤ RREQ_RETRIES →
  rwp stable (rreq_fifo_push_owned rreq_id dst prev_tries)
    (λ _, rreq_added (RreqFifo rreq_id dst prev_tries) (2 ^ prev_tries * NET_TRAVERSAL_TIME) w) w.
Proof.
  intros Hw Hi Hd Ht. unfold rreq_fifo_push_owned. unfold RREQ_RETRIES in Ht.
  rewrite backoff_exact by lia. unfold demand. apply (rwp_bind_pure _ _ _ _ _ (2 ^ prev_tries * NET_TRAVERSAL_TIME)); [done|done|].
  apply rreq_fifo_insert_spec; [done|].
  split; simpl; [done..|unfold RREQ_RETRIES; lia].
Qed.

(** ** Deletion *)

(** The state without the entry [a] and its timer. *)
Definition without_rreq (a : addr) (w : world) : world :=
  set_w_alarms (Alarms (delete (AL_rreq a) (al_blocks (w_alarms w))) (unlink (AL_rreq a) (al_root (w_alarms w))))
    (set_w_rreqs (delete a (w_rreqs w)) (set_w_rreq_queue (unlink a (w_rreq_queue w)) w)).

Lemma entry_delete_steps w a b :
  alarms_ok (w_alarms w) → al_blocks (w_alarms w) !! AL_rreq a = Some b → a ∈ w_rreq_queue w →
  __rreq_fifo_entry_delete a w = Ok tt (without_rreq a w).
Proof.
  intros HA Hb Ha.
  enough (wp (__rreq_fifo_entry_delete a) (λ _ w', w' = without_rreq a w) w) as Hwp
    by (apply wp_run in Hwp as ([] & ? & ? & ->); done).
  apply wp_bind, (wp_del_alarm _ b); [done|done|].
  apply wp_bind. unfold wp at 1, rreq_list_del. simpl. rewrite decide_True by done.
  apply wp_bind, wp_modify, wp_on_alarms, wp_modify. simpl.
  unfold without_rreq. by rewrite delete_insert_eq.
Qed.

Lemma entry_delete_eq w a :
  world_ok w → a ∈ w_rreq_queue w → __rreq_fifo_entry_delete a w = Ok tt (without_rreq a w).
Proof.
  intros Hw Ha. pose proof (queue_live _ _ Hw Ha) as Hlive.
  apply (bo_rreq _ _ _ _ (wo_blocks _ Hw)) in Hlive as [b Hb].
  eapply entry_delete_steps; [apply Hw|done|done].
Qed.

(** Freeing the block of an alarm that is out of the queue. *)
Lemma forget_alarms_ok A id :
  alarms_ok A → alarms_ok (Alarms (delete id (al_blocks A)) (unlink id (al_root A))).
Proof.
  intros Hok. split; simpl.
  - apply unlink_NoDup, Hok.
  - intros x. rewrite elem_of_unlink, (ok_linked _ Hok). split.
    + intros (Hne & b & Hb & Hl). exists b. by rewrite lookup_delete_ne.
    + intros (b & [Hne Hb]%lookup_delete_Some & Hl). split; [done|by exists b].
  - intros x b [_ Hb]%lookup_delete_Some. by eapply Hok.
  - eapply sorted_ext; [|apply sorted_filter, Hok].
    intros x y [Hx _]%elem_of_unlink [Hy _]%elem_of_unlink. unfold key; simpl.
    by rewrite !lookup_delete_ne.
Qed.

Lemma without_rreq_ok w a : world_ok w → world_ok (without_rreq a w).
Proof.
  intros [Hh Ht [Hnd Hl Hent] Ha [H1 H2 H3 H4 H5] Hd]. split; simpl; [|done| | | |done].
  - destruct Hh as [? Hr1 ? ? ? ?]. split; try done.
    intros x [e [_ He]%lookup_delete_Some]. apply Hr1. by exists e.
  - split.
    + by apply unlink_NoDup.
    + intros x. rewrite elem_of_unlink, Hl, lookup_delete_is_Some. naive_solver.
    + intros x e [_ He]%lookup_delete_Some. by eapply Hent.
  - by apply forget_alarms_ok.
  - split.
    + intros x Hx. rewrite lookup_delete_ne by done. auto.
    + intros x [Hne Hx]%lookup_delete_is_Some. rewrite lookup_delete_ne by congruence. auto.
    + by rewrite lookup_delete_ne.
    + intros id b [Hne Hid]%lookup_delete_Some. specialize (H4 _ _ Hid).
      destruct id as [|x|]; [done| |done]. by rewrite lookup_delete_ne by congruence.
    + intros b [_ Hb]%lookup_delete_Some. by apply H5.
Qed.

Lemma rreq_fifo_del_spec w rreq_id dst :
  world_ok w →
  rwp balanced (rreq_fifo_del rreq_id dst) (λ _ w', w' =
    match find_rreq (λ e, (rf_rreq_id e <=? rreq_id) && (rf_dst e =? dst)) w with
    | Some a => without_rreq a w
    | None => w
    end) w.
Proof.
  intros Hw. unfold rreq_fifo_del. rwp_read by reflexivity.
  rwp_read by (apply first_rreq_eq; intros a; by apply queue_live).
  unfold find_rreq. destruct (head _) as [a|] eqn:Hf; [|by rwp_return].
  apply find_rreq_Some in Hf as [Ha _].
  eapply rwp_step; [by apply entry_delete_eq|by apply without_rreq_ok|done|done].
Qed.
End rreq_specs.
