(* ===== verification/RreqListSpec.v ===== *)
(** * The RREQ queue on its nodes implements its sequence

    The functions of rreq_fifo.c on the memory of the nodes ([RreqList]) do what the
    functions on the sequence of addresses ([RreqFifo]) do. *)

From S2P Require Export RreqList RreqFifoSpec ListState Blind.

(** ** The sequence of entries *)

#[export] Instance rreqs_hidden : Hidden (list addr) := {
  hide := set_w_rreq_queue;
  seen := w_rreq_queue }.
#[export] Instance rreqs_hidden_laws : HiddenLaws (list addr).
Proof. by repeat split. Qed.
#[export] Instance rreqs_hidden_routes : HiddenRoutes (list addr).
Proof. by repeat split. Qed.
#[export] Instance rreqs_hidden_table : HiddenTable (list addr).
Proof. by repeat split. Qed.

(** The memory [Q] holds the queue at [head] with the entries of [w], no other nodes, and
    the rest of [w]. *)
Record rreq_rel (head : addr) (Q : rreq_nodes) (w : world) : Prop := {
  rr_list : is_list (rn_links Q) head (w_rreq_queue w);
  rr_links x m : is_Some (rn_links Q !! (x, m)) → x ∈ head :: w_rreq_queue w;
  rr_brk x : x ∈ head :: w_rreq_queue w → (x < w_brk w)%positive;
  rr_world : rn_world Q = set_w_rreq_queue [] w }.

Section simulation.
Context `{E : Env}.
Implicit Types (w : world) (Q : rreq_nodes) (head a : addr).
Notation simulated head := (simulated (rreq_rel head)).

Lemma rreq_rel_list head Q w : rreq_rel head Q w → is_list (host_links Q) head (id <$> w_rreq_queue w).
Proof. rewrite list_fmap_id. apply rr_list. Qed.

Lemma rreq_rel_head head Q w : rreq_rel head Q w → head ∉ w_rreq_queue w.
Proof. intros [[_ [Hh _]%NoDup_cons] _ _ _]. exact Hh. Qed.

(** What does not see the queue. *)
Lemma rreq_blind head {X} (m : M world X) `{!Blind (list addr) m} Q w :
  rreq_rel head Q w → simulated head (on_daemon m) m Q w.
Proof.
  intros [Hl Hd Hk Hw]. unfold simulated. pose proof (blind (T:=list addr) [] w) as Hm.
  destruct (m w) as [x w1|]; [|done].
  destruct Hm as (Heq & Hp & Hbrk). cbn [hide seen rreqs_hidden] in Heq, Hp. unfold wp, on_daemon. rewrite Hw Heq.
  split; [done|]. split; simpl; rewrite ?Hp; [done..| |done]. intros y Hy. specialize (Hk y Hy). lia.
Qed.

Lemma rreq_blind_bind head {X Y} (m : M world X) `{!Blind (list addr) m} (k' : X → M rreq_nodes Y) k Q w :
  rreq_rel head Q w →
  (∀ x Q1 w1, w_rreq_queue w1 = w_rreq_queue w → rreq_rel head Q1 w1 → simulated head (k' x) (k x) Q1 w1) →
  simulated head (on_daemon m ≫= k') (m ≫= k) Q w.
Proof.
  intros HQ Hk. apply simulated_bind; [by apply rreq_blind|]. intros x Q1 w1 Hm HQ1.
  pose proof (blind (T:=list addr) (m:=m) [] w) as Hb. rewrite Hm in Hb. apply Hk; [apply Hb|done].
Qed.

(** ** Deleting an entry *)

Lemma free_links_spec Q a P :
  is_Some (rn_links Q !! (a, m_next)) →
  P tt (RreqNodes (filter (λ cell, cell.1.1 ≠ a) (rn_links Q)) (rn_world Q)) → wp (free_links a) P Q.
Proof.
  intros [v Hv] HP. apply wp_bind, wp_on_links. unfold wp, get. cbn [host_links rreq_list_host]. rewrite Hv /=.
  by destruct Q.
Qed.

(** Between [list_del] and [free] the entry is still in memory. *)
Lemma entry_delete_simulated head a Q w :
  rreq_rel head Q w → a ∈ w_rreq_queue w →
  simulated head (RreqList.__rreq_fifo_entry_delete a) (RreqFifo.__rreq_fifo_entry_delete a) Q w.
Proof.
  intros HQ Ha. apply rreq_blind_bind; [apply _|done|]. intros [] Q1 w1 Hq HQ1. rewrite -Hq in Ha.
  pose proof (rreq_rel_head _ _ _ HQ1) as Hh. destruct HQ1 as [Hl Hd Hk Hw].
  unfold simulated. unfold mbind at 1, M_bind at 1, rreq_list_del. rewrite decide_True //.
  set (w2 := set_w_rreq_queue _ w1). pose proof (blind (T:=list addr) (m:=free_rreq a) [] w2) as Hb.
  destruct (free_rreq a w2) as [[] w3|]; [|done]. destruct Hb as (Heq & Hp & Hbrk). cbn [hide seen rreqs_hidden] in Heq, Hp.
  apply wp_bind, wp_on_links. eapply wp_mono; [by apply (list_del_state _ head)|].
  intros _ links (Hl' & Hnext & _ & Hout). cbn [host_set_links rreq_list_host].
  apply wp_bind. unfold wp at 1, on_daemon. cbn [rn_world rn_links]. rewrite Hw.
  change (set_w_rreq_queue [] w1) with (set_w_rreq_queue [] w2). rewrite Heq.
  apply free_links_spec; [by rewrite Hnext|]. cbn [rn_links rn_world]. split; [done|].
  simpl in Hp. split; cbn [rn_links rn_world]; rewrite ?Hp.
  - eapply is_list_ext; [|exact Hl']. intros x m Hx. rewrite freed_links decide_False //.
    intros ->. apply elem_of_cons in Hx as [->|[? _]%elem_of_unlink]; done.
  - intros x m. rewrite freed_links. case_decide as Hxe; [by intros [? ?]|]. intros Hx.
    rewrite elem_of_cons elem_of_unlink.
    assert (x ∈ head :: w_rreq_queue w1) as [?|?]%elem_of_cons; [|by left|by right].
    destruct (decide (x ∈ head :: w_rreq_queue w1)) as [|Hnx]; [done|]. apply (Hd x m). by rewrite -Hout.
  - intros x Hx. simpl in Hbrk. assert (x < w_brk w1)%positive; [|lia]. apply Hk.
    rewrite elem_of_cons elem_of_unlink in Hx. rewrite elem_of_cons. tauto.
  - done.
Qed.

Lemma entry_delete_unlinks a w w' :
  RreqFifo.__rreq_fifo_entry_delete a w = Ok tt w' → unlinks_at_most w_rreq_queue id a w w'.
Proof.
  unfold RreqFifo.__rreq_fifo_entry_delete. intros Hrun.
  pose proof (blind (T:=list addr) (m:=del_alarm (AL_rreq a)) [] w) as Hb. revert Hrun.
  unfold mbind at 1, M_bind at 1. destruct (del_alarm (AL_rreq a) w) as [[] w1|]; [|done].
  destruct Hb as (_ & Hq & _). unfold mbind at 1, M_bind at 1, rreq_list_del. case_decide; [|done].
  set (w2 := set_w_rreq_queue _ w1). pose proof (blind (T:=list addr) (m:=free_rreq a) [] w2) as Hb.
  destruct (free_rreq a w2) as [[] w3|]; [|done]. destruct Hb as (_ & Hp & _). intros [= <-].
  right. simpl in Hq, Hp. by rewrite Hp Hq.
Qed.

(** ** Looking for an entry *)

(** The loop that returns at the first entry the test accepts. *)
Lemma first_entry_simulated head test Q w : rreq_rel head Q w →
  simulated head (first_entry head test) (first_rreq test (w_rreq_queue w)) Q w.
Proof.
  intros HQ. unfold simulated. destruct (first_rreq test (w_rreq_queue w) w) as [found w'|] eqn:Hrun; [|done].
  apply (list_find_entry_wp head (λ seen rest Q, rreq_rel head Q w ∧ w_rreq_queue w = seen ++ rest ∧
    first_rreq test rest w = Ok found w') _ _ (w_rreq_queue w)).
  - intros seen rest Q1 (HQ1 & Hq & _). rewrite -Hq. apply HQ1.
  - intros seen x rest Q1 (HQ1 & Hq & Hfirst). apply wp_bind.
    pose proof (rreq_blind head (read_rreq x) Q1 w HQ1) as Hread. unfold simulated, read_rreq in Hread.
    simpl in Hfirst. unfold mbind at 1, M_bind at 1, read_rreq at 1 in Hfirst.
    destruct (w_rreqs w !! x) as [e|]; [|done]. simpl in Hfirst, Hread.
    eapply wp_mono; [exact Hread|]. intros ? Q2 [-> HQ2]. apply wp_ret. destruct (test e).
    + injection Hfirst as <- <-. by split.
    + split; [done|]. by rewrite -assoc.
  - intros seen Q1 (HQ1 & _ & Hend). injection Hend as <- <-. by split.
  - by split.
Qed.

Lemma contains_simulated head rreq_id dst Q w : rreq_rel head Q w →
  simulated head (RreqList.rreq_fifo_contains head rreq_id dst) (RreqFifo.rreq_fifo_contains rreq_id dst) Q w.
Proof.
  intros HQ. apply (simulated_bind _ _ (first_rreq _ (w_rreq_queue w))); [by apply first_entry_simulated|].
  intros found Q1 w1 _ HQ1. by apply simulated_ret.
Qed.

Lemma waiting_simulated head dst Q w : rreq_rel head Q w →
  simulated head (RreqList.rreq_fifo_waiting_response_for head dst) (RreqFifo.rreq_fifo_waiting_response_for dst) Q w.
Proof.
  intros HQ. apply (simulated_bind _ _ (first_rreq _ (w_rreq_queue w))); [by apply first_entry_simulated|].
  intros found Q1 w1 _ HQ1. by apply simulated_ret.
Qed.

Lemma first_rreq_elem test entries w a w' : first_rreq test entries w = Ok (Some a) w' → a ∈ entries ∧ w' = w.
Proof.
  induction entries as [|x l IH]; simpl; [done|]. unfold mbind at 1, M_bind at 1, read_rreq.
  destruct (w_rreqs w !! x) as [e|]; [|done]. simpl. destruct (test e); [intros [= <- <-]; set_solver|].
  intros [? ->]%IH. set_solver.
Qed.

Lemma del_simulated head rreq_id dst Q w : rreq_rel head Q w →
  simulated head (RreqList.rreq_fifo_del head rreq_id dst) (RreqFifo.rreq_fifo_del rreq_id dst) Q w.
Proof.
  intros HQ. apply (simulated_bind _ _ (first_rreq _ (w_rreq_queue w))); [by apply first_entry_simulated|].
  intros [a|] Q1 w1 Hfirst HQ1; [|by apply simulated_ret].
  apply first_rreq_elem in Hfirst as [Ha ->]. by apply entry_delete_simulated.
Qed.

(** ** New entries *)

Lemma wp_calloc_rreq Q P :
  (let a := w_brk (rn_world Q) in
   P a (RreqNodes (<[(a, m_next) := NULL]> (<[(a, m_prev) := NULL]> (rn_links Q)))
          (set_w_brk (Pos.succ a) (rn_world Q)))) → wp calloc_rreq P Q.
Proof. done. Qed.

(** The node is linked when everything else about the entry is done. *)
Lemma insert_simulated head rreq_id dst prev_tries time Q w : rreq_rel head Q w →
  simulated head (RreqList.rreq_fifo_insert head rreq_id dst prev_tries time)
    (RreqFifo.rreq_fifo_insert rreq_id dst prev_tries time) Q w.
Proof.
  intros [Hl Hd Hk Hw]. unfold simulated, RreqFifo.rreq_fifo_insert. set (a := w_brk w).
  destruct (set_alarm_time time) as [sc usc] eqn:Ht.
  set (fill := write_rreq a (RreqFifo rreq_id dst prev_tries);;
    init_alarm (AL_rreq a) (Some a) fn_rreq_fifo_alarm_cb;; add_alarm (AL_rreq a) sc usc).
  assert (Blind (list addr) fill) as Hblind by apply _.
  unfold mbind at 1, M_bind at 1, fresh_addr. fold a.
  set (w1 := set_w_brk (Pos.succ a) w). pose proof (Hblind [] w1) as Hb. revert Hb.
  assert (∀ k : M world unit, (write_rreq a (RreqFifo rreq_id dst prev_tries);;
    init_alarm (AL_rreq a) (Some a) fn_rreq_fifo_alarm_cb;; add_alarm (AL_rreq a) sc usc;; k) w1 =
    match fill w1 with Ok _ w2 => k w2 | Fault f => Fault f end) as ->.
  { intros k. unfold fill, mbind, M_bind. destruct (write_rreq _ _ w1) as [[] w2|]; [|done].
    destruct (init_alarm _ _ _ w2) as [[] w3|]; [|done]. by destruct (add_alarm _ _ _ w3). }
  destruct (fill w1) as [[] w2|] eqn:Hfill; [|done]. intros (Heq & Hp & Hbrk).
  cbn [hide seen rreqs_hidden] in Heq, Hp. unfold modify.
  assert (a ∉ head :: w_rreq_queue w) as Ha by (intros Hin%Hk; unfold a in Hin; lia).
  apply wp_bind, wp_calloc_rreq. rewrite Hw. cbn [w_brk set_w_rreq_queue]. fold a.
  apply wp_bind. unfold wp at 1, on_daemon. cbn [rn_world rn_links]. rewrite Ht. fold fill.
  change (set_w_brk (Pos.succ a) (set_w_rreq_queue [] w)) with (set_w_rreq_queue [] w1). rewrite Heq.
  apply wp_on_links. cbn [host_links rreq_list_host rn_links].
  eapply wp_mono; [apply (list_add_state _ head (w_rreq_queue w)); [| |done]|].
  - eapply is_list_ext; [|exact Hl]. intros x m Hx.
    rewrite !lookup_insert_ne; [done|intros Hxa; apply Ha; by injection Hxa as ->..].
  - split; eexists; [by rewrite lookup_insert_eq|by rewrite lookup_insert_ne // lookup_insert_eq].
  - intros [] links [Hl' Hout]. split; [done|]. simpl in Hp, Hbrk.
    split; cbn [rn_links rn_world host_set_links rreq_list_host w_rreq_queue set_w_rreq_queue w_brk]; rewrite ?Hp.
    + exact Hl'.
    + intros x m Hx. destruct (decide (x ∈ a :: head :: w_rreq_queue w)) as [Hin|Hnin]; [set_solver|].
      rewrite Hout // in Hx. apply not_elem_of_cons in Hnin as [Hne Hnin].
      rewrite !lookup_insert_ne in Hx; [|congruence..]. by destruct Hnin; apply (Hd x m).
    + intros x Hx. assert (x = a ∨ x ∈ head :: w_rreq_queue w) as [->|Hx'%Hk] by set_solver; unfold a in *; lia.
    + done.
Qed.

Lemma push_owned_simulated head rreq_id dst prev_tries Q w : rreq_rel head Q w →
  simulated head (RreqList.rreq_fifo_push_owned head rreq_id dst prev_tries)
    (RreqFifo.rreq_fifo_push_owned rreq_id dst prev_tries) Q w.
Proof.
  intros HQ. unfold RreqList.rreq_fifo_push_owned, RreqFifo.rreq_fifo_push_owned.
  destruct (binary_exponential_backoff_time prev_tries); [|done]. by apply insert_simulated.
Qed.

(** ** The beginning and the end *)

Lemma rreq_fifo_alloc_spec w : w_rreq_queue w = [] →
  wp RreqList.rreq_fifo_alloc (λ head Q', ∃ w', fresh_addr w = Ok head w' ∧ rreq_rel head Q' w') (RreqNodes ∅ w).
Proof.
  intros Hq. apply wp_bind, wp_calloc_rreq. cbn [rn_links rn_world]. set (a := w_brk w).
  apply wp_bind, wp_on_links. unfold INIT_LIST_HEAD, put, get, modify, wp, mbind, M_bind. cbn [host_links rreq_list_host rn_links].
  rewrite lookup_insert_eq /= lookup_insert_ne // lookup_insert_ne // lookup_insert_eq /=.
  eexists. split; [reflexivity|]. split; cbn [rn_links rn_world w_rreq_queue set_w_brk]; rewrite ?Hq.
  - split; [|apply NoDup_singleton]. split; [by rewrite lookup_insert_ne // lookup_insert_eq|by rewrite lookup_insert_eq].
  - intros x m. rewrite list_elem_of_singleton. intros [v Hv].
    rewrite !lookup_insert_Some lookup_empty in Hv. naive_solver.
  - intros x ->%list_elem_of_singleton. simpl. lia.
  - by destruct w; simplify_eq/=.
Qed.

(** When the loop has emptied the queue, the head goes and no node is left. *)
Lemma delete_simulated head Q w w' :
  rreq_rel head Q w → RreqFifo.rreq_fifo_delete w = Ok tt w' → w_rreq_queue w' = [] →
  RreqList.rreq_fifo_delete head Q = Ok tt (RreqNodes ∅ w').
Proof.
  intros HQ Hdel Hq.
  pose proof (loop_simulated (Host:=rreq_list_host) _ head w_rreq_queue id (rreq_rel_list head)
    RreqList.__rreq_fifo_entry_delete RreqFifo.__rreq_fifo_entry_delete Q w
    (entry_delete_simulated head) entry_delete_unlinks HQ) as Hloop.
  unfold simulated in Hloop. change (for_each _ _ w) with (RreqFifo.rreq_fifo_delete w) in Hloop. rewrite Hdel in Hloop.
  apply wp_run in Hloop as ([] & Q1 & Hrun & _ & [Hl Hd Hk Hw]). rewrite Hq in Hl Hd.
  unfold RreqList.rreq_fifo_delete. rewrite (bind_eq _ _ _ _ _ Hrun). apply is_list_head in Hl.
  enough (wp (free_links head) (λ _ Q', Q' = RreqNodes ∅ w') Q1) as Hwp.
  { apply wp_run in Hwp as ([] & Q2 & -> & ->). done. }
  apply free_links_spec; [by rewrite Hl|]. f_equal.
  - apply (map_eq (M:=gmap (addr * member))). intros [x m]. rewrite freed_links lookup_empty.
    case_decide as Hx; [done|]. destruct (rn_links Q1 !! (x, m)) eqn:Hlk; [|done].
    destruct Hx. apply list_elem_of_singleton, (Hd x m). by rewrite Hlk.
  - rewrite Hw. by destruct w'; simplify_eq/=.
Qed.
End simulation.
