(* ===== verification/AodvPktSpec.v ===== *)
(** * AODV packets on the heap: effects and the invariant *)

From S2P Require Export RreqFifoSpec.

Section pkt_specs.
Context `{E : Env} {EO : EnvOk E}.
Implicit Types w : world.

(** ** Reads and updates *)

Lemma read_pkt_eq w a p : w_pkts w !! a = Some p → read_pkt a w = Ok p w.
Proof. intros Ha. unfold read_pkt. by rewrite Ha. Qed.

Lemma get_pkt_eq {A} w a p (f : aodv_pkt → A) :
  w_pkts w !! a = Some p → (p ← read_pkt a; mret (f p)) w = Ok (f p) w.
Proof. intros Ha. unfold mbind, M_bind. by erewrite read_pkt_eq. Qed.

Lemma payload_eq w a p bs :
  w_pkts w !! a = Some p → pk_payload p = Some bs → aodv_pkt_get_payload a w = Ok bs w.
Proof.
  intros Ha Hp. unfold aodv_pkt_get_payload, mbind, M_bind. erewrite read_pkt_eq by done.
  by rewrite Hp.
Qed.

Lemma pkts_world_ok w pkts :
  world_ok w →
  (∀ a p, pkts !! a = Some p → (a < w_brk w)%positive ∧ pkt_ok p) →
  world_ok (set_w_pkts pkts w).
Proof.
  intros [[H1 H2 H3 H4 H5 H6] Ht Hq Ha Hb Hd] Hp. split; simpl; try done. split; try done.
  - intros a [p Hs]. by eapply Hp.
  - intros a p Hs. by eapply Hp.
Qed.

Lemma pkts_hushed w pkts : hushed w (set_w_pkts pkts w).
Proof. by split; [split; [split|..]|..]. Qed.

Lemma world_pkt_ok w a p : world_ok w → w_pkts w !! a = Some p → pkt_ok p.
Proof. intros Hw. apply (ho_pkts_ok _ _ _ _ _ (wo_heap _ Hw)). Qed.

Lemma insert_pkt_ok w a p :
  world_ok w → (a < w_brk w)%positive → pkt_ok p → world_ok (set_w_pkts (<[a := p]> (w_pkts w)) w).
Proof.
  intros Hw Ha Hp. apply pkts_world_ok; [done|]. intros b q. rewrite lookup_insert.
  case_decide as Hd; [intros [= <-]; by subst|]. intros Hq.
  split; [|by eapply world_pkt_ok]. apply (ho_pkts _ _ _ _ _ (wo_heap _ Hw)). by eexists.
Qed.

Lemma pkt_below w a p : world_ok w → w_pkts w !! a = Some p → (a < w_brk w)%positive.
Proof. intros Hw Ha. apply (ho_pkts _ _ _ _ _ (wo_heap _ Hw)). by eexists. Qed.

Lemma upd_pkt_eq w a p f :
  w_pkts w !! a = Some p →
  upd_pkt a f w = Ok tt (set_w_pkts (<[a := f p]> (w_pkts w)) w).
Proof. intros Ha. unfold upd_pkt, mbind, M_bind. by erewrite read_pkt_eq. Qed.

Lemma rwp_bind_upd_pkt R `{!PreOrder R, !Finer hushed R} {B} (k : unit → M world B) w a p f Q :
  world_ok w → w_pkts w !! a = Some p → pkt_ok (f p) →
  (world_ok (set_w_pkts (<[a := f p]> (w_pkts w)) w) →
   rwp R (k tt) Q (set_w_pkts (<[a := f p]> (w_pkts w)) w)) →
  rwp R (upd_pkt a f ≫= k) Q w.
Proof.
  intros Hw Ha Hf Hk.
  assert (world_ok (set_w_pkts (<[a := f p]> (w_pkts w)) w)) as Hw'
    by (apply insert_pkt_ok; [done|by eapply pkt_below|done]).
  eapply rwp_bind_step; [apply _|by apply upd_pkt_eq|done| |by apply Hk].
  apply Finer0, pkts_hushed.
Qed.

(** ** Allocation and release *)

Definition fresh_pkt (w : world) : aodv_pkt :=
  AodvPkt None 0 AF_INET (htons AODV_UDP_PORT) (md_broadcast_addr (w_data w)) DEFAULT_TTL.

Lemma fresh_pkt_ok w : world_ok w → pkt_ok (fresh_pkt w).
Proof. intros Hw. split; simpl; try done. apply (do_broadcast_addr _ (wo_data _ Hw)). Qed.

(** The state after [aodv_pkt_alloc]. *)
Definition with_new_pkt (w : world) : world :=
  set_w_pkts (<[w_brk w := fresh_pkt w]> (w_pkts w)) (set_w_brk (Pos.succ (w_brk w)) w).

Lemma with_new_pkt_ok w : world_ok w → world_ok (with_new_pkt w).
Proof.
  intros Hw. apply (insert_pkt_ok (set_w_brk (Pos.succ (w_brk w)) w)); simpl.
  - by apply brk_world_ok. - lia. - by apply fresh_pkt_ok.
Qed.

Lemma brk_free_pkt w : world_ok w → w_pkts w !! w_brk w = None.
Proof.
  intros Hw. apply eq_None_not_Some. intros Hs%(ho_pkts _ _ _ _ _ (wo_heap _ Hw)). lia.
Qed.

Lemma rwp_bind_alloc_pkt R `{!PreOrder R, !Finer hushed R} {B} (k : addr → M world B) w Q :
  world_ok w → (world_ok (with_new_pkt w) → rwp R (k (w_brk w)) Q (with_new_pkt w)) →
  rwp R (aodv_pkt_alloc ≫= k) Q w.
Proof.
  intros Hw Hk. pose proof (with_new_pkt_ok _ Hw).
  eapply rwp_bind_step; [apply _|done|done| |by apply Hk]. apply Finer0.
  by split; [split; [split|..]|..].
Qed.

Lemma aodv_pkt_destroy_spec w a p :
  world_ok w → w_pkts w !! a = Some p →
  rwp hushed (aodv_pkt_destroy a) (λ _ w', w' = set_w_pkts (delete a (w_pkts w)) w) w.
Proof.
  intros Hw Ha. unfold aodv_pkt_destroy. rwp_read by (by apply read_pkt_eq).
  eapply rwp_step; [done| |apply pkts_hushed|done].
  apply pkts_world_ok; [done|]. intros b q [_ Hq]%lookup_delete_Some.
  split; [by eapply pkt_below|by eapply world_pkt_ok].
Qed.

(** ** Transmission *)

(** The state after [aodv_pkt_send] of the packet [p] at [a], up to the counters. *)
Record sent_pkt (a : addr) (p : aodv_pkt) (w w' : world) : Prop := {
  sp_pkts : w_pkts w' = <[a := set_pk_address (htonl (pk_address p)) p]> (w_pkts w);
  sp_trace : ∃ k, w_trace w' = w_trace w ++
    [EvSend (env_sendto k) (pk_address p) (pk_port p) (pk_ttl p) (pk_payload p)];
  sp_data : w_data w' = w_data w;
  sp_rreqs : w_rreqs w' = w_rreqs w;
  sp_rreq_queue : w_rreq_queue w' = w_rreq_queue w;
  sp_objects : w_routes w' = w_routes w ∧ w_table w' = w_table w ∧ w_packets w' = w_packets w ∧
               w_alarms w' = w_alarms w }.

Lemma payload_bytes_ok p bs : pkt_ok p → pk_payload p = Some bs → payload_bytes p = Some bs.
Proof.
  intros Hp Hbs. destruct (po_payload _ Hp _ Hbs) as [_ Hl]. unfold payload_bytes.
  rewrite Hbs, Hl, Z.leb_refl, Nat2Z.id. by rewrite take_ge.
Qed.

Lemma send_world_ok w n s ev a p0 p :
  world_ok w → w_pkts w !! a = Some p0 → pkt_ok p → world_ok (set_w_pkts (<[a := p]> (w_pkts w))
    (set_w_stats s (set_w_trace (w_trace w ++ [ev]) (set_w_tick n w)))).
Proof.
  intros Hw Ha Hp.
  apply (insert_pkt_ok (set_w_stats s (set_w_trace (w_trace w ++ [ev]) (set_w_tick n w)))).
  - by apply stats_world_ok, trace_world_ok, tick_world_ok.
  - by apply (pkt_below w a p0).
  - done.
Qed.

Lemma send_eq w a p bs :
  w_pkts w !! a = Some p → payload_bytes p = Some bs →
  ∃ n s, aodv_pkt_send a w = Ok n
    (set_w_pkts (<[a := set_pk_address (htonl (pk_address p)) p]> (w_pkts w))
      (set_w_stats s (set_w_trace (w_trace w ++
        [EvSend (env_sendto (w_tick w)) (pk_address p) (pk_port p) (pk_ttl p) (Some bs)])
        (set_w_tick (S (w_tick w)) w)))).
Proof.
  intros Ha Hbs. unfold aodv_pkt_send, mbind, M_bind. rewrite (read_pkt_eq _ _ _ Ha), Hbs.
  unfold demand, ext, emit, stat_incr, modify, when, upd_pkt, read_pkt, write_pkt, modify, mbind, M_bind,
    mret, M_ret. simpl.
  destruct (env_sendto (w_tick w) =? -1); [|destruct (negb _)]; simpl; rewrite Ha.
  - by eexists _, _.
  - by eexists _, _.
  - eexists _, (w_stats w). by destruct w.
Qed.

Lemma aodv_pkt_send_spec w a p bs :
  world_ok w → w_pkts w !! a = Some p → pk_payload p = Some bs → whole_message bs →
  rwp stable (aodv_pkt_send a) (λ _, sent_pkt a p w) w.
Proof.
  intros Hw Ha Hbs Hm. pose proof (world_pkt_ok _ _ _ Hw Ha) as Hp.
  destruct (send_eq w a p bs Ha (payload_bytes_ok _ _ Hp Hbs)) as (n & s & Heq).
  eapply rwp_step; [exact Heq| | |].
  - eapply send_world_ok; [done|done|]. destruct Hp. split; simpl; try done. apply htonl_range.
  - split; [split; try done|done|done| |done].
    + unfold ledger; simpl. by rewrite verdict_ids_app, app_nil_r.
    + apply logs_event. destruct (po_payload _ Hp _ Hbs) as [Hok Hl].
      destruct Hp as [_ _ Hlen Ha' Ht]. rewrite Hl in Hlen. split; [done|split; [done|split; [done|split; [lia|done]]]].
    + by eapply in_kernel_event.
    + intros b m _. eapply entry_event; [done|reflexivity|done].
  - split; simpl; try done. exists (w_tick w). by rewrite Hbs.
Qed.
End pkt_specs.
