(* ===== verification/LogicSpec.v ===== *)
(** * The protocol keeps the invariant

    What each handler of aodv/logic.c sends and changes, and that none of them
    commits a fault on a well-formed state. *)

From S2P Require Export AodvPktSpec.

Section logic_specs.
Context `{E : Env} {EO : EnvOk E}.
Implicit Types w : world.

(** ** Messages in packets *)

(** The packet [p] at [a] carries the RREQ [r], in the payload [bs]. *)
Definition carries_rreq (w : world) (a : addr) (p : aodv_pkt) (bs : bytes) (r : aodv_rreq) : Prop :=
  w_pkts w !! a = Some p ∧ pk_payload p = Some bs ∧ rreq_of_bytes bs = Some r ∧
  rq_type r = AODV_RREQ.
Definition carries_rrep (w : world) (a : addr) (p : aodv_pkt) (bs : bytes) (r : aodv_rrep) : Prop :=
  w_pkts w !! a = Some p ∧ pk_payload p = Some bs ∧ rrep_of_bytes bs = Some r ∧
  rp_type r = AODV_RREP.
Definition rreq_pkt (w : world) (a : addr) (r : aodv_rreq) : Prop := ∃ p bs, carries_rreq w a p bs r.
Definition rrep_pkt (w : world) (a : addr) (r : aodv_rrep) : Prop := ∃ p bs, carries_rrep w a p bs r.

(** The packet with the message replaced. *)
Definition with_rreq (r : aodv_rreq) (bs : bytes) (p : aodv_pkt) : aodv_pkt :=
  set_pk_payload (Some (bytes_of_rreq r ++ drop 24 bs)) p.
Definition with_rrep (r : aodv_rrep) (bs : bytes) (p : aodv_pkt) : aodv_pkt :=
  set_pk_payload (Some (bytes_of_rrep r ++ drop 20 bs)) p.

Lemma rreq_pkt_ok w a r : world_ok w → rreq_pkt w a r → rreq_ok r.
Proof.
  intros Hw (p & bs & Ha & Hp & Hr & _). apply (world_pkt_ok _ _ _ Hw) in Ha.
  eapply (bytes_of_rreq_of bs); [|done]. by eapply po_payload.
Qed.
Lemma rrep_pkt_ok w a r : world_ok w → rrep_pkt w a r → rrep_ok r.
Proof.
  intros Hw (p & bs & Ha & Hp & Hr & _). apply (world_pkt_ok _ _ _ Hw) in Ha.
  eapply (bytes_of_rrep_of bs); [|done]. by eapply po_payload.
Qed.

Lemma read_rreq_msg_eq w a r : rreq_pkt w a r → read_rreq_msg a w = Ok r w.
Proof.
  intros (p & bs & Ha & Hp & Hr & _). unfold read_rreq_msg, mbind, M_bind.
  erewrite payload_eq by done. by rewrite Hr.
Qed.
Lemma read_rrep_msg_eq w a r : rrep_pkt w a r → read_rrep_msg a w = Ok r w.
Proof.
  intros (p & bs & Ha & Hp & Hr & _). unfold read_rrep_msg, mbind, M_bind.
  erewrite payload_eq by done. by rewrite Hr.
Qed.

Lemma rreq_words r :
  rreq_ok r → is_u32 (rq_rreq_id r) ∧ is_u32 (rq_dest_ip_addr r) ∧ is_u32 (rq_dest_seq_num r) ∧
    is_u32 (rq_orig_ip_addr r) ∧ is_u32 (rq_orig_seq_num r).
Proof. intros [_ _ _ _ _ Hw]. rewrite !Forall_cons in Hw. tauto. Qed.
Lemma rrep_words r :
  rrep_ok r → is_u32 (rp_dest_ip_addr r) ∧ is_u32 (rp_dest_seq_num r) ∧
    is_u32 (rp_orig_ip_addr r) ∧ is_u32 (rp_lifetime r).
Proof. intros [_ _ _ _ _ _ Hw]. rewrite !Forall_cons in Hw. tauto. Qed.

(** What a packet that carries one of them holds is a whole message. *)
Lemma whole_rreq r rest : rq_type r = AODV_RREQ → whole_message (bytes_of_rreq r ++ rest).
Proof.
  intros Ht. left. rewrite <-Ht. split; [done|]. rewrite length_app.
  change (length (bytes_of_rreq r)) with 24%nat. lia.
Qed.
Lemma whole_rrep r rest : rp_type r = AODV_RREP → whole_message (bytes_of_rrep r ++ rest).
Proof.
  intros Ht. right. rewrite <-Ht. split; [done|]. rewrite length_app.
  change (length (bytes_of_rrep r)) with 20%nat. lia.
Qed.

Lemma whole_built_rreq r : rq_type r = AODV_RREQ → whole_message (bytes_of_rreq r).
Proof. rewrite <-(app_nil_r (bytes_of_rreq r)). apply whole_rreq. Qed.
Lemma whole_built_rrep r : rp_type r = AODV_RREP → whole_message (bytes_of_rrep r).
Proof. rewrite <-(app_nil_r (bytes_of_rrep r)). apply whole_rrep. Qed.

(** Replacing the message at the start of a payload. *)
Lemma rreq_payload_ok p bs r :
  pkt_ok p → pk_payload p = Some bs → 24 ≤ Z.of_nat (length bs) → rreq_ok r →
  pkt_ok (with_rreq r bs p).
Proof.
  intros [H1 H2 H3 H4 H5] Hp Hlen Hr. destruct (H1 _ Hp) as [Hok Hl].
  split; cbn [with_rreq with_rrep set_pk_payload pk_payload pk_payload_len pk_address pk_ttl]; [|done..].
  intros bs' Hbs'. apply (inj Some) in Hbs' as <-. split.
  - apply Forall_app. split; [by apply bytes_of_rreq_ok|by apply Forall_drop].
  - rewrite length_app, length_drop. rewrite Hl. change (length (bytes_of_rreq r)) with 24%nat. lia.
Qed.
Lemma rrep_payload_ok p bs r :
  pkt_ok p → pk_payload p = Some bs → 20 ≤ Z.of_nat (length bs) → rrep_ok r →
  pkt_ok (with_rrep r bs p).
Proof.
  intros [H1 H2 H3 H4 H5] Hp Hlen Hr. destruct (H1 _ Hp) as [Hok Hl].
  split; cbn [with_rreq with_rrep set_pk_payload pk_payload pk_payload_len pk_address pk_ttl]; [|done..].
  intros bs' Hbs'. apply (inj Some) in Hbs' as <-. split.
  - apply Forall_app. split; [by apply bytes_of_rrep_ok|by apply Forall_drop].
  - rewrite length_app, length_drop. rewrite Hl. change (length (bytes_of_rrep r)) with 20%nat. lia.
Qed.

Lemma rwp_bind_upd_rreq R `{!PreOrder R, !Finer hushed R} {B} (k : unit → M world B) w a p bs r f Q :
  world_ok w → carries_rreq w a p bs r → rreq_ok (f r) → rq_type (f r) = rq_type r →
  (∀ w', world_ok w' → w' = set_w_pkts (<[a := with_rreq (f r) bs p]> (w_pkts w)) w →
    carries_rreq w' a (with_rreq (f r) bs p) (bytes_of_rreq (f r) ++ drop 24 bs) (f r) →
    rwp R (k tt) Q w') →
  rwp R (upd_rreq_msg a f ≫= k) Q w.
Proof.
  intros Hw (Ha & Hp & Hr & Ht) Hf Hft Hk. pose proof (world_pkt_ok _ _ _ Hw Ha) as Hpk.
  pose proof (rreq_of_bytes_length _ _ Hr) as Hlen.
  assert (world_ok (set_w_pkts (<[a := with_rreq (f r) bs p]> (w_pkts w)) w)) as Hw'.
  { apply insert_pkt_ok; [done|by eapply pkt_below|by apply rreq_payload_ok]. }
  eapply (rwp_bind_step _ _ _ _ _ tt); [|exact Hw'|apply Finer0, pkts_hushed|].
  - unfold upd_rreq_msg, mbind, M_bind. erewrite payload_eq, update_rreq_eq by done. simpl.
    by erewrite upd_pkt_eq.
  - apply Hk; [done|done|]. split_and!; [apply lookup_insert_eq|done|by apply rreq_of_bytes_of|congruence].
Qed.

Lemma rwp_bind_upd_rrep R `{!PreOrder R, !Finer hushed R} {B} (k : unit → M world B) w a p bs r f Q :
  world_ok w → carries_rrep w a p bs r → rrep_ok (f r) → rp_type (f r) = rp_type r →
  (∀ w', world_ok w' → w' = set_w_pkts (<[a := with_rrep (f r) bs p]> (w_pkts w)) w →
    carries_rrep w' a (with_rrep (f r) bs p) (bytes_of_rrep (f r) ++ drop 20 bs) (f r) →
    rwp R (k tt) Q w') →
  rwp R (upd_rrep_msg a f ≫= k) Q w.
Proof.
  intros Hw (Ha & Hp & Hr & Ht) Hf Hft Hk. pose proof (world_pkt_ok _ _ _ Hw Ha) as Hpk.
  pose proof (rrep_of_bytes_length _ _ Hr) as Hlen.
  assert (world_ok (set_w_pkts (<[a := with_rrep (f r) bs p]> (w_pkts w)) w)) as Hw'.
  { apply insert_pkt_ok; [done|by eapply pkt_below|by apply rrep_payload_ok]. }
  eapply (rwp_bind_step _ _ _ _ _ tt); [|exact Hw'|apply Finer0, pkts_hushed|].
  - unfold upd_rrep_msg, mbind, M_bind. erewrite payload_eq, update_rrep_eq by done. simpl.
    by erewrite upd_pkt_eq.
  - apply Hk; [done|done|]. split_and!; [apply lookup_insert_eq|done|by apply rrep_of_bytes_of|congruence].
Qed.

(** *** Messages built by the daemon *)

Lemma build_rreq_ok flags hop id dst seq orig oseq p :
  pkt_ok p → is_u8 hop → pkt_ok (aodv_pkt_build_rreq flags hop id dst seq orig oseq p).
Proof.
  intros [_ _ _ H4 H5] Hhop. unfold aodv_pkt_build_rreq.
  split; cbn [set_pk_payload set_pk_payload_len pk_payload pk_payload_len pk_address pk_ttl]; try done.
  intros bs' Hbs'. apply (inj Some) in Hbs' as <-. split; [|done]. apply bytes_of_rreq_ok.
  split; simpl; try done; [by apply Z.mod_pos_bound|]. repeat constructor; apply htonl_range.
Qed.

Lemma build_rrep_ok flags prefix hop dst seq orig lifetime p :
  pkt_ok p → is_u8 hop → pkt_ok (aodv_pkt_build_rrep flags prefix hop dst seq orig lifetime p).
Proof.
  intros [_ _ _ H4 H5] Hhop. unfold aodv_pkt_build_rrep.
  split; cbn [set_pk_payload set_pk_payload_len pk_payload pk_payload_len pk_address pk_ttl]; try done.
  intros bs' Hbs'. apply (inj Some) in Hbs' as <-. split; [|done]. apply bytes_of_rrep_ok.
  split; simpl; try done; [by apply Z.mod_pos_bound..|]. repeat constructor; apply htonl_range.
Qed.

Lemma set_address_ok a p : pkt_ok p → pkt_ok (aodv_pkt_set_address a p).
Proof. intros []. split; simpl; try done. apply htonl_range. Qed.
Lemma set_ttl_ok t p : pkt_ok p → pkt_ok (aodv_pkt_set_ttl t p).
Proof. intros []. split; simpl; try done. apply u8_range. Qed.
Lemma decrease_ttl_ok p : pkt_ok p → pkt_ok (aodv_pkt_decrease_ttl p).
Proof. intros []. split; simpl; try done. apply u8_range. Qed.

(** *** The global counters *)

Lemma upd_data_ok w d : world_ok w → data_ok d → world_ok (set_w_data d w).
Proof. by intros [] ?. Qed.

Lemma seq_num_ok d : data_ok d → data_ok (set_md_seq_num (u32 (md_seq_num d + 1)) d).
Proof. intros []. split; try done. apply u32_range. Qed.
Lemma rreq_id_ok d : data_ok d → data_ok (set_md_rreq_id (u32 (md_rreq_id d + 1)) d).
Proof. intros []. split; try done. apply u32_range. Qed.
Lemma num_rreq_sent_ok d x : is_u32 x → data_ok d → data_ok (set_md_num_rreq_sent x d).
Proof. by intros ? []. Qed.

(** A change of the counters only. *)
Definition same_identity (d d' : msh_data_t) : Prop :=
  md_ip_addr d' = md_ip_addr d ∧ md_broadcast_addr d' = md_broadcast_addr d ∧ md_end d' = md_end d ∧
  md_net_iface d' = md_net_iface d.

Lemma rwp_bind_upd_data R `{!PreOrder R, !Finer stable R} {B} (k : unit → M world B) w f Q :
  world_ok w → data_ok (f (w_data w)) → same_identity (w_data w) (f (w_data w)) →
  (world_ok (set_w_data (f (w_data w)) w) → rwp R (k tt) Q (set_w_data (f (w_data w)) w)) →
  rwp R (upd_data f ≫= k) Q w.
Proof.
  intros Hw Hd (H1 & H2 & H3 & H4) Hk. pose proof (upd_data_ok _ _ Hw Hd) as Hw'.
  eapply rwp_bind_step; [apply _|done|done| |by apply Hk]. apply Finer0.
  split; [split; try done|done..]. by apply (in_kernel_silent _ _ []); [..|rewrite app_nil_r|].
Qed.

(** ** Route discovery *)

(** The fields a RREQ takes from the route it replaces. *)
Definition known_hops (w : world) (invalid_route : option addr) : Z :=
  from_option (λ a, from_option rt_hop_count 0 (w_routes w !! a)) 0 invalid_route.
Definition known_seq (w : world) (invalid_route : option addr) : Z :=
  from_option (λ a, from_option rt_dest_seq_num 0 (w_routes w !! a)) 0 invalid_route.

(** The RREQ that [aodv_find_route] sends. *)
Definition discovery_rreq (w : world) (dest : Z) (invalid_route : option addr) : aodv_rreq :=
  AodvRreq AODV_RREQ 0
    (Z.lor RREQ_GRATUITOUS_RREP_FLAG (if invalid_route then 0 else RREQ_UNKNOWN_SEQ_NUM_FLAG) mod 32)
    0 (known_hops w invalid_route)
    (htonl (u32 (md_rreq_id (w_data w) + 1))) (htonl dest) (htonl (known_seq w invalid_route))
    (htonl (md_ip_addr (w_data w))) (htonl (u32 (md_seq_num (w_data w) + 1))).

Definition discovery_event (numbytes : Z) (w : world) (dest : Z) (invalid_route : option addr) (tries : Z) : event :=
  EvSend numbytes (htonl (md_broadcast_addr (w_data w))) (htons AODV_UDP_PORT)
    (u8 (expanding_ring_search_ttl (known_hops w invalid_route) tries))
    (Some (bytes_of_rreq (discovery_rreq w dest invalid_route))).

(** The counters after a discovery. *)
Definition bumped (d : msh_data_t) : msh_data_t :=
  MshData (md_end d) (md_net_iface d) (md_ip_addr d) (md_broadcast_addr d)
    (u32 (md_seq_num d + 1)) (u32 (md_rreq_id d + 1)) (u32 (md_num_rreq_sent d + 1)).

Record discovered (dest : Z) (invalid_route : option addr) (tries : Z) (w w' : world) : Prop := {
  di_pkts : w_pkts w' = w_pkts w;
  di_data : w_data w' = bumped (w_data w);
  di_trace : ∃ k, w_trace w' = w_trace w ++ [discovery_event (env_sendto k) w dest invalid_route tries];
  di_routes : w_routes w' = w_routes w;
  di_table : w_table w' = w_table w;
  di_packets : w_packets w' = w_packets w;
  di_rreqs : if tries =? 0
    then w_rreqs w' = <[w_brk w := RreqFifo (u32 (md_rreq_id (w_data w) + 1)) dest 0]> (w_rreqs w) ∧
         w_rreq_queue w' = w_brk w :: w_rreq_queue w
    else w_rreqs w' = w_rreqs w ∧ w_rreq_queue w' = w_rreq_queue w ∧ w_alarms w' = w_alarms w }.

(** The own RREQ is remembered at the first try only. *)
Lemma remember_own_spec w rreq_id dest tries :
  world_ok w → is_u32 rreq_id → is_u32 dest →
  rwp stable (when (tries =? 0) (rreq_fifo_push_owned rreq_id dest (s8 tries))) (λ _ w',
    w_pkts w' = w_pkts w ∧ w_data w' = w_data w ∧ w_trace w' = w_trace w ∧
    w_routes w' = w_routes w ∧ w_table w' = w_table w ∧ w_packets w' = w_packets w ∧
    if tries =? 0
    then w_rreqs w' = <[w_brk w := RreqFifo rreq_id dest 0]> (w_rreqs w) ∧
         w_rreq_queue w' = w_brk w :: w_rreq_queue w
    else w_rreqs w' = w_rreqs w ∧ w_rreq_queue w' = w_rreq_queue w ∧ w_alarms w' = w_alarms w) w.
Proof.
  intros Hw Hi Hd. destruct (Z.eqb_spec tries 0) as [->|_]; simpl; [|by rwp_return].
  eapply rwp_mono; [by apply (rreq_fifo_push_owned_spec w rreq_id dest 0)|].
  by intros [] w' _ _ [].
Qed.

Lemma inv_route_get w inv (f : msh_route → Z) (g : addr → M world Z) :
  (∀ a r, w_routes w !! a = Some r → g a w = Ok (f r) w) →
  (∀ a, inv = Some a → is_Some (w_routes w !! a)) →
  match inv with Some r => g r | None => mret 0 end w =
    Ok (from_option (λ a, from_option f 0 (w_routes w !! a)) 0 inv) w.
Proof.
  intros Hg Hinv. destruct inv as [a|]; [|done]. destruct (Hinv a eq_refl) as [r Hr].
  simpl. rewrite Hr. by apply Hg.
Qed.

Lemma known_hops_u8 w inv : world_ok w → is_u8 (known_hops w inv).
Proof.
  intros Hw. unfold known_hops. destruct inv as [a|]; [|done]. simpl.
  destruct (w_routes w !! a) as [r|] eqn:Hr; [|done]. by apply (world_route_ok w a r).
Qed.

Lemma aodv_find_route_spec w dest inv tries :
  world_ok w → is_u32 dest → 0 ≤ tries ≤ RREQ_RETRIES →
  (∀ a, inv = Some a → is_Some (w_routes w !! a)) →
  rwp stable (aodv_find_route dest inv tries) (λ _, discovered dest inv tries w) w.
Proof.
  intros Hw Hdest Ht Hinv. unfold RREQ_RETRIES in Ht. unfold aodv_find_route.
  eapply rwp_bind_upd_data; [apply _..|done|apply seq_num_ok, Hw|done|]. intros Hw1.
  eapply rwp_bind_upd_data; [apply _..|done|apply rreq_id_ok, Hw1|done|]. intros Hw2.
  rwp_read by reflexivity.
  rwp_state w2. set (id := md_rreq_id (w_data w2)).
  assert (is_u32 id) as Hid by apply u32_range.
  rwp_then remember_own_spec; [done..|].
  intros [] w3 Hw3 Hst3 (Hp3 & Hd3 & Ht3 & Hr3 & Htb3 & Hpk3 & Hrq3).
  rewrite (s8_id tries) by (unfold is_s8; lia).
  apply rwp_bind_alloc_pkt; [apply _..|done|]. intros Hw4. set (w4 := with_new_pkt w3) in *.
  assert (∀ a, inv = Some a → is_Some (w_routes w4 !! a)) as Hinv4
    by (simpl; intros; rewrite Hr3; by apply Hinv).
  rwp_read by (eapply (inv_route_get _ _ rt_hop_count); [intros; by apply get_eq|done]).
  rwp_read by (eapply (inv_route_get _ _ rt_dest_seq_num); [intros; by apply get_eq|done]).
  replace (from_option _ 0 inv) with (known_hops w inv) by (unfold known_hops; simpl; by rewrite Hr3).
  match goal with |- context [from_option ?f 0 inv] =>
    replace (from_option f 0 inv) with (known_seq w inv) by (unfold known_seq; simpl; by rewrite Hr3)
  end.
  eapply rwp_bind_upd_pkt; [apply _..|done|apply lookup_insert_eq|by apply set_ttl_ok, fresh_pkt_ok|].
  intros Hw5. rwp_state w5.
  rwp_read by reflexivity. rwp_read by reflexivity.
  eapply rwp_bind_upd_pkt; [apply _..|done|apply lookup_insert_eq| |].
  { apply build_rreq_ok; [by apply set_ttl_ok, fresh_pkt_ok|by apply known_hops_u8]. }
  intros Hw6. rwp_state w6. rwp_read by reflexivity.
  eapply rwp_bind_upd_pkt; [apply _..|done|apply lookup_insert_eq| |].
  { apply set_address_ok, build_rreq_ok; [by apply set_ttl_ok, fresh_pkt_ok|by apply known_hops_u8]. }
  intros Hw7. rwp_state w7.
  eapply rwp_bind_upd_data; [apply _..|done|apply num_rreq_sent_ok; [apply u32_range|apply Hw7]|done|].
  intros Hw8. rwp_state w8.
  rwp_then aodv_pkt_send_spec; [done|apply lookup_insert_eq|done|by apply whole_built_rreq|]. intros n w9 Hw9 Hst9 Hs9.
  rwp_last aodv_pkt_destroy_spec; [done|rewrite (sp_pkts _ _ _ _ Hs9); apply lookup_insert_eq|].
  intros [] w10 Hw10 _ ->. destruct Hs9 as [H1 H2 H3 H4 H5 (H6 & H7 & H8 & H9)].
  split; cbn [set_w_pkts w_pkts w_data w_trace w_routes w_table w_packets w_rreqs w_rreq_queue w_alarms].
  - rewrite H1. unfold w8, w7, w6, w5, w4. simpl. rewrite !delete_insert_eq, delete_id; [done|].
    by apply brk_free_pkt.
  - rewrite H3. simpl. by rewrite Hd3.
  - destruct H2 as [k ->]. exists k. simpl. rewrite Ht3. unfold discovery_event, discovery_rreq. by rewrite Hd3.
  - by rewrite H6.
  - by rewrite H7.
  - by rewrite H8.
  - rewrite H4, H5, H9. exact Hrq3.
Qed.

(** ** Answering a RREQ *)

(** The RREP the destination of a RREQ sends back to the previous hop: it carries the
    sequence number of the node, incremented when the RREQ asks for that one. *)
Definition answer_seq (d : msh_data_t) (r : aodv_rreq) : Z :=
  if rq_dest_seq_num r =? md_seq_num d then u32 (md_seq_num d + 1) else md_seq_num d.
Definition answer_rrep (d : msh_data_t) (r : aodv_rreq) : aodv_rrep :=
  AodvRrep AODV_RREP 0 0 0 0 0 (htonl (md_ip_addr d)) (htonl (answer_seq d r))
    (htonl (rq_orig_ip_addr r)) (htonl MY_ROUTE_TIMEOUT).
Definition answer_event (numbytes : Z) (d : msh_data_t) (r : aodv_rreq) (prev_hop : Z) : event :=
  EvSend numbytes (htonl prev_hop) (htons AODV_UDP_PORT) DEFAULT_TTL (Some (bytes_of_rrep (answer_rrep d r))).

(** What the answer of the destination changes besides counters. *)
Record answered (r : aodv_rreq) (prev_hop : Z) (w w' : world) : Prop := {
  an_pkts : w_pkts w' = w_pkts w;
  an_data : w_data w' = set_md_seq_num (answer_seq (w_data w) r) (w_data w);
  an_trace : ∃ k, w_trace w' = w_trace w ++ [answer_event (env_sendto k) (w_data w) r prev_hop];
  an_rreqs : w_rreqs w' = w_rreqs w;
  an_rreq_queue : w_rreq_queue w' = w_rreq_queue w;
  an_objects : w_routes w' = w_routes w ∧ w_table w' = w_table w ∧ w_packets w' = w_packets w ∧
               w_alarms w' = w_alarms w }.

Lemma bump_when_spec w (b : bool) :
  world_ok w →
  rwp stable (when b (upd_data (λ d, set_md_seq_num (u32 (md_seq_num d + 1)) d)))
    (λ _ w', w' = set_w_data (set_md_seq_num (if b then u32 (md_seq_num (w_data w) + 1)
                               else md_seq_num (w_data w)) (w_data w)) w) w.
Proof.
  intros Hw. destruct b; simpl.
  - eapply rwp_step; [done|apply upd_data_ok; [done|apply seq_num_ok, Hw]|by split; [split|..]|done].
  - rwp_return. by destruct w as [????[]].
Qed.

Lemma aodv_answer_as_destination_spec w pkt r prev_hop route :
  world_ok w → rreq_pkt w pkt r → is_u32 prev_hop → rq_dest_ip_addr r = md_ip_addr (w_data w) →
  rwp stable (aodv_answer_to_rreq pkt prev_hop route) (λ ret w', ret = 1 ∧ answered r prev_hop w w') w.
Proof.
  intros Hw Hr Hhop Hdest. unfold aodv_answer_to_rreq.
  rwp_read by apply read_rreq_msg_eq. rwp_read by reflexivity.
  rewrite Hdest, Z.eqb_refl.
  apply rwp_bind_alloc_pkt; [apply _..|done|]. intros Hw1. rwp_state w1.
  rwp_read by reflexivity.
  rwp_then bump_when_spec; [done|]. intros [] ? Hw2 _ ->. rwp_state w2.
  eapply rwp_bind_upd_pkt; [apply _..|done|apply lookup_insert_eq|by apply set_address_ok, fresh_pkt_ok|].
  intros Hw3. rwp_state w3. rwp_read by reflexivity.
  eapply rwp_bind_upd_pkt; [apply _..|done|apply lookup_insert_eq| |].
  { by apply build_rrep_ok; [apply set_address_ok, fresh_pkt_ok|]. }
  intros Hw4. rwp_state w4.
  rwp_then aodv_pkt_send_spec; [done|apply lookup_insert_eq|done|by apply whole_built_rrep|]. intros n w5 Hw5 Hst5 Hs5.
  rwp_then aodv_pkt_destroy_spec; [done|rewrite (sp_pkts _ _ _ _ Hs5); apply lookup_insert_eq|].
  intros [] w6 Hw6 _ ->. destruct Hs5 as [H1 H2 H3 H4 H5 (H6 & H7 & H8 & H9)].
  rwp_return. split; [done|].
  split; cbn [set_w_pkts w_pkts w_data w_trace w_routes w_table w_packets w_rreqs w_rreq_queue w_alarms].
  - rewrite H1. unfold w4, w3, w2, w1. simpl. rewrite !delete_insert_eq, delete_id; [done|].
    by apply brk_free_pkt.
  - by rewrite H3.
  - destruct H2 as [k ->]. by exists k.
  - by rewrite H4.
  - by rewrite H5.
  - by rewrite H6, H7, H8, H9.
Qed.

(** A node that is not the destination considers the RREQ answered when it has a
    route, the RREQ asks for a sequence number not below its own one and the RREQ does
    not insist on the destination. *)
Definition answers (w : world) (r : aodv_rreq) : bool :=
  match table_lookup w (rq_dest_ip_addr r) with
  | Some _ => (s32 (md_seq_num (w_data w)) <=? s32 (rq_dest_seq_num r)) &&
              negb (has_flag (rq_flags r) RREQ_DEST_ONLY_FLAG)
  | None => false
  end.

Lemma add_precursor_spec R `{!PreOrder R, !Finer inward R} {B} (k : unit → M world B) w a ip Q :
  world_ok w → is_Some (w_routes w !! a) →
  (∀ w', world_ok w' → inward w w' → w_pkts w' = w_pkts w → rwp R (k tt) Q w') →
  rwp R (msh_route_add_precursor a ip ≫= k) Q w.
Proof.
  intros Hw [r Hr] Hk. unfold msh_route_add_precursor.
  eapply rwp_bind_upd; [apply _..|done|done|apply add_precursor_step; by eapply world_route_ok|].
  intros Hw1. apply Hk; [done| |done].
  eapply upd_route_inward; [done|done|apply (add_precursor_step ip r); by apply (world_route_ok w a)..].
Qed.

(** A RREP that is built at [a] and thrown away. *)
Lemma rwp_bind_discard {B} (k : unit → M world B) w a p addr0 hop dst seq orig lifetime Q :
  world_ok w → w_pkts w !! a = Some p → is_u8 hop →
  (∀ w', world_ok w' → w' = set_w_pkts (delete a (w_pkts w)) w → rwp hushed (k tt) Q w') →
  rwp hushed (upd_pkt a (aodv_pkt_set_address addr0);;
              upd_pkt a (aodv_pkt_build_rrep 0 0 hop dst seq orig lifetime);;
              x ← aodv_pkt_destroy a; k x) Q w.
Proof.
  intros Hw Ha Hhop Hk. pose proof (world_pkt_ok _ _ _ Hw Ha) as Hp.
  eapply rwp_bind_upd_pkt; [apply _..|done|done|by apply set_address_ok|]. intros Hw1.
  eapply rwp_bind_upd_pkt; [apply _..|done|apply lookup_insert_eq|by apply build_rrep_ok; [apply set_address_ok|]|].
  intros Hw2. rwp_then aodv_pkt_destroy_spec; [done|apply lookup_insert_eq|].
  intros [] w3 Hw3 _ ->. apply Hk; [done|]. simpl. by rewrite !delete_insert_eq.
Qed.

Lemma discard_spec w a p addr0 hop dst seq orig lifetime :
  world_ok w → w_pkts w !! a = Some p → is_u8 hop →
  rwp hushed (upd_pkt a (aodv_pkt_set_address addr0);;
              upd_pkt a (aodv_pkt_build_rrep 0 0 hop dst seq orig lifetime);;
              aodv_pkt_destroy a) (λ _ w', w' = set_w_pkts (delete a (w_pkts w)) w) w.
Proof.
  intros Hw Ha Hhop.
  pose proof (λ k Q, rwp_bind_discard (B:=unit) k w a p addr0 hop dst seq orig lifetime Q Hw Ha Hhop) as Hd.
  specialize (Hd mret (λ _ w', w' = set_w_pkts (delete a (w_pkts w)) w)).
  unfold rwp, wp, mbind, M_bind, mret, M_ret in *.
  destruct (upd_pkt a _ w) as [? w1|]; [|apply Hd; done].
  destruct (upd_pkt a _ w1) as [? w2|]; [|apply Hd; done].
  destruct (aodv_pkt_destroy a w2) as [[] w3|]; by apply Hd.
Qed.

(** The gratuitous RREP. *)
Lemma gratuitous_spec w (b : bool) r to_orig :
  world_ok w → is_Some (w_routes w !! to_orig) →
  rwp hushed (when b (
      pkt ← aodv_pkt_alloc;
      orig_hop_count ← msh_route_get_hop_count to_orig;
      orig_lifetime ← msh_route_get_lifetime to_orig;
      upd_pkt pkt (aodv_pkt_set_address (rq_dest_ip_addr r));;
      upd_pkt pkt (aodv_pkt_build_rrep 0 0 (u8 orig_hop_count) (rq_orig_ip_addr r)
                     (rq_orig_seq_num r) (rq_dest_ip_addr r) orig_lifetime);;
      aodv_pkt_destroy pkt)) (λ _ w', w_pkts w' = w_pkts w ∧ hops_same w w') w.
Proof.
  intros Hw [ro Hro]. apply rwp_when; [apply _|done| |done]. intros _.
  apply rwp_bind_alloc_pkt; [apply _..|done|]. intros Hw1. rwp_state w1.
  rwp_read by (apply get_eq; exact Hro).
  rwp_then get_lifetime_spec; [done|by exists ro|]. intros left ? Hw2 _ [-> _]. rwp_state w2.
  eapply rwp_mono; [by apply (discard_spec w2 (w_brk w) (fresh_pkt w)); [|apply lookup_insert_eq|apply u8_range]|].
  intros [] ? _ _ ->. split; [|done]. simpl. rewrite delete_insert_eq, delete_id; [done|]. by apply brk_free_pkt.
Qed.

(** A node that is not the destination sends nothing, whatever it answers. *)
Lemma aodv_answer_as_intermediate_spec w pkt r prev_hop route :
  world_ok w → rreq_pkt w pkt r → rq_dest_ip_addr r ≠ md_ip_addr (w_data w) →
  is_Some (w_routes w !! route) →
  rwp hushed (aodv_answer_to_rreq pkt prev_hop route)
    (λ ret w', ret = (if answers w r then 1 else 0) ∧ w_pkts w' = w_pkts w ∧ hops_same w w') w.
Proof.
  intros Hw Hr Hne Hroute. unfold aodv_answer_to_rreq, answers.
  destruct (rreq_words _ (rreq_pkt_ok _ _ _ Hw Hr)) as (_ & Hd & _).
  rwp_read by apply read_rreq_msg_eq. rwp_read by reflexivity.
  rewrite (proj2 (Z.eqb_neq _ _) Hne).
  apply rwp_bind_find; [apply _..|done|done|]. intros Hw1.
  rwp_read by reflexivity.
  pose proof (with_find_ip_inward (rq_dest_ip_addr r) w Hw) as Hi1.
  assert (hops_same w (with_find_ip (rq_dest_ip_addr r) w)) as Hsm1 by by_steps.
  destruct (table_lookup w (rq_dest_ip_addr r)) as [to|] eqn:Hto; [|by rwp_return].
  change (md_seq_num (w_data (with_find_ip (rq_dest_ip_addr r) w))) with (md_seq_num (w_data w)).
  destruct (_ && _); [|by rwp_return].
  pose proof (table_lookup_usable w _ to Hw Hto) as [Hlive _].
  apply (quiet_live w _ to (in_quiet _ _ Hi1)) in Hlive.
  apply (quiet_live w _ route (in_quiet _ _ Hi1)) in Hroute.
  assert (w_pkts (with_find_ip (rq_dest_ip_addr r) w) = w_pkts w) as Hp1 by done. rwp_state w1.
  apply add_precursor_spec; [apply _..|done|done|]. intros w2 Hw2 Hi2 Hp2.
  apply (quiet_live w1 _ to (in_quiet _ _ Hi2)) in Hlive as [rd2 Hrd2].
  apply (quiet_live w1 _ route (in_quiet _ _ Hi2)) in Hroute.
  rwp_read by apply get_eq.
  apply add_precursor_spec; [apply _..|done|done|]. intros w3 Hw3 Hi3 Hp3.
  assert (is_Some (w_routes w3 !! to)) as [rd3 Hrd3]
    by (apply (quiet_live w2 _ to (in_quiet _ _ Hi3)); by exists rd2).
  apply (quiet_live w2 _ route (in_quiet _ _ Hi3)) in Hroute.
  apply rwp_bind_alloc_pkt; [apply _..|done|]. intros Hw4. rwp_state w4.
  rwp_read by (apply get_eq; exact Hrd3). rwp_read by (apply get_eq; exact Hrd3).
  eapply rwp_bind_step; [apply _|done|by apply tick_world_ok|by from_inward; apply tick_inward|].
  assert (world_ok (set_w_tick (S (w_tick w4)) w4)) as Hw5 by by apply tick_world_ok. rwp_state w5.
  rwp_then get_lifetime_spec; [done|by exists rd3|]. intros left ? Hw6 _ [-> _]. rwp_state w6.
  eapply (rwp_bind_discard _ w6 (w_brk w3) (fresh_pkt w3)); [done|apply lookup_insert_eq|apply u8_range|].
  intros w7 Hw7 Heq7. assert (w_pkts w7 = w_pkts w) as Hp7.
  { rewrite Heq7. simpl. rewrite delete_insert_eq, delete_id by by apply brk_free_pkt. congruence. }
  assert (hops_same w3 w7) as Hsm7 by by rewrite Heq7.
  rwp_then gratuitous_spec; [done|by rewrite Heq7|]. intros [] w8 Hw8 _ [Hp8 Hsm8].
  rwp_return. split; [done|]. split; [congruence|]. etrans; [|exact Hsm8]. by_steps.
Qed.
End logic_specs.
