(* ===== verification/ProcessSpec.v ===== *)
(** * Processing received messages

    The handlers of RREQs and RREPs: the routes they leave in the table, what they
    send, and that they keep the invariant. *)

From S2P Require Export LogicSpec.

Section process_specs.
Context `{E : Env} {EO : EnvOk E}.
Implicit Types w : world.

(** ** Working on a route *)

(** [a] is the live route [r], and not the scratch route of the lookups. *)
Record route_at (w : world) (a : addr) (r : msh_route) : Prop := {
  ra_route : w_routes w !! a = Some r;
  ra_not_scratch : a ≠ w_find_route w }.

Lemma route_at_usable w a r : route_at w a r → usable w a.
Proof. intros []. split; [by exists r|done]. Qed.
Lemma usable_route_at w a : usable w a → ∃ r, route_at w a r.
Proof. intros [[r Hr] Hne]. by exists r. Qed.
Lemma route_at_ok w a r : world_ok w → route_at w a r → route_ok r.
Proof. intros Hw []. by eapply world_route_ok. Qed.

Ltac at_ok :=
  match goal with H : route_at _ ?a ?r |- route_ok ?r => by eapply route_at_ok; [|exact H] end.

Lemma rwp_bind_alloc_route R `{!PreOrder R, !Finer inward R} {B} (k : addr → M world B) w Q :
  world_ok w →
  (∀ a w', world_ok w' → inward w w' → route_at w' a zero_route → rwp R (k a) Q w') →
  rwp R (msh_route_alloc ≫= k) Q w.
Proof.
  intros Hw Hk. destruct (brk_free _ Hw) as (_ & _ & _ & Hne).
  assert (inward w (with_new_route w)) as Hq.
  { split; [by apply with_new_route_quiet|done..|]. intros a (r & Hr & _)%table_live; [|done].
    unfold hop_kept. simpl. rewrite lookup_insert_ne; [done|]. intros <-.
    by rewrite (proj1 (brk_free _ Hw)) in Hr. }
  eapply rwp_bind_step; [apply _|apply msh_route_alloc_eq|by apply with_new_route_ok| |].
  - by apply Finer0.
  - apply Hk; [by apply with_new_route_ok|done|].
    split; simpl; [apply lookup_insert_eq|done].
Qed.

Lemma rwp_bind_upd_at R `{!PreOrder R, !Finer inward R} {B} (k : unit → M world B) w a r f Q :
  world_ok w → route_at w a r → route_step r (f r) →
  (∀ w', world_ok w' → inward w w' → route_at w' a (f r) → rwp R (k tt) Q w') →
  rwp R (upd_route a f ≫= k) Q w.
Proof.
  intros Hw [Hr Hne] Hstep Hk. eapply rwp_bind_upd; [apply _..|done|done|done|]. intros Hw'.
  apply Hk; [done|eapply upd_route_inward; [done|done|apply Hstep..]|]. split; simpl; [apply lookup_insert_eq|done].
Qed.

Lemma upd_at_spec w a r f :
  world_ok w → route_at w a r → route_step r (f r) →
  rwp inward (upd_route a f) (λ _ w', route_at w' a (f r)) w.
Proof.
  intros Hw [Hr Hne] Hstep. eapply upd_route_spec; [done..|]. split; simpl; [apply lookup_insert_eq|done].
Qed.

Lemma next_hop_at_spec d w a r hop :
  world_ok w → route_at w a r → rt_dst_ip r = d → is_u32 hop →
  rwp (local d) (msh_route_set_next_hop a hop)
    (λ _ w', route_at w' a (set_rt_next_hop hop (set_flag RTFLAG_HAS_NEXTHOP r))) w.
Proof.
  intros Hw [Hr Hne] <- Hhop. eapply wp_mono; [by apply msh_route_set_next_hop_spec|].
  intros [] w' (Hw' & Hq & [Hro Ht Hp _]). split_and!; [done|split; [done..|]|].
  { intros b _ Hb. unfold hop_kept. rewrite Hro. simpl. rewrite lookup_insert_ne; [done|].
    intros <-. by rewrite Hr in Hb. }
  split; [rewrite Hro; apply lookup_insert_eq|].
  by rewrite (bl_find_route w w') by (by from_quiet).
Qed.

Lemma rwp_bind_next_hop_at d R `{!PreOrder R, !Finer (local d) R} {B} (k : unit → M world B) w a r hop Q :
  world_ok w → route_at w a r → rt_dst_ip r = d → is_u32 hop →
  (∀ w', world_ok w' → local d w w' →
     route_at w' a (set_rt_next_hop hop (set_flag RTFLAG_HAS_NEXTHOP r)) → rwp R (k tt) Q w') →
  rwp R (msh_route_set_next_hop a hop ≫= k) Q w.
Proof.
  intros Hw Hat Hd Hhop Hk. rwp_then next_hop_at_spec; [done..|]. intros [] w' Hw' Hl Hat'. by apply Hk.
Qed.

Lemma set_lifetime_at_spec w a r ms :
  world_ok w → route_at w a r →
  rwp inward (msh_route_set_lifetime a ms)
    (λ _ w', ∃ r', route_at w' a r' ∧ same_path r r' ∧ (in_table r' ↔ in_table r) ∧
       has_flag (rt_flags r') RTFLAG_VALID_ENTRY = true) w.
Proof.
  intros Hw [Hr Hne]. eapply rwp_mono; [by apply msh_route_set_lifetime_spec|].
  intros [] w' Hw' Hi Hls.
  assert (a ≠ w_find_route w') as Hne' by by rewrite (bl_find_route w w') by (by from_inward).
  exists (touched r). split_and!; [|apply touched_same_path|done|].
  - split; [|done]. rewrite (ls_routes _ _ _ _ _ Hls). apply lookup_insert_eq.
  - simpl. rewrite has_flag_lor. apply orb_true_r.
Qed.

(** The table is offered a new route. *)
Lemma routing_table_add_at w a r dst :
  world_ok w → route_at w a r → ¬ in_table r → rt_dst_ip r = dst →
  rwp (learns dst) (routing_table_add a) (λ ret w', add_post a dst w ret w' ∧
    (ret = 0 → kernel_has w' r) ∧ ∃ r', route_at w' a r' ∧ same_path r r') w.
Proof.
  intros Hw [Hr Hne] Hni <-. eapply wp_mono; [by apply routing_table_add_spec|].
  intros ret w' (Hw' & Hq & Hpost & Hkern & r' & Hr' & Hpath).
  split_and!; [done|by eapply add_learns|done|done|]. exists r'. split; [|done].
  split; [rewrite Hr'; apply lookup_insert_eq|]. by rewrite (bl_find_route w w') by (by from_quiet).
Qed.

(** ** The routes a message creates or refreshes *)

(** The route the table already has, after a lookup. *)
Lemma lookup_route_at w ip a :
  world_ok w → table_lookup w ip = Some a →
  ∃ r, w_routes w !! a = Some r ∧ rt_dst_ip r = ip ∧ route_at (with_find_ip ip w) a r.
Proof.
  intros Hw Ha. pose proof (table_lookup_usable _ _ _ Hw Ha) as [[r Hr] Hne].
  apply table_lookup_Some in Ha as [_ Hg]; [|done]. unfold goes_to in Hg. rewrite Hr in Hg.
  exists r. split_and!; [done|by injection Hg|]. split; [by rewrite with_find_ip_other|done].
Qed.

(** A neighbour's route that is new: its sequence number is not known, the packets for
    the neighbour are released and the kernel has the route. *)
Definition first_heard (w : world) (hop : Z) (a : addr) (w' : world) : Prop :=
  table_lookup w hop = None →
  (∃ r, w_routes w' !! a = Some r ∧ has_flag (rt_flags r) RTFLAG_VALID_DEST_SEQ_NUM = false) ∧
  (kernel_accepts → w_packets w' = filter (λ e, ¬ pf_dest e = hop) (w_packets w) ∧ released hop w w' ∧
    kernel_via w' hop hop).

Lemma route_to_previous_hop_spec w rrep hop :
  world_ok w → is_u32 hop →
  rwp (learns hop) (route_to_previous_hop rrep hop) (λ a w', usable w' a ∧
    (kernel_accepts → table_lookup w' hop = Some a) ∧ first_heard w hop a w' ∧
    (is_Some (table_lookup w hop) → w_packets w' = w_packets w)) w.
Proof.
  intros Hw Hhop. unfold route_to_previous_hop, first_heard.
  apply rwp_bind_find; [apply _..|done|done|]. intros Hw1.
  pose proof (with_find_ip_inward hop w Hw) as Hi1.
  destruct (table_lookup w hop) as [a|] eqn:Ha.
  - destruct (lookup_route_at _ _ _ Hw Ha) as (r & _ & _ & Hat).
    rwp_then set_lifetime_at_spec; [done|done|]. intros [] w2 Hw2 Hi2 (r2 & Hat2 & _).
    rwp_return. split_and!; [by eapply route_at_usable| |done|].
    + intros _. rewrite <-Ha. apply (local_lookup hop); [done|done|by_steps].
    + intros _. assert (inward w w2) as Hi by by etrans. apply Hi.
  - apply rwp_bind_alloc_route; [apply _..|done|]. intros a w2 Hw2 Hl2 Hat2.
    eapply rwp_bind_upd_at; [apply _..|done|done|by apply dst_ip_step|]. intros w3 Hw3 Hi3 Hat3.
    eapply (rwp_bind_next_hop_at hop); [apply _..|done|done|done|done|]. intros w4 Hw4 Hl4 Hat4.
    eapply (rwp_bind _ inward _ _ (λ _ w', ∃ r, route_at w' a r ∧ ¬ in_table r ∧ rt_dst_ip r = hop ∧
      has_flag (rt_flags r) RTFLAG_VALID_DEST_SEQ_NUM = false)); [|apply _|].
    { destruct rrep; simpl; [|rwp_return; by eexists].
      rwp_last upd_at_spec; [done|done|apply unset_flag_step; at_ok|].
      intros [] w5 _ _ Hat5. by eexists. }
    intros [] w5 Hw5 Hi5 (r5 & Hat5 & Hni5 & Hd5 & Hf5).
    rwp_then routing_table_add_at; [done..|]. intros ret w6 Hw6 _ (Hpost & Hkern & r6 & Hat6 & Hpath6).
    assert (local hop w w5) as Hl by by_steps.
    assert (table_lookup w5 hop = None) as Hn5 by (rewrite <-Ha; by apply (local_lookup hop)).
    rwp_return. split_and!; [by eapply route_at_usable| | |by intros []].
    + intros Hk. by eapply (add_post_new a _ w5).
    + intros _. split; [exists r6; split; [apply Hat6|]; rewrite <-Hf5; apply Hpath6|].
      intros Hk. destruct (add_post_new a _ w5 _ _ Hk Hn5 Hpost) as (_ & -> & Hrel & Hret).
      unfold released in Hrel. rewrite (lo_packets _ _ _ Hl) in Hrel |- *. split_and!; [done..|].
      rewrite <-Hd5. by apply kernel_has_direct, Hkern.
Qed.

(** The reverse route leads to the originator through the previous hop, with the hop
    count of the RREQ and the newer of the two sequence numbers. *)
Record reverse_path (orig seq hop prev_hop : Z) (old : option msh_route) (r : msh_route) : Prop := {
  rv_dst : rt_dst_ip r = orig;
  rv_next_hop : rt_next_hop r = prev_hop;
  rv_hop_count : rt_hop_count r = hop;
  rv_seq : rt_dest_seq_num r =
    match old with
    | Some r0 => if s32 (rt_dest_seq_num r0) <? s32 seq then seq else rt_dest_seq_num r0
    | None => seq
    end;
  rv_valid_seq : has_flag (rt_flags r) RTFLAG_VALID_DEST_SEQ_NUM = true }.

Lemma reverse_path_same orig seq hop prev_hop old r r' :
  reverse_path orig seq hop prev_hop old r → same_path r r' → reverse_path orig seq hop prev_hop old r'.
Proof. intros [] []. split; congruence. Qed.

Lemma minimal_lifetime_spec R `{!PreOrder R, !Finer inward R} {B} (k : Z → M world B) w hop Q :
  world_ok w →
  (world_ok (set_w_tick (S (w_tick w)) w) →
   rwp R (k (minimal_lifetime_at (env_now (w_tick w)) hop)) Q (set_w_tick (S (w_tick w)) w)) →
  rwp R (minimal_lifetime hop ≫= k) Q w.
Proof.
  intros Hw Hk. pose proof (tick_world_ok w (S (w_tick w)) Hw).
  eapply rwp_bind_step; [apply _|done|done| |by apply Hk]. from_inward. apply tick_inward.
Qed.

Lemma when_set_seq_spec w a r (b : bool) seq :
  world_ok w → route_at w a r → is_u32 seq →
  rwp inward (when b (msh_route_set_dest_seq_num a seq)) (λ _ w',
    route_at w' a (set_rt_dest_seq_num (if b then seq else rt_dest_seq_num r) r)) w.
Proof.
  intros Hw Hat Hseq. destruct b; simpl.
  - apply upd_at_spec; [done|done|]. apply dest_seq_num_step; [done|by eapply route_at_ok].
  - rwp_return. by destruct r.
Qed.

Lemma when_set_lifetime_spec w a r (b : bool) ms :
  world_ok w → route_at w a r →
  rwp inward (when b (msh_route_set_lifetime a ms)) (λ _ w', ∃ r', route_at w' a r' ∧ same_path r r') w.
Proof.
  intros Hw Hat. apply rwp_when; [apply _|done| |by exists r]. intros _.
  eapply rwp_mono; [by apply set_lifetime_at_spec|]. naive_solver.
Qed.

Lemma reverse_route_spec w orig seq hop prev_hop :
  world_ok w → is_u32 orig → is_u32 seq → is_u8 hop → is_u32 prev_hop →
  rwp (learns orig) (reverse_route orig seq hop prev_hop) (λ a w', (∃ r, route_at w' a r ∧
      reverse_path orig seq hop prev_hop (route_to w orig) r) ∧
    (kernel_accepts → table_lookup w' orig = Some a)) w.
Proof.
  intros Hw Ho Hs Hh Hp. unfold reverse_route, route_to.
  apply rwp_bind_find; [apply _..|done|done|]. intros Hw1.
  pose proof (with_find_ip_inward orig w Hw) as Hi1.
  apply minimal_lifetime_spec; [apply _..|done|]. intros Hw2.
  pose proof (tick_inward (with_find_ip orig w) (S (w_tick (with_find_ip orig w)))) as Hi2.
  destruct (table_lookup w orig) as [a|] eqn:Ha.
  - destruct (lookup_route_at _ _ _ Hw Ha) as (r & Hr & Hdst & Hat).
    assert (route_at (set_w_tick (S (w_tick (with_find_ip orig w))) (with_find_ip orig w)) a r) as Hat2
      by (by destruct Hat).
    rwp_read by (apply get_eq; apply Hat2).
    rwp_then get_lifetime_spec; [done|eexists; apply Hat2|]. intros old w3 Hw3 Hi3 [Heq3 _].
    eapply rwp_bind_upd_at; [apply _..|done|by subst w3; destruct Hat2|apply set_flag_step; [done|at_ok]|].
    intros w4 Hw4 Hi4 Hat4.
    eapply (rwp_bind_next_hop_at orig); [apply _..|done|done|exact Hdst|done|]. intros w5 Hw5 Hl5 Hat5.
    eapply rwp_bind_upd_at; [apply _..|done|done|apply hop_count_step; [done|at_ok]|].
    intros w6 Hw6 Hi6 Hat6.
    rwp_then when_set_seq_spec; [done|done|done|]. intros [] w7 Hw7 Hi7 Hat7.
    rwp_then when_set_lifetime_spec; [done|done|]. intros [] w8 Hw8 Hi8 (r8 & Hat8 & Hpath).
    rwp_return. split.
    + exists r8. split; [done|]. eapply reverse_path_same; [|done].
      simpl. rewrite Hr. split; simpl; try done. by rewrite !has_flag_lor, orb_true_r.
    + intros _. rewrite <-Ha. apply (local_lookup orig); [done|done|by_steps].
  - apply rwp_bind_alloc_route; [apply _..|done|]. intros a w3 Hw3 Hl3 Hat3.
    eapply rwp_bind_upd_at; [apply _..|done|done|by apply dst_ip_step|]. intros w4 Hw4 Hi4 Hat4.
    eapply rwp_bind_upd_at; [apply _..|done|done|apply dest_seq_num_step; [done|at_ok]|].
    intros w5 Hw5 Hi5 Hat5.
    eapply (rwp_bind_next_hop_at orig); [apply _..|done|done|done|done|]. intros w6 Hw6 Hl6 Hat6.
    eapply rwp_bind_upd_at; [apply _..|done|done|apply hop_count_step; [done|at_ok]|].
    intros w7 Hw7 Hi7 Hat7.
    rwp_then set_lifetime_at_spec; [done|done|]. intros [] w8 Hw8 Hi8 (r8 & Hat8 & Hpath8 & Hin8 & _).
    eapply rwp_bind_upd_at; [apply _..|done|done|apply set_flag_step; [done|at_ok]|].
    intros w9 Hw9 Hi9 Hat9. destruct Hpath8 as [H1 H2 H3 H4 H5].
    rwp_then routing_table_add_at; [done|done|by simpl; rewrite Hin8|done|].
    intros ret w10 Hw10 _ (Hpost & _ & r10 & Hat10 & Hpath10).
    rwp_return. split.
    + exists r10. split; [done|]. eapply reverse_path_same; [|done].
      split; simpl; try done. by rewrite has_flag_lor, orb_true_r.
    + intros Hk. eapply (add_post_new a _ w9); [done| |exact Hpost].
      rewrite <-Ha. apply (local_lookup orig); [done|done|by_steps].
Qed.

(** ** Forwarding *)

Lemma prepare_rreq_ok r : rreq_ok r → rreq_ok (aodv_pkt_prepare_rreq r).
Proof. apply rreq_ntoh_ok. Qed.
Lemma prepare_rrep_ok r : rrep_ok r → rrep_ok (aodv_pkt_prepare_rrep r).
Proof. apply rrep_ntoh_ok. Qed.

Lemma carries_rreq_ok w a p bs r : world_ok w → carries_rreq w a p bs r → rreq_ok r.
Proof. intros Hw Hc. eapply rreq_pkt_ok; [done|by exists p, bs]. Qed.
Lemma carries_rrep_ok w a p bs r : world_ok w → carries_rrep w a p bs r → rrep_ok r.
Proof. intros Hw Hc. eapply rrep_pkt_ok; [done|by exists p, bs]. Qed.

(** Writing back the message a packet carries changes nothing. *)
Lemma with_rreq_id w a p bs r :
  world_ok w → carries_rreq w a p bs r → with_rreq r bs p = p.
Proof.
  intros Hw (Ha & Hp & Hr & _). apply (world_pkt_ok _ _ _ Hw) in Ha as Hok.
  destruct (bytes_of_rreq_of bs r) as [Heq _]; [by eapply po_payload|done|].
  unfold with_rreq. rewrite Heq. destruct p; simpl in *. by rewrite Hp.
Qed.

(** The RREQ a node passes on: the message as received, its hop count already
    incremented, one hop less to live. *)
Definition forward_event (numbytes : Z) (d : msh_data_t) (p : aodv_pkt) (bs : bytes) (r : aodv_rreq) : event :=
  EvSend numbytes (htonl (md_broadcast_addr d)) (pk_port p) (u8 (pk_ttl p - 1))
    (Some (bytes_of_rreq (aodv_pkt_prepare_rreq r) ++ drop 24 bs)).

(** The sequence number asked for is left as it was. *)
Lemma forward_seq_spec w pkt p bs r route :
  world_ok w → carries_rreq w pkt p bs r → (∀ a, route = Some a → is_Some (w_routes w !! a)) →
  rwp hushed (match route with
    | Some a =>
        flags ← msh_route_get_flags a;
        when (negb (has_flag flags RTFLAG_VALID_ENTRY) &&
              has_flag flags RTFLAG_VALID_DEST_SEQ_NUM) (
          dest_seq_num_old ← msh_route_get_dest_seq_num a;
          rreq ← read_rreq_msg pkt;
          let dest_seq_num_new := rq_dest_seq_num rreq in
          when (dest_seq_num_old <? dest_seq_num_new)
            (upd_rreq_msg pkt (set_rq_dest_seq_num dest_seq_num_new)))
    | None => mret tt
    end) (λ _ w', w' = w) w.
Proof.
  intros Hw Hc Hroute. destruct route as [a|]; [|by rwp_return].
  destruct (Hroute a eq_refl) as [ra Hra]. rwp_read by apply get_eq.
  apply rwp_when; [apply _|done| |done]. intros _.
  rwp_read by apply get_eq. rwp_read by (apply read_rreq_msg_eq; by exists p, bs).
  apply rwp_when; [apply _|done| |done]. intros _.
  pose proof (carries_rreq_ok _ _ _ _ _ Hw Hc) as Hok.
  enough (upd_rreq_msg pkt (set_rq_dest_seq_num (rq_dest_seq_num r)) w = Ok tt w) as Hid
    by (by eapply rwp_step; [exact Hid|..]).
  pose proof (with_rreq_id _ _ _ _ _ Hw Hc) as Hpid. destruct Hc as (Ha & Hp & Hr & _).
  unfold upd_rreq_msg, mbind, M_bind. erewrite payload_eq, update_rreq_eq by done.
  cbn [demand mret M_ret]. erewrite upd_pkt_eq by done.
  replace (set_rq_dest_seq_num (rq_dest_seq_num r) r) with r by by destruct r.
  change (set_pk_payload _ p) with (with_rreq r bs p). rewrite Hpid, insert_id by done. by destruct w.
Qed.

Lemma forward_rreq_spec w pkt p bs r dest_addr :
  world_ok w → carries_rreq w pkt p bs r → is_u32 dest_addr →
  rwp stable (forward_rreq pkt dest_addr) (λ _ w',
    (∃ k, w_trace w' = w_trace w ++ [forward_event (env_sendto k) (w_data w) p bs r]) ∧
    (∃ p', w_pkts w' = <[pkt := p']> (w_pkts w)) ∧
    w_rreqs w' = w_rreqs w ∧ w_rreq_queue w' = w_rreq_queue w ∧ hops_same w w') w.
Proof.
  intros Hw (Ha & Hp & Hr & Ht) Hd. unfold forward_rreq.
  pose proof (world_pkt_ok _ _ _ Hw Ha) as Hpk.
  rwp_read by reflexivity.
  eapply rwp_bind_upd_pkt; [apply _..|done|done|by apply set_address_ok|]. intros Hw1. rwp_state w1.
  eapply rwp_bind_upd_pkt; [apply _..|done|apply lookup_insert_eq|by apply decrease_ttl_ok, set_address_ok|].
  intros Hw2. rwp_state w2.
  set (p2 := aodv_pkt_decrease_ttl (aodv_pkt_set_address (md_broadcast_addr (w_data w)) p)) in *.
  apply rwp_bind_find; [apply _..|done|done|]. intros Hw3.
  assert (carries_rreq (with_find_ip dest_addr w2) pkt p2 bs r) as Hc3
    by (split_and!; [apply lookup_insert_eq|done..]).
  assert (hops_same w (with_find_ip dest_addr w2)) as Hsm3
    by (etrans; [|apply inward_to, with_find_ip_inward; [apply _|done]]; done).
  rwp_then forward_seq_spec; [done|exact Hc3| |].
  { intros a Hl. destruct (lookup_route_at w2 dest_addr a Hw2 Hl) as (ra & _ & _ & [Hra _]). by exists ra. }
  intros [] ? _ _ ->. rwp_state w3.
  eapply rwp_bind_upd_data; [apply _..|done|apply num_rreq_sent_ok; [apply u32_range|apply Hw3]|done|].
  intros Hw4. rwp_state w4.
  eapply (rwp_bind_upd_rreq _ _ w4 pkt p2 bs r); [done|exact Hc3| |done|].
  { apply prepare_rreq_ok. by eapply carries_rreq_ok. }
  intros w5 Hw5 -> (Ha5 & Hp5 & _).
  rwp_then aodv_pkt_send_spec; [done|exact Ha5|exact Hp5|by apply whole_rreq|].
  intros n w6 Hw6 _ [H1 [k H2] H3 H4 H5 (H6 & H7 & _)].
  rwp_return. rewrite H1, H2, H4, H5. split_and!; [by exists k| |done|done|].
  2: { etrans; [exact Hsm3|]. split; [done|]. intros a _. unfold hop_kept. by rewrite H6. }
  eexists. simpl. by rewrite !insert_insert_eq.
Qed.

(** ** Processing a RREQ *)

(** A packet object is untouched by operations on routes. *)
Lemma carries_rreq_quiet w w' a p bs r :
  quiet w w' → carries_rreq w a p bs r → carries_rreq w' a p bs r.
Proof. intros [_ Hp]. unfold carries_rreq. by rewrite Hp. Qed.
Lemma carries_rrep_quiet w w' a p bs r :
  quiet w w' → carries_rrep w a p bs r → carries_rrep w' a p bs r.
Proof. intros [_ Hp]. unfold carries_rrep. by rewrite Hp. Qed.

Lemma remembers_quiet w w' id dst : hushed w w' → remembers w' id dst = remembers w id dst.
Proof.
  intros [_ _ _ Hr Hq]. unfold remembers, find_rreq, satisfies. by rewrite Hr, Hq.
Qed.

(** What is sent in reaction to a new RREQ. *)
Definition rreq_reaction (numbytes : Z) (d : msh_data_t) (p : aodv_pkt) (bs : bytes) (r : aodv_rreq)
    (considered_answered : bool) : list event :=
  let r' := set_rq_hop_count (u8 (rq_hop_count r + 1)) r in
  if rq_dest_ip_addr r =? md_ip_addr d then [answer_event numbytes d r (aodv_pkt_get_address p)]
  else if negb considered_answered && (1 <? pk_ttl p)
       then [forward_event numbytes d p (bytes_of_rreq r' ++ drop 24 bs) r'] else [].

(** The RREQ [id] for [dst] is in the queue. *)
Definition knows (w : world) (id dst : Z) : Prop :=
  ∃ a e, a ∈ w_rreq_queue w ∧ w_rreqs w !! a = Some e ∧ rf_rreq_id e = id ∧ rf_dst e = dst.

(** A node with a route to the destination considers the RREQ answered when it
    [may_answer]; one without does not (the routes to the originator and to the previous
    hop may be created by the RREQ itself). *)
Definition may_answer (d : msh_data_t) (r : aodv_rreq) : bool :=
  (s32 (md_seq_num d) <=? s32 (rq_dest_seq_num r)) && negb (has_flag (rq_flags r) RREQ_DEST_ONLY_FLAG).
Record considers (prev_hop : Z) (r : aodv_rreq) (w : world) (considered_answered : bool) : Prop := {
  co_known : is_Some (table_lookup w (rq_dest_ip_addr r)) →
    considered_answered = may_answer (w_data w) r;
  co_unknown : table_lookup w (rq_dest_ip_addr r) = None →
    rq_dest_ip_addr r ≠ prev_hop → rq_dest_ip_addr r ≠ rq_orig_ip_addr r →
    considered_answered = false }.

(** What the routes of a new RREQ change of the table: the originator is behind the
    previous hop, other destinations are as known or unknown as before. *)
Record rreq_learned (prev_hop orig : Z) (w w' : world) : Prop := {
  rql_back : kernel_accepts → hop_to w' orig = Some prev_hop;
  rql_others ip : ip ≠ prev_hop → ip ≠ orig → table_lookup w' ip = table_lookup w ip }.

Definition rreq_processed (p : aodv_pkt) (bs : bytes) (r : aodv_rreq) (w w' : world) : Prop :=
  knows w' (rq_rreq_id r) (rq_dest_ip_addr r) ∧
  if remembers w (rq_rreq_id r) (rq_dest_ip_addr r)
  then sent (w_trace w') = sent (w_trace w) ∧ w_rreq_queue w' = w_rreq_queue w
  else ∃ k considered_answered, sent (w_trace w') =
         sent (w_trace w) ++ rreq_reaction (env_sendto k) (w_data w) p bs r considered_answered ∧
       considers (aodv_pkt_get_address p) r w considered_answered ∧
       rreq_learned (aodv_pkt_get_address p) (rq_orig_ip_addr r) w w'.

Lemma remembers_knows w id dst : remembers w id dst = true ↔ knows w id dst.
Proof.
  unfold remembers, knows. rewrite bool_decide_eq_true. split.
  - intros [a (Ha & e & He & Ht)%find_rreq_Some]. exists a, e.
    rewrite andb_true_iff, !Z.eqb_eq in Ht. tauto.
  - intros (a & e & Ha & He & <- & <-). unfold find_rreq.
    destruct (filter _ _) as [|b l] eqn:Hf; [|by eexists].
    assert (a ∈ filter (λ x, satisfies (λ e', (rf_rreq_id e' =? rf_rreq_id e) && (rf_dst e' =? rf_dst e)) w x = true)
              (w_rreq_queue w)) as Hin; [|rewrite Hf in Hin; set_solver].
    apply list_elem_of_filter. split; [|done]. unfold satisfies. rewrite He. simpl. by rewrite !Z.eqb_refl.
Qed.

Lemma knows_same w w' id dst :
  w_rreqs w' = w_rreqs w → w_rreq_queue w' = w_rreq_queue w → knows w id dst → knows w' id dst.
Proof. unfold knows. by intros -> ->. Qed.

Lemma pk_address_u32 w a p : world_ok w → w_pkts w !! a = Some p → is_u32 (aodv_pkt_get_address p).
Proof. intros. apply htonl_range. Qed.

(** Answering or forwarding, once the reverse route is there. *)
Lemma answer_or_forward_spec w pkt p bs r route :
  world_ok w → carries_rreq w pkt p bs r → usable w route →
  rwp stable (answered ← aodv_answer_to_rreq pkt (aodv_pkt_get_address p) route;
              ttl ← aodv_pkt_get_ttl pkt;
              when ((answered =? 0) && (1 <? ttl)) (forward_rreq pkt (rq_dest_ip_addr r)))
    (λ _ w', hops_same w w' ∧ (∃ k, sent (w_trace w') = sent (w_trace w) ++
        (if rq_dest_ip_addr r =? md_ip_addr (w_data w)
         then [answer_event (env_sendto k) (w_data w) r (aodv_pkt_get_address p)]
         else if negb (answers w r) && (1 <? pk_ttl p)
              then [forward_event (env_sendto k) (w_data w) p bs r] else [])) ∧
      (∃ p', w_pkts w' = <[pkt := p']> (w_pkts w)) ∧
      w_rreqs w' = w_rreqs w ∧ w_rreq_queue w' = w_rreq_queue w) w.
Proof.
  intros Hw Hc [Hlive _]. pose proof Hc as (Ha & _).
  assert (rreq_pkt w pkt r) as Hr by by exists p, bs.
  assert (is_u32 (aodv_pkt_get_address p)) as Hprev by by eapply pk_address_u32.
  destruct (rreq_words _ (rreq_pkt_ok _ _ _ Hw Hr)) as (_ & Hd & _).
  assert (w_pkts w = <[pkt := p]> (w_pkts w)) as Hins by by rewrite insert_id.
  destruct (Z.eqb_spec (rq_dest_ip_addr r) (md_ip_addr (w_data w))) as [Heq|Hne].
  - rwp_then aodv_answer_as_destination_spec; [done..|].
    intros ? w1 Hw1 _ (-> & [H1 H2 [k H3] H4 H5 (H6 & H7 & _)]).
    rwp_read by (apply get_pkt_eq; by rewrite H1). simpl. rwp_return.
    rewrite H1, H3, H4, H5. split_and!; [|exists k; by rewrite sent_app|by exists p|done|done].
    split; [done|]. intros a _. unfold hop_kept. by rewrite H6.
  - rwp_then aodv_answer_as_intermediate_spec; [done..|].
    intros ? w1 Hw1 Hq1 (-> & Hp1 & Hsm1).
    rwp_read by (apply get_pkt_eq; by rewrite Hp1).
    destruct Hq1 as [Hst1 Hs1 Hd1 Hr1 Hq1].
    apply rwp_when; [apply _|done| |].
    + intros Hb. rwp_last forward_rreq_spec; [done| |done|].
      { unfold carries_rreq. rewrite Hp1. exact Hc. }
      intros [] w2 _ _ ((k & Ht2) & (p' & Hp2) & Hr2 & Hq2 & Hsm2). rewrite Hr2, Hq2, Hr1, Hq1.
      split_and!; [by etrans| |exists p'; by rewrite Hp2, Hp1|done|done].
      exists k. rewrite Ht2, sent_app, Hs1, Hd1. destruct (answers w r); [done|]. simpl in Hb. by rewrite Hb.
    + intros Hb. rewrite Hs1, Hr1, Hq1, Hp1. split_and!; [done|exists 0%nat|by exists p|done|done].
      destruct (answers w r); simpl in *; [by rewrite app_nil_r|].
      by rewrite Hb, app_nil_r.
Qed.

(** The table and the routes are the same. *)
Definition same_table (w w' : world) : Prop := w_table w' = w_table w ∧ w_routes w' = w_routes w.
Lemma same_table_lookup w w' ip : same_table w w' → table_lookup w' ip = table_lookup w ip.
Proof. intros [Ht Hr]. apply table_lookup_ext; [done|by rewrite Hr]. Qed.

(** After the routes to the previous hop and to the originator. *)
Lemma considers_after w w1 w3 w4 prev_hop r (r' := set_rq_hop_count (u8 (rq_hop_count r + 1)) r) :
  world_ok w → world_ok w1 → world_ok w3 → world_ok w4 →
  learns prev_hop w w1 → same_table w1 w3 → learns (rq_orig_ip_addr r) w3 w4 →
  w_data w4 = w_data w → considers prev_hop r w (answers w4 r').
Proof.
  intros Hw Hw1 Hw3 Hw4 Hq1 Hs Hq4 Hd.
  assert (answers w4 r' = if table_lookup w4 (rq_dest_ip_addr r) is Some _ then may_answer (w_data w) r else false) as ->.
  { unfold answers, may_answer. by rewrite Hd. }
  split.
  - intros [x Hx]. apply (stable_lookup w w1) in Hx; [|done|done|by from_quiet; apply Hq1].
    rewrite <-(same_table_lookup w1 w3) in Hx by done.
    apply (stable_lookup w3 w4) in Hx; [|done|done|by from_quiet; apply Hq4]. by rewrite Hx.
  - intros Hn Hne1 Hne2. rewrite (learns_lookup _ w3 w4 _ Hw3 Hw4 Hq4), (same_table_lookup w1 w3) by done.
    by rewrite (learns_lookup _ w w1 _ Hw Hw1 Hq1), Hn.
Qed.

Lemma learned_after w w1 w3 w4 prev_hop orig a r :
  world_ok w → world_ok w1 → world_ok w3 → world_ok w4 →
  learns prev_hop w w1 → same_table w1 w3 → learns orig w3 w4 →
  (kernel_accepts → table_lookup w4 orig = Some a) → route_at w4 a r → rt_next_hop r = prev_hop →
  rreq_learned prev_hop orig w w4.
Proof.
  intros Hw Hw1 Hw3 Hw4 Hq1 Hs Hq4 Hk [Hr _] Hn. split.
  - intros Hk'. rewrite (hop_to_lookup _ _ _ (Hk Hk')), Hr. simpl. by rewrite Hn.
  - intros ip Hne1 Hne2. rewrite (learns_lookup _ w3 w4 _ Hw3 Hw4 Hq4), (same_table_lookup w1 w3) by done.
    by apply (learns_lookup prev_hop).
Qed.

Lemma hops_same_lookup w w' ip :
  stable w w' → hops_same w w' → table_lookup w' ip = table_lookup w ip.
Proof. intros Hst [Ht _]. apply table_lookup_ext; [done|]. intros a Ha. by apply Hst. Qed.

Lemma hops_same_hop_to w w' ip :
  world_ok w → stable w w' → hops_same w w' → hop_to w' ip = hop_to w ip.
Proof.
  intros Hw Hst Hs. apply hop_to_kept; [done|by apply hops_same_lookup|]. intros a Ha _. by apply Hs.
Qed.

Lemma learned_same w w4 w5 prev_hop orig :
  world_ok w4 → stable w4 w5 → hops_same w4 w5 → rreq_learned prev_hop orig w w4 →
  rreq_learned prev_hop orig w w5.
Proof.
  intros Hw4 Hst Hs [Hb Hl]. split.
  - intros Hk. rewrite (hops_same_hop_to w4) by done. by apply Hb.
  - intros ip ??. rewrite (hops_same_lookup w4) by done. by apply Hl.
Qed.

Lemma aodv_process_rreq_spec w pkt p bs r :
  world_ok w → carries_rreq w pkt p bs r →
  rwp stable (aodv_process_rreq pkt) (λ _ w', rreq_processed p bs r w w' ∧
    ∃ p', w_pkts w' = <[pkt := p']> (w_pkts w)) w.
Proof.
  intros Hw Hc. pose proof Hc as (Ha & _).
  assert (is_u32 (aodv_pkt_get_address p)) as Hprev by by eapply pk_address_u32.
  assert (rreq_ok r) as Hrok by by eapply carries_rreq_ok.
  destruct (rreq_words _ Hrok) as (Hi & Hd & _ & Ho & Hs).
  unfold aodv_process_rreq, rreq_processed. rwp_read by (apply get_pkt_eq; exact Ha).
  rwp_then route_to_previous_hop_spec; [done|done|]. intros a1 w1 Hw1 Hq1 _.
  pose proof (le_quiet _ _ _ Hq1) as Hqu.
  pose proof (carries_rreq_quiet _ _ _ _ _ _ Hqu Hc) as Hc1.
  rwp_read by (apply read_rreq_msg_eq; by exists p, bs).
  rwp_read by (by apply rreq_fifo_contains_eq).
  destruct Hqu as [[Hst1 Hs1 Hd1 Hr1 Hqu1] Hp1].
  rewrite (remembers_quiet w w1) by done.
  destruct (remembers _ _ _) eqn:Hrem.
  { rwp_return. rewrite Hs1, Hp1. split_and!; [|done|done|by exists p; rewrite insert_id].
    by apply (knows_same w w1), remembers_knows. }
  rwp_then rreq_fifo_push_spec; [done..|].
  intros [] w2 Hw2 Hst2 [Hr2 Hqu2 Hp2 Hd2 Ht2 Hro2 Htb2 _ _].
  assert (carries_rreq w2 pkt p bs r) as Hc2 by (unfold carries_rreq; by rewrite Hp2).
  eapply rwp_bind_upd_rreq; [apply _..|done|exact Hc2| |done|].
  { destruct Hrok. split; simpl; try done. apply u8_range. }
  set (r' := set_rq_hop_count (u8 (rq_hop_count r + 1)) r).
  intros w3 Hw3 Heq3 Hc3.
  rwp_then (reverse_route_spec w3 (rq_orig_ip_addr r) (rq_orig_seq_num r) (rq_hop_count r)
    (aodv_pkt_get_address p)); [done|done|done|apply Hrok|done|].
  intros a4 w4 Hw4 Hq4 ((r4 & Hat4 & Hback) & Hk4).
  assert (w_data w4 = w_data w) as Hd4
    by (rewrite (hu_data _ _ (qu_hushed _ _ (le_quiet _ _ _ Hq4))), Heq3; simpl; congruence).
  assert (same_table w1 w3) as Hs13 by by rewrite Heq3.
  pose proof (considers_after _ _ _ w4 _ r Hw Hw1 Hw3 Hw4 Hq1 Hs13 Hq4 Hd4) as Hco.
  pose proof (carries_rreq_quiet _ _ _ _ _ _ (le_quiet _ _ _ Hq4) Hc3) as Hc4.
  pose proof (learned_after _ _ _ _ _ _ a4 r4 Hw Hw1 Hw3 Hw4 Hq1 Hs13 Hq4 Hk4 Hat4
    (rv_next_hop _ _ _ _ _ _ Hback)) as Hle4.
  destruct Hq4 as [[[_ Hs4 _ Hr4 Hqu4] Hp4] _ _].
  pose proof (answer_or_forward_spec w4 pkt _ _ r' a4 Hw4 Hc4 (route_at_usable _ _ _ Hat4)) as Hlast.
  rwp_last Hlast.
  intros [] w5 Hw5 Hst5 (Hsm5 & (k & Hs5) & (p' & Hp5) & Hr5 & Hqu5). split; [split|].
  - apply (knows_same w2); [by rewrite Hr5, Hr4, Heq3|by rewrite Hqu5, Hqu4, Heq3|].
    exists (w_brk w1), (RreqFifo (rq_rreq_id r) (rq_dest_ip_addr r) (-1)).
    rewrite Hqu2, Hr2, lookup_insert_eq. split_and!; [left|done..].
  - exists k, (answers w4 r'). split; [|split; [exact Hco|eapply learned_same; [exact Hw4|exact Hst5|exact Hsm5|exact Hle4]]].
    rewrite Hs5, Hs4, Hd4, Heq3. cbn [set_w_pkts w_trace]. by rewrite Ht2, Hs1.
  - exists p'. rewrite Hp5, Hp4, Heq3. cbn [set_w_pkts w_pkts].
    by rewrite insert_insert_eq, Hp2, Hp1.
Qed.

(** ** Processing a RREP *)

(** The forward route of a RREP: the one of the table, or a new one through the
    previous hop. *)
Lemma forward_route_spec w dest prev_hop seq :
  world_ok w → is_u32 dest → is_u32 prev_hop → is_u32 seq →
  rwp (learns dest) (forward_route dest prev_hop seq) (λ res w', (∃ r, route_at w' res.1 r ∧
      rt_dst_ip r = dest) ∧ res.2 = bool_decide (table_lookup w dest = None) ∧
    (∀ a, table_lookup w dest = Some a → res.1 = a ∧ w_routes w' !! a = w_routes w !! a) ∧
    (kernel_accepts → table_lookup w' dest = Some res.1 ∧
       if res.2 then w_packets w' = filter (λ e, ¬ pf_dest e = dest) (w_packets w) ∧ released dest w w' ∧
         kernel_via w' dest prev_hop
       else w_packets w' = w_packets w) ∧
    (is_Some (table_lookup w dest) → w_packets w' = w_packets w)) w.
Proof.
  intros Hw Hd Hp Hs. unfold forward_route.
  apply rwp_bind_find; [apply _..|done|done|]. intros Hw1.
  pose proof (with_find_ip_inward dest w Hw) as Hi1.
  destruct (table_lookup w dest) as [a|] eqn:Ha.
  - destruct (lookup_route_at _ _ _ Hw Ha) as (r & _ & Hdst & Hat). rwp_return.
    split_and!; [by exists r|done| | |done].
    + intros ? [= <-]. split; [done|]. apply with_find_ip_other. by destruct Hat.
    + intros _. split; [|done]. by rewrite with_find_ip_lookup.
  - apply rwp_bind_alloc_route; [apply _..|done|]. intros a w2 Hw2 Hl2 Hat2.
    eapply rwp_bind_upd_at; [apply _..|done|done|by apply dst_ip_step|]. intros w3 Hw3 Hi3 Hat3.
    eapply (rwp_bind_next_hop_at dest); [apply _..|done|done|done|done|]. intros w4 Hw4 Hl4 Hat4.
    eapply rwp_bind_upd_at; [apply _..|done|done|apply dest_seq_num_step; [done|at_ok]|].
    intros w5 Hw5 Hi5 Hat5.
    eapply rwp_bind_upd_at; [apply _..|done|done|apply set_flag_step; [done|at_ok]|]. intros w6 Hw6 Hi6 Hat6.
    rwp_then routing_table_add_at; [done|done|done|done|]. intros ret w7 Hw7 _ (Hpost & Hkern & r7 & Hat7 & Hpath).
    rwp_return. split_and!; [|done|done| |by intros []].
    + exists r7. split; [done|]. by rewrite (sp_dst_ip _ _ Hpath).
    + intros Hk. assert (local dest w w6) as Hl by by_steps.
      apply (add_post_new a dest w6 ret) in Hpost as (? & Hpk & Hrel & Hret); [|done|].
      * unfold released in Hrel. rewrite (lo_packets _ _ _ Hl) in Hpk, Hrel. split; [done|].
        split; [done|]. split; [done|]. by apply (kernel_has_via _ _ (Hkern Hret)).
      * rewrite <-Ha. by apply (local_lookup dest).
Qed.

(** The RREP a node passes on towards [hop]. *)
Definition forward_rrep_event (numbytes : Z) (p : aodv_pkt) (bs : bytes) (r : aodv_rrep) (hop : Z) : event :=
  EvSend numbytes (htonl hop) (pk_port p) (u8 (pk_ttl p - 1))
    (Some (bytes_of_rrep (aodv_pkt_prepare_rrep r) ++ drop 20 bs)).

Lemma refresh_next_hop_spec w route now :
  world_ok w → (∀ a, route = Some a → usable w a) →
  rwp inward (match route with
    | Some r =>
        lifetime ← msh_route_get_lifetime r;
        let timeout := u32 (get_alarm_time (tv_sec now) (tv_usec now) + ACTIVE_ROUTE_TIMEOUT) in
        when (lifetime <? timeout) (msh_route_set_lifetime r lifetime)
    | None => mret tt
    end) (λ _ _, True) w.
Proof.
  intros Hw Hroute. destruct route as [a|]; [|by rwp_return].
  destruct (Hroute a eq_refl) as [Hlive Hne].
  rwp_then get_lifetime_spec; [done|done|]. intros left w1 Hw1 Hi1 _.
  apply rwp_when; [apply _|done| |done]. intros _.
  eapply rwp_mono; [apply set_lifetime_spec; [done|]|done]. by eapply usable_inward.
Qed.

Lemma forward_rrep_spec w pkt p bs r now to_dest to_prev :
  world_ok w → carries_rrep w pkt p bs r → usable w to_dest → usable w to_prev →
  rwp stable (forward_rrep pkt r now to_dest to_prev) (λ _ w',
    (∃ k, sent (w_trace w') = sent (w_trace w) ++
      from_option (λ hop, [forward_rrep_event (env_sendto k) p bs r hop]) [] (hop_to w (rp_orig_ip_addr r))) ∧
    ∃ p', w_pkts w' = <[pkt := p']> (w_pkts w)) w.
Proof.
  intros Hw (Ha & Hp & Hr & Ht) Hud Hup. pose proof (world_pkt_ok _ _ _ Hw Ha) as Hpk.
  assert (rrep_ok r) as Hrok by (eapply rrep_pkt_ok; [done|by exists p, bs]).
  destruct (rrep_words _ Hrok) as (_ & _ & Ho & _).
  unfold forward_rrep, hop_to, route_to.
  apply rwp_bind_find; [apply _..|done|done|]. intros Hw1.
  destruct (table_lookup w (rp_orig_ip_addr r)) as [a|] eqn:Hl; simpl.
  2: { rwp_return. split; [exists 0%nat; by rewrite app_nil_r|]. exists p. by rewrite insert_id. }
  destruct (lookup_route_at _ _ _ Hw Hl) as (ra & Hra & _ & Hat).
  rewrite Hra. simpl. pose proof (with_find_ip_inward (rp_orig_ip_addr r) w Hw) as Hi1.
  apply (usable_inward w _ to_dest Hi1) in Hud. apply (usable_inward w _ to_prev Hi1) in Hup.
  assert (is_u32 (rt_next_hop ra)) as Hhop by by apply (next_hop_u32 w a).
  rwp_state w1. rwp_read by (apply get_eq; apply Hat).
  eapply rwp_bind_upd_pkt; [apply _..|done|exact Ha|by apply set_address_ok|]. intros Hw2. rwp_state w2.
  eapply rwp_bind_upd_pkt; [apply _..|done|apply lookup_insert_eq|by apply decrease_ttl_ok, set_address_ok|].
  intros Hw3. rwp_state w3.
  eapply (rwp_bind_upd_rrep stable _ w3 pkt _ bs r); [done|split_and!; [apply lookup_insert_eq|done..]|by apply prepare_rrep_ok|done|].
  intros w4 Hw4 Heq4 (Ha4 & Hp4 & _).
  rwp_then aodv_pkt_send_spec; [done|exact Ha4|exact Hp4|by apply whole_rrep|].
  intros n w5 Hw5 Hst5 [Hp5 [k Ht5] _ _ _ (Hr5 & _)].
  assert (stable w1 w5) as Hst15.
  { etrans; [|exact Hst5]. subst w4. split; [split|..]; done. }
  apply (usable_quiet w1 w5 to_dest Hst15) in Hud. apply (usable_quiet w1 w5 to_prev Hst15) in Hup.
  eapply (rwp_bind _ inward _ _ (λ _ _, True)); [|apply _|].
  { apply rwp_when; [apply _|done| |done]. intros _.
    destruct (usable_route_at _ _ Hud) as (rd & Hatd).
    eapply rwp_mono; [apply (upd_at_spec w5 to_dest rd); [done|done|apply add_precursor_step; at_ok]|done]. }
  intros [] w6 Hw6 Hi6 _. apply (usable_inward w5 w6 to_prev Hi6) in Hup.
  apply rwp_bind_find; [apply _..|done|done|]. intros Hw7.
  pose proof (with_find_ip_inward (rt_next_hop ra) w6 Hw6) as Hi7.
  apply (usable_inward w6 _ to_prev Hi7) in Hup.
  rwp_then refresh_next_hop_spec; [done| |].
  { intros b Hb. eapply usable_inward; [by apply with_find_ip_inward|by eapply table_lookup_usable]. }
  intros [] w8 Hw8 Hi8 _. apply (usable_inward _ w8 to_prev Hi8) in Hup.
  destruct (usable_route_at _ _ Hup) as (rp & Hatp).
  rwp_last (upd_at_spec w8 to_prev rp); [done|done|apply add_precursor_step; at_ok|].
  intros [] w9 _ Hi9 _.
  assert (inward w5 w9) as Hi by (etrans; [exact Hi6|]; etrans; [exact Hi7|]; by etrans).
  destruct Hi as [[_ Hpk9] _ _ Ht9]. rewrite Ht9, Hpk9, Ht5, Hp5. subst w4. split.
  - exists k. by rewrite sent_app.
  - eexists. simpl. by rewrite !insert_insert_eq.
Qed.

(** A RREP is passed on at most once, and never by the node that asked for it. *)
Definition rrep_processed (p : aodv_pkt) (bs : bytes) (r : aodv_rrep) (w w' : world) : Prop :=
  let r' := set_rp_hop_count (u8 (rp_hop_count r + 1)) r in
  sent (w_trace w') = sent (w_trace w) ∨
  (rp_orig_ip_addr r ≠ md_ip_addr (w_data w) ∧ ∃ k hop, sent (w_trace w') =
     sent (w_trace w) ++ [forward_rrep_event (env_sendto k) p (bytes_of_rrep r' ++ drop 20 bs) r' hop]).

(** The update of the forward route. *)
Lemma rwp_bind_rrep_update {B} w a r (rrep : aodv_rrep) prev_hop (k : timeval → M world B) Q :
  world_ok w → route_at w a r → rrep_ok rrep → is_u32 prev_hop →
  (∀ now w' r', world_ok w' → local (rt_dst_ip r) w w' → route_at w' a r' →
     reverse_path (rt_dst_ip r) (rp_dest_seq_num rrep) (rp_hop_count rrep) prev_hop None r' →
     has_flag (rt_flags r') RTFLAG_VALID_ENTRY = true → rwp balanced (k now) Q w') →
  rwp balanced (
    msh_route_set_dest_seq_num a (rp_dest_seq_num rrep);;
    msh_route_set_flag a RTFLAG_VALID_DEST_SEQ_NUM;;
    msh_route_set_next_hop a prev_hop;;
    msh_route_set_hop_count a (rp_hop_count rrep);;
    now ← gettimeofday;
    let lifetime := u32 (get_alarm_time (tv_sec now) (tv_usec now) + rp_lifetime rrep) in
    msh_route_set_lifetime a lifetime;;
    k now) Q w.
Proof.
  intros Hw Hat Hr Hp Hk. destruct (rrep_words _ Hr) as (_ & Hs & _).
  eapply rwp_bind_upd_at; [apply _..|done|done|apply dest_seq_num_step; [done|at_ok]|].
  intros w1 Hw1 Hi1 Hat1.
  eapply rwp_bind_upd_at; [apply _..|done|done|apply set_flag_step; [done|at_ok]|]. intros w2 Hw2 Hi2 Hat2.
  eapply (rwp_bind_next_hop_at (rt_dst_ip r)); [apply _..|done|done|done|done|]. intros w3 Hw3 Hq3 Hat3.
  eapply rwp_bind_upd_at; [apply _..|done|done|apply hop_count_step; [apply Hr|at_ok]|].
  intros w4 Hw4 Hi4 Hat4.
  eapply rwp_bind_step; [apply _|done|by apply tick_world_ok|by from_inward; apply tick_inward|].
  set (w5 := set_w_tick _ w4). set (now := env_now _).
  assert (world_ok w5) as Hw5 by by apply tick_world_ok.
  assert (inward w4 w5) as Hi5 by apply tick_inward.
  rwp_then (set_lifetime_at_spec w5 a); [done|by destruct Hat4; split|].
  intros [] w6 Hw6 Hi6 (r6 & Hat6 & Hpath & _ & Hv). apply (Hk now w6 r6); [done| |done| |done].
  - by_steps.
  - eapply reverse_path_same; [|exact Hpath]. split; simpl; try done. by rewrite !has_flag_lor, orb_true_r.
Qed.

(** The answer to a discovery of this node: when the kernel takes the route, the table
    has a valid route to the destination, through the neighbour the RREP came from and
    one hop longer than the RREP says, no packet waits for it any more, and the kernel has
    the route, too. *)
Record route_learned (dest prev_hop hop seq : Z) (w w' : world) : Prop := {
  rl_route : ∃ r, route_to w' dest = Some r ∧ reverse_path dest seq hop prev_hop None r ∧
    has_flag (rt_flags r) RTFLAG_VALID_ENTRY = true;
  rl_packets e : e ∈ w_packets w' → pf_dest e ≠ dest;
  rl_released : released dest w w';
  rl_kernel : kernel_via w' dest prev_hop }.

(** The packets that wait for a route to [d]. *)
Definition waiting_for (d : Z) (w : world) : list packets_fifo :=
  filter (λ e, pf_dest e = d) (w_packets w).

(** The answer when the table still has a route to the destination, be it an expired one:
    [routing_table_add] is not called, so that the packets go on waiting and the kernel goes
    on as before, whatever next hop the route may get. *)
Record route_renewed (dest : Z) (w w' : world) : Prop := {
  rn_waiting : waiting_for dest w' = waiting_for dest w;
  rn_kernel h : kernel_via w dest h → kernel_via w' dest h }.

Definition discovery_answered (p : aodv_pkt) (r : aodv_rrep) (w w' : world) : Prop :=
  rp_orig_ip_addr r = md_ip_addr (w_data w) →
  if table_lookup w (rp_dest_ip_addr r)
  then route_renewed (rp_dest_ip_addr r) w w'
  else kernel_accepts → route_learned (rp_dest_ip_addr r) (aodv_pkt_get_address p)
         (u8 (rp_hop_count r + 1)) (rp_dest_seq_num r) w w'.

Lemma route_learned_same dest prev_hop hop seq w0 w w' :
  w_table w' = w_table w → w_routes w' = w_routes w → w_packets w' = w_packets w →
  w_trace w' = w_trace w →
  route_learned dest prev_hop hop seq w0 w → route_learned dest prev_hop hop seq w0 w'.
Proof.
  intros Ht Hr Hp Htr [(r & Hrt & Hpath) Hpk Hrel Hkern]. split; [|by rewrite Hp| |by eapply kernel_via_same].
  - exists r. split; [|done]. revert Hrt. unfold route_to.
    rewrite (table_lookup_ext w w') by (done || by rewrite Hr). by rewrite Hr.
  - intros e. rewrite Htr. apply Hrel.
Qed.

(** What was released stays so. *)
Lemma released_log d w w1 w2 : logs (w_trace w1) (w_trace w2) → released d w w1 → released d w w2.
Proof. intros Hl Hr e He Hd. by eapply logs_elem, Hr. Qed.

(** A RREP about an unknown destination that is not for this node, and whose originator
    is known here, is passed on to the neighbour the originator is behind, and this
    node's kernel has the route to the destination. *)
Definition rrep_relayed (p : aodv_pkt) (bs : bytes) (r : aodv_rrep) (w w' : world) : Prop :=
  let r' := set_rp_hop_count (u8 (rp_hop_count r + 1)) r in
  kernel_accepts → table_lookup w (rp_dest_ip_addr r) = None →
  rp_orig_ip_addr r ≠ md_ip_addr (w_data w) → rp_orig_ip_addr r ≠ rp_dest_ip_addr r →
  rp_orig_ip_addr r ≠ aodv_pkt_get_address p →
  (∃ k, sent (w_trace w') = sent (w_trace w) ++
    from_option (λ hop, [forward_rrep_event (env_sendto k) p (bytes_of_rrep r' ++ drop 20 bs) r' hop]) []
      (hop_to w (rp_orig_ip_addr r))) ∧
  kernel_via w' (rp_dest_ip_addr r) (aodv_pkt_get_address p).

(** The forward route to a destination that was unknown before the RREP: it is in the
    table, the packets for it are released, and the RREP may update it, be it the route
    to the previous hop or another one. *)
Lemma forward_route_updates w prev_hop a1 w1 w2 dest a3 (created : bool) w3 r rrep :
  world_ok w → world_ok w1 → kernel_accepts → table_lookup w dest = None →
  learns prev_hop w w1 → table_lookup w1 prev_hop = Some a1 → first_heard w prev_hop a1 w1 →
  same_table w1 w2 → w_packets w2 = w_packets w1 → world_ok w3 → stable w1 w3 →
  created = bool_decide (table_lookup w2 dest = None) →
  (∀ a, table_lookup w2 dest = Some a → a3 = a ∧ w_routes w3 !! a = w_routes w2 !! a) →
  (if created then w_packets w3 = filter (λ e, ¬ pf_dest e = dest) (w_packets w2) ∧ released dest w2 w3 ∧
     kernel_via w3 dest prev_hop
   else w_packets w3 = w_packets w2) →
  w_routes w3 !! a3 = Some r →
  rrep_updates created r rrep = true ∧ (∀ e, e ∈ w_packets w3 → pf_dest e ≠ dest) ∧ released dest w w3 ∧
  kernel_via w3 dest prev_hop.
Proof.
  intros Hw Hw1 Hk Hn Hq1 Hl1 Hf Hs Hp2 Hw3 Hst -> Hfound Hp3 Hr. unfold rrep_updates.
  destruct (decide (dest = prev_hop)) as [->|Hne].
  - rewrite (same_table_lookup w1 w2) in * by done. rewrite Hl1 in *.
    destruct (Hfound a1 eq_refl) as [-> Hr3]. destruct (Hf Hn) as [(r1 & Hr1 & Hflag) Hpk].
    destruct (Hpk Hk) as (Hpk1 & Hrel & Hkern).
    destruct Hs as [_ Hs]. assert (r1 = r) as -> by congruence. rewrite Hflag. simpl. split; [done|].
    split_and!; [|eapply released_log; [apply Hst|done]|by apply (kernel_via_stable w1)].
    intros e. simpl in Hp3. rewrite Hp3, Hp2, Hpk1 by done. by intros [? _]%list_elem_of_filter.
  - revert Hp3. assert (table_lookup w2 dest = None) as ->
      by (rewrite (same_table_lookup w1 w2) by done; by rewrite (learns_lookup _ w w1 _ Hw Hw1 Hq1)).
    simpl. intros (Hp3 & Hrel & Hkern). split; [done|]. split_and!; [| |done].
    + intros e. rewrite Hp3. by intros [? _]%list_elem_of_filter.
    + intros e He Hd. apply Hrel; [|done]. rewrite Hp2.
      assert (e ∈ filter (λ e, pf_dest e ≠ prev_hop) (w_packets w1)) as Hin
        by (rewrite (le_packets _ _ _ Hq1); apply list_elem_of_filter; split; [congruence|done]).
      by apply list_elem_of_filter in Hin as [_ ?].
Qed.

(** What a RREP does that may update the forward route [to_dest]. *)
Lemma rrep_accepted_spec w pkt p bs rrep to_dest to_prev rd prev_hop :
  world_ok w → carries_rrep w pkt p bs rrep → route_at w to_dest rd → usable w to_prev → is_u32 prev_hop →
  rwp balanced (
    msh_route_set_dest_seq_num to_dest (rp_dest_seq_num rrep);;
    msh_route_set_flag to_dest RTFLAG_VALID_DEST_SEQ_NUM;;
    msh_route_set_next_hop to_dest prev_hop;;
    msh_route_set_hop_count to_dest (rp_hop_count rrep);;
    now ← gettimeofday;
    let lifetime := u32 (get_alarm_time (tv_sec now) (tv_usec now) + rp_lifetime rrep) in
    msh_route_set_lifetime to_dest lifetime;;
    ip_addr ← data md_ip_addr;
    if ip_addr =? rp_orig_ip_addr rrep then
      rreq_id ← data md_rreq_id;
      rreq_fifo_del rreq_id (rp_dest_ip_addr rrep)
    else forward_rrep pkt rrep now to_dest to_prev) (λ _ w',
    (∃ k to, sent (w_trace w') = sent (w_trace w) ++
      (if md_ip_addr (w_data w) =? rp_orig_ip_addr rrep then []
       else from_option (λ hop, [forward_rrep_event (env_sendto k) p bs rrep hop]) [] to) ∧
      (rp_orig_ip_addr rrep ≠ rt_dst_ip rd → to = hop_to w (rp_orig_ip_addr rrep))) ∧
    (rp_orig_ip_addr rrep = md_ip_addr (w_data w) → table_lookup w (rt_dst_ip rd) = Some to_dest →
      (∀ e, e ∈ w_packets w → pf_dest e ≠ rt_dst_ip rd) → kernel_via w (rt_dst_ip rd) prev_hop →
      ∀ w0, released (rt_dst_ip rd) w0 w →
      route_learned (rt_dst_ip rd) prev_hop (rp_hop_count rrep) (rp_dest_seq_num rrep) w0 w') ∧
    (∀ h, kernel_via w (rt_dst_ip rd) h → kernel_via w' (rt_dst_ip rd) h) ∧
    (rp_orig_ip_addr rrep = md_ip_addr (w_data w) → w_packets w' = w_packets w) ∧
    ∃ p', w_pkts w' = <[pkt := p']> (w_pkts w)) w.
Proof.
  intros Hw Hc Hat Hup Hprev.
  apply (rwp_bind_rrep_update w to_dest rd rrep prev_hop); [done|done|by eapply carries_rrep_ok|done|].
  intros now w1 rd1 Hw1 Hl1 Hat1 Hpath1 Hv1. pose proof (lo_quiet _ _ _ Hl1) as Hq1.
  pose proof (carries_rrep_quiet _ _ _ _ _ _ Hq1 Hc) as Hc1.
  assert (usable w1 to_prev) as Hup1 by (eapply usable_quiet; [|done]; by from_quiet).
  assert (∀ h, kernel_via w (rt_dst_ip rd) h → kernel_via w1 (rt_dst_ip rd) h) as Hkern1.
  { intros h Hkern. eapply kernel_via_stable; [exact Hw|done|by from_quiet|done]. }
  assert (table_lookup w (rt_dst_ip rd) = Some to_dest → (∀ e, e ∈ w_packets w → pf_dest e ≠ rt_dst_ip rd) →
    kernel_via w (rt_dst_ip rd) prev_hop → ∀ w0, released (rt_dst_ip rd) w0 w →
    route_learned (rt_dst_ip rd) prev_hop (rp_hop_count rrep) (rp_dest_seq_num rrep) w0 w1) as Hlearn.
  { intros Hl Hpk Hkern w0 Hrel. split; [|by rewrite (lo_packets _ _ _ Hl1)| |].
    3: { by apply Hkern1. }
    2: { eapply released_log; [|exact Hrel]. apply (bl_log w w1). by from_quiet. }
    exists rd1. split; [|done].
    unfold route_to. by rewrite (local_lookup _ w w1 _ Hw Hw1 Hl1), Hl; simpl; rewrite (ra_route _ _ _ Hat1). }
  destruct Hq1 as [[_ Hs1 Hd1 _ _] Hp1].
  rwp_read by reflexivity. rewrite Hd1.
  destruct (Z.eqb_spec (md_ip_addr (w_data w)) (rp_orig_ip_addr rrep)) as [Heq|Hne].
  - rwp_read by reflexivity.
    rwp_last rreq_fifo_del_spec; [done|]. intros [] w2 _ _ ->. split_and!.
    + exists 0%nat, (hop_to w (rp_orig_ip_addr rrep)). rewrite app_nil_r. split; [|done].
      destruct (find_rreq _ _); cbn [without_rreq set_w_alarms set_w_rreqs set_w_rreq_queue w_trace]; congruence.
    + intros _ Hl Hpk Hkern w0 Hrel. eapply (route_learned_same _ _ _ _ w0 w1); [by destruct (find_rreq _ _)..|by apply Hlearn].
    + intros h Hkern. eapply (kernel_via_same w1); [by destruct (find_rreq _ _)..|by apply Hkern1].
    + intros _. transitivity (w_packets w1); [by destruct (find_rreq _ _)|apply Hl1].
    + exists p. destruct (find_rreq _ _); cbn [without_rreq set_w_alarms set_w_rreqs set_w_rreq_queue w_pkts];
        rewrite Hp1, insert_id; [done|apply Hc|done|apply Hc].
  - rwp_last (forward_rrep_spec w1 pkt _ _ rrep now to_dest to_prev);
      [done|exact Hc1|by eapply route_at_usable|done|].
    intros [] w2 Hw2 Hst2 ((k & Hs2) & p2 & Hp2). split_and!.
    + exists k, (hop_to w1 (rp_orig_ip_addr rrep)). rewrite Hs2, Hs1. split; [done|]. intros Hne'.
      by apply (local_hop_to (rt_dst_ip rd)).
    + by intros Heq; destruct Hne.
    + intros h Hkern. by apply (kernel_via_stable w1), Hkern1.
    + by intros Heq; destruct Hne.
    + exists p2. by rewrite Hp2, Hp1.
Qed.

(** Two quiet parts of a handler with a change to the message between them. *)
Lemma rewritten_between w w1 w2 w3 pkt q :
  quiet w w1 → w2 = set_w_pkts (<[pkt := q]> (w_pkts w1)) w1 → quiet w2 w3 →
  sent (w_trace w3) = sent (w_trace w) ∧ w_data w3 = w_data w ∧ w_pkts w3 = <[pkt := q]> (w_pkts w) ∧ stable w1 w3.
Proof.
  intros [[_ E1 E2 _ _] E3] Heq Hq. pose proof Hq as [[_ F1 F2 _ _] F3].
  rewrite F1, F2, F3, Heq. simpl. rewrite E1, E2, E3. split_and!; [done..|].
  etrans; [|by from_quiet; exact Hq]. rewrite Heq. by split; [split|..].
Qed.

(** A known destination over the two routes of a RREP. *)
Lemma renewed_between w w1 w2 w3 dest prev_hop a :
  world_ok w → world_ok w1 → world_ok w3 → table_lookup w dest = Some a →
  learns prev_hop w w1 → (is_Some (table_lookup w prev_hop) → w_packets w1 = w_packets w) →
  same_table w1 w2 → w_packets w2 = w_packets w1 → stable w1 w3 →
  (is_Some (table_lookup w2 dest) → w_packets w3 = w_packets w2) → route_renewed dest w w3.
Proof.
  intros Hw Hw1 Hw3 Hl Hle Hpk1 Hs Hp2 Hst Hpk3.
  assert (stable w w1) as Hst1 by by from_quiet; apply Hle.
  pose proof (stable_lookup _ _ _ _ Hw Hw1 Hst1 Hl) as Hl1.
  split.
  - unfold waiting_for. rewrite Hpk3, Hp2 by (rewrite (same_table_lookup w1) by done; by eexists).
    destruct (decide (dest = prev_hop)) as [<-|Hne]; [by rewrite Hpk1 by by eexists|].
    assert (∀ l : list packets_fifo, filter (λ e, pf_dest e = dest) (filter (λ e, pf_dest e ≠ prev_hop) l) =
      filter (λ e, pf_dest e = dest) l) as Hf by (intros l; apply list_filter_filter_l; congruence).
    by rewrite <-(Hf (w_packets w1)), (le_packets _ _ _ Hle), Hf.
  - intros h Hk. apply (kernel_via_stable w1), (kernel_via_stable w); done.
Qed.

Lemma aodv_process_rrep_spec w pkt p bs r :
  world_ok w → carries_rrep w pkt p bs r →
  rwp balanced (aodv_process_rrep pkt) (λ _ w', rrep_processed p bs r w w' ∧
    discovery_answered p r w w' ∧ rrep_relayed p bs r w w' ∧ ∃ p', w_pkts w' = <[pkt := p']> (w_pkts w)) w.
Proof.
  intros Hw Hc. pose proof Hc as (Ha & _).
  assert (is_u32 (aodv_pkt_get_address p)) as Hprev by by eapply pk_address_u32.
  assert (rrep_ok r) as Hrok by by eapply carries_rrep_ok.
  unfold aodv_process_rrep, rrep_processed. rwp_read by (apply get_pkt_eq; exact Ha).
  rwp_then route_to_previous_hop_spec; [done|done|]. intros a1 w1 Hw1 Hle1 (Hu1 & Hl1 & Hf1 & Hpk1).
  pose proof (le_quiet _ _ _ Hle1) as Hq1.
  pose proof (carries_rrep_quiet _ _ _ _ _ _ Hq1 Hc) as Hc1.
  rwp_read by (apply read_rrep_msg_eq; by exists p, bs).
  set (r' := set_rp_hop_count (u8 (rp_hop_count r + 1)) r).
  assert (rrep_ok r') as Hrok' by (destruct Hrok; split; simpl; try done; apply u8_range).
  destruct (rrep_words _ Hrok') as (Hd & Hs & Ho & _).
  eapply rwp_bind_upd_rrep; [apply _..|done|exact Hc1|exact Hrok'|done|].
  intros w2 Hw2 Heq2 Hc2. fold r' in Hc2 |- *.
  rwp_read by (apply read_rrep_msg_eq; eexists _, _; exact Hc2).
  assert (usable w2 a1) as Hu2 by by subst w2.
  rwp_then forward_route_spec; [done..|].
  intros [to_dest created] w3 Hw3 Hle3 ((rd & Hat3 & Hdst3) & Hcr & Hfound & Hnew & Hpk3).
  simpl in Hat3, Hcr, Hfound, Hnew.
  pose proof (le_quiet _ _ _ Hle3) as Hq3.
  pose proof (carries_rrep_quiet _ _ _ _ _ _ Hq3 Hc2) as Hc3.
  assert (usable w3 a1) as Hu3 by (eapply usable_quiet; [|done]; by from_quiet).
  destruct (rewritten_between _ _ _ _ _ _ Hq1 Heq2 Hq3) as (Hs3 & Hd3 & Hp3 & Hst3).
  assert (kernel_accepts → table_lookup w (rp_dest_ip_addr r) = None →
    rrep_updates created rd r' = true ∧ (∀ e, e ∈ w_packets w3 → pf_dest e ≠ rp_dest_ip_addr r) ∧
    released (rp_dest_ip_addr r) w w3 ∧ kernel_via w3 (rp_dest_ip_addr r) (aodv_pkt_get_address p)) as Hupd.
  { intros Hk Hn. eapply (forward_route_updates w _ a1 w1 w2 _ to_dest created w3 rd);
      [done..|by apply Hl1|done|by rewrite Heq2|by rewrite Heq2|done|exact Hst3|done|done|by apply Hnew|apply Hat3]. }
  assert (∀ a, table_lookup w (rp_dest_ip_addr r) = Some a → route_renewed (rp_dest_ip_addr r) w w3) as Hrenew.
  { intros a Hn. apply (renewed_between w w1 w2 w3 _ (aodv_pkt_get_address p) a);
      [done|done|done|exact Hn|exact Hle1|exact Hpk1|by rewrite Heq2|by rewrite Heq2|exact Hst3|exact Hpk3]. }
  rwp_read by (apply read_route_eq; apply Hat3).
  apply rwp_when; [apply _|done| |].
  2: { intros Hb. split_and!; [by left| | |by eauto].
       - intros _. destruct (table_lookup w (rp_dest_ip_addr r)) eqn:Hn; [by eapply Hrenew|].
         intros Hk. destruct (Hupd Hk eq_refl). congruence.
       - intros Hk Hn. destruct (Hupd Hk Hn). congruence. }
  intros _. rwp_last (rrep_accepted_spec w3 pkt _ _ r' to_dest a1 rd (aodv_pkt_get_address p));
    [done|exact Hc3|done|done|done|].
  intros [] w4 _ _ (Hsent & Hlearn & Hkern4 & Hpk4 & p4 & Hp4). rewrite Hd3, Hs3 in Hsent. rewrite Hd3, Hdst3 in Hlearn. rewrite Hdst3 in Hkern4.
  change (rp_orig_ip_addr r') with (rp_orig_ip_addr r) in *. destruct Hsent as (k & to & Hsent & Hto).
  split_and!.
  - rewrite Hsent. destruct (Z.eqb_spec (md_ip_addr (w_data w)) (rp_orig_ip_addr r)); [left; apply app_nil_r|].
    destruct to as [hop|]; [right|left; apply app_nil_r]. split; [by apply not_eq_sym|]. by exists k, hop.
  - intros Ho'. destruct (table_lookup w (rp_dest_ip_addr r)) eqn:Hn.
    + destruct (Hrenew _ eq_refl) as [Hpk Hkern]. split; [|by intros h ?%Hkern; apply Hkern4].
      unfold waiting_for. by rewrite Hpk4 by congruence.
    + intros Hk. destruct (Hupd Hk eq_refl) as (_ & Hpk & Hrel & Hkern). apply Hlearn; [done|by apply Hnew|done..].
  - intros Hk Hn Hne1 Hne2 Hne3. split; [exists k|by apply Hkern4, Hupd]. rewrite Hsent, (proj2 (Z.eqb_neq _ _)) by (by apply not_eq_sym).
    rewrite Hto by (by rewrite Hdst3). f_equal. f_equal. rewrite <-(learns_hop_to _ w w1 _ Hw Hw1 Hle1) by done.
    rewrite (learns_hop_to _ w2 w3 _ Hw2 Hw3 Hle3) by done. by rewrite Heq2.
  - exists p4. by rewrite Hp4, Hp3, insert_insert_eq.
Qed.
End process_specs.
