(* ===== verification/ReceiveSpec.v ===== *)
(** * From a datagram to the protocol

    Reception of a datagram ([aodv_pkt_get]), its check and its dispatch by
    [aodv_process_packet]. *)

From S2P Require Export ProcessSpec.

(** A datagram as [recvmsg] delivers it: [received] bytes, at least one, in a buffer
    that holds them. *)
Record datagram_ok (msg : msghdr) (received : Z) (buf : bytes) (ttl : Z) : Prop := {
  dg_iov : msg_iov msg = Some buf;
  dg_bytes : bytes_ok buf;
  dg_received : 1 ≤ received ≤ Z.of_nat (length buf);
  dg_size : received < 2 ^ 31;
  dg_name a : msg_name msg = Some a → is_u32 (sin_addr a);
  dg_ttl : (if msg_control msg is [] then Some 0 else receive_ttl (msg_control msg)) = Some ttl;
  dg_ttl_range : is_u8 ttl }.

(** The packet that [aodv_pkt_get] builds. *)
Definition pkt_of (msg : msghdr) (received : Z) (buf : bytes) (ttl : Z) : aodv_pkt :=
  AodvPkt (Some (take (Z.to_nat received) buf)) received
    (from_option sin_family 0 (msg_name msg)) (from_option sin_port 0 (msg_name msg))
    (from_option sin_addr 0 (msg_name msg)) ttl.

Lemma pkt_of_ok msg n buf ttl : datagram_ok msg n buf ttl → pkt_ok (pkt_of msg n buf ttl).
Proof.
  intros [H1 H2 H3 H4 H5 H6 H7]. split; simpl; try done.
  - intros bs [= <-]. split; [by apply Forall_take|]. rewrite length_take. lia.
  - lia.
  - destruct (msg_name msg) as [a|]; [by apply (H5 a)|done].
Qed.

Section receive_specs.
Context `{E : Env} {EO : EnvOk E}.
Implicit Types w : world.

(** [w] with the packet [p] at the new address and the counters [s]. *)
Definition pkt_state (p : aodv_pkt) (s : statistics_t) (w : world) : world :=
  set_w_pkts (<[w_brk w := p]> (w_pkts w)) (set_w_stats s (set_w_brk (Pos.succ (w_brk w)) w)).

Lemma wp_upd_pkt_state p s f (Q : unit → world → Prop) w :
  Q tt (pkt_state (f p) s w) → wp (upd_pkt (w_brk w) f) Q (pkt_state p s w).
Proof.
  intros HQ. eapply wp_upd_pkt; [apply lookup_insert_eq|]. unfold pkt_state in *. simpl.
  by rewrite insert_insert_eq.
Qed.

Lemma wp_stat_incr_state p s f (Q : unit → world → Prop) w :
  Q tt (pkt_state p (stats_incr f s) w) → wp (stat_incr f) Q (pkt_state p s w).
Proof. done. Qed.

Lemma aodv_pkt_get_wp msg n buf ttl w (Q : addr → world → Prop) :
  msg_iov msg = Some buf → n ≤ Z.of_nat (length buf) →
  (if msg_control msg is [] then Some 0 else receive_ttl (msg_control msg)) = Some ttl →
  (∀ s, Q (w_brk w) (pkt_state (pkt_of msg n buf ttl) s w)) →
  wp (aodv_pkt_get msg n) Q w.
Proof.
  intros H1 H3 H6 HQ. unfold aodv_pkt_get.
  apply wp_bind. unfold wp at 1, fresh_addr. apply wp_bind, wp_modify.
  change (set_w_pkts _ _) with (pkt_state (AodvPkt None 0 0 0 0 0) (w_stats w) w).
  apply wp_bind.
  apply (wp_mono _ (λ _ w', ∃ s, w' = pkt_state (AodvPkt None 0 (from_option sin_family 0 (msg_name msg))
    (from_option sin_port 0 (msg_name msg)) (from_option sin_addr 0 (msg_name msg)) 0) s w)).
  { destruct (msg_name msg) as [a|]; [apply wp_upd_pkt_state|apply wp_stat_incr_state]; by eexists. }
  intros [] ? (s1 & ->). rewrite H1. apply wp_bind, wp_bind.
  rewrite (proj2 (Z.leb_le _ _)) by lia. apply wp_ret, wp_upd_pkt_state, wp_bind.
  apply (wp_mono _ (λ _ w', ∃ s, w' = pkt_state (pkt_of msg n buf ttl) s w)).
  - unfold pkt_of, aodv_pkt_receive_ttl. destruct (msg_control msg) as [|c l].
    + apply wp_stat_incr_state. injection H6 as <-. by eexists.
    + apply wp_bind. rewrite H6. apply wp_ret, wp_upd_pkt_state. by eexists.
  - intros [] ? (s2 & ->). apply wp_ret, HQ.
Qed.

Lemma pkt_state_ok p s w : world_ok w → pkt_ok p → world_ok (pkt_state p s w).
Proof.
  intros Hw Hp. apply (insert_pkt_ok (set_w_stats s (set_w_brk (Pos.succ (w_brk w)) w))).
  - by apply stats_world_ok, brk_world_ok.
  - simpl. lia.
  - done.
Qed.

(** Nothing changes but packet objects and counters. *)
Record aside (w w' : world) : Prop := {
  as_hushed : hushed w w';
  as_table : w_table w' = w_table w;
  as_packets : w_packets w' = w_packets w;
  as_routes : w_routes w' = w_routes w }.
#[export] Instance aside_preorder : PreOrder aside.
Proof. split; [done|]. intros w1 w2 w3 [] []. split; [by etrans|congruence..]. Qed.
#[export] Instance aside_finer R : Finer hushed R → Finer aside R | 1.
Proof. intros HR w w' []. by apply HR. Qed.

Lemma aside_lookup w w' ip : aside w w' → table_lookup w' ip = table_lookup w ip.
Proof. intros [_ Ht _ Hr]. apply table_lookup_ext; [done|by rewrite Hr]. Qed.

Lemma pkt_state_aside p s w : aside w (pkt_state p s w).
Proof. split; [|done..]. by split; [split; [split|..]|..]. Qed.

(** ** The check *)

(** A RREQ as it is used after the check. *)
Definition valid_rreq (bs : bytes) : option aodv_rreq :=
  if bool_decide (head bs = Some AODV_RREQ) then rreq_ntoh <$> rreq_of_bytes bs else None.
Definition valid_rrep (bs : bytes) : option aodv_rrep :=
  if bool_decide (head bs = Some AODV_RREP) then rrep_ntoh <$> rrep_of_bytes bs else None.

Lemma s8_type b t : is_u8 b → 0 ≤ t < 128 → (s8 b =? t) = (b =? t).
Proof.
  unfold is_u8, s8. intros Hb Ht. destruct (Z.ltb_spec b 128).
  - rewrite Z.mod_small by lia. f_equal. lia.
  - replace ((b + 2 ^ 7) mod 2 ^ 8) with (b - 128).
    { rewrite !(proj2 (Z.eqb_neq _ _)) by lia. done. }
    apply Z.mod_unique with 1; lia.
Qed.

Lemma payload_len_u64 p bs :
  pkt_ok p → pk_payload p = Some bs → u64 (aodv_pkt_get_payload_len p) = Z.of_nat (length bs).
Proof.
  intros [H1 _ H3 _ _] Hbs. destruct (H1 _ Hbs) as [_ Hl]. unfold aodv_pkt_get_payload_len.
  rewrite s32_id, u64_id by lia. done.
Qed.

(** The verdict of the check on a payload: what it accepts and the payload it leaves. *)
Inductive checked (bs : bytes) : Z → bytes → Prop :=
  | checked_rreq r : head bs = Some AODV_RREQ → rreq_of_bytes bs = Some r →
      checked bs 1 (bytes_of_rreq (rreq_ntoh r) ++ drop 24 bs)
  | checked_rrep r : head bs = Some AODV_RREP → rrep_of_bytes bs = Some r →
      checked bs 1 (bytes_of_rrep (rrep_ntoh r) ++ drop 20 bs)
  | checked_other t : head bs = Some t → t ≠ AODV_RREQ → t ≠ AODV_RREP → checked bs 1 bs
  | rejected : valid_rreq bs = None → valid_rrep bs = None → checked bs 0 bs.

Lemma check_payload_spec p bs :
  pkt_ok p → pk_payload p = Some bs → bs ≠ [] →
  ∃ ok bs' st, aodv_pkt_check_payload p bs = Some (ok, bs', st) ∧ checked bs ok bs'.
Proof.
  intros Hp Hbs Hne. pose proof (payload_len_u64 _ _ Hp Hbs) as Hlen.
  destruct (po_payload _ Hp _ Hbs) as [Hok _].
  destruct bs as [|t bs]; [done|]. assert (is_u8 t) as Ht by by apply Forall_cons in Hok as [? _].
  set (bs0 := t :: bs) in *. unfold aodv_pkt_check_payload, aodv_pkt_get_type. rewrite Hlen.
  change (s8 <$> bs0 !! 0%nat) with (Some (s8 t)). cbn [mbind option_bind].
  rewrite !s8_type by (done || unfold AODV_RREQ, AODV_RREP, AODV_RERR, AODV_RREP_ACK; lia).
  unfold valid_rreq, valid_rrep.
  destruct (Z.eqb_spec t AODV_RREQ) as [->|H1].
  { destruct (Z.leb_spec sizeof_rreq (Z.of_nat (length bs0))) as [Hl|Hl]; unfold sizeof_rreq in Hl.
    - destruct (rreq_of_bytes_some bs0 Hl) as [r Hr]. rewrite (update_rreq_eq _ _ _ Hr). simpl.
      eexists _, _, _. split; [done|]. by apply (checked_rreq bs0 r).
    - eexists _, _, _. split; [done|]. apply rejected; [|done]. unfold valid_rreq. simpl.
      destruct (rreq_of_bytes bs0) as [r|] eqn:Hr; [|done]. apply rreq_of_bytes_length in Hr. lia. }
  destruct (Z.eqb_spec t AODV_RREP) as [->|H2].
  { destruct (Z.leb_spec sizeof_rrep (Z.of_nat (length bs0))) as [Hl|Hl]; unfold sizeof_rrep in Hl.
    - destruct (rrep_of_bytes_some bs0 Hl) as [r Hr]. rewrite (update_rrep_eq _ _ _ Hr). simpl.
      eexists _, _, _. split; [done|]. by apply (checked_rrep bs0 r).
    - eexists _, _, _. split; [done|]. apply rejected; [done|]. unfold valid_rrep. simpl.
      destruct (rrep_of_bytes bs0) as [r|] eqn:Hr; [|done]. apply rrep_of_bytes_length in Hr. lia. }
  assert (valid_rreq bs0 = None ∧ valid_rrep bs0 = None) as [Hn1 Hn2].
  { unfold valid_rreq, valid_rrep, bs0; simpl. by rewrite !bool_decide_eq_false_2 by congruence. }
  assert (checked bs0 1 bs0) as Hyes by by apply (checked_other bs0 t).
  assert (checked bs0 0 bs0) as Hno by by apply rejected.
  destruct (t =? AODV_RERR).
  { destruct (Z.leb_spec (4 + sizeof_unrecheable_dest) (Z.of_nat (length bs0))) as [Hl|Hl]; [|by eauto].
    unfold sizeof_unrecheable_dest in Hl. unfold rerr_of_bytes, sizeof_rerr.
    rewrite (proj2 (Z.ltb_ge _ _)) by lia. cbn [mbind option_bind].
    destruct (_ =? 0); [by eauto|]. destruct (_ =? _); by eauto. }
  destruct (t =? AODV_RREP_ACK); [|by eauto]. destruct (_ <=? _); by eauto.
Qed.

Lemma checked_pkt_ok p bs ok bs' :
  pkt_ok p → pk_payload p = Some bs → checked bs ok bs' → pkt_ok (set_pk_payload (Some bs') p).
Proof.
  intros Hp Hbs Hc. destruct (po_payload _ Hp _ Hbs) as [Hok _].
  assert (pkt_ok (set_pk_payload (Some bs) p)) as Hid by (rewrite <-Hbs; by destruct p).
  inversion Hc as [r Hh Hr|r Hh Hr| |]; subst; try done.
  - apply (rreq_payload_ok p bs (rreq_ntoh r)); [done|done|by eapply rreq_of_bytes_length|].
    apply rreq_ntoh_ok. by eapply bytes_of_rreq_of.
  - apply (rrep_payload_ok p bs (rrep_ntoh r)); [done|done|by eapply rrep_of_bytes_length|].
    apply rrep_ntoh_ok. by eapply bytes_of_rrep_of.
Qed.

Lemma aodv_pkt_check_spec w a p bs :
  world_ok w → w_pkts w !! a = Some p → pk_payload p = Some bs → bs ≠ [] →
  rwp aside (aodv_pkt_check a) (λ ok w', ∃ bs', checked bs ok bs' ∧
    w_pkts w' = <[a := set_pk_payload (Some bs') p]> (w_pkts w)) w.
Proof.
  intros Hw Ha Hbs Hne. pose proof (world_pkt_ok _ _ _ Hw Ha) as Hp.
  destruct (check_payload_spec p bs Hp Hbs Hne) as (ok & bs' & st & Heq & Hc).
  unfold aodv_pkt_check. rwp_read by (by eapply payload_eq). rwp_read by (by apply read_pkt_eq).
  rewrite Heq. rwp_read by done.
  eapply (rwp_bind _ aside _ _ (λ _ w', w_pkts w' = w_pkts w)); [|apply _|].
  { destruct st as [f|]; [|by rwp_return].
    eapply rwp_step; [done|by apply stats_world_ok| |done].
    split; [|done..]. from_inward. apply stats_inward. }
  intros [] w1 Hw1 _ Hp1.
  assert (w_pkts w1 !! a = Some p) as Ha1 by by rewrite Hp1.
  assert (world_ok (set_w_pkts (<[a := set_pk_payload (Some bs') p]> (w_pkts w1)) w1)) as Hw2
    by (apply insert_pkt_ok; [done|by eapply pkt_below|by eapply checked_pkt_ok]).
  eapply rwp_bind_step; [apply _|by apply upd_pkt_eq|done|by split; [apply pkts_hushed|..]|].
  rwp_return. exists bs'. simpl. by rewrite Hp1.
Qed.

(** ** Dispatch *)

(** What a datagram does: the node's own messages and messages the check rejects are
    dropped, RREQs and RREPs are processed, the rest is ignored. *)
Definition datagram_processed (p : aodv_pkt) (bs : bytes) (w w' : world) : Prop :=
  if aodv_pkt_get_address p =? md_ip_addr (w_data w) then sent (w_trace w') = sent (w_trace w)
  else match valid_rreq bs, valid_rrep bs with
  | Some r, _ => rreq_processed p bs r w w'
  | None, Some r => rrep_processed p bs r w w' ∧ discovery_answered p r w w' ∧ rrep_relayed p bs r w w'
  | None, None => sent (w_trace w') = sent (w_trace w)
  end.

Lemma considers_aside w0 w prev_hop r b : aside w0 w → considers prev_hop r w b → considers prev_hop r w0 b.
Proof.
  intros Ha [H1 H2]. rewrite (aside_lookup w0 w _ Ha) in H1, H2.
  split; [|done]. intros Hs. rewrite H1 by done. by rewrite (hu_data _ _ (as_hushed _ _ Ha)).
Qed.

Lemma rreq_processed_payload p bs bs' r w0 w w' :
  drop 24 bs' = drop 24 bs → aside w0 w →
  rreq_processed (set_pk_payload (Some bs') p) bs' r w w' → rreq_processed p bs r w0 w'.
Proof.
  intros Hd Ha. pose proof (as_hushed _ _ Ha) as Hh. unfold rreq_processed.
  rewrite (remembers_quiet w0 w) by done. pose proof (considers_aside w0 w (aodv_pkt_get_address p) r) as Hco.
  destruct Hh as [_ Hs Hda _ Hq]. rewrite Hs, Hq, Hda. unfold rreq_reaction. rewrite Hd.
  intros [Hk Hp]. split; [done|]. destruct (remembers _ _ _); [done|]. destruct Hp as (k & b & ? & ? & Hl).
  exists k, b. split; [done|]. split; [by apply Hco|]. destruct Hl as [Hb Ho]. split; [done|].
  intros ip ??. rewrite <-(aside_lookup w0 w ip Ha). by apply Ho.
Qed.

Lemma rrep_processed_payload p bs bs' r w0 w w' :
  drop 20 bs' = drop 20 bs → aside w0 w →
  rrep_processed (set_pk_payload (Some bs') p) bs' r w w' → rrep_processed p bs r w0 w'.
Proof.
  intros Hd [[_ Hs Hda _ Hq] _ _ _]. unfold rrep_processed. by rewrite Hs, Hda, Hd.
Qed.

Lemma kernel_via_aside w w' d h : aside w w' → world_ok w → world_ok w' → kernel_via w d h → kernel_via w' d h.
Proof. intros Ha ??. apply kernel_via_stable; [done|done|]. apply (as_hushed _ _ Ha). Qed.

Lemma discovery_answered_aside p r w0 w w' :
  world_ok w0 → world_ok w → aside w0 w → discovery_answered p r w w' → discovery_answered p r w0 w'.
Proof.
  intros Hw0 Hw Ha. unfold discovery_answered. rewrite (aside_lookup w0 w _ Ha), (hu_data _ _ (as_hushed _ _ Ha)).
  intros Hans Ho. specialize (Hans Ho). destruct (table_lookup w0 (rp_dest_ip_addr r)).
  - destruct Hans as [Hp Hk]. unfold waiting_for in *. rewrite (as_packets _ _ Ha) in Hp. split; [done|].
    intros h Hh. apply Hk. by apply (kernel_via_aside w0).
  - intros Hk. destruct (Hans Hk) as [? ? Hrel ?]. split; [done|done| |done].
    unfold released in *. by rewrite (as_packets _ _ Ha) in Hrel.
Qed.

Lemma rrep_relayed_payload p bs bs' r w0 w w' :
  drop 20 bs' = drop 20 bs → aside w0 w →
  rrep_relayed (set_pk_payload (Some bs') p) bs' r w w' → rrep_relayed p bs r w0 w'.
Proof.
  intros Hd Ha. unfold rrep_relayed, hop_to, route_to. rewrite !(aside_lookup w0 w _ Ha).
  destruct Ha as [[_ Hs Hda _ _] _ _ Hr]. by rewrite Hs, Hda, Hd, Hr.
Qed.

Lemma valid_rreq_head bs r : head bs = Some AODV_RREQ → rreq_of_bytes bs = Some r →
  valid_rreq bs = Some (rreq_ntoh r).
Proof. intros Hh Hr. unfold valid_rreq. by rewrite bool_decide_eq_true_2, Hr. Qed.
Lemma valid_rrep_head bs r : head bs = Some AODV_RREP → rrep_of_bytes bs = Some r →
  valid_rreq bs = None ∧ valid_rrep bs = Some (rrep_ntoh r).
Proof.
  intros Hh Hr. unfold valid_rreq, valid_rrep. rewrite Hh.
  by rewrite bool_decide_eq_false_2, bool_decide_eq_true_2, Hr.
Qed.
Lemma valid_other t bs : head bs = Some t → t ≠ AODV_RREQ → t ≠ AODV_RREP →
  valid_rreq bs = None ∧ valid_rrep bs = None.
Proof.
  intros Hh ??. unfold valid_rreq, valid_rrep. rewrite Hh.
  by rewrite !bool_decide_eq_false_2 by congruence.
Qed.

(** The type a handler sees is the one that was checked. *)
Lemma checked_head bs ok bs' : checked bs ok bs' → head bs' = head bs.
Proof.
  intros [r Hh Hr|r Hh Hr|t Hh ? ?|]; [| |done|done]; rewrite Hh; simpl.
  - unfold rreq_of_bytes in Hr. case_match; [done|]. injection Hr as <-. simpl.
    unfold u8_at. by destruct bs.
  - unfold rrep_of_bytes in Hr. case_match; [done|]. injection Hr as <-. simpl.
    unfold u8_at. by destruct bs.
Qed.

Lemma pkt_get_type_eq w a p t bs :
  w_pkts w !! a = Some p → pk_payload p = Some bs → head bs = Some t → pkt_get_type a w = Ok (s8 t) w.
Proof.
  intros Ha Hp Hh. unfold pkt_get_type, mbind, M_bind. erewrite payload_eq by done.
  by destruct bs; simplify_eq/=.
Qed.

(** The type of the message is the first byte. *)
Lemma rreq_head_type bs r : head bs = Some AODV_RREQ → rreq_of_bytes bs = Some r → rq_type (rreq_ntoh r) = AODV_RREQ.
Proof.
  intros Hh Hr. unfold rreq_of_bytes in Hr. case_match; [done|]. injection Hr as <-. simpl.
  unfold u8_at. by destruct bs; simplify_eq/=.
Qed.
Lemma rrep_head_type bs r : head bs = Some AODV_RREP → rrep_of_bytes bs = Some r → rp_type (rrep_ntoh r) = AODV_RREP.
Proof.
  intros Hh Hr. unfold rrep_of_bytes in Hr. case_match; [done|]. injection Hr as <-. simpl.
  unfold u8_at. by destruct bs; simplify_eq/=.
Qed.

(** The handler for a checked message, by its type. *)
Lemma dispatch_spec w a p bs bs' t :
  world_ok w → w_pkts w !! a = Some (set_pk_payload (Some bs') p) → checked bs 1 bs' →
  head bs = Some t → bytes_ok bs → aodv_pkt_get_address p ≠ md_ip_addr (w_data w) →
  rwp balanced (if s8 t =? AODV_RREQ then aodv_process_rreq a
       else if s8 t =? AODV_RREP then aodv_process_rrep a
       else if s8 t =? AODV_RERR then aodv_process_rerr a
       else if s8 t =? AODV_RREP_ACK then aodv_process_rrep_ack a
       else stat_incr Stat.aodv_incorrect_type)
    (λ _ w', datagram_processed p bs w w' ∧ ∃ p', w_pkts w' = <[a := p']> (w_pkts w)) w.
Proof.
  intros Hw Ha Hc Hh Hok Hne. unfold datagram_processed.
  rewrite (proj2 (Z.eqb_neq _ _) Hne).
  assert (is_u8 t) as Ht by (destruct bs; simplify_eq/=; by apply Forall_cons in Hok as [? _]).
  rewrite !s8_type by (done || unfold AODV_RREQ, AODV_RREP, AODV_RERR, AODV_RREP_ACK; lia).
  assert (∃ p', w_pkts w = <[a := p']> (w_pkts w)) as Hins by (eexists; symmetry; by apply insert_id).
  inversion Hc as [r Hh' Hr Heq|r Hh' Hr Heq|t' Hh' Hn1 Hn2|]; clear Hc.
  - rewrite Hh' in Hh. injection Hh as <-. rewrite (valid_rreq_head bs r) by done.
    destruct (bytes_of_rreq_of bs r Hok Hr) as [_ Hrok%rreq_ntoh_ok].
    subst bs'. change (AODV_RREQ =? AODV_RREQ) with true.
    rwp_last aodv_process_rreq_spec; [done|split_and!; [exact Ha|done|by apply rreq_of_bytes_of|]|].
    { by apply (rreq_head_type bs). }
    intros [] w' _ _ [Hpost Hp']. split; [|done].
    eapply rreq_processed_payload; [done|reflexivity|exact Hpost].
  - rewrite Hh' in Hh. injection Hh as <-. destruct (valid_rrep_head bs r) as [-> ->]; [done|done|].
    destruct (bytes_of_rrep_of bs r Hok Hr) as [_ Hrok%rrep_ntoh_ok].
    subst bs'. change (AODV_RREP =? AODV_RREQ) with false. change (AODV_RREP =? AODV_RREP) with true.
    rwp_last aodv_process_rrep_spec; [done|split_and!; [exact Ha|done|by apply rrep_of_bytes_of|]|].
    { by apply (rrep_head_type bs). }
    intros [] w' _ _ (Hpost & Hans & Hrel & Hp'). split; [|done]. split; [|split; [done|]].
    + eapply rrep_processed_payload; [done|reflexivity|exact Hpost].
    + eapply rrep_relayed_payload; [done|reflexivity|exact Hrel].
  - simplify_eq. destruct (valid_other t bs') as [-> ->]; [done..|].
    rewrite !(proj2 (Z.eqb_neq _ _)) by done.
    unfold aodv_process_rerr, aodv_process_rrep_ack.
    destruct (t =? AODV_RERR); [by rwp_return|]. destruct (t =? AODV_RREP_ACK); [by rwp_return|].
    eapply rwp_step; [done|by apply stats_world_ok|by from_inward; apply stats_inward|done].
Qed.

Lemma set_payload_id p bs : pk_payload p = Some bs → set_pk_payload (Some bs) p = p.
Proof. intros <-. by destruct p. Qed.

Lemma datagram_processed_aside p bs w0 w w' :
  pk_payload p = Some bs → world_ok w0 → world_ok w → aside w0 w →
  datagram_processed p bs w w' → datagram_processed p bs w0 w'.
Proof.
  intros Hp Hw0 Hw Ha. unfold datagram_processed. pose proof (as_hushed _ _ Ha) as [_ Hs Hd _ _]. rewrite Hd, Hs.
  destruct (_ =? _); [done|].
  pose proof (λ r, rreq_processed_payload p bs bs r w0 w w' eq_refl Ha) as Hrq.
  pose proof (λ r, rrep_processed_payload p bs bs r w0 w w' eq_refl Ha) as Hrp.
  pose proof (λ r, rrep_relayed_payload p bs bs r w0 w w' eq_refl Ha) as Hre.
  rewrite (set_payload_id p bs Hp) in Hrq, Hrp, Hre.
  destruct (valid_rreq bs), (valid_rrep bs); [by auto..| |done].
  intros (? & ? & ?). split; [by apply Hrp|]. split; [by apply (discovery_answered_aside p _ w0 w)|by apply Hre].
Qed.

(** Releasing the packet changes nothing of it. *)
Lemma datagram_processed_release p bs w w' pkts :
  datagram_processed p bs w w' → datagram_processed p bs w (set_w_pkts pkts w').
Proof.
  unfold datagram_processed. destruct (_ =? _); [done|].
  assert (∀ r, rreq_processed p bs r w w' → rreq_processed p bs r w (set_w_pkts pkts w')) as Hrq.
  { intros r [Hk Hp]. split; [done|]. destruct (remembers _ _ _); [done|].
    destruct Hp as (k & b & ? & ? & [??]). by exists k, b. }
  destruct (valid_rreq bs), (valid_rrep bs); [by auto..| |done].
  intros (? & Hans & ?). split; [done|]. split; [|done]. intros Ho. specialize (Hans Ho).
  destruct (table_lookup w _).
  - destruct Hans as [Hp Hk]. split; [done|]. intros h Hh. by eapply kernel_via_same, Hk.
  - intros Hk. by eapply route_learned_same, Hans.
Qed.

Lemma sent_processed p bs w w' :
  (aodv_pkt_get_address p = md_ip_addr (w_data w) ∨ valid_rreq bs = None ∧ valid_rrep bs = None) →
  sent (w_trace w') = sent (w_trace w) → datagram_processed p bs w w'.
Proof.
  unfold datagram_processed. intros [Heq|[-> ->]] Hs; [by rewrite Heq, Z.eqb_refl|by case_match].
Qed.

Lemma aodv_process_packet_spec msg n buf ttl w :
  world_ok w → datagram_ok msg n buf ttl →
  rwp balanced (aodv_process_packet msg n) (λ _ w',
    datagram_processed (pkt_of msg n buf ttl) (take (Z.to_nat n) buf) w w') w.
Proof.
  intros Hw Hm. set (p := pkt_of msg n buf ttl). set (bs := take (Z.to_nat n) buf).
  assert (pkt_ok p) as Hp by by apply pkt_of_ok.
  destruct (po_payload _ Hp bs eq_refl) as [Hok Hlen].
  assert (bs ≠ []) as Hne.
  { intros Hbs. rewrite Hbs in Hlen. simpl in Hlen. destruct Hm. lia. }
  unfold aodv_process_packet. apply wp_bind, (aodv_pkt_get_wp msg n buf ttl); [apply Hm..|]. intros s. fold p.
  set (w0 := pkt_state p s w). assert (world_ok w0) as Hw0 by by apply pkt_state_ok.
  assert (aside w w0) as Hh0 by apply pkt_state_aside.
  apply (wp_mono _ (λ _ w', world_ok w' ∧ balanced w0 w' ∧ datagram_processed p bs w0 w')).
  2: { intros ? w' (? & Hb & Hd). split_and!; [done| |by apply (datagram_processed_aside p bs w w0)].
       etrans; [|exact Hb]. by apply (finer (R := aside)). }
  rwp_then (aodv_pkt_check_spec w0 (w_brk w) p bs); [done|apply lookup_insert_eq|done|done|].
  intros ok w1 Hw1 Hh1 (bs' & Hc & Hp1).
  assert (w_pkts w1 !! w_brk w = Some (set_pk_payload (Some bs') p)) as Ha1
    by (rewrite Hp1; apply lookup_insert_eq).
  assert (w_data w1 = w_data w0) as Hd1 by apply (as_hushed _ _ Hh1).
  assert (ok = 1 ∨ ok = 0 ∧ valid_rreq bs = None ∧ valid_rrep bs = None) as [->|(-> & Hno)]
    by (destruct Hc; auto).
  2: { rwp_return. apply sent_processed; [by right|apply (as_hushed _ _ Hh1)]. }
  change (1 =? 0) with false. cbv iota.
  rwp_read by (by apply get_pkt_eq). rwp_read by reflexivity.
  change (aodv_pkt_get_address (set_pk_payload (Some bs') p)) with (aodv_pkt_get_address p).
  rewrite Hd1.
  destruct (Z.eqb_spec (aodv_pkt_get_address p) (md_ip_addr (w_data w0))) as [Heq|Hneq].
  { rwp_return. apply sent_processed; [by left|apply (as_hushed _ _ Hh1)]. }
  destruct (head bs) as [t|] eqn:Ht; [|by destruct bs].
  rwp_read by (eapply pkt_get_type_eq; [exact Ha1|done|by rewrite (checked_head bs 1 bs')]).
  rwp_then dispatch_spec; [done|exact Ha1|exact Hc|exact Ht|done|by rewrite Hd1|].
  intros [] w2 Hw2 _ (Hpost & p' & Hp').
  rwp_last aodv_pkt_destroy_spec; [done|rewrite Hp'; apply lookup_insert_eq|].
  intros [] ? _ _ ->. apply datagram_processed_release. by apply (datagram_processed_aside p bs w0 w1).
Qed.
End receive_specs.
