(* ===== verification/NfqueueSpec.v ===== *)
(** * Captured packets: every packet is accounted for

    What [manage_packet] does with a packet the kernel queued: the verdict it gives,
    or the packet it keeps and the route discovery it starts. *)

From S2P Require Export ReceiveSpec.

(** The fields of a captured IP packet, as the getters read them. *)
Record ip_packet (nfa : nfq_data) (hdr : bytes) (src dst proto : Z) : Prop := {
  ip_payload : nfqa_payload nfa = Some hdr;
  ip_saddr : nfq_get_ip_saddr hdr = Some src;
  ip_daddr : nfq_get_ip_daddr hdr = Some dst;
  ip_protocol : nfq_get_ip_protocol hdr = Some proto;
  ip_udp : proto = IPPROTO_UDP → is_Some (nfq_get_udp_dest (drop sizeof_nfq_iphdr hdr)) }.

(** The packet is AODV traffic. *)
Definition is_aodv (nfa : nfq_data) (proto : Z) : bool :=
  (proto =? IPPROTO_UDP) &&
  match nfq_get_udphdr nfa with
  | Some udp => bool_decide (nfq_get_udp_dest udp = Some AODV_UDP_PORT)
  | None => false
  end.

Lemma rd32_u32 bs off z : ntohl <$> rd32 bs off = Some z → is_u32 z.
Proof. intros (y & _ & ->)%fmap_Some. apply htonl_range. Qed.

Section nfqueue_specs.
Context `{E : Env} {EO : EnvOk E}.
Implicit Types w : world.

Lemma nfqueue_packet_get_dest_eq nfa hdr src dst proto w :
  ip_packet nfa hdr src dst proto → nfqueue_packet_get_dest nfa w = Ok dst w.
Proof. intros [H1 _ H3 _ _]. unfold nfqueue_packet_get_dest, nfq_get_iphdr. by rewrite H1, H3. Qed.

Lemma nfqueue_packet_get_orig_eq nfa hdr src dst proto w :
  ip_packet nfa hdr src dst proto → nfqueue_packet_get_orig nfa w = Ok src w.
Proof. intros [H1 H2 _ _ _]. unfold nfqueue_packet_get_orig, nfq_get_iphdr. by rewrite H1, H2. Qed.

Lemma nfqueue_packet_is_aodv_eq nfa hdr src dst proto w :
  ip_packet nfa hdr src dst proto → nfqueue_packet_is_aodv nfa w = Ok (is_aodv nfa proto) w.
Proof.
  intros [H1 _ _ H4 H5]. unfold nfqueue_packet_is_aodv, is_aodv, nfq_get_iphdr, nfq_get_udphdr.
  rewrite H1. unfold mbind, M_bind, demand. rewrite H4. simpl.
  destruct (Z.eqb_spec proto IPPROTO_UDP) as [Heq|]; simpl; [|done].
  destruct (H5 Heq) as [port Hport]. rewrite Hport. unfold mret, M_ret. f_equal.
  destruct (Z.eqb_spec port AODV_UDP_PORT) as [->|]; [by rewrite bool_decide_eq_true_2|].
  rewrite bool_decide_eq_false_2; congruence.
Qed.

(** ** A verdict at once *)

(** The packet [id] gets the verdict [v] and nothing else happens outside. *)
Record judged (id v : Z) (w w' : world) : Prop := {
  ju_trace : w_trace w' = w_trace w ++ [EvVerdict id v];
  ju_packets : w_packets w' = w_packets w;
  ju_data : w_data w' = w_data w;
  ju_table : w_table w' = w_table w;
  ju_rreqs : w_rreqs w' = w_rreqs w;
  ju_rreq_queue : w_rreq_queue w' = w_rreq_queue w }.

Lemma nfq_set_verdict_spec id v w0 w :
  world_ok w → inward w0 w → rwp speaks (nfq_set_verdict id v) (λ _ w', judged id v w0 w') w.
Proof.
  intros Hw [[[_ _ H1 H2 H3] _] H4 H5 H6]. unfold nfq_set_verdict.
  eapply rwp_bind_step; [apply _|done|by apply tick_world_ok|by from_inward; apply tick_inward|].
  eapply rwp_bind_step; [apply _|done|by apply trace_world_ok, tick_world_ok|by apply event_speaks|].
  rwp_return; [by apply trace_world_ok, tick_world_ok|].
  split; simpl; congruence.
Qed.

(** ** A packet that waits *)

Lemma packets_fifo_push_eq id dest w :
  packets_fifo_push id dest w =
    Ok tt (set_w_packets (PacketsFifo (w_brk w) id dest :: w_packets w) (set_w_brk (Pos.succ (w_brk w)) w)).
Proof. done. Qed.

Lemma push_world_ok id dest w :
  world_ok w → is_u32 dest →
  world_ok (set_w_packets (PacketsFifo (w_brk w) id dest :: w_packets w) (set_w_brk (Pos.succ (w_brk w)) w)).
Proof.
  intros [Hh Ht Hq Ha Hb Hd] Hdest. split; simpl; try done.
  assert (w_brk w ∉ pf_addr <$> w_packets w) as Hni.
  { intros (e & Heq & He)%list_elem_of_fmap. apply (ho_packets _ _ _ _ _ Hh) in He as [He _]. lia. }
  apply (heap_ok_brk _ (Pos.succ (w_brk w))) in Hh; [|lia]. destruct Hh as [H1 H2 H3 H4 H5 H6 H7].
  split; try done.
  - intros e [->|He]%elem_of_cons; [simpl; split; [lia|done]|by apply H3].
  - by apply NoDup_cons.
Qed.

Lemma discovering_hushed w w' dst :
  w_rreqs w' = w_rreqs w → w_rreq_queue w' = w_rreq_queue w → discovering w' dst = discovering w dst.
Proof. unfold discovering, find_rreq, satisfies. by intros -> ->. Qed.

(** The packet waits for a route, and a discovery is under way. *)
Record held (id dest : Z) (w w' : world) : Prop := {
  he_packets : ∃ a, w_packets w' = PacketsFifo a id dest :: w_packets w;
  he_trace : ∃ k, w_trace w' = w_trace w ++
    (if discovering w dest then [] else [discovery_event (env_sendto k) w dest None 0]);
  he_discovering : discovering w' dest = true;
  he_lookup ip : table_lookup w' ip = table_lookup w ip }.

Lemma discovering_true w dst a e :
  a ∈ w_rreq_queue w → w_rreqs w !! a = Some e → 0 ≤ rf_prev_tries e → rf_dst e = dst →
  discovering w dst = true.
Proof.
  intros Ha He Ht Hd. unfold discovering, find_rreq. apply bool_decide_eq_true_2.
  destruct (filter _ _) as [|b l] eqn:Hf; [|by eexists].
  assert (a ∈ filter (λ a, satisfies (λ e, (0 <=? rf_prev_tries e) && (rf_dst e =? dst)) w a = true)
            (w_rreq_queue w)) as Hin; [|rewrite Hf in Hin; set_solver].
  apply list_elem_of_filter. split; [|done]. unfold satisfies. rewrite He. simpl.
  rewrite (proj2 (Z.leb_le _ _) Ht), (proj2 (Z.eqb_eq _ _) Hd). done.
Qed.

Lemma manage_output_packet_spec nfa hdr src dst proto w :
  world_ok w → ip_packet nfa hdr src dst proto →
  rwp speaks (manage_output_packet nfa) (λ _ w',
    if (dst =? md_broadcast_addr (w_data w)) || reachable w dst
    then judged (nfqueue_packet_get_id nfa) NF_ACCEPT w w'
    else held (nfqueue_packet_get_id nfa) dst w w') w.
Proof.
  intros Hw Hp. assert (is_u32 dst) as Hdst by (eapply rd32_u32, Hp).
  unfold manage_output_packet. set (id := nfqueue_packet_get_id nfa).
  rwp_read by (by eapply nfqueue_packet_get_dest_eq). rwp_read by reflexivity.
  destruct (dst =? md_broadcast_addr (w_data w)); simpl; [by apply nfq_set_verdict_spec|].
  rwp_then routing_table_update_route_spec; [done|done|done|]. intros ? w1 Hw1 Hi1 ->.
  destruct (reachable w dst); simpl; [by apply nfq_set_verdict_spec|].
  eapply rwp_bind_step; [apply _|apply packets_fifo_push_eq|by apply push_world_ok|done|].
  pose proof (push_world_ok id dst w1 Hw1 Hdst) as Hw2. rwp_state w2.
  rwp_read by (by apply rreq_fifo_waiting_response_for_eq).
  assert (∀ ip, table_lookup w2 ip = table_lookup w ip) as Hl2.
  { intros ip. rewrite <-(local_lookup 0 w w1 ip) by (done || by apply inward_local). by apply table_lookup_ext. }
  destruct Hi1 as [[[_ _ Hd1 Hr1 Hq1] _] _ Hp1 Ht1 _].
  rewrite (discovering_hushed w w2) by done.
  destruct (discovering w dst) eqn:Hdisc; simpl.
  - rwp_read by reflexivity. rwp_return. split.
    + exists (w_brk w1). simpl. by rewrite Hp1.
    + exists 0%nat. simpl. by rewrite Ht1, Hdisc, app_nil_r.
    + by rewrite (discovering_hushed w w2).
    + done.
  - rwp_then aodv_find_route_spec; [done|done|done|done|].
    intros [] w3 Hw3 _ [_ _ Ht3 Hro3 Htb3 Hp3 [Hr3 Hq3]]. rwp_return. split.
    + exists (w_brk w1). rewrite Hp3. simpl. by rewrite Hp1.
    + destruct Ht3 as [k Ht3]. exists k. rewrite Ht3, Hdisc. unfold discovery_event, discovery_rreq. simpl. by rewrite Ht1, Hd1.
    + eapply discovering_true; [rewrite Hq3; left|by rewrite Hr3, lookup_insert_eq|done|done].
    + intros ip. rewrite <-Hl2. apply table_lookup_ext; [done|by rewrite Hro3].
Qed.

(** ** The other hooks *)

(** A packet that arrives for an address without a route gets no verdict. *)
Lemma manage_input_packet_spec nfa hdr src dst proto w :
  world_ok w → ip_packet nfa hdr src dst proto →
  rwp speaks (manage_input_packet nfa) (λ _ w',
    if (dst =? md_broadcast_addr (w_data w)) || reachable w dst
    then judged (nfqueue_packet_get_id nfa) NF_ACCEPT w w'
    else inward w w') w.
Proof.
  intros Hw Hp. assert (is_u32 dst) as Hdst by (eapply rd32_u32, Hp).
  assert (is_u32 src) as Hsrc by (eapply rd32_u32, Hp).
  unfold manage_input_packet. set (id := nfqueue_packet_get_id nfa).
  rwp_read by (by eapply nfqueue_packet_get_dest_eq). rwp_read by reflexivity.
  destruct (dst =? md_broadcast_addr (w_data w)); simpl; [by apply nfq_set_verdict_spec|].
  rwp_read by (by eapply nfqueue_packet_get_orig_eq).
  rwp_then routing_table_update_route_spec; [done|done|done|]. intros ? w1 Hw1 Hi1 ->.
  destruct (reachable w dst); simpl; [by apply nfq_set_verdict_spec|by rwp_return].
Qed.

Lemma manage_forward_packet_spec nfa hdr src dst proto w :
  world_ok w → ip_packet nfa hdr src dst proto →
  rwp speaks (manage_forward_packet nfa) (λ _ w', judged (nfqueue_packet_get_id nfa) NF_ACCEPT w w') w.
Proof.
  intros Hw Hp. assert (is_u32 dst) as Hdst by (eapply rd32_u32, Hp).
  assert (is_u32 src) as Hsrc by (eapply rd32_u32, Hp).
  unfold manage_forward_packet. set (id := nfqueue_packet_get_id nfa).
  rwp_read by (by eapply nfqueue_packet_get_dest_eq). rwp_read by reflexivity.
  destruct (dst =? md_broadcast_addr (w_data w)); simpl; [by apply nfq_set_verdict_spec|].
  rwp_read by (by eapply nfqueue_packet_get_orig_eq).
  rwp_then routing_table_update_route_spec; [done|done|done|]. intros ? w1 Hw1 Hi1 ->.
  destruct (reachable w dst); simpl; by apply nfq_set_verdict_spec.
Qed.

(** What happens to a packet: accepted, held or forgotten. *)
Inductive fate := Accepted | Held | Forgotten.

Definition fate_of (nfa : nfq_data) (dst proto : Z) (w : world) : fate :=
  let known := (dst =? md_broadcast_addr (w_data w)) || reachable w dst in
  if is_aodv nfa proto then Accepted
  else if nfqueue_packet_get_hook nfa =? NF_IP_LOCAL_IN then if known then Accepted else Forgotten
  else if nfqueue_packet_get_hook nfa =? NF_IP_FORWARD then Accepted
  else if nfqueue_packet_get_hook nfa =? NF_IP_LOCAL_OUT then if known then Accepted else Held
  else Accepted.

Definition packet_managed (nfa : nfq_data) (dst proto : Z) (w w' : world) : Prop :=
  match fate_of nfa dst proto w with
  | Accepted => judged (nfqueue_packet_get_id nfa) NF_ACCEPT w w'
  | Held => held (nfqueue_packet_get_id nfa) dst w w'
  | Forgotten => inward w w'
  end.

Lemma manage_packet_spec nfa hdr src dst proto w :
  world_ok w → ip_packet nfa hdr src dst proto →
  rwp speaks (manage_packet nfa) (λ _ w', packet_managed nfa dst proto w w') w.
Proof.
  intros Hw Hp. unfold manage_packet, packet_managed, fate_of.
  rwp_read by (by eapply nfqueue_packet_is_aodv_eq).
  destruct (is_aodv nfa proto); [by apply nfq_set_verdict_spec|].
  destruct (_ =? NF_IP_LOCAL_IN).
  { eapply rwp_mono; [by eapply manage_input_packet_spec|]. intros ? w' _ _. by case_match. }
  destruct (_ =? NF_IP_FORWARD).
  { by eapply manage_forward_packet_spec. }
  destruct (_ =? NF_IP_LOCAL_OUT); [|by apply nfq_set_verdict_spec].
  eapply rwp_mono; [by eapply manage_output_packet_spec|]. intros ? w' _ _. by case_match.
Qed.

(** ** The accounting of one packet *)

Lemma judged_ledger id v w w' : judged id v w w' → ledger w' ≡ₚ id :: ledger w.
Proof.
  intros [H1 H2 _ _ _ _]. unfold ledger. rewrite H1, H2, verdict_ids_app, <-(assoc_L (++)).
  simpl. by rewrite Permutation_middle.
Qed.

Lemma held_ledger id dst w w' : held id dst w w' → ledger w' ≡ₚ id :: ledger w.
Proof.
  intros [[a H1] [k H2] _ _]. unfold ledger. rewrite H1, H2, verdict_ids_app, fmap_cons. simpl.
  assert (verdict_ids (if discovering w dst then [] else [discovery_event (env_sendto k) w dst None 0]) = []) as ->
    by by case_match.
  rewrite app_nil_r. by rewrite Permutation_middle.
Qed.

Lemma packet_managed_ledger nfa dst proto w w' :
  packet_managed nfa dst proto w w' →
  ledger w' ≡ₚ (if fate_of nfa dst proto w is Forgotten then [] else [nfqueue_packet_get_id nfa]) ++ ledger w.
Proof.
  unfold packet_managed. destruct (fate_of _ _ _ _).
  - apply judged_ledger.
  - apply held_ledger.
  - intros Hi. apply (bl_ledger w w'). by from_inward.
Qed.
End nfqueue_specs.
