(* ===== verification/NfqLibSpec.v ===== *)
(** * The registry of queue handles

    The queue handles of a connection form a singly linked list of distinct handles with
    distinct queue numbers; creating and destroying queues keeps it so, and a packet goes
    to the callback of the queue it is for. *)

From S2P Require Export NfqLib.

Section registry.
Context {CB D E : Type} {NE : Nfnetlink E}.
Notation lib := (nfq_lib CB D E).
Notation queue := (nfq_q_handle CB D).
Implicit Types (L : lib) (h q : handle) (l : list handle) (qs : gmap handle queue).

(** The list that starts with the pointer [p]. *)
Fixpoint qchain qs (p : option handle) l : Prop :=
  match l with
  | [] => p = None
  | a :: l => p = Some a ∧ ∃ x, qs !! a = Some x ∧ qchain qs (q_next x) l
  end.

Lemma qchain_ext qs qs' p l : (∀ a, a ∈ l → qs !! a = qs' !! a) → qchain qs p l → qchain qs' p l.
Proof.
  revert p. induction l as [|a l IH]; intros p Heq; simpl; [done|]. intros [-> (x & Hx & Hl)].
  split; [done|]. exists x. split; [by rewrite <-Heq by (by left)|]. apply IH; [|done].
  intros b Hb. apply Heq. by right.
Qed.

Lemma qchain_lookup qs p l a : qchain qs p l → a ∈ l → ∃ x, qs !! a = Some x.
Proof.
  revert p. induction l as [|b l IH]; intros p; simpl; [by intros _ ?%elem_of_nil|].
  intros [_ (x & Hx & Hl)] [->|Ha]%elem_of_cons; [by exists x|by eapply IH].
Qed.

Lemma qchain_size qs p l : qchain qs p l → NoDup l → (length l ≤ size qs)%nat.
Proof.
  intros Hc Hnd. assert (list_to_set l ⊆ dom qs) as Hsub.
  { intros a Ha%elem_of_list_to_set. destruct (qchain_lookup _ _ _ _ Hc Ha) as [x Hx].
    apply elem_of_dom. by exists x. }
  apply subseteq_size in Hsub. by rewrite size_list_to_set, size_dom in Hsub.
Qed.

(** Unlinking [q] behind [a]. *)
Lemma qchain_relink qs p l1 a q l2 x y :
  NoDup (l1 ++ a :: q :: l2) → qs !! a = Some x → qs !! q = Some y →
  qchain qs p (l1 ++ a :: q :: l2) → qchain (<[a := set_q_next (q_next y) x]> qs) p (l1 ++ a :: l2).
Proof.
  intros Hnd Ha Hq. revert p. induction l1 as [|b l1 IH]; intros p; simpl in *.
  - apply NoDup_cons in Hnd as [Hna Hnd]. intros [-> (x' & Hx' & Hn & y' & Hy' & Hl)]. simplify_eq.
    split; [done|]. eexists. split; [apply lookup_insert_eq|]. simpl.
    eapply qchain_ext; [|exact Hl]. intros c Hc. rewrite lookup_insert_ne; [done|]. set_solver.
  - apply NoDup_cons in Hnd as [Hnb Hnd]. intros [-> (z & Hz & Hl)]. split; [done|].
    exists z. split; [|by apply IH]. rewrite lookup_insert_ne; [done|]. set_solver.
Qed.

(** The queues of the connection [h]. *)
Record registry L h l : Prop := {
  reg_nodup : NoDup l;
  reg_chain : ∃ x, lb_handles L !! h = Some x ∧ qchain (lb_queues L) (qh_list x) l;
  reg_own q : q ∈ l → ∃ x, lb_queues L !! q = Some x ∧ q_h x = h;
  reg_ids q q' x x' : q ∈ l → q' ∈ l → lb_queues L !! q = Some x → lb_queues L !! q' = Some x' →
    q_id x = q_id x' → q = q' }.

(** ** Lookup *)

Lemma find_qh_loop_spec L id l : ∀ fuel p, qchain (lb_queues L) p l → (length l ≤ fuel)%nat →
  ∃ r, find_qh_loop fuel p id L = Ok r L ∧
    match r with
    | Some q => q ∈ l ∧ ∃ x, lb_queues L !! q = Some x ∧ q_id x = id
    | None => ∀ q x, q ∈ l → lb_queues L !! q = Some x → q_id x ≠ id
    end.
Proof.
  induction l as [|a l IH]; intros fuel p; simpl.
  - intros -> _. exists None. split; [by destruct fuel|]. by intros q x ?%elem_of_nil.
  - intros [-> (x & Hx & Hl)] Hlen. destruct fuel as [|fuel]; [lia|]. simpl.
    unfold read_q, mbind, M_bind. rewrite Hx. simpl.
    destruct (Z.eqb_spec (q_id x) id) as [Hid|Hid].
    + exists (Some a). split; [done|]. split; [by left|]. by exists x.
    + destruct (IH fuel (q_next x) Hl) as (r & Hr & Hpost); [lia|]. exists r. split; [done|].
      destruct r as [q|].
      * destruct Hpost as [Hq Hx']. split; [by right|done].
      * intros q y [->|Hq]%elem_of_cons Hy; [by simplify_eq|by eapply Hpost].
Qed.

Lemma find_qh_spec L h l id : registry L h l →
  ∃ r, find_qh h id L = Ok r L ∧
    match r with
    | Some q => q ∈ l ∧ ∃ x, lb_queues L !! q = Some x ∧ q_id x = id
    | None => ∀ q x, q ∈ l → lb_queues L !! q = Some x → q_id x ≠ id
    end.
Proof.
  intros Hreg. destruct (reg_chain _ _ _ Hreg) as (x & Hx & Hc).
  destruct (find_qh_loop_spec L id l (S (size (lb_queues L))) (qh_list x) Hc) as (r & Hr & Hpost).
  { pose proof (qchain_size _ _ _ Hc (reg_nodup _ _ _ Hreg)). lia. }
  exists r. split; [|done]. unfold find_qh, read_h, q_rounds, mbind, M_bind. by rewrite Hx.
Qed.

(** ** Unlinking *)

(** The state after the first queue of the list, or the one behind [prev], is unlinked. *)
Definition unlinked_after (prev : option handle) (y : queue) L : lib :=
  match prev with
  | Some a => match lb_queues L !! a with
              | Some x => set_queues (<[a := set_q_next (q_next y) x]> (lb_queues L)) L
              | None => L
              end
  | None => match lb_handles L !! q_h y with
            | Some x => set_handles (<[q_h y := set_qh_list (q_next y) x]> (lb_handles L)) L
            | None => L
            end
  end.

Lemma del_qh_loop_spec L q y l2 : ∀ l1 fuel prev cur,
  lb_queues L !! q = Some y → is_Some (lb_handles L !! q_h y) →
  qchain (lb_queues L) cur (l1 ++ q :: l2) → q ∉ l1 → (length l1 < fuel)%nat →
  (∀ a, prev = Some a → is_Some (lb_queues L !! a)) →
  del_qh_loop fuel q cur prev L =
    Ok tt (unlinked_after (match last l1 with Some a => Some a | None => prev end) y L).
Proof.
  induction l1 as [|a l1 IH]; intros fuel prev cur Hq Hh Hc Hn Hfuel Hprev; simpl in *;
    destruct Hc as [-> (x & Hx & Hc)]; (destruct fuel as [|fuel]; [lia|]); simpl.
  - simplify_eq. rewrite decide_True by done. unfold read_q, mbind, M_bind. rewrite Hq. simpl.
    destruct prev as [a|]; simpl.
    + destruct (Hprev a eq_refl) as [z Hz]. by rewrite Hz.
    + destruct Hh as [z Hz]. unfold read_h. by rewrite Hz.
  - rewrite decide_False by set_solver. unfold read_q at 1, mbind, M_bind. rewrite Hx. simpl.
    rewrite (IH fuel (Some a) (q_next x)); [|done|done|done|set_solver|lia|intros ? [= <-]; by exists x].
    destruct l1 as [|b l1]; [done|]. rewrite (last_cons a). by destruct (last (b :: l1)) eqn:Hl; [|apply last_None in Hl].
Qed.

(** The handles and queues the list of [h] is made of determine it. *)
Lemma registry_ext L L' h l :
  lb_handles L' !! h = lb_handles L !! h → (∀ q, q ∈ l → lb_queues L' !! q = lb_queues L !! q) →
  registry L h l → registry L' h l.
Proof.
  intros Hh Hq [Hnd (x & Hx & Hc) Hown Hids]. split; [done| | |].
  - exists x. split; [congruence|]. eapply qchain_ext; [|exact Hc]. intros a Ha. by rewrite Hq.
  - intros q Hin. rewrite Hq by done. by apply Hown.
  - intros q q' y y' Hin Hin'. rewrite !Hq by done. by apply Hids.
Qed.

Lemma registry_disjoint L h h' l l' q : registry L h l → registry L h' l' → h ≠ h' → q ∈ l → q ∉ l'.
Proof.
  intros Hr Hr' Hne Hq Hq'. destruct (reg_own _ _ _ Hr q Hq) as (x & Hx & Hxh).
  destruct (reg_own _ _ _ Hr' q Hq') as (y & Hy & Hyh). simplify_eq.
Qed.

(** The list without [q], whose handle still exists. *)
Lemma unlink_registry L h l1 q l2 y :
  registry L h (l1 ++ q :: l2) → lb_queues L !! q = Some y →
  let L' := unlinked_after (last l1) y L in
  registry L' h (l1 ++ l2) ∧ lb_queues L' !! q = Some y ∧
  lb_ext L' = lb_ext L ∧
  (∀ a x, a ≠ q → lb_queues L !! a = Some x → ∃ p, lb_queues L' !! a = Some (set_q_next p x)) ∧
  (∀ a, a ∉ l1 → lb_queues L' !! a = lb_queues L !! a) ∧
  (∀ h', h' ≠ h → lb_handles L' !! h' = lb_handles L !! h').
Proof.
  intros Hreg Hq. assert (Hyh : q_h y = h).
  { destruct (reg_own _ _ _ Hreg q) as (? & ? & ?); [set_solver|]. by simplify_eq. }
  destruct Hreg as [Hnd (x & Hx & Hc) Hown Hids]. simpl.
  destruct l1 as [|a l0 _] using rev_ind; simpl; cycle 1.
  - rewrite last_snoc. simpl. rewrite <-(assoc_L (++)) in *. simpl in *.
    destruct (Hown a) as (z & Hz & Hzh); [set_solver|]. rewrite Hz. simpl.
    assert (a ≠ q) as Haq. { apply NoDup_app in Hnd as (_ & _ & [??]%NoDup_cons). set_solver. }
    split_and!; [|by rewrite lookup_insert_ne|done| | |done].
    + split; simpl.
      * clear -Hnd. rewrite !NoDup_app in *. setoid_rewrite elem_of_cons in Hnd.
        rewrite !NoDup_cons in *. set_solver.
      * exists x. split; [done|]. by eapply qchain_relink.
      * intros b Hb. destruct (decide (a = b)) as [->|Hne].
        -- eexists. rewrite lookup_insert_eq. split; [done|]. done.
        -- rewrite lookup_insert_ne by done. apply Hown. set_solver.
      * intros b b' w w' Hb Hb'. rewrite !lookup_insert_Some. intros Hw Hw' Hid.
        assert (∀ c w0, (a = c ∧ set_q_next (q_next y) z = w0 ∨ a ≠ c ∧ lb_queues L !! c = Some w0) →
          ∃ w1, lb_queues L !! c = Some w1 ∧ q_id w1 = q_id w0) as Hfind by naive_solver.
        destruct (Hfind _ _ Hw) as (w1 & Hw1 & He1), (Hfind _ _ Hw') as (w2 & Hw2 & He2).
        apply (Hids b b' w1 w2); [set_solver|set_solver|done|done|congruence].
    + intros b w Hb Hw. destruct (decide (a = b)) as [->|Hne].
      * exists (q_next y). rewrite lookup_insert_eq. by simplify_eq.
      * exists (q_next w). rewrite lookup_insert_ne by done. rewrite Hw. by destruct w.
    + intros b Hb. rewrite lookup_insert_ne; [done|]. set_solver.
  - simpl in *. destruct Hc as [Hhd (y' & Hy' & Hc)]. simplify_eq.
    rewrite Hx. simpl. apply NoDup_cons in Hnd as [Hn Hnd].
    split_and!; [|done|done| |done|by intros; rewrite lookup_insert_ne].
    + split; simpl; [done| | |].
      * eexists. split; [apply lookup_insert_eq|]. done.
      * intros b Hb. apply Hown. by right.
      * intros b b' w w' Hb Hb'. apply Hids; by right.
    + intros b w _ Hw. exists (q_next w). rewrite Hw. by destruct w.
Qed.

(** ** Bindings

    What a connection promises: the queue numbers that are bound, with the callback and the
    data of each. *)
Record serves L h l (B : gmap Z (option CB * D)) : Prop := {
  sv_registry : registry L h l;
  sv_bound i v : B !! i = Some v ↔
    ∃ q x, q ∈ l ∧ lb_queues L !! q = Some x ∧ q_id x = i ∧ (q_cb x, q_data x) = v }.
(** Nothing changes for the other connections. *)
Definition others_kept h L L' : Prop :=
  ∀ h' l' B', h' ≠ h → serves L h' l' B' → serves L' h' l' B'.

Definition set_ext (e : E) L : lib :=
  NfqLib (lb_handles L) (lb_queues L) (lb_pkt_cb_data L) (lb_errno L) e.
(** The message that binds or unbinds the queue [num]. *)
Definition config_msg (x : nfq_handle) (command num : Z) : nlmsg :=
  NlMsg (nfnlssh x) AF_UNSPEC num NFQNL_MSG_CONFIG (Z.lor NLM_F_REQUEST NLM_F_ACK)
    [(NFQA_CFG_CMD, Config_cmd command 0)].

Lemma serves_ext L L' h l B :
  lb_handles L' !! h = lb_handles L !! h → (∀ q, q ∈ l → lb_queues L' !! q = lb_queues L !! q) →
  serves L h l B → serves L' h l B.
Proof.
  intros Hh Hq [Hreg Hb]. split; [by eapply registry_ext|]. intros i v. rewrite Hb.
  split; intros (q & x & Hin & Hx & ?); exists q, x; [rewrite Hq|rewrite Hq in Hx]; done.
Qed.

Lemma serves_lookup L h l B : serves L h l B →
  ∃ x, lb_handles L !! h = Some x ∧ qchain (lb_queues L) (qh_list x) l.
Proof. intros [Hreg _]. apply Hreg. Qed.

(** The queue that serves a number. *)
Lemma find_qh_bound L h l B i : serves L h l B →
  match B !! i with
  | Some v => ∃ q x, q ∈ l ∧ lb_queues L !! q = Some x ∧ q_id x = i ∧ (q_cb x, q_data x) = v ∧
                find_qh h i L = Ok (Some q) L
  | None => find_qh h i L = Ok None L
  end.
Proof.
  intros [Hreg Hb]. destruct (find_qh_spec L h l i Hreg) as ([q|] & Hf & Hpost).
  - destruct Hpost as (Hq & x & Hx & Hid).
    rewrite (proj2 (Hb i (q_cb x, q_data x))) by (by exists q, x). by exists q, x.
  - destruct (B !! i) eqn:Hi; [|done]. apply Hb in Hi as (q & x & Hq & Hx & Hid & _).
    by destruct (Hpost q x).
Qed.

Lemma build_send_spec L h x command num r e :
  lb_handles L !! h = Some x → nfnl_talk (nfnlh x) (config_msg x command num) (lb_ext L) = Ok r e →
  __build_send_cfg_msg h command num 0 L = Ok r (set_ext e L).
Proof.
  intros Hx Ht. unfold __build_send_cfg_msg, read_h, mbind, M_bind. rewrite Hx. simpl.
  unfold ext. change (nfnl_addattr _ _ _) with (config_msg x command num). by rewrite Ht.
Qed.

(** ** Operations *)

Lemma rcv_pkt_spec {Msg} (run : CB → handle → Msg → D → M lib Z) L h l B res_id (msg : Msg) :
  serves L h l B →
  match B !! ntohs res_id with
  | Some (Some cb, data) => ∃ q, q ∈ l ∧ __nfq_rcv_pkt run h res_id msg L = run cb q msg data L
  | _ => __nfq_rcv_pkt run h res_id msg L = Ok (- ENODEV) L
  end.
Proof.
  intros Hs. pose proof (find_qh_bound L h l B (ntohs res_id) Hs) as Hf.
  unfold __nfq_rcv_pkt, read_q, mbind, M_bind. destruct (B !! ntohs res_id) as [[cb data]|]; [|by rewrite Hf].
  destruct Hf as (q & x & Hq & Hx & _ & [= <- <-] & Hf). rewrite Hf. rewrite Hx. simpl.
  destruct (q_cb x); [|done]. by exists q.
Qed.

Lemma create_bound L h l B num cb data v : serves L h l B → B !! num = Some v →
  nfq_create_queue h num cb data L = Ok None L.
Proof.
  intros Hs Hv. pose proof (find_qh_bound L h l B num Hs) as Hf. rewrite Hv in Hf.
  destruct Hf as (q & x & _ & _ & _ & _ & Hf). unfold nfq_create_queue, mbind, M_bind. by rewrite Hf.
Qed.

(** The result of [malloc] is used without a look at it. *)
Lemma create_no_memory L h l B num cb data e : serves L h l B → B !! num = None →
  malloc_ok (lb_ext L) = Ok false e →
  nfq_create_queue h num cb data L = Fault NullDeref.
Proof.
  intros Hs Hv Hm. pose proof (find_qh_bound L h l B num Hs) as Hf. rewrite Hv in Hf.
  unfold nfq_create_queue, malloc, ext, mbind, M_bind. rewrite Hf. by rewrite Hm.
Qed.

(** A block outside of memory is in no list. *)
Lemma serves_fresh L h l B q : serves L h l B → lb_queues L !! q = None → q ∉ l.
Proof. intros [Hreg _] Hq Hin. destruct (reg_own _ _ _ Hreg q Hin) as (x & Hx & _). congruence. Qed.

(** A fresh queue handle put in front of the list. *)
Lemma add_serves L L' h l B x q num cb data :
  serves L h l B → lb_handles L !! h = Some x → B !! num = None → lb_queues L !! q = None →
  lb_handles L' = <[h := set_qh_list (Some q) x]> (lb_handles L) →
  lb_queues L' = <[q := NfqQHandle (qh_list x) h num cb data]> (lb_queues L) →
  serves L' h (q :: l) (<[num := (cb, data)]> B) ∧ others_kept h L L'.
Proof.
  intros Hs Hx Hnum Hq Hhs Hqs. pose proof (serves_fresh _ _ _ _ _ Hs Hq) as Hni.
  assert (Hkeep : ∀ a, a ∈ l → lb_queues L' !! a = lb_queues L !! a).
  { intros a Ha. rewrite Hqs, lookup_insert_ne; [done|]. set_solver. }
  assert (Hnew : lb_queues L' !! q = Some (NfqQHandle (qh_list x) h num cb data)).
  { rewrite Hqs. apply lookup_insert_eq. }
  assert (Hfresh : ∀ a w, a ∈ l → lb_queues L !! a = Some w → q_id w ≠ num).
  { intros a w Ha Hw <-. pose proof (proj2 (sv_bound _ _ _ _ Hs (q_id w) (q_cb w, q_data w))) as Hb.
    rewrite Hb in Hnum; [done|]. by exists a, w. }
  split; [|intros h' l' B' Hne Hs'; eapply serves_ext; [| |exact Hs']].
  - destruct Hs as [[Hnd (x' & Hx' & Hc) Hown Hids] Hb]. simplify_eq. split; [split|].
    + by apply NoDup_cons.
    + eexists. rewrite Hhs, lookup_insert_eq. split; [done|]. simpl. split; [done|].
      eexists. split; [exact Hnew|]. simpl. eapply qchain_ext; [|exact Hc]. intros a Ha. by rewrite Hkeep.
    + intros a [->|Ha]%elem_of_cons; [by eexists|]. rewrite Hkeep by done. by apply Hown.
    + intros a a' w w' [->|Ha]%elem_of_cons [->|Ha']%elem_of_cons; [done| | |];
        rewrite ?Hnew, ?Hkeep by done; [| |by apply Hids]; intros Hw Hw' Hid;
        [injection Hw as <-|injection Hw' as <-]; simpl in *; exfalso;
        [by apply (Hfresh a' w')|by apply (Hfresh a w)].
    + intros i v. rewrite lookup_insert_Some, Hb. setoid_rewrite elem_of_cons. split.
      * intros [[<- <-]|[Hi (a & w & Ha & Hw & Hid & Hv)]]; [eexists q, _; eauto|].
        exists a, w. rewrite Hkeep by done. eauto.
      * intros (a & w & [->|Ha] & Hw & Hid & Hv); [left; by simplify_eq|right].
        rewrite Hkeep in Hw by done. split; [|by exists a, w]. intros ->. by eapply Hfresh.
  - by rewrite Hhs, lookup_insert_ne.
  - intros a Ha. rewrite Hqs, lookup_insert_ne; [done|].
    intros <-. by eapply serves_fresh.
Qed.

Lemma create_spec L h l B x num cb data e1 r e2 :
  serves L h l B → lb_handles L !! h = Some x → B !! num = None →
  malloc_ok (lb_ext L) = Ok true e1 →
  nfnl_talk (nfnlh x) (config_msg x NFQNL_CFG_CMD_BIND num) e1 = Ok r e2 →
  if r <? 0 then
    ∃ L', nfq_create_queue h num cb data L = Ok None L' ∧ lb_errno L' = r ∧
      serves L' h l B ∧ others_kept h L L'
  else
    ∃ q L', nfq_create_queue h num cb data L = Ok (Some q) L' ∧ q ∉ l ∧
      serves L' h (q :: l) (<[num := (cb, data)]> B) ∧ others_kept h L L'.
Proof.
  intros Hs Hx Hv Hm Ht. pose proof (find_qh_bound L h l B num Hs) as Hf. rewrite Hv in Hf.
  set (q := fresh (dom (lb_queues (set_ext e1 L)))).
  assert (lb_queues L !! q = None) as Hq by apply not_elem_of_dom, (is_fresh (dom (lb_queues (set_ext e1 L)))).
  unfold nfq_create_queue. rewrite (bind_eq _ _ _ _ _ Hf).
  rewrite (bind_eq _ _ _ (Some q) (set_ext e1 L)) by (unfold malloc, ext, mbind, M_bind; by rewrite Hm).
  rewrite (bind_eq _ _ _ q (set_ext e1 L)) by done.
  erewrite bind_eq by done. erewrite bind_eq by (eapply build_send_spec; [exact Hx|exact Ht]).
  destruct (r <? 0).
  - eexists. split; [done|]. split; [done|].
    split; [|intros h' l' B' _ Hs'; eapply serves_ext; [| |exact Hs']]; [eapply serves_ext; [| |exact Hs]|..];
      simpl; try done; intros a Ha; by rewrite delete_insert_eq, delete_id.
  - unfold add_qh, read_q, read_h, mbind, M_bind. cbn. rewrite lookup_insert_eq. cbn. rewrite Hx. cbn.
    eexists q, _. split; [done|]. split; [by eapply serves_fresh|].
    eapply add_serves; try done. by rewrite insert_insert_eq.
Qed.

Lemma del_qh_spec L h l1 q l2 y :
  registry L h (l1 ++ q :: l2) → lb_queues L !! q = Some y →
  del_qh q L = Ok tt (unlinked_after (last l1) y L).
Proof.
  intros Hreg Hq. assert (q_h y = h) as Hyh.
  { destruct (reg_own _ _ _ Hreg q) as (? & ? & ?); [set_solver|]. by simplify_eq. }
  pose proof (reg_nodup _ _ _ Hreg) as Hnd. destruct (reg_chain _ _ _ Hreg) as (x & Hx & Hc).
  pose proof (qchain_size _ _ _ Hc Hnd) as Hlen. rewrite length_app in Hlen. simpl in Hlen.
  unfold del_qh, read_q, read_h, q_rounds. erewrite bind_eq by (by rewrite Hq).
  erewrite bind_eq by (by rewrite Hyh, Hx). erewrite bind_eq by done.
  erewrite (del_qh_loop_spec L q y l2 l1); [by destruct (last l1)|done|by rewrite Hyh, Hx|done| |lia|done].
  apply NoDup_app in Hnd. set_solver.
Qed.

(** Giving the memory of [q] back once it is in no list. *)
Lemma serves_free L h l B q : serves L h l B → q ∉ l →
  serves (set_queues (delete q (lb_queues L)) L) h l B.
Proof.
  intros Hs Hq. eapply serves_ext; [| |exact Hs]; [done|]. intros a Ha. simpl.
  rewrite lookup_delete_ne; [done|]. set_solver.
Qed.

Lemma unlink_serves L h l1 q l2 B y :
  serves L h (l1 ++ q :: l2) B → lb_queues L !! q = Some y →
  let L' := unlinked_after (last l1) y L in
  serves L' h (l1 ++ l2) (delete (q_id y) B) ∧ others_kept h L L'.
Proof.
  intros Hs Hq L'. destruct (unlink_registry L h l1 q l2 y (sv_registry _ _ _ _ Hs) Hq)
    as (Hreg & Hq' & _ & Hnext & Hkeep & Hhs). split; [split; [done|]|].
  - pose proof (reg_nodup _ _ _ (sv_registry _ _ _ _ Hs)) as Hnd.
    assert (q ∉ l1 ++ l2) as Hni.
    { apply NoDup_app in Hnd as (_ & ? & [??]%NoDup_cons). set_solver. }
    pose proof (reg_ids _ _ _ (sv_registry _ _ _ _ Hs)) as Hids.
    assert (Hback : ∀ a w, a ∈ l1 ++ l2 → lb_queues L !! a = Some w → q_id w ≠ q_id y).
    { intros a w Ha Hw Hid. assert (a = q) as -> by (eapply Hids; [set_solver|set_solver|done|done|done]).
      done. }
    intros i v. rewrite lookup_delete_Some, (sv_bound _ _ _ _ Hs). split.
    + intros [Hi (a & w & Ha & Hw & Hid & Hv)].
      assert (a ≠ q) as Haq by (intros ->; simplify_eq).
      destruct (Hnext a w Haq Hw) as [p Hw']. exists a, (set_q_next p w).
      split; [set_solver|]. by split_and!.
    + intros (a & w' & Ha & Hw' & Hid & Hv). assert (a ≠ q) as Haq by (by intros ->).
      destruct (reg_own _ _ _ (sv_registry _ _ _ _ Hs) a) as (w & Hw & _); [set_solver|].
      destruct (Hnext a w Haq Hw) as [p Hw'']. fold L' in Hw''. rewrite Hw' in Hw''. simplify_eq.
      split; [exact (not_eq_sym (Hback a w Ha Hw))|]. exists a, w. by split_and!; [set_solver|..].
  - intros h' l' B' Hne Hs'. eapply serves_ext; [| |exact Hs']; [by apply Hhs|].
    intros a Ha. apply Hkeep. intros Ha1.
    eapply (registry_disjoint L h' h l' (l1 ++ q :: l2)); [apply Hs'|apply Hs|done|done|set_solver].
Qed.

Lemma destroy_spec L h l B q x y r e :
  serves L h l B → q ∈ l → lb_handles L !! h = Some x → lb_queues L !! q = Some y →
  nfnl_talk (nfnlh x) (config_msg x NFQNL_CFG_CMD_UNBIND (q_id y)) (lb_ext L) = Ok r e →
  ∃ L', nfq_destroy_queue q L = Ok r L' ∧ others_kept h L L' ∧
    if r =? 0 then serves L' h (unlink q l) (delete (q_id y) B) ∧ lb_queues L' !! q = None
    else serves L' h l B.
Proof.
  intros Hs Hin Hx Hy Ht. assert (q_h y = h) as Hyh.
  { destruct (reg_own _ _ _ (sv_registry _ _ _ _ Hs) q Hin) as (? & ? & ?). by simplify_eq. }
  unfold nfq_destroy_queue, read_q. erewrite bind_eq by (by rewrite Hy).
  erewrite bind_eq by (rewrite Hyh; eapply build_send_spec; [exact Hx|exact Ht]).
  assert (Hstep : ∀ h' l' B', serves L h' l' B' → serves (set_ext e L) h' l' B').
  { intros h' l' B'. by apply serves_ext. }
  destruct (r =? 0); simpl; [|exists (set_ext e L); split; [done|]; split; [|by apply Hstep];
    intros h' l' B' _; apply Hstep].
  apply list_elem_of_split in Hin as (l1 & l2 & ->). apply Hstep in Hs as Hs1.
  pose proof (reg_nodup _ _ _ (sv_registry _ _ _ _ Hs)) as Hnd. rewrite unlink_split by done.
  destruct (unlink_serves (set_ext e L) h l1 q l2 B y Hs1 Hy) as [Hs2 Hothers].
  erewrite bind_eq by (erewrite bind_eq by (eapply del_qh_spec; [apply Hs1|exact Hy]); done).
  eexists. split; [done|]. split; [|split; [apply serves_free; [exact Hs2|]|apply lookup_delete_eq]].
  - intros h' l' B' Hne Hs'. apply serves_free; [by apply Hothers, Hstep|].
    intros Hq'. eapply (registry_disjoint L h' h l'); [apply Hs'|apply Hs|done|done|set_solver].
  - apply NoDup_app in Hnd as (_ & ? & [??]%NoDup_cons). set_solver.
Qed.

(** A connection that was just opened has no queue. *)
Lemma open_spec L n ssh e1 e2 r e3 :
  malloc_ok (lb_ext L) = Ok true e1 →
  nfnl_subsys_open n NFNL_SUBSYS_QUEUE NFQNL_MSG_MAX 0 e1 = Ok (Some ssh) e2 →
  (∀ h, nfnl_callback_register ssh NFQNL_MSG_PACKET h e2 = Ok r e3) → 0 ≤ r →
  ∃ h L', nfq_open_nfnl n L = Ok (Some h) L' ∧ lb_handles L !! h = None ∧
    serves L' h [] ∅ ∧ others_kept h L L' ∧ lb_pkt_cb_data L' = Some h.
Proof.
  intros Hm Ho Hr Hpos. set (h := fresh (dom (lb_handles (set_ext e1 L)))).
  assert (lb_handles L !! h = None) as Hh by apply not_elem_of_dom, (is_fresh (dom (lb_handles (set_ext e1 L)))).
  unfold nfq_open_nfnl.
  rewrite (bind_eq _ _ _ (Some h) (set_ext e1 L)) by (unfold malloc, ext, mbind, M_bind; by rewrite Hm).
  erewrite bind_eq by done. erewrite bind_eq by (unfold ext; cbn; by rewrite Ho).
  cbv beta iota. erewrite bind_eq by done. erewrite bind_eq by done.
  erewrite bind_eq by (unfold ext; cbn; by rewrite Hr). cbn.
  destruct (Z.ltb_spec r 0) as [?|_]; [lia|]. eexists h, _. split; [done|]. split; [done|].
  split; [|split; [|done]].
  - split; [split|]; cbn.
    + by apply NoDup_nil_2.
    + eexists. rewrite lookup_insert_eq. done.
    + by intros q ?%elem_of_nil.
    + by intros q q' x x' ?%elem_of_nil.
    + intros i v. rewrite lookup_empty. split; [done|]. by intros (q & x & ?%elem_of_nil & _).
  - intros h' l' B' Hne Hs'. eapply serves_ext; [| |exact Hs']; [|done]. cbn. by rewrite !lookup_insert_ne.
Qed.
End registry.
