(* ===== verification/StartupSpec.v ===== *)
(** * Start and end of the daemon's descriptors

    The library calls and system calls of start-up as weakest preconditions: what each does
    to the handles in memory and to the descriptor set, and which calls with which answers
    they make, whatever the system answers. *)

From S2P Require Export Startup Boot NfqLibSpec.

(** ** The calls to the system, and their answers *)

Inductive call :=
  | Malloc | Calloc | Getuid
  | Open | Subsys_open (n : handle) | Callback_register (s h : handle)
  | Talk (n : handle) (m : nlmsg)
  | Subsys_close (s : option handle) | Close (n : handle)
  | Socket (family type : Z) | Setsockopt (fd level option : Z)
  | Bind (fd address port : Z) | Listen (fd backlog : Z) | Close_fd (fd : Z)
  | Link | Addresses (i : Z).
Inductive answer :=
  | Int (r : Z)
  | Found (ok : bool)
  | Pointer (p : option handle)
  | Index (i : option Z)
  | Known (addresses : list (Z * Z))
  | Nothing.
Notation sys_event := (call * answer)%type.

(** What counts as a failure of the call. *)
Definition succeeded (ev : sys_event) : Prop :=
  match ev with
  | (Getuid, Int uid) => uid = 0
  | (_, Found ok) => ok = true
  | (_, Pointer p) => is_Some p
  | (_, Index i) => is_Some i
  | ((Callback_register _ _ | Talk _ _), Int r) => 0 ≤ r
  | ((Socket _ _ | Setsockopt _ _ _ | Bind _ _ _ | Listen _ _), Int r) => r ≠ -1
  | _ => True
  end.

(** The calls [cs], all successful. *)
Definition made (cs : list call) (tr : list sys_event) : Prop := map fst tr = cs ∧ Forall succeeded tr.

(** The first calls of [cs] up to one that fails; behind it connections are closed at most. *)
Definition refused (cs : list call) (tr : list sys_event) : Prop :=
  ∃ before bad after, tr = before ++ bad :: after ∧ Forall succeeded before ∧ ¬ succeeded bad ∧
    map fst (before ++ [bad]) `prefix_of` cs ∧
    Forall (λ ev, match ev.1 with Subsys_close _ | Close _ => True | _ => False end) after.

(** The descriptors handed out. *)
Definition descriptors `{Nfnetlink E} (tr : list sys_event) : list Z :=
  omap (λ ev, match ev with
    | (Socket _ _, Int fd) => Some fd
    | (Open, Pointer (Some n)) => Some (nfnl_fd n)
    | _ => None
    end) tr.

(** What the code does not look at, after calls that were all successful: the answer of the
    second [malloc], and that a descriptor fits into an [fd_set]. *)
Definition crash `{Nfnetlink E} (f : fault) (tr : list sys_event) : Prop :=
  match f with
  | NullDeref => ∃ before, tr = before ++ [(Malloc, Found false)] ∧
      Forall succeeded before ∧ (Malloc, Found true) ∈ before
  | OutOfBounds => Forall succeeded tr ∧ ∃ fd, fd ∈ descriptors tr ∧ FD_SETSIZE ≤ fd
  | _ => False
  end.

Lemma made_app cs1 cs2 tr1 tr2 : made cs1 tr1 → made cs2 tr2 → made (cs1 ++ cs2) (tr1 ++ tr2).
Proof. intros [<- H1] [<- H2]. split; [by rewrite map_app|by apply Forall_app]. Qed.
Lemma refused_behind cs1 cs2 tr1 tr2 : made cs1 tr1 → refused cs2 tr2 → refused (cs1 ++ cs2) (tr1 ++ tr2).
Proof.
  intros [<- H1] (b & bad & a & -> & Hb & Hbad & Hpre & Ha). exists (tr1 ++ b), bad, a.
  split; [by rewrite <-app_assoc|]. split; [by apply Forall_app|]. split; [done|]. split; [|done].
  rewrite <-app_assoc, map_app. by apply prefix_app.
Qed.
Lemma refused_longer cs cs' tr : refused cs tr → refused (cs ++ cs') tr.
Proof.
  intros (b & bad & a & ? & ? & ? & ? & ?). exists b, bad, a. split_and!; try done. by apply prefix_app_r.
Qed.
Lemma crash_behind `{Nfnetlink E} f cs tr1 tr2 : made cs tr1 → crash f tr2 → crash f (tr1 ++ tr2).
Proof.
  intros [_ H1]. destruct f; simpl; try done.
  - intros (b & -> & Hb & Hin). exists (tr1 ++ b). split; [by rewrite <-app_assoc|].
    split; [by apply Forall_app|]. apply elem_of_app. by right.
  - intros (Hb & fd & Hfd & Hle). split; [by apply Forall_app|]. exists fd. split; [|done].
    unfold descriptors. rewrite omap_app. apply elem_of_app. by right.
Qed.

(** ** The system *)

(** The call [m] returns, with a result that satisfies [P]. *)
Definition answers {E X} (m : M E X) (P : X → Prop) : Prop :=
  ∀ e, ∃ r e', m e = Ok r e' ∧ P r.
Definition any {X} (x : X) : Prop := True.
Definition is_descriptor (fd : Z) : Prop := 0 ≤ fd < 2 ^ 31.

(** What the specifications rely on: every call returns, and -1 is the only result of
    [socket] that is no descriptor. *)
Class System (E : Type) `{Nfnetlink E, Os E, Rtnl E} : Prop := {
  as_malloc : answers malloc_ok any;
  as_open : answers nfnl_open any;
  as_close n : answers (nfnl_close n) any;
  as_subsys_open n : answers (nfnl_subsys_open n NFNL_SUBSYS_QUEUE NFQNL_MSG_MAX 0) any;
  as_subsys_close s : answers (nfnl_subsys_close s) any;
  as_register s h : answers (nfnl_callback_register s NFQNL_MSG_PACKET h) any;
  as_talk n m : answers (nfnl_talk n m) any;
  as_fd n : is_descriptor (nfnl_fd n);
  as_getuid : answers os_getuid any;
  as_calloc : answers os_calloc any;
  as_socket f t : answers (os_socket f t) (λ fd, fd = -1 ∨ is_descriptor fd);
  as_setsockopt fd l o : answers (os_setsockopt fd l o) any;
  as_bind fd a p : answers (os_bind fd a p) any;
  as_listen fd n : answers (os_listen fd n) any;
  as_close_fd fd : answers (os_close fd) any;
  as_link : answers rtnl_link_get_by_name any;
  as_addresses i : answers (rtnl_addresses i) any }.

Section system.
Context {E : Type} `{System E}.
Implicit Types (e : E) (tr : list sys_event).

(** A call, and its answer in one type. *)
Definition perform (c : call) : M E answer :=
  match c with
  | Malloc => ok ← malloc_ok; mret (Found ok)
  | Calloc => ok ← os_calloc; mret (Found ok)
  | Getuid => uid ← os_getuid; mret (Int uid)
  | Open => n ← nfnl_open; mret (Pointer n)
  | Subsys_open n => s ← nfnl_subsys_open n NFNL_SUBSYS_QUEUE NFQNL_MSG_MAX 0; mret (Pointer s)
  | Callback_register s h => r ← nfnl_callback_register s NFQNL_MSG_PACKET h; mret (Int r)
  | Talk n m => r ← nfnl_talk n m; mret (Int r)
  | Subsys_close s => _ ← nfnl_subsys_close s; mret Nothing
  | Close n => r ← nfnl_close n; mret (Int r)
  | Socket f t => fd ← os_socket f t; mret (Int fd)
  | Setsockopt fd l o => r ← os_setsockopt fd l o; mret (Int r)
  | Bind fd a p => r ← os_bind fd a p; mret (Int r)
  | Listen fd n => r ← os_listen fd n; mret (Int r)
  | Close_fd fd => r ← os_close fd; mret (Int r)
  | Link => i ← rtnl_link_get_by_name; mret (Index i)
  | Addresses i => l ← rtnl_addresses i; mret (Known l)
  end.

(** The calls of [tr], made one after the other on [e], get the answers of [tr] and end in
    [e']. *)
Fixpoint performed e tr e' : Prop :=
  match tr with
  | [] => e' = e
  | (c, a) :: tr => ∃ e1, perform c e = Ok a e1 ∧ performed e1 tr e'
  end.

Lemma performed_snoc e tr c a e1 e2 :
  performed e tr e1 → perform c e1 = Ok a e2 → performed e (tr ++ [(c, a)]) e2.
Proof.
  intros Htr Hc. revert e Htr. induction tr as [|[c1 a1] tr IH]; intros e; simpl.
  - intros ->. by exists e2.
  - intros (e3 & ? & ?). exists e3. split; [done|]. by apply IH.
Qed.

(** [m] is the call [c]: it returns, with a result that satisfies [P]. *)
Definition calls {X} (m : M E X) (c : call) (a : X → answer) (P : X → Prop) : Prop :=
  ∀ e, ∃ r e', m e = Ok r e' ∧ P r ∧ perform c e = Ok (a r) e'.

#[local] Ltac by_law L := intros e; destruct (L e) as (r & e' & Hr & HP); exists r, e';
  split; [exact Hr|split; [exact HP|simpl; unfold mbind, M_bind; by rewrite Hr]].
Lemma sy_malloc : calls malloc_ok Malloc Found any.
Proof. by_law as_malloc. Qed.
Lemma sy_open : calls nfnl_open Open Pointer any.
Proof. by_law as_open. Qed.
Lemma sy_close n : calls (nfnl_close n) (Close n) Int any.
Proof. by_law (as_close n). Qed.
Lemma sy_subsys_open n :
  calls (nfnl_subsys_open n NFNL_SUBSYS_QUEUE NFQNL_MSG_MAX 0) (Subsys_open n) Pointer any.
Proof. by_law (as_subsys_open n). Qed.
Lemma sy_subsys_close s : calls (nfnl_subsys_close s) (Subsys_close s) (λ _, Nothing) any.
Proof. by_law (as_subsys_close s). Qed.
Lemma sy_register s h :
  calls (nfnl_callback_register s NFQNL_MSG_PACKET h) (Callback_register s h) Int any.
Proof. by_law (as_register s h). Qed.
Lemma sy_talk n m : calls (nfnl_talk n m) (Talk n m) Int any.
Proof. by_law (as_talk n m). Qed.
Lemma sy_getuid : calls os_getuid Getuid Int any.
Proof. by_law as_getuid. Qed.
Lemma sy_calloc : calls os_calloc Calloc Found any.
Proof. by_law as_calloc. Qed.
Lemma sy_socket f t : calls (os_socket f t) (Socket f t) Int (λ fd, fd = -1 ∨ is_descriptor fd).
Proof. by_law (as_socket f t). Qed.
Lemma sy_setsockopt fd l o : calls (os_setsockopt fd l o) (Setsockopt fd l o) Int any.
Proof. by_law (as_setsockopt fd l o). Qed.
Lemma sy_bind fd a p : calls (os_bind fd a p) (Bind fd a p) Int any.
Proof. by_law (as_bind fd a p). Qed.
Lemma sy_listen fd n : calls (os_listen fd n) (Listen fd n) Int any.
Proof. by_law (as_listen fd n). Qed.
Lemma sy_close_fd fd : calls (os_close fd) (Close_fd fd) Int any.
Proof. by_law (as_close_fd fd). Qed.
Lemma sy_link : calls rtnl_link_get_by_name Link Index any.
Proof. by_law as_link. Qed.
Lemma sy_addresses i : calls (rtnl_addresses i) (Addresses i) Known any.
Proof. by_law (as_addresses i). Qed.
End system.

(** ** Runs that may end with a fault

    [m] returns with [Q], or commits a fault that [F] allows. *)

Definition wpf {S A} (F : fault → Prop) (m : M S A) (Q : A → S → Prop) (s : S) : Prop :=
  match m s with Ok a s' => Q a s' | Fault f => F f end.

Section wpf_rules.
Context {S : Type} (F : fault → Prop).
Implicit Types s : S.

Lemma wpf_bind {A B} (m : M S A) (k : A → M S B) Q s :
  wpf F m (λ a, wpf F (k a) Q) s → wpf F (m ≫= k) Q s.
Proof. unfold wpf, mbind, M_bind. by destruct (m s). Qed.
Lemma wpf_mono {A} (m : M S A) (P Q : A → S → Prop) s :
  wpf F m P s → (∀ a s', P a s' → Q a s') → wpf F m Q s.
Proof. unfold wpf. destruct (m s); naive_solver. Qed.
Lemma wpf_when (b : bool) (m : M S unit) Q s :
  (b = true → wpf F m Q s) → (b = false → Q tt s) → wpf F (when b m) Q s.
Proof. destruct b; intros Ht Hf; [by apply Ht | by apply Hf]. Qed.
Lemma wp_wpf {A} (m : M S A) (Q : A → S → Prop) s : wp m Q s → wpf F m Q s.
Proof. unfold wp, wpf. by destruct (m s). Qed.
Lemma wpf_no_fault {A} (m : M S A) (Q : A → S → Prop) s : wpf (λ _, False) m Q s → wp m Q s.
Proof. done. Qed.
End wpf_rules.

Ltac wpf_step :=
  lazymatch goal with
  | |- wpf _ (mbind _ _) _ _ => apply wpf_bind
  | |- wpf _ (mret _) ?Q ?s => apply wp_wpf, wp_ret
  | |- wpf _ (gets _) _ _ => apply wp_wpf, wp_gets
  | |- wpf _ (modify _) _ _ => apply wp_wpf, wp_modify
  | |- wpf _ (when _ _) _ _ => apply wpf_when; intros ?
  end; cbv beta.
Ltac wpf_steps := repeat wpf_step.

(** ** The library *)

(** The configuration message with the command [cmd], for the queue [num] or the family [pf]. *)
Definition cfg_msg (s : handle) (cmd num pf : Z) : nlmsg :=
  NlMsg (Some s) AF_UNSPEC num NFQNL_MSG_CONFIG (Z.lor NLM_F_REQUEST NLM_F_ACK)
    [(NFQA_CFG_CMD, Config_cmd cmd (htons pf))].
(** The message of [nfq_set_mode]. *)
Definition mode_msg (s : handle) (num mode range : Z) : nlmsg :=
  NlMsg (Some s) AF_UNSPEC num NFQNL_MSG_CONFIG (Z.lor NLM_F_REQUEST NLM_F_ACK)
    [(NFQA_CFG_PARAMS, Config_params (htonl range) mode)].

Definition open_calls n s h : list call := [Open; Malloc; Subsys_open n; Callback_register s h].
Definition create_calls n s num : list call := [Malloc; Talk n (cfg_msg s NFQNL_CFG_CMD_BIND num 0)].

Section library.
Context {CB D E : Type} `{System E} (F : fault → Prop) (e0 : E).
Notation lib := (nfq_lib CB D E).
Implicit Types (L : lib) (h q n s : handle) (hs : gmap handle nfq_handle) (qs : gmap handle (nfq_q_handle CB D))
  (tr : list sys_event).

(** The handles in memory, and the calls made since [e0]. *)
Definition memory L hs qs tr : Prop := lb_handles L = hs ∧ lb_queues L = qs ∧ performed e0 tr (lb_ext L).

Lemma wpf_external {X} (m : M E X) c a P L hs qs tr (Q : X → lib → Prop) :
  calls m c a P → memory L hs qs tr →
  (∀ r L', P r → lb_handles L' = hs → lb_queues L' = qs → memory L' hs qs (tr ++ [(c, a r)]) → Q r L') →
  wpf F (ext m) Q L.
Proof.
  intros Hm (Hh & Hq & Htr) HQ. destruct (Hm (lb_ext L)) as (r & e & Hr & HP & He). unfold wpf, ext.
  rewrite Hr. apply HQ; [done..|]. split; [done|split; [done|]]. by eapply performed_snoc.
Qed.

Lemma wpf_read_h L hs qs tr h x (Q : nfq_handle → lib → Prop) :
  memory L hs qs tr → hs !! h = Some x → Q x L → wpf F (read_h h) Q L.
Proof. intros [<- _] Hx HQ. unfold wpf, read_h. by rewrite Hx. Qed.
Lemma wpf_read_q L hs qs tr q x (Q : nfq_q_handle CB D → lib → Prop) :
  memory L hs qs tr → qs !! q = Some x → Q x L → wpf F (read_q q) Q L.
Proof. intros (_ & <- & _) Hx HQ. unfold wpf, read_q. by rewrite Hx. Qed.

Lemma wpf_malloc_h L hs qs tr (Q : option handle → lib → Prop) :
  memory L hs qs tr →
  (∀ L', memory L' hs qs (tr ++ [(Malloc, Found false)]) → Q None L') →
  (∀ a L', hs !! a = None → memory L' hs qs (tr ++ [(Malloc, Found true)]) → Q (Some a) L') →
  wpf F (malloc lb_handles) Q L.
Proof.
  intros Hmem Hno HQ. unfold malloc. wpf_steps. eapply wpf_external; [apply sy_malloc|done|].
  intros [] L' _ Hh Hq HL; wpf_steps; [|by apply Hno]. apply HQ; [|done].
  rewrite <-Hh. apply not_elem_of_dom, is_fresh.
Qed.
Lemma wpf_malloc_q L hs qs tr (Q : option handle → lib → Prop) :
  memory L hs qs tr →
  (∀ L', memory L' hs qs (tr ++ [(Malloc, Found false)]) → Q None L') →
  (∀ a L', qs !! a = None → memory L' hs qs (tr ++ [(Malloc, Found true)]) → Q (Some a) L') →
  wpf F (malloc lb_queues) Q L.
Proof.
  intros Hmem Hno HQ. unfold malloc. wpf_steps. eapply wpf_external; [apply sy_malloc|done|].
  intros [] L' _ Hh Hq HL; wpf_steps; [|by apply Hno]. apply HQ; [|done].
  rewrite <-Hq. apply not_elem_of_dom, is_fresh.
Qed.

(** A message about the configuration: the kernel's answer is the result. *)
Lemma build_send_wp L hs qs tr h n s l command num pf (Q : Z → lib → Prop) :
  memory L hs qs tr → hs !! h = Some (NfqHandle n (Some s) l) →
  (∀ r L', memory L' hs qs (tr ++ [(Talk n (cfg_msg s command num pf), Int r)]) → Q r L') →
  wpf F (__build_send_cfg_msg h command num pf) Q L.
Proof.
  intros Hmem Hx HQ. unfold __build_send_cfg_msg. wpf_steps. eapply wpf_read_h; [done|done|]. cbv zeta.
  eapply wpf_external; [apply sy_talk|done|]. intros r L' _ _ _. apply HQ.
Qed.
Lemma set_mode_wp L hs qs tr h q n s l nx num cb data mode range (Q : Z → lib → Prop) :
  memory L hs qs tr → hs !! h = Some (NfqHandle n (Some s) l) → qs !! q = Some (NfqQHandle nx h num cb data) →
  (∀ r L', memory L' hs qs (tr ++ [(Talk n (mode_msg s num mode range), Int r)]) → Q r L') →
  wpf F (nfq_set_mode q mode range) Q L.
Proof.
  intros Hmem Hx Hy HQ. unfold nfq_set_mode, send_config. wpf_steps. eapply wpf_read_q; [done|done|]. wpf_steps.
  eapply wpf_read_h; [done|done|]. cbv zeta.
  eapply wpf_external; [apply sy_talk|done|]. intros r L' _ _ _. apply HQ.
Qed.

(** A first failing call at the end of the list. *)
Lemma refused_here cs tr c a after : ¬ succeeded (c, a) → map fst tr ++ [c] `prefix_of` cs → Forall succeeded tr →
  Forall (λ ev, match ev.1 with Subsys_close _ | Close _ => True | _ => False end) after →
  refused cs (tr ++ (c, a) :: after).
Proof. intros Hbad Hpre Htr Ha. exists tr, (c, a), after. split_and!; try done. by rewrite map_app. Qed.

#[local] Ltac all_ok := repeat (apply Forall_cons_2; [cbn; first [done | by eexists | lia]|]); apply Forall_nil_2.
#[local] Ltac refuse l := apply (refused_here _ l);
  [simpl; first [lia | by intros [? ?] | done]|eexists; reflexivity|all_ok..].

(** Opening a connection allocates its handle; when a call fails, nothing stays behind. *)
Lemma nfq_open_wp L hs qs tr (Q : option handle → lib → Prop) :
  memory L hs qs tr →
  (∀ L' n s h tr', refused (open_calls n s h) tr' → memory L' hs qs (tr ++ tr') → Q None L') →
  (∀ h n s L' tr', hs !! h = None → made (open_calls n s h) tr' → (Open, Pointer (Some n)) ∈ tr' →
    (Malloc, Found true) ∈ tr' →
    memory L' (<[h := NfqHandle n (Some s) None]> hs) qs (tr ++ tr') → Q (Some h) L') →
  wpf F nfq_open Q L.
Proof.
  intros Hmem Hnone Hsome. unfold nfq_open. wpf_steps. eapply wpf_external; [apply sy_open|done|].
  clear L Hmem. intros [n|] L _ _ _ Hmem; wpf_steps.
  2:{ eapply (Hnone _ 1%positive 1%positive 1%positive); [|exact Hmem]. refuse (@nil sys_event). }
  unfold nfq_open_nfnl. wpf_steps. eapply wpf_malloc_h; [done| |].
  { clear L Hmem. intros L Hmem. wpf_steps. eapply wpf_external; [apply sy_close|done|].
    clear L Hmem. intros r L _ _ _ Hmem. wpf_steps. rewrite <-!app_assoc in Hmem.
    eapply (Hnone _ n 1%positive 1%positive); [|exact Hmem].
    refuse [(Open, Pointer (Some n))]. }
  clear L Hmem. intros h L1 Hfree (Hh & Hq & Htr). unfold write_h, free_h. wpf_steps.
  eapply (wpf_external _ _ _ _ _ (<[h := NfqHandle n None None]> hs) qs); [apply sy_subsys_open| |].
  { split; [by rewrite <-Hh|done]. }
  clear L1 Hh Hq Htr. intros [s|] L1 _ _ _ (Hh & Hq & Htr); wpf_steps.
  - eapply (wpf_external _ _ _ _ _ (<[h := NfqHandle n (Some s) None]> hs) qs); [apply sy_register| |].
    { split; simpl; [by rewrite Hh, insert_insert_eq|done]. }
    clear L1 Hh Hq Htr. intros r L2 _ _ _ Hmem. destruct (Z.ltb_spec r 0); wpf_steps.
    + eapply (wpf_external _ _ _ _ _ (<[h := NfqHandle n (Some s) None]> hs) qs); [apply sy_subsys_close|exact Hmem|].
      clear L2 Hmem. intros _ L3 _ _ _ (Hh & Hq & Htr). wpf_steps.
      eapply (wpf_external _ _ _ _ _ hs qs); [apply sy_close| |].
      { split; simpl; [by rewrite Hh, delete_insert_eq, delete_id|done]. }
      clear L3 Hh Hq Htr. intros r' L4 _ _ _ Hmem. wpf_steps. rewrite <-!app_assoc in Hmem.
      eapply (Hnone _ n s h); [|exact Hmem].
      refuse [(Open, Pointer (Some n)); (Malloc, Found true); (Subsys_open n, Pointer (Some s))].
    + rewrite <-!app_assoc in Hmem. eapply (Hsome h n s); [done| | | |exact Hmem]; simpl; [|set_solver..].
      split; [done|all_ok].
  - eapply (wpf_external _ _ _ _ _ hs qs); [apply sy_close| |].
    { split; simpl; [by rewrite Hh, delete_insert_eq, delete_id|done]. }
    clear L1 Hh Hq Htr. intros r' L4 _ _ _ Hmem. wpf_steps. rewrite <-!app_assoc in Hmem.
    eapply (Hnone _ n 1%positive 1%positive); [|exact Hmem].
    refuse [(Open, Pointer (Some n)); (Malloc, Found true)].
Qed.

(** The first queue of a connection; [F] has to allow for a failing [malloc]. *)
Lemma create_first_wp L hs qs tr h n s num cb data (Q : option handle → lib → Prop) :
  memory L hs qs tr → hs !! h = Some (NfqHandle n (Some s) None) →
  (∀ L', memory L' hs qs (tr ++ [(Malloc, Found false)]) → F NullDeref) →
  (∀ L' tr', refused (create_calls n s num) tr' → memory L' hs qs (tr ++ tr') → Q None L') →
  (∀ q L' tr', qs !! q = None → made (create_calls n s num) tr' →
     memory L' (<[h := NfqHandle n (Some s) (Some q)]> hs) (<[q := NfqQHandle None h num cb data]> qs) (tr ++ tr') →
     Q (Some q) L') →
  wpf F (nfq_create_queue h num cb data) Q L.
Proof.
  intros Hmem Hx Hcrash Hnone Hsome. unfold nfq_create_queue, find_qh, q_rounds. wpf_steps.
  eapply wpf_read_h; [done|done|]. wpf_steps. cbn. wpf_steps.
  eapply wpf_malloc_q; [done| |]. { intros L1 HL1. cbn. by eapply Hcrash. }
  intros q L1 Hfree (Hh & Hq & Htr). cbn [demand]. unfold write_q, free_q. wpf_steps.
  eapply (build_send_wp _ hs (<[q := NfqQHandle None h num cb data]> qs)); [split; simpl; [done|by rewrite Hq]|done|].
  clear L Hmem. intros r L2 (Hh2 & Hq2 & Htr2). destruct (Z.ltb_spec r 0); wpf_steps.
  - rewrite <-app_assoc in Htr2. eapply Hnone; [|split; [done|split; [|exact Htr2]]].
    + refuse [(Malloc, Found true)].
    + simpl. by rewrite Hq2, delete_insert_eq, delete_id.
  - unfold add_qh. wpf_steps. eapply wpf_read_q; [split; [done|split; [done|done]]|apply lookup_insert_eq|]. wpf_steps.
    eapply wpf_read_h; [split; [done|split; [done|done]]|done|]. unfold write_q, write_h. wpf_steps.
    rewrite <-app_assoc in Htr2. eapply Hsome; [done| |split; simpl; [by rewrite Hh2|split; [|exact Htr2]]].
    + split; [done|all_ok].
    + simpl. by rewrite Hq2, insert_insert_eq.
Qed.

(** The only queue of a connection is given up when the kernel agrees. *)
Lemma destroy_only_wp L hs qs tr h n s q num cb data (Q : Z → lib → Prop) :
  memory L hs qs tr → hs !! h = Some (NfqHandle n (Some s) (Some q)) → qs !! q = Some (NfqQHandle None h num cb data) →
  (∀ r L', memory L' (if r =? 0 then <[h := NfqHandle n (Some s) None]> hs else hs)
     (if r =? 0 then delete q qs else qs)
     (tr ++ [(Talk n (cfg_msg s NFQNL_CFG_CMD_UNBIND num 0), Int r)]) → Q r L') →
  wpf F (nfq_destroy_queue q) Q L.
Proof.
  intros Hmem Hx Hy HQ. unfold nfq_destroy_queue. wpf_steps. eapply wpf_read_q; [done|done|]. wpf_steps.
  eapply build_send_wp; [done|done|]. clear L Hmem. intros r L HL. specialize (HQ r). wpf_steps.
  - rewrite H3 in HQ. unfold del_qh, q_rounds. wpf_steps. eapply wpf_read_q; [done|done|]. wpf_steps.
    eapply wpf_read_h; [done|done|]. wpf_steps. cbn. rewrite decide_True by done. wpf_steps.
    eapply wpf_read_q; [done|done|]. wpf_steps. eapply wpf_read_h; [done|done|].
    unfold write_h, free_q. wpf_steps. destruct HL as (Hh & Hq & Htr). apply HQ.
    split; simpl; [by rewrite Hh|by rewrite Hq].
  - rewrite H3 in HQ. by apply HQ.
Qed.

Lemma nfq_close_wp L hs qs tr h n (s : option handle) l (Q : Z → lib → Prop) :
  memory L hs qs tr → hs !! h = Some (NfqHandle n s l) →
  (∀ r L', memory L' (if r =? 0 then delete h hs else hs) qs
     (tr ++ [(Subsys_close s, Nothing); (Close n, Int r)]) → Q r L') → wpf F (nfq_close h) Q L.
Proof.
  intros Hmem Hx HQ. unfold nfq_close. wpf_steps. eapply wpf_read_h; [done|done|]. wpf_steps.
  eapply wpf_external; [apply sy_subsys_close|done|]. clear L Hmem. intros [] L _ _ _ Hmem. wpf_steps.
  eapply wpf_external; [apply sy_close|done|]. clear L Hmem. intros r L _ _ _ HL.
  rewrite <-app_assoc in HL. specialize (HQ r). unfold free_h. wpf_steps; rewrite H3 in HQ; [|by apply HQ].
  destruct HL as (Hh & Hq & Htr). apply HQ. split; simpl; [by rewrite Hh|done].
Qed.
End library.

(** ** The daemon's sockets *)

Definition nfqueue_calls n s h : list call :=
  open_calls n s h ++
  [Talk n (cfg_msg s NFQNL_CFG_CMD_PF_UNBIND 0 AF_INET); Talk n (cfg_msg s NFQNL_CFG_CMD_PF_BIND 0 AF_INET)] ++
  create_calls n s 0 ++ [Talk n (mode_msg s 0 NFQNL_COPY_PACKET 65535)].
Definition aodv_calls fd : list call :=
  [Socket AF_INET SOCK_DGRAM; Setsockopt fd SOL_SOCKET SO_BROADCAST; Setsockopt fd SOL_IP IP_RECVTTL;
   Bind fd INADDR_ANY (htons AODV_UDP_PORT)].
Definition comm_calls fd : list call :=
  [Socket AF_INET SOCK_STREAM; Setsockopt fd SOL_SOCKET SO_REUSEADDR; Bind fd INADDR_ANY (htons MESH_PORT);
   Listen fd 1].
Definition socket_calls n s h daemon_fd comm_fd : list call :=
  ([Getuid; Calloc] ++ nfqueue_calls n s h) ++ aodv_calls daemon_fd ++ comm_calls comm_fd.
(** The calls of [msh_data_init], in order; [i] is the index of the interface. *)
Definition start_calls n s h daemon_fd comm_fd i : list call :=
  socket_calls n s h daemon_fd comm_fd ++ [Link; Addresses i].
(** The calls of the sockets' part of [msh_data_shutdown], in order, with their answers. *)
Definition end_events n s daemon_fd comm_fd (r1 r2 r3 r4 : Z) : list sys_event :=
  [(Talk n (cfg_msg s NFQNL_CFG_CMD_UNBIND 0 0), Int r1); (Subsys_close (Some s), Nothing); (Close n, Int r2);
   (Close_fd daemon_fd, Int r3); (Close_fd comm_fd, Int r4)].

Section descriptors.
Context {E : Type} `{System E} (F : fault → Prop) (e0 : E).
Notation lib := (nfq_lib nfq_callback (option handle) E).
Implicit Types (s : startup E) (f : fds) (fd : Z) (tr : list sys_event).

Lemma wpf_nfq {X} (m : M lib X) (Q : X → startup E → Prop) s :
  wpf F m (λ r L, Q r (set_lib L s)) (su_lib s) → wpf F (nfq m) Q s.
Proof. unfold wpf, nfq. by destruct (m (su_lib s)). Qed.

(** A system call leaves everything but the external state alone. *)
Definition same_but_ext s s' : Prop := ∃ e, s' = set_lib (set_ext e (su_lib s)) s.
Lemma same_but_ext_refl s : same_but_ext s s.
Proof. exists (lb_ext (su_lib s)). by destruct s as [???????[]]. Qed.
(** The calls made since [e0]. *)
Definition told tr s : Prop := performed e0 tr (lb_ext (su_lib s)).

Lemma wpf_os {X} (m : M E X) c a P (Q : X → startup E → Prop) s0 s tr :
  calls m c a P → same_but_ext s0 s → told tr s →
  (∀ r s', P r → same_but_ext s0 s' → told (tr ++ [(c, a r)]) s' → Q r s') → wpf F (os m) Q s.
Proof.
  intros Hm [e1 ->] Htr HQ. apply wpf_nfq. destruct (Hm e1) as (r & e & Hr & HP & He).
  unfold wpf, ext. simpl. rewrite Hr. apply HQ; [done|by exists e|by eapply performed_snoc].
Qed.

(** The set with a descriptor more. *)
Definition with_fd fd f : fds := Fds (if maxfd f <? fd then fd else maxfd f) ({[fd]} ∪ readfds f).

Lemma register_fd_wp fd f s (Q : Z → startup E → Prop) :
  su_fds s = Some f → is_descriptor fd → (FD_SETSIZE ≤ fd → F OutOfBounds) →
  (fd < FD_SETSIZE → Q 0 (set_fds (Some (with_fd fd f)) s)) → wpf F (register_fd fd) Q s.
Proof.
  intros Hf [Hfd _] HF HQ. unfold register_fd. wpf_steps. rewrite Hf. cbn [demand]. wpf_steps.
  unfold FD_SET. destruct (Z.leb_spec 0 fd); [|lia]. destruct (Z.ltb_spec fd FD_SETSIZE).
  - cbn [andb demand]. wpf_steps. by apply HQ.
  - cbn. by apply HF.
Qed.

(** [maxfd] bounds the set, whose descriptors an [fd_set] holds. *)
Definition fds_ok f : Prop :=
  (∀ fd, fd ∈ readfds f → 0 ≤ fd ≤ maxfd f) ∧ 0 ≤ maxfd f < FD_SETSIZE.
Lemma fds_ok_empty : fds_ok (Fds 0 ∅).
Proof. by split; [set_solver|]. Qed.
Lemma fds_ok_with fd f : fds_ok f → 0 ≤ fd < FD_SETSIZE → fds_ok (with_fd fd f).
Proof.
  intros [Hin Hmax] Hfd. unfold with_fd. split; simpl.
  - intros x [->%elem_of_singleton|Hx%Hin]%elem_of_union; destruct (Z.ltb_spec (maxfd f) fd); lia.
  - destruct (Z.ltb_spec (maxfd f) fd); lia.
Qed.

Lemma fd_u32 fd : is_descriptor fd → u32 fd = fd ∧ s32 fd = fd.
Proof. unfold is_descriptor. intros. split; [apply u32_id; unfold is_u32; lia|apply s32_id; lia]. Qed.

(** The state after [nfqueue_init]. *)
Record queue_open hs qs n ssh h q s : Prop := {
  qo_h : hs !! h = None;
  qo_q : qs !! q = None;
  qo_handle : su_handle s = Some h;
  qo_queue : su_queue s = Some q;
  qo_netlink : su_netlink_handle s = Some n;
  qo_fd : su_nfqueue_fd s = nfnl_fd n;
  qo_handles : lb_handles (su_lib s) = <[h := NfqHandle n (Some ssh) (Some q)]> hs;
  qo_queues : lb_queues (su_lib s) = <[q := NfqQHandle None h 0 (Some fn_manage_packet) None]> qs }.

Lemma made_refused_1 cs c a r : r < 0 → (∃ n m, c = Talk n m) → a = Int r → refused (c :: cs) [(c, a)].
Proof.
  intros Hr (n & m & ->) ->. exists [], (Talk n m, Int r), []. split_and!; try done; [simpl; lia|].
  by exists cs.
Qed.

Lemma made_talk n m r : 0 ≤ r → made [Talk n m] [(Talk n m, Int r)].
Proof. intros Hr. split; [done|]. by apply Forall_singleton. Qed.

Lemma nfqueue_init_wp hs qs tr s f : memory e0 (su_lib s) hs qs tr → su_fds s = Some f →
  (∀ e tr' fault, performed e0 (tr ++ tr') e → crash fault tr' → F fault) →
  wpf F nfqueue_init (λ r s', ∃ n ssh h tr', told (tr ++ tr') s' ∧
    (r = ERR_INIT ∧ refused (nfqueue_calls n ssh h) tr' ∨
     r = 0 ∧ made (nfqueue_calls n ssh h) tr' ∧ (∃ q, queue_open hs qs n ssh h q s') ∧
       0 ≤ nfnl_fd n < FD_SETSIZE ∧ su_fds s' = Some (with_fd (nfnl_fd n) f))) s.
Proof.
  intros Hmem Hf HF. unfold nfqueue_init. wpf_steps. apply wpf_nfq. eapply nfq_open_wp; [done| |].
  { intros L n ssh h tr' Hno HL. wpf_steps. exists n, ssh, h, tr'. split; [apply HL|]. left. split; [done|].
    by apply refused_longer. }
  intros h n ssh L1 tr1 Hh Hm1 Hin Hin1 HL1. wpf_steps. apply wpf_nfq. unfold nfq_unbind_pf, nfq_bind_pf.
  eapply build_send_wp; [exact HL1|apply lookup_insert_eq|]. intros r1 L2 HL2. rewrite <-app_assoc in HL2.
  destruct (Z.ltb_spec r1 0) as [Hr1|Hr1].
  { wpf_steps. eexists n, ssh, h, _. split; [apply HL2|]. left. split; [done|].
    eapply refused_behind; [done|]. apply (made_refused_1 _ _ _ r1); eauto. }
  pose proof (made_app _ _ _ _ Hm1 (made_talk n (cfg_msg ssh NFQNL_CFG_CMD_PF_UNBIND 0 AF_INET) _ Hr1)) as Hm2.
  wpf_steps. apply wpf_nfq.
  eapply build_send_wp; [exact HL2|apply lookup_insert_eq|]. intros r2 L3 HL3. rewrite <-app_assoc in HL3.
  destruct (Z.ltb_spec r2 0) as [Hr2|Hr2].
  { wpf_steps. eexists n, ssh, h, _. split; [apply HL3|]. left. split; [done|].
    eapply (refused_behind (open_calls n ssh h ++ [_])); [done|]. apply (made_refused_1 _ _ _ r2); eauto. }
  pose proof (made_app _ _ _ _ Hm2 (made_talk n (cfg_msg ssh NFQNL_CFG_CMD_PF_BIND 0 AF_INET) _ Hr2)) as Hm3.
  wpf_steps. apply wpf_nfq.
  eapply create_first_wp; [exact HL3|apply lookup_insert_eq| | |].
  { intros L HL. apply (HF (lb_ext L) ((tr1 ++ [(Talk n (cfg_msg ssh NFQNL_CFG_CMD_PF_UNBIND 0 AF_INET), Int r1)]) ++
      [(Talk n (cfg_msg ssh NFQNL_CFG_CMD_PF_BIND 0 AF_INET), Int r2)] ++ [(Malloc, Found false)])).
    - destruct HL as (_ & _ & HL). rewrite <-!app_assoc in *. exact HL.
    - eexists. rewrite app_assoc. split; [done|]. split; [apply Hm3|]. set_solver. }
  { intros L tr4 Hno HL. wpf_steps. eexists n, ssh, h, _. rewrite <-app_assoc in HL. split; [apply HL|]. left. split; [done|].
    unfold nfqueue_calls. rewrite (app_assoc (open_calls _ _ _) [_; _]). eapply refused_behind; [|by apply refused_longer].
    rewrite <-app_assoc in Hm3. exact Hm3. }
  intros q L4 tr4 Hq Hm4 HL4. rewrite insert_insert_eq in HL4. wpf_steps. apply wpf_nfq.
  eapply set_mode_wp; [exact HL4|apply lookup_insert_eq|apply lookup_insert_eq|]. intros r3 L5 HL5.
  rewrite <-!app_assoc in HL5.
  pose proof (made_app _ _ _ _ Hm3 Hm4) as Hm5.
  destruct (Z.ltb_spec r3 0) as [Hr3|Hr3].
  { wpf_steps. eexists n, ssh, h, _. split; [apply HL5|]. left. split; [done|].
    rewrite !app_assoc. unfold nfqueue_calls. rewrite (app_assoc (open_calls _ _ _) [_; _]), (app_assoc _ (create_calls _ _ _)).
    eapply refused_behind; [|apply (made_refused_1 _ _ _ r3); eauto].
    rewrite <-!app_assoc in Hm5. rewrite <-!app_assoc. exact Hm5. }
  pose proof (made_app _ _ _ _ Hm5 (made_talk n (mode_msg ssh 0 NFQNL_COPY_PACKET 65535) _ Hr3)) as Hm6.
  wpf_steps. apply wpf_nfq. unfold nfq_nfnlh. wpf_steps.
  eapply wpf_read_h; [exact HL5|apply lookup_insert_eq|]. wpf_steps. cbn [su_nfqueue_fd set_nfqueue_fd nfnlh].
  pose proof (as_fd n) as Hfd. destruct (fd_u32 _ Hfd) as [-> Hs]. rewrite Hs.
  rewrite <-!app_assoc in Hm6. rewrite !app_assoc in HL5. rewrite <-!app_assoc in HL5.
  eapply register_fd_wp; [done|done| |].
  { intros Hbig. eapply (HF (lb_ext L5)); [apply HL5|]. split; [apply Hm6|]. exists (nfnl_fd n). split; [|done].
    unfold descriptors. rewrite omap_app. apply elem_of_app. left. apply list_elem_of_omap. exists (Open, Pointer (Some n)). by split. }
  intros Hlt. wpf_steps. eexists n, ssh, h, _. split; [apply HL5|]. right. split; [done|]. split; [exact Hm6|].
  split; [|split; [unfold is_descriptor in Hfd; lia|done]]. exists q.
  destruct HL5 as (Hlh & Hlq & _). by split.
Qed.

(** A system call that makes the function return -1 when it fails. *)
Lemma wpf_os_check (m : M E Z) (k : M (startup E) Z) c P (Q : Z → startup E → Prop) s0 s tr cs cs' tr' :
  calls m c Int P → same_but_ext s0 s → told (tr ++ tr') s → made cs tr' →
  (∀ r, succeeded (c, Int r) ↔ r ≠ -1) →
  (∀ s' tr2, same_but_ext s0 s' → told (tr ++ tr2) s' → refused (cs ++ c :: cs') tr2 → Q (-1) s') →
  (∀ s' tr2, same_but_ext s0 s' → told (tr ++ tr2) s' → made (cs ++ [c]) tr2 → tr' `prefix_of` tr2 → wpf F k Q s') →
  wpf F (r ← os m; if r =? -1 then mret (-1) else k) Q s.
Proof.
  intros Hm Hs0 Htr Hmade Hc Hfail Hk. wpf_steps. eapply wpf_os; [exact Hm|exact Hs0|exact Htr|].
  intros r s' _ Hs'. rewrite <-app_assoc. intros Hs.
  destruct (Z.eqb_spec r (-1)) as [->|Hr].
  - wpf_steps. eapply Hfail; [done|exact Hs|]. eapply refused_behind; [done|].
    exists [], (c, Int (-1)), []. split_and!; try done; [by intros ?%Hc|by exists cs'].
  - eapply Hk; [done|exact Hs| |by eexists]. apply made_app; [done|]. split; [done|].
    apply Forall_singleton. by apply Hc.
Qed.

(** A socket that is set up: it becomes a descriptor of the set. *)
Definition registered (set : Z → startup E → startup E) f fd s s' : Prop :=
  ∃ s1, 0 ≤ fd < FD_SETSIZE ∧ same_but_ext s s1 ∧ s' = set_fds (Some (with_fd fd f)) (set fd s1).

(** The outcome of the set-up of a socket: the calls made, and the descriptor when none failed. *)
Definition socket_set_up cs (set : Z → startup E → startup E) tr f s (r : Z) s' : Prop :=
  ∃ fd tr', told (tr ++ tr') s' ∧
    (r = ERR_INIT ∧ refused (cs fd) tr' ∨ r = 0 ∧ made (cs fd) tr' ∧ registered set f fd s s').

Lemma descriptors_socket (family t : Z) fd tr tr' : [(Socket family t, Int fd)] `prefix_of` tr → tr `prefix_of` tr' → fd ∈ descriptors tr'.
Proof.
  intros [k1 ->] [k2 ->]. unfold descriptors. simpl. by left.
Qed.

Lemma aodv_socket_init_wp tr s f : su_fds s = Some f → told tr s →
  (∀ e tr' fault, performed e0 (tr ++ tr') e → crash fault tr' → F fault) →
  wpf F aodv_socket_init (socket_set_up aodv_calls set_daemon_fd tr f s) s.
Proof.
  intros Hf Htr HF. unfold aodv_socket_init. wpf_steps.
  eapply wpf_os; [apply sy_socket|apply same_but_ext_refl|exact Htr|]. intros fd s0 Hfd [e1 ->] Htr0. wpf_steps.
  destruct (Z.eqb_spec fd (-1)) as [->|Hne].
  { wpf_steps. exists 0. eexists. split; [exact Htr0|]. left. split; [done|]. exists [], (Socket AF_INET SOCK_DGRAM, Int (-1)), [].
    split_and!; try done; [by intros []|by eexists]. }
  destruct Hfd as [?|Hfd]; [done|]. destruct (fd_u32 fd Hfd) as [-> _]. set (s1 := set_daemon_fd _ _) in *.
  assert (made [Socket AF_INET SOCK_DGRAM] [(Socket AF_INET SOCK_DGRAM, Int fd)]) as Hm0
    by (split; [done|by apply Forall_singleton]).
  eapply wpf_os_check with (cs' := [_; _]); [apply sy_setsockopt|apply (same_but_ext_refl s1)|exact Htr0|exact Hm0|done| |].
  { intros s' tr2 _ Ht Hno. exists fd, tr2. split; [done|left; split; [done|exact Hno]]. }
  intros s2 tr2 Hs2 Ht2 Hm2 Hp2.
  eapply wpf_os_check with (cs' := [_]); [apply sy_setsockopt|exact Hs2|exact Ht2|exact Hm2|done| |].
  { intros s' tr3 _ Ht Hno. exists fd, tr3. split; [done|left; split; [done|exact Hno]]. }
  intros s3 tr3 Hs3 Ht3 Hm3 Hp3.
  eapply wpf_os_check with (cs' := []); [apply sy_bind|exact Hs3|exact Ht3|exact Hm3|done| |].
  { intros s' tr4 _ Ht Hno. exists fd, tr4. split; [done|left; split; [done|exact Hno]]. }
  intros s4 tr4 [e4 ->] Ht4 Hm4 Hp4. wpf_steps. eapply register_fd_wp; [done|done| |].
  { intros Hbig. eapply HF; [exact Ht4|]. split; [apply Hm4|]. exists fd. split; [|done].
    eapply descriptors_socket; [exact Hp2|]. by etrans. }
  intros Hlt. wpf_steps. exists fd, tr4. split; [exact Ht4|]. right. split; [done|]. split; [exact Hm4|].
  eexists. split; [unfold is_descriptor in Hfd; lia|]. split; [by exists e4|done].
Qed.

Lemma comm_interface_init_wp tr s f : su_fds s = Some f → told tr s →
  (∀ e tr' fault, performed e0 (tr ++ tr') e → crash fault tr' → F fault) →
  wpf F comm_interface_init (socket_set_up comm_calls set_comm_fd tr f s) s.
Proof.
  intros Hf Htr HF. unfold comm_interface_init. wpf_steps.
  eapply wpf_os; [apply sy_socket|apply same_but_ext_refl|exact Htr|]. intros fd s1 Hfd Hs1 Htr1.
  destruct (Z.eqb_spec fd (-1)) as [->|Hne].
  { wpf_steps. exists 0. eexists. split; [exact Htr1|]. left. split; [done|]. exists [], (Socket AF_INET SOCK_STREAM, Int (-1)), [].
    split_and!; try done; [by intros []|by eexists]. }
  destruct Hfd as [?|Hfd]; [done|].
  assert (made [Socket AF_INET SOCK_STREAM] [(Socket AF_INET SOCK_STREAM, Int fd)]) as Hm1
    by (split; [done|by apply Forall_singleton]).
  eapply wpf_os_check with (cs' := [_; _]); [apply sy_setsockopt|exact Hs1|exact Htr1|exact Hm1|done| |].
  { intros s' tr2 _ Ht Hno. exists fd, tr2. split; [done|left; split; [done|exact Hno]]. }
  intros s2 tr2 Hs2 Ht2 Hm2 Hp2.
  eapply wpf_os_check with (cs' := [_]); [apply sy_bind|exact Hs2|exact Ht2|exact Hm2|done| |].
  { intros s' tr3 _ Ht Hno. exists fd, tr3. split; [done|left; split; [done|exact Hno]]. }
  intros s3 tr3 Hs3 Ht3 Hm3 Hp3.
  eapply wpf_os_check with (cs' := []); [apply sy_listen|exact Hs3|exact Ht3|exact Hm3|done| |].
  { intros s' tr4 _ Ht Hno. exists fd, tr4. split; [done|left; split; [done|exact Hno]]. }
  intros s4 tr4 [e4 ->] Ht4 Hm4 Hp4. wpf_steps. destruct (fd_u32 fd Hfd) as [-> _].
  eapply register_fd_wp; [done|done| |].
  { intros Hbig. eapply HF; [exact Ht4|]. split; [apply Hm4|]. exists fd. split; [|done].
    eapply descriptors_socket; [exact Hp2|]. by etrans. }
  intros Hlt. wpf_steps. exists fd, tr4. split; [exact Ht4|]. right. split; [done|]. split; [exact Hm4|].
  eexists. split; [unfold is_descriptor in Hfd; lia|]. split; [by exists e4|done].
Qed.

(** What the sockets' part of [msh_data_init] leaves behind, on a library whose memory held
    [hs] and [qs]. *)
Record listening hs qs n ssh h daemon_fd comm_fd s : Prop := {
  li_queue : ∃ q, queue_open hs qs n ssh h q s;
  li_daemon : su_daemon_fd s = daemon_fd;
  li_comm : su_comm_fd s = comm_fd;
  li_range : is_descriptor daemon_fd ∧ is_descriptor comm_fd;
  li_fds : ∃ f, su_fds s = Some f ∧ fds_ok f ∧
    readfds f = {[comm_fd]} ∪ ({[daemon_fd]} ∪ {[nfnl_fd n]}) }.

Lemma msh_data_init_sockets_wp argc hs qs tr s : memory e0 (su_lib s) hs qs tr →
  (∀ e tr' fault, performed e0 (tr ++ tr') e → crash fault tr' → F fault) →
  wpf F (msh_data_init_sockets argc) (λ r s', ∃ n ssh h daemon_fd comm_fd tr', told (tr ++ tr') s' ∧
    match r with
    | Exits c => argc < 2 ∧ c = 1 ∧ tr' = []
    | Returns r => 2 ≤ argc ∧ r = ERR_INIT ∧ refused (socket_calls n ssh h daemon_fd comm_fd) tr'
    | Goes_on => 2 ≤ argc ∧ made (socket_calls n ssh h daemon_fd comm_fd) tr' ∧
        listening hs qs n ssh h daemon_fd comm_fd s'
    end) s.
Proof.
  intros Hmem HF. unfold msh_data_init_sockets. wpf_steps. destruct Hmem as (Hhs & Hqs & Htr).
  destruct (Z.ltb_spec argc 2); wpf_steps.
  { exists 1%positive, 1%positive, 1%positive, 0, 0, []. by rewrite app_nil_r. }
  eapply wpf_os; [apply sy_getuid|apply same_but_ext_refl|exact Htr|]. intros uid s1 _ Hs1 Htr1.
  destruct (Z.eqb_spec uid 0) as [->|Huid]; simpl; wpf_steps.
  2:{ exists 1%positive, 1%positive, 1%positive, 0, 0. eexists. split; [exact Htr1|]. split; [done|]. split; [done|].
    exists [], (Getuid, Int uid), []. split_and!; try done. by eexists. }
  unfold create_fds. wpf_steps. eapply wpf_os; [apply sy_calloc|exact Hs1|exact Htr1|]. intros ok s2 _ [e2 ->] Htr2.
  rewrite <-app_assoc in Htr2. destruct ok; wpf_steps.
  2:{ exists 1%positive, 1%positive, 1%positive, 0, 0. eexists. split; [exact Htr2|]. split; [done|]. split; [done|].
    exists [(Getuid, Int 0)], (Calloc, Found false), []. split_and!; try done; [by apply Forall_singleton|by eexists]. }
  assert (made [Getuid; Calloc] [(Getuid, Int 0); (Calloc, Found true)]) as Hm0 by (split; [done|by repeat constructor]).
  eapply wpf_mono; [eapply nfqueue_init_wp; [split; [exact Hhs|split; [exact Hqs|exact Htr2]]|done|]|].
  { intros e tr' fault He Hc. rewrite <-app_assoc in He. eapply HF; [exact He|]. by eapply crash_behind. }
  intros r s3 (n & ssh & h & tr3 & Htr3 & [[-> Hno]|(-> & Hm3 & Hq & Hfd3 & Hf3)]); simpl; wpf_steps; rewrite <-app_assoc in Htr3.
  { exists n, ssh, h, 0, 0. eexists. split; [exact Htr3|]. split; [done|]. split; [done|]. apply refused_longer.
    by eapply (refused_behind [_; _]). }
  pose proof (made_app _ _ _ _ Hm0 Hm3) as Hm4.
  eapply wpf_mono; [eapply aodv_socket_init_wp; [exact Hf3|exact Htr3|]|].
  { intros e tr' fault He Hc. rewrite <-app_assoc in He. eapply HF; [exact He|]. by eapply crash_behind. }
  intros r s4 (daemon_fd & tr4 & Htr4 & [[-> Hno]|(-> & Hm5 & Hr4)]); simpl; wpf_steps; rewrite <-app_assoc in Htr4.
  { exists n, ssh, h, daemon_fd, 0. eexists. split; [exact Htr4|]. split; [done|]. split; [done|].
    eapply (refused_behind ([_; _] ++ nfqueue_calls n ssh h)); [exact Hm4|]. by apply refused_longer. }
  pose proof (made_app _ _ _ _ Hm4 Hm5) as Hm6.
  eapply wpf_mono; [eapply comm_interface_init_wp; [|exact Htr4|]|].
  { by destruct Hr4 as (s5 & _ & [e5 ->] & ->). }
  { intros e tr' fault He Hc. rewrite <-app_assoc in He. eapply HF; [exact He|]. by eapply crash_behind. }
  intros r s6 (comm_fd & tr6 & Htr6 & [[-> Hno]|(-> & Hm7 & Hr6)]); simpl; wpf_steps; rewrite <-app_assoc in Htr6.
  { exists n, ssh, h, daemon_fd, comm_fd. eexists. split; [exact Htr6|]. split; [done|]. split; [done|].
    unfold socket_calls. rewrite app_assoc. by eapply refused_behind. }
  exists n, ssh, h, daemon_fd, comm_fd. eexists. split; [exact Htr6|]. split; [done|].
  split; [unfold socket_calls; rewrite app_assoc; by apply made_app|].
  destruct Hr4 as (s5 & Hfd5 & [e5 ->] & ->), Hr6 as (s7 & Hfd7 & [e7 ->] & ->), Hq as (q & Hq).
  split; [exists q; by destruct Hq|done|done|unfold is_descriptor, FD_SETSIZE in *; lia|].
  eexists. split; [done|]. split; [|simpl; set_solver].
  apply fds_ok_with, Hfd7. apply fds_ok_with, Hfd5. apply fds_ok_with, Hfd3. apply fds_ok_empty.
Qed.

(** Every call of the shutdown is made; a kernel that agrees has the handles freed. *)
Lemma msh_data_shutdown_sockets_wp hs qs tr n ssh daemon_fd comm_fd h s :
  listening hs qs n ssh h daemon_fd comm_fd s → told tr s →
  wpf F msh_data_shutdown_sockets (λ _ s', su_fds s' = None ∧ ∃ r1 r2 r3 r4,
    told (tr ++ end_events n ssh daemon_fd comm_fd r1 r2 r3 r4) s' ∧
    (r1 = 0 → lb_queues (su_lib s') = qs) ∧ (r2 = 0 → lb_handles (su_lib s') = hs)) s.
Proof.
  intros [(q & [Hh Hq Hsh Hsq _ _ Hhs Hqs]) Hd Hc [Hdr Hcr] _] Htr.
  unfold msh_data_shutdown_sockets, destroy_fds, nfqueue_shutdown, aodv_socket_shutdown, comm_interface_shutdown.
  wpf_steps. simpl. rewrite Hsq. wpf_steps. apply wpf_nfq. simpl.
  eapply destroy_only_wp; [split; [exact Hhs|split; [exact Hqs|exact Htr]]|apply lookup_insert_eq|apply lookup_insert_eq|].
  intros r1 L1 HL1. wpf_steps. simpl. rewrite Hsh. wpf_steps. apply wpf_nfq. simpl.
  eapply (nfq_close_wp _ _ _ _ _ _ _ n (Some ssh) (if r1 =? 0 then None else Some q));
    [exact HL1|destruct (r1 =? 0); apply lookup_insert_eq|].
  intros r2 L (HLh & HLq & HLt). rewrite <-app_assoc in HLt. wpf_steps. simpl. rewrite Hd, (proj2 (fd_u32 _ Hdr)).
  eapply wpf_os; [apply sy_close_fd|apply same_but_ext_refl|exact HLt|]. intros r3 s3 _ [e3 ->] Htr3. wpf_steps.
  simpl. rewrite Hc, (proj2 (fd_u32 _ Hcr)).
  eapply wpf_os; [apply sy_close_fd|apply same_but_ext_refl|exact Htr3|]. intros r4 s4 _ [e4 ->] Htr4. wpf_steps.
  split; [done|]. rewrite <-!app_assoc in Htr4. exists r1, r2, r3, r4. split; [exact Htr4|]. split.
  - intros ->. simpl. rewrite HLq. by rewrite delete_insert_eq, delete_id.
  - intros ->. simpl. rewrite HLh. destruct (r1 =? 0); simpl; [rewrite insert_insert_eq|];
      by rewrite delete_insert_eq, delete_id.
Qed.

(** The connection serves queue 0 with [manage_packet]. *)
Lemma listening_serves hs qs n ssh h daemon_fd comm_fd s : listening hs qs n ssh h daemon_fd comm_fd s →
  ∃ q, su_handle s = Some h ∧ su_queue s = Some q ∧
    serves (su_lib s) h [q] {[ 0 := (Some fn_manage_packet, None) ]}.
Proof.
  intros [(q & [Hh Hq Hsh Hsq _ _ Hhs Hqs]) _ _ _ _]. exists q.
  split; [done|]. split; [done|]. split; [split|].
  - apply NoDup_singleton.
  - eexists. rewrite Hhs, lookup_insert_eq. split; [done|]. simpl. split; [done|].
    eexists. rewrite Hqs, lookup_insert_eq. done.
  - intros a ->%list_elem_of_singleton. eexists. by rewrite Hqs, lookup_insert_eq.
  - by intros a a' x x' ->%list_elem_of_singleton ->%list_elem_of_singleton.
  - intros i v. rewrite lookup_singleton_Some. split.
    + intros [<- <-]. eexists q, _. split; [by left|]. by rewrite Hqs, lookup_insert_eq.
    + intros (a & x & ->%list_elem_of_singleton & Hx & <- & <-). rewrite Hqs, lookup_insert_eq in Hx. by simplify_eq.
Qed.
Lemma listening_fds hs qs n ssh h daemon_fd comm_fd s : listening hs qs n ssh h daemon_fd comm_fd s →
  ∃ f, su_fds s = Some f ∧ fds_ok f ∧ readfds f = {[su_comm_fd s]} ∪ ({[su_daemon_fd s]} ∪ {[su_nfqueue_fd s]}).
Proof. intros [(q & Hq) -> -> _ Hf]. by rewrite (qo_fd _ _ _ _ _ _ _ Hq). Qed.
End descriptors.
