(* ===== verification/Libipq.v ===== *)
(** * libipq_compat.c: the interface of ip_queue on libnetfilter_queue

    Handles of the older interface, each on a connection of its own with the queue 0, the
    error of the last [ipq_create_handle] and its text.  The functions that read a message
    find its fields behind the netlink header.  At the end, what creating and destroying a
    handle leaves in memory: a failure gives everything back and records an error, and
    destroying a handle forgets its queue. *)

From S2P Require Export NfqLib NfqHeaders StartupSpec.
#[local] Open Scope Z_scope.

(** The error codes, in the order of the enumeration. *)
Inductive ipq_err :=
  | IPQ_ERR_NONE | IPQ_ERR_IMPL | IPQ_ERR_HANDLE | IPQ_ERR_SOCKET | IPQ_ERR_BIND | IPQ_ERR_BUFFER
  | IPQ_ERR_RECV | IPQ_ERR_NLEOF | IPQ_ERR_ADDRLEN | IPQ_ERR_STRUNC | IPQ_ERR_RTRUNC | IPQ_ERR_NLRECV
  | IPQ_ERR_SEND | IPQ_ERR_SUPP | IPQ_ERR_RECVBUF | IPQ_ERR_TIMEOUT | IPQ_ERR_PROTOCOL.

Definition ipq_code (e : ipq_err) : Z :=
  match e with
  | IPQ_ERR_NONE => 0 | IPQ_ERR_IMPL => 1 | IPQ_ERR_HANDLE => 2 | IPQ_ERR_SOCKET => 3
  | IPQ_ERR_BIND => 4 | IPQ_ERR_BUFFER => 5 | IPQ_ERR_RECV => 6 | IPQ_ERR_NLEOF => 7
  | IPQ_ERR_ADDRLEN => 8 | IPQ_ERR_STRUNC => 9 | IPQ_ERR_RTRUNC => 10 | IPQ_ERR_NLRECV => 11
  | IPQ_ERR_SEND => 12 | IPQ_ERR_SUPP => 13 | IPQ_ERR_RECVBUF => 14 | IPQ_ERR_TIMEOUT => 15
  | IPQ_ERR_PROTOCOL => 16
  end.
Definition IPQ_MAXERR : Z := ipq_code IPQ_ERR_PROTOCOL.

Definition ipq_errmap : list (Z * string) :=
  [(ipq_code IPQ_ERR_NONE, "Unknown error");
   (ipq_code IPQ_ERR_IMPL, "Implementation error");
   (ipq_code IPQ_ERR_HANDLE, "Unable to create netlink handle");
   (ipq_code IPQ_ERR_SOCKET, "Unable to create netlink socket");
   (ipq_code IPQ_ERR_BIND, "Unable to bind netlink socket");
   (ipq_code IPQ_ERR_BUFFER, "Unable to allocate buffer");
   (ipq_code IPQ_ERR_RECV, "Failed to receive netlink message");
   (ipq_code IPQ_ERR_NLEOF, "Received EOF on netlink socket");
   (ipq_code IPQ_ERR_ADDRLEN, "Invalid peer address length");
   (ipq_code IPQ_ERR_STRUNC, "Sent message truncated");
   (ipq_code IPQ_ERR_RTRUNC, "Received message truncated");
   (ipq_code IPQ_ERR_NLRECV, "Received error from netlink");
   (ipq_code IPQ_ERR_SEND, "Failed to send netlink message");
   (ipq_code IPQ_ERR_SUPP, "Operation not supported");
   (ipq_code IPQ_ERR_RECVBUF, "Receive buffer size invalid");
   (ipq_code IPQ_ERR_TIMEOUT, "Timeout");
   (ipq_code IPQ_ERR_PROTOCOL, "Invalid protocol specified")].

(** The table is indexed with the code; [None]: outside of it. *)
Definition ipq_strerror (errcode : Z) : option string :=
  let errcode := if (errcode <? 0) || (IPQ_MAXERR <? errcode) then ipq_code IPQ_ERR_IMPL else errcode in
  snd <$> ipq_errmap !! Z.to_nat errcode.

Definition PF_INET : Z := 2.
Definition PF_INET6 : Z := 10.

Record ipq_handle := IpqHandle {
  ipq_nfqnlh : option handle;
  ipq_qh : option handle;
  ipq_family : Z }.       (* u_int8_t *)

Section libipq.
Context {CB D E : Type} `{Nfnetlink E}.
(** The null pointer given as the callback's data. *)
Context (null : D).
Notation lib := (nfq_lib CB D E).

Record ipq := Ipq {
  iq_lib : lib;
  iq_handles : gmap handle ipq_handle;
  iq_errno : Z }.

Definition on_nfq {X} (m : M lib X) : M ipq X := λ s,
  match m (iq_lib s) with
  | Ok x L => Ok x (Ipq L (iq_handles s) (iq_errno s))
  | Fault f => Fault f
  end.
Definition set_ipq_errno (e : ipq_err) : M ipq unit :=
  modify (λ s, Ipq (iq_lib s) (iq_handles s) (ipq_code e)).
Definition read_ipq (h : handle) : M ipq ipq_handle := λ s, demand UseAfterFree (iq_handles s !! h) s.
Definition write_ipq (h : handle) (x : ipq_handle) : M ipq unit :=
  modify (λ s, Ipq (iq_lib s) (<[h := x]> (iq_handles s)) (iq_errno s)).
Definition free_ipq (h : handle) : M ipq unit :=
  modify (λ s, Ipq (iq_lib s) (delete h (iq_handles s)) (iq_errno s)).
Definition malloc_ipq : M ipq (option handle) :=
  ok ← on_nfq (ext malloc_ok);
  if (ok : bool) then gets (λ s, Some (fresh (dom (iq_handles s)))) else mret None.

(** The jumps to [err_close] and [err_free]. *)
Definition ipq_err_free (h : handle) : M ipq (option handle) := free_ipq h;; mret None.
Definition ipq_err_close (h nfqnlh : handle) : M ipq (option handle) :=
  on_nfq (nfq_close nfqnlh);; ipq_err_free h.

Definition ipq_create_handle (flags protocol : Z) : M ipq (option handle) :=
  h ← malloc_ipq;
  match h with
  | None => set_ipq_errno IPQ_ERR_HANDLE;; mret None
  | Some h =>
      write_ipq h (IpqHandle None None 0);;
      nfqnlh ← on_nfq nfq_open;
      write_ipq h (IpqHandle nfqnlh None 0);;
      match nfqnlh with
      | None => set_ipq_errno IPQ_ERR_SOCKET;; ipq_err_free h
      | Some nfqnlh =>
          if negb (protocol =? PF_INET) && negb (protocol =? PF_INET6) then
            set_ipq_errno IPQ_ERR_PROTOCOL;; ipq_err_close h nfqnlh
          else
            status ← on_nfq (nfq_bind_pf nfqnlh protocol);
            write_ipq h (IpqHandle (Some nfqnlh) None (u8 protocol));;
            if status <? 0 then set_ipq_errno IPQ_ERR_BIND;; ipq_err_close h nfqnlh
            else
              qh ← on_nfq (nfq_create_queue nfqnlh 0 None null);
              write_ipq h (IpqHandle (Some nfqnlh) qh (u8 protocol));;
              match qh with
              | None => set_ipq_errno IPQ_ERR_BIND;; ipq_err_close h nfqnlh
              | Some _ => mret (Some h)
              end
      end
  end.

Definition ipq_destroy_handle (h : option handle) : M ipq Z :=
  match h with
  | Some h =>
      x ← read_ipq h;
      nfqnlh ← demand NullDeref (ipq_nfqnlh x);
      on_nfq (nfq_close nfqnlh);;
      free_ipq h;;
      mret 0
  | None => mret 0
  end.

(** [size_t] to [u_int32_t] in the call. *)
Definition ipq_set_mode (h : handle) (mode range : Z) : M ipq Z :=
  x ← read_ipq h;
  qh ← demand NullDeref (ipq_qh x);
  on_nfq (nfq_set_mode qh mode (u32 range)).

(** [parse]: what [nfnl_parse_hdr] finds in the buffer, the family of the message when it
    finds a message with attributes.  Whatever it is, the answer is 0. *)
Definition ipq_read (parse : handle → bytes → option Z) (h : handle) (buf : bytes) (timeout : Z) : M ipq Z :=
  x ← read_ipq h;
  nfqnlh ← demand NullDeref (ipq_nfqnlh x);
  n ← on_nfq (nfq_nfnlh nfqnlh);
  match parse n buf with
  | None => mret 0
  | Some family => if negb (family =? ipq_family x) then mret 0 else mret 0
  end.

Definition ipq_set_verdict (h : handle) (id verdict : Z) (data : bytes) : M ipq Z :=
  x ← read_ipq h;
  qh ← demand NullDeref (ipq_qh x);
  on_nfq (nfq_set_verdict qh (u32 id) verdict data).

Definition ipq_ctl (h : handle) (request : Z) : M ipq Z := mret 1.

Definition ipq_errstr : M ipq string :=
  e ← gets iq_errno; demand OutOfBounds (ipq_strerror e).

(** What is printed to [stderr], with [errno] and its text. *)
Definition ipq_perror (strerror : Z → string) (errno : Z) (s : option string) : M ipq string :=
  e ← gets iq_errno;
  text ← (if e =? 0 then mret EmptyString else t ← ipq_errstr; mret (": " +:+ t));
  mret (match s with Some s => s | None => "ERROR" end +:+ text +:+
        (if errno =? 0 then EmptyString else ": " +:+ strerror errno) +:+
        String (Ascii.ascii_of_nat 10) EmptyString).
End libipq.

(** ** Messages *)

(** [sizeof(struct nlmsghdr)]: where [NLMSG_DATA] starts. *)
Definition sizeof_nlmsghdr : nat := 16.

Definition ipq_message_type (buf : bytes) : option Z := rd16 buf 4.
Definition ipq_get_msgerr (buf : bytes) : option Z :=
  (λ e, s32 (- s32 e)) <$> rd32 buf sizeof_nlmsghdr.
Definition ipq_get_packet (buf : bytes) : bytes := drop sizeof_nlmsghdr buf.

Arguments ipq : clear implicits.

(** ** Properties *)

(** Every code has a text: the table is not read outside its bounds. *)
Lemma ipq_strerror_defined errcode : is_Some (ipq_strerror errcode).
Proof.
  unfold ipq_strerror. apply fmap_is_Some, lookup_lt_is_Some. change (length ipq_errmap) with 17%nat.
  change IPQ_MAXERR with 16. change (ipq_code IPQ_ERR_IMPL) with 1.
  destruct (Z.ltb_spec errcode 0); simpl; [lia|]. destruct (Z.ltb_spec 16 errcode); lia.
Qed.

(** The text is that of the code, for the codes of the enumeration. *)
Lemma ipq_strerror_code e : ipq_errmap !! Z.to_nat (ipq_code e) =
  (λ text, (ipq_code e, text)) <$> ipq_strerror (ipq_code e).
Proof. by destruct e. Qed.

(** ** Handles *)

Section libipq.
Context {CB D E : Type} `{System E} (null : D).
Notation state := (ipq CB D E).
Implicit Types (s : state) (h n q : handle) (hs : gmap handle nfq_handle)
  (qs : gmap handle (nfq_q_handle CB D)) (hps : gmap handle ipq_handle).

(** There is memory, and the kernel closes a connection when asked to. *)
Context (Hmalloc : answers malloc_ok (λ ok, ok = true)) (Hclose : ∀ n, answers (nfnl_close n) (λ r, r = 0)).

(** The handles in memory. *)
Definition ipq_memory s hps hs qs : Prop :=
  iq_handles s = hps ∧ lb_handles (iq_lib s) = hs ∧ lb_queues (iq_lib s) = qs.

Lemma memory_now (L : nfq_lib CB D E) hs qs :
  lb_handles L = hs → lb_queues L = qs → memory (lb_ext L) L hs qs [].
Proof. intros Hh Hq. by split; [|split]. Qed.

Lemma malloc_finds e tr e' : performed e (tr ++ [(Malloc, Found false)]) e' → False.
Proof.
  revert e. induction tr as [|[c a] tr IH]; intros e; simpl.
  - intros (e1 & Hm & _). unfold mbind, M_bind in Hm. destruct (Hmalloc e) as (ok & e2 & Heq & ->).
    rewrite Heq in Hm. done.
  - intros (e1 & _ & Htr). by eapply IH.
Qed.

Lemma wp_on_nfq {X} (m : M (nfq_lib CB D E) X) s hps (Q : X → state → Prop) :
  iq_handles s = hps →
  wpf (λ _, False) m (λ r L, ∀ s', iq_handles s' = hps → iq_errno s' = iq_errno s → iq_lib s' = L → Q r s') (iq_lib s) →
  wp (on_nfq m) Q s.
Proof. intros <- Hm. unfold wp, wpf, on_nfq in *. destruct (m (iq_lib s)); [by apply Hm|done]. Qed.

(** A connection that the kernel closes. *)
Lemma close_wp L hs qs h n ssh l (Q : Z → nfq_lib CB D E → Prop) :
  lb_handles L = hs → lb_queues L = qs → hs !! h = Some (NfqHandle n ssh l) →
  (∀ L', lb_handles L' = delete h hs → lb_queues L' = qs → Q 0 L') → wpf (λ _, False) (nfq_close h) Q L.
Proof.
  intros Hh Hq Hx HQ. eapply nfq_close_wp; [by apply memory_now|exact Hx|]. intros r L' (Hh' & Hq' & Htr).
  assert (r = 0) as ->; [|by apply HQ]. simpl in Htr. destruct Htr as (e1 & _ & e2 & Hc & _).
  destruct (Hclose n e1) as (r0 & e3 & Heq & ->). unfold mbind, M_bind in Hc. rewrite Heq in Hc. by injection Hc.
Qed.

Lemma ipq_err_close_wp s hps hs qs h n x y (Q : option handle → state → Prop) :
  ipq_memory s (<[h := y]> hps) (<[n := x]> hs) qs → hps !! h = None → hs !! n = None →
  (∀ s', ipq_memory s' hps hs qs → iq_errno s' = iq_errno s → Q None s') →
  wp (ipq_err_close h n) Q s.
Proof.
  intros (Hi & Hlh & Hlq) Hh Hn HQ. unfold ipq_err_close, ipq_err_free, free_ipq. wp_steps.
  eapply wp_on_nfq; [exact Hi|]. destruct x. eapply close_wp; [exact Hlh|exact Hlq|apply lookup_insert_eq|].
  intros L' HL1 HL2 s' Hi' He' <-. wp_steps. apply HQ; [|done]. split_and!; simpl.
  - by rewrite Hi', delete_insert_eq, delete_id.
  - by rewrite HL1, delete_insert_eq, delete_id.
  - done.
Qed.

(** A failure leaves the memory as it was, with one of the codes; otherwise the handle has a
    connection and its queue 0. *)
Lemma ipq_create_handle_wp flags protocol s hps hs qs : ipq_memory s hps hs qs →
  wp (ipq_create_handle null flags protocol) (λ r s', match r with
    | None => 0 < iq_errno s' ≤ IPQ_MAXERR ∧ ipq_memory s' hps hs qs
    | Some h => hps !! h = None ∧ ∃ n q m ssh, hs !! n = None ∧ qs !! q = None ∧
        ipq_memory s' (<[h := IpqHandle (Some n) (Some q) (u8 protocol)]> hps)
          (<[n := NfqHandle m (Some ssh) (Some q)]> hs) (<[q := NfqQHandle None n 0 None null]> qs)
    end) s.
Proof.
  intros (Hi & Hlh & Hlq). unfold ipq_create_handle, malloc_ipq, write_ipq, set_ipq_errno. wp_steps.
  eapply wp_on_nfq; [exact Hi|]. eapply wpf_external; [apply sy_malloc|by apply memory_now|].
  intros ok L1 _ Hh1 Hq1 (_ & _ & Htr) s1 Hi1 _ Hs1. destruct ok; [|by apply (malloc_finds _ []) in Htr].
  wp_steps. set (h := fresh (dom (iq_handles s1))).
  assert (hps !! h = None) as Hh by (rewrite <-Hi1; apply not_elem_of_dom, is_fresh).
  eapply (wp_on_nfq _ _ (<[h := IpqHandle None None 0]> hps)); [by simpl; rewrite Hi1|].
  eapply nfq_open_wp; [apply memory_now; simpl; rewrite Hs1; eassumption| |].
  { intros L2 n ssh h' tr' _ (Hh2 & Hq2 & _) s2 Hi2 _ Hs2. unfold ipq_err_free, free_ipq. wp_steps.
    split; [done|]. split_and!; simpl.
    - by rewrite Hi2, insert_insert_eq, delete_insert_eq, delete_id.
    - by rewrite Hs2.
    - by rewrite Hs2. }
  intros n m ssh L2 tr' Hn _ _ _ (Hh2 & Hq2 & _) s2 Hi2 _ Hs2. wp_steps.
  destruct (_ && _).
  { wp_steps. eapply (ipq_err_close_wp _ hps hs qs); [|done|done|].
    - split_and!; simpl; [by rewrite Hi2, insert_insert_eq|by rewrite Hs2|by rewrite Hs2].
    - intros s3 Hmem3 He3. by rewrite He3. }
  wp_steps. eapply (wp_on_nfq _ _ (<[h := IpqHandle (Some n) None 0]> hps)); [by simpl; rewrite Hi2, insert_insert_eq|].
  eapply build_send_wp; [apply memory_now; simpl; rewrite Hs2; eassumption|apply lookup_insert_eq|].
  intros status L3 (Hh3 & Hq3 & _) s3 Hi3 _ Hs3. wp_steps. destruct (status <? 0).
  { wp_steps. eapply (ipq_err_close_wp _ hps hs qs); [|done|done|].
    - split_and!; simpl; [by rewrite Hi3, insert_insert_eq|by rewrite Hs3|by rewrite Hs3].
    - intros s4 Hmem4 He4. by rewrite He4. }
  wp_steps. eapply (wp_on_nfq _ _ (<[h := IpqHandle (Some n) None (u8 protocol)]> hps));
    [by simpl; rewrite Hi3, insert_insert_eq|].
  eapply create_first_wp; [apply memory_now; simpl; rewrite Hs3; eassumption|apply lookup_insert_eq| | |].
  - intros L4 (_ & _ & Htr4). by apply (malloc_finds _ []) in Htr4.
  - intros L4 tr4 _ (Hh4 & Hq4 & _) s4 Hi4 _ Hs4. wp_steps. eapply (ipq_err_close_wp _ hps hs qs); [|done|done|].
    + split_and!; simpl; [by rewrite Hi4, insert_insert_eq|by rewrite Hs4|by rewrite Hs4].
    + intros s5 Hmem5 He5. by rewrite He5.
  - intros q L4 tr4 Hq _ (Hh4 & Hq4 & _) s4 Hi4 _ Hs4. wp_steps. split; [done|]. exists n, q, m, ssh.
    split; [done|]. split; [done|]. split_and!; simpl; [by rewrite Hi4, insert_insert_eq| |by rewrite Hs4].
    rewrite Hs4. by rewrite insert_insert_eq in Hh4.
Qed.

(** The queue of the handle stays in memory, with a pointer to the connection that is gone. *)
Lemma ipq_destroy_handle_leaks s hps hs qs h n q f x y :
  ipq_memory s (<[h := IpqHandle (Some n) (Some q) f]> hps) (<[n := x]> hs) (<[q := y]> qs) →
  hps !! h = None → hs !! n = None →
  wp (ipq_destroy_handle (Some h)) (λ r s', r = 0 ∧ ipq_memory s' hps hs (<[q := y]> qs)) s.
Proof.
  intros (Hi & Hlh & Hlq) Hh Hn. unfold ipq_destroy_handle, read_ipq, free_ipq. wp_steps.
  eapply wp_demand; [rewrite Hi; apply lookup_insert_eq|]. cbn [ipq_nfqnlh demand]. wp_steps.
  eapply wp_on_nfq; [exact Hi|]. destruct x. eapply close_wp; [exact Hlh|exact Hlq|apply lookup_insert_eq|].
  intros L' HL1 HL2 s' Hi' _ <-. wp_steps. split; [done|]. split_and!; simpl.
  - by rewrite Hi', delete_insert_eq, delete_id.
  - by rewrite HL1, delete_insert_eq, delete_id.
  - done.
Qed.
End libipq.
