(* ===== verification/TimersSpec.v ===== *)
(** * Expiring timers

    The two phases of a route's end, the retries of a route discovery and the run of
    the expired alarms. *)

From S2P Require Export NfqueueSpec.

Section timers_specs.
Context `{E : Env} {EO : EnvOk E}.
Implicit Types w : world.

(** ** Destroying a route *)

(** [w] without the route [a]; the log and the number of external calls may differ. *)
Definition without_route (a : addr) (n : nat) (t : list event) (w : world) : world :=
  set_w_alarms (Alarms (delete (AL_route a) (al_blocks (w_alarms w))) (unlink (AL_route a) (al_root (w_alarms w))))
    (set_w_routes (delete a (w_routes w)) (set_w_table (unlink a (w_table w))
      (set_w_trace t (set_w_tick n w)))).

Definition detached (a : addr) (r : msh_route) (n : nat) (t : list event) (w : world) : world :=
  set_w_table (unlink a (w_table w)) (set_w_routes (<[a := r]> (w_routes w))
    (set_w_trace t (set_w_tick n w))).

(** The requests [evs] take the route [a] out of the kernel, as it leaves the table. *)
Definition kernel_drops (a : addr) (evs : list event) (w : world) : Prop :=
  in_kernel w → kernel_ok (delete a (w_routes w)) (unlink a (w_table w)) (installed (w_trace w ++ evs))
    (md_net_iface (w_data w)).

Lemma kernel_drops_entry a r nl result w :
  a ∈ w_table w → w_routes w !! a = Some r → rt_nlroute r = Some nl →
  kernel_drops a [EvNl (Some nl) (NL_route_del result); EvNl (Some nl) NL_route_put] w.
Proof.
  intros Ha Hr Hnl Hk. rewrite installed_del. apply (kernel_ok_unlink _ _ _ _ _ _ a nl Hk); [done| | |].
  - unfold handle. by rewrite Hr.
  - intros b. apply elem_of_unlink.
  - intros b Hb. by apply lookup_delete_ne.
Qed.

Lemma kernel_drops_none a r w :
  w_routes w !! a = Some r → rt_nlroute r = None ∨ a ∉ w_table w → kernel_drops a [] w.
Proof.
  intros Hr Hor Hk. rewrite app_nil_r.
  assert (a ∉ w_table w) as Ha.
  { destruct Hor as [Hnl|]; [|done]. intros Ha. apply (ko_table _ _ _ _ Hk) in Ha as (n & k & [He _ _ _]).
    unfold handle in He. rewrite Hr in He. simpl in He. congruence. }
  rewrite unlink_notin by done. eapply kernel_ok_ext; [|exact Hk].
  intros b Hb. unfold handle. rewrite lookup_delete_ne by (by intros ->). done.
Qed.

(** The kernel forgets a route of the table. *)
Lemma updated_destroy_wp w a r (Q : unit → world → Prop) :
  world_ok w → w_routes w !! a = Some r →
  (∀ r' n evs, verdict_ids evs = [] → sent evs = [] → kernel_drops a evs w → Q tt (detached a r' n (w_trace w ++ evs) w)) →
  wp (__msh_route_updated a RTACTION_DESTROY) Q w.
Proof.
  intros Hw Hr HQ. apply wp_bind, (wp_read_route a r); [done|].
  destruct (rt_updated_cb r) as [[]|] eqn:Hcb.
  - unfold __routing_table_route_updated_cb. change (has_flag RTACTION_DESTROY RTACTION_DESTROY) with true.
    assert (a ∈ w_table w) as Ha by (apply (to_linked _ _ _ (wo_table _ Hw)); by exists r).
    apply wp_bind. unfold wp at 1, table_list_del. rewrite decide_True by done.
    apply wp_bind, wp_bind, (wp_read_route a r); [done|]. apply wp_ret, wp_bind, (wp_upd_route a r); [done|].
    destruct (rt_nlroute r) as [nl|] eqn:Hnl.
    + apply wp_bind, wp_ext, wp_bind, wp_modify, wp_modify. simpl. rewrite <-(assoc_L (++)).
      apply (HQ (set_rt_nlroute None r)); [done..|by eapply kernel_drops_entry].
    + apply wp_ret. specialize (HQ (set_rt_nlroute None r) (w_tick w) []).
      rewrite app_nil_r in HQ. unfold detached in HQ. apply HQ; [done..|]. eapply kernel_drops_none; [done|by left].
  - assert (a ∉ w_table w) as Ha.
    { intros (r' & ? & Hin)%(table_live _ _ Hw). unfold in_table in Hin. congruence. }
    apply wp_ret. specialize (HQ r (w_tick w) []). rewrite app_nil_r in HQ. unfold detached in HQ.
    rewrite unlink_notin, insert_id in HQ by done. destruct w. apply HQ; [done..|].
    eapply kernel_drops_none; [done|by right].
Qed.

Lemma destroy_wp w a r (Q : unit → world → Prop) :
  world_ok w → w_routes w !! a = Some r →
  (∀ n evs, verdict_ids evs = [] → sent evs = [] → kernel_drops a evs w → Q tt (without_route a n (w_trace w ++ evs) w)) →
  wp (msh_route_destroy a) Q w.
Proof.
  intros Hw Hr HQ. destruct (route_block w a Hw) as [b Hb]; [by exists r|].
  apply wp_bind, (updated_destroy_wp w a r); [done|done|]. intros r' n evs Hv Hs Hk.
  apply wp_bind, (wp_del_alarm _ b); [apply Hw|exact Hb|].
  apply wp_bind, (wp_upd_route _ r'); [simpl; apply lookup_insert_eq|].
  apply wp_bind, wp_modify, wp_on_alarms, wp_modify. simpl.
  specialize (HQ n evs Hv Hs Hk). unfold without_route in HQ.
  by rewrite insert_insert_eq, !delete_insert_eq.
Qed.

Lemma without_route_ok w a n t :
  world_ok w → a ≠ w_find_route w → world_ok (without_route a n t w).
Proof.
  intros [Hh [Hnd Hl Hu Hf Hro] Hq Ha [H1 H2 H3 H4 H5] Hd] Hne.
  split; simpl; [| |done| | |done].
  - destruct Hh as [Hr1 ? ? ? ? Hr6 ?]. split; try done.
    + intros x [r [_ Hx]%lookup_delete_Some]. apply Hr1. by exists r.
    + intros x m. unfold handle. rewrite lookup_delete. case_decide; [done|apply Hr6].
  - split.
    + by apply unlink_NoDup.
    + intros x. rewrite elem_of_unlink, Hl. split.
      * intros (Hxa & r & Hr & Hin). exists r. by rewrite lookup_delete_ne.
      * intros (r & [Hxa Hr]%lookup_delete_Some & Hin). split; [done|by exists r].
    + intros x y rx ry [_ Hx]%elem_of_unlink [_ Hy]%elem_of_unlink
        [_ Hrx]%lookup_delete_Some [_ Hry]%lookup_delete_Some. by eapply Hu.
    + destruct Hf as (r & Hr & Hni). exists r. by rewrite lookup_delete_ne.
    + intros x r [_ Hr]%lookup_delete_Some. by eapply Hro.
  - by apply forget_alarms_ok.
  - split.
    + intros x [Hxa Hx]%lookup_delete_is_Some. rewrite lookup_delete_ne by congruence. auto.
    + intros x Hx. rewrite lookup_delete_ne by done. auto.
    + by rewrite lookup_delete_ne.
    + intros id b [Hxa Hid]%lookup_delete_Some. specialize (H4 _ _ Hid).
      destruct id as [x| |]; [|done|done]. by rewrite lookup_delete_ne by congruence.
    + intros b [_ Hb]%lookup_delete_Some. by apply H5.
Qed.

(** What the callbacks leave of the other timers. *)
Record other_alarms (id : alarm_id) (w w' : world) : Prop := {
  oa_balanced : balanced w w';
  oa_armed i : i ≠ id → i ∈ al_root (w_alarms w) → i ∈ al_root (w_alarms w');
  oa_rreqs a : id ≠ AL_rreq a → w_rreqs w' !! a = w_rreqs w !! a }.

Lemma msh_route_destroy_spec w a r :
  world_ok w → route_at w a r →
  rwp (other_alarms (AL_route a)) (msh_route_destroy a) (λ _ w',
    w_routes w' = delete a (w_routes w) ∧ w_table w' = unlink a (w_table w) ∧
    w_packets w' = w_packets w ∧ sent (w_trace w') = sent (w_trace w)) w.
Proof.
  intros Hw [Hr Hne]. apply (destroy_wp w a r); [done|done|]. intros n evs Hv Hs Hk.
  split_and!; [by apply without_route_ok| |done|done|done|].
  - split; [split; try done| |done].
    + unfold ledger. simpl. by rewrite verdict_ids_app, Hv, app_nil_r.
    + by apply logs_app, silent_messages.
    + intros i Hi Hin. simpl. by apply elem_of_unlink.
  - simpl. by rewrite sent_app, Hs, app_nil_r.
Qed.

(** ** The callback of a route *)

(** The first time it runs the route becomes invalid and its end is scheduled, the
    second time it goes. *)
Definition expired_route (r : msh_route) : msh_route :=
  set_rt_alarm_action RTACTION_DESTROY (unset_flag RTFLAG_VALID_ENTRY r).

#[export] Instance other_alarms_preorder id : PreOrder (other_alarms id).
Proof.
  split; [done|]. intros w1 w2 w3 [? ? H1] [? ? H2]. split; [by etrans|eauto|].
  intros a Ha. by rewrite H2, H1.
Qed.

#[export] Instance other_alarms_finer id : Finer hushed (other_alarms id).
Proof. intros w w' [[? ? ?] ? ? Hr ?]. split; [done|auto|]. intros. by rewrite Hr. Qed.

(** The route [a] is invalid from now on and is destroyed [DELETE_PERIOD] later. *)
Record invalidated (a : addr) (r : msh_route) (w w' : world) : Prop := {
  iv_inward : inward w w';
  iv_routes : w_routes w' = <[a := expired_route r]> (w_routes w);
  iv_armed : ∃ b t, al_blocks (w_alarms w) !! AL_route a = Some b ∧
    usecs t = usecs (env_now (w_tick w)) + DELETE_PERIOD * 1000 ∧
    armed (AL_route a) t b (w_alarms w) (w_alarms w') }.

(** The route [a] is gone. *)
Record destroyed (a : addr) (w w' : world) : Prop := {
  de_routes : w_routes w' = delete a (w_routes w);
  de_table : w_table w' = unlink a (w_table w);
  de_packets : w_packets w' = w_packets w;
  de_sent : sent (w_trace w') = sent (w_trace w) }.

Lemma route_alarm_cb_spec w a r :
  world_ok w → route_at w a r →
  rwp (other_alarms (AL_route a)) (__msh_route_alarm_cb (AL_route a) a) (λ _ w',
    if rt_alarm_action r =? RTACTION_UNSET_VALID_ENTRY then invalidated a r w w'
    else if rt_alarm_action r =? RTACTION_DESTROY then destroyed a w w'
    else w' = w) w.
Proof.
  intros Hw Hat. pose proof Hat as [Hr Hne]. unfold __msh_route_alarm_cb.
  rwp_read by apply read_route_eq.
  destruct (rt_alarm_action r =? RTACTION_UNSET_VALID_ENTRY).
  - apply (rwp_finer inward (other_alarms (AL_route a)) _ (λ _ w', invalidated a r w w')); [|done].
    pose proof (route_at_ok _ _ _ Hw Hat) as Hro.
    eapply rwp_bind_upd; [apply _..|done|done|by apply unset_flag_step|]. intros Hw1.
    eapply rwp_bind_upd; [apply _..|done|simpl; apply lookup_insert_eq|by apply alarm_action_step, unset_flag_step|].
    simpl. rewrite insert_insert_eq. fold (expired_route r). intros Hw2.
    destruct (route_block w a Hw) as [b Hb]; [by exists r|].
    assert (inward w (set_w_routes (<[a:=expired_route r]> (w_routes w)) w)) as Hi2
      by by eapply upd_route_inward.
    destruct (set_alarm_time DELETE_PERIOD) as [sc usc] eqn:Htv.
    apply (add_alarm_spec _ _ _ _ b); [done|done|simpl; congruence|by eapply set_alarm_time_ok|].
    intros A Harm HA. split; [|done|].
    + etrans; [exact Hi2|]. etrans; [apply tick_inward|]. eapply alarms_inward, armed_kept, Harm.
    + eexists b, _. split_and!; [done| |exact Harm].
      rewrite timeradd_usecs. erewrite set_alarm_time_usecs by done. simpl. lia.
  - destruct (rt_alarm_action r =? RTACTION_DESTROY); [|by rwp_return].
    eapply rwp_mono; [by eapply (msh_route_destroy_spec w a r)|]. intros [] w' _ _ (?&?&?&?). by split.
Qed.

(** ** The callback of a RREQ *)

(** The retry of a discovery: the entry counts one more try and carries the id of the
    RREQ sent now; its timer runs again, twice as long as before; other timers run on as
    they did, but that a valid route to the destination lives on. *)
Record retried (a : addr) (e : rreq_fifo) (w w' : world) : Prop := {
  re_rreqs : w_rreqs w' = <[a := RreqFifo (u32 (md_rreq_id (w_data w) + 1)) (rf_dst e)
                                   (rf_prev_tries e + 1)]> (w_rreqs w);
  re_trace : ∃ k, w_trace w' = w_trace w ++
    [discovery_event (env_sendto k) w (rf_dst e) None (rf_prev_tries e + 1)];
  re_data : w_data w' = bumped (w_data w);
  re_packets : w_packets w' = w_packets w;
  re_armed : AL_rreq a ∈ al_root (w_alarms w');
  re_time : ∃ n, (w_tick w ≤ n)%nat ∧ usecs (key (w_alarms w') (AL_rreq a)) =
    usecs (env_now n) + 2 ^ (rf_prev_tries e + 1) * NET_TRAVERSAL_TIME * 1000;
  re_others id : id ≠ AL_rreq a → (∀ b, id ≠ AL_route b) ∨ valid_route w (rf_dst e) = false →
    timer_kept id w w' }.

Lemma write_rreq_ok w a e e' :
  world_ok w → w_rreqs w !! a = Some e → rreq_entry_ok e' →
  world_ok (set_w_rreqs (<[a := e']> (w_rreqs w)) w).
Proof.
  intros [Hh Ht [Hnd Hl Hent] Ha [H1 H2 H3 H4 H5] Hd] He He'.
  assert (∀ x, is_Some (<[a:=e']> (w_rreqs w) !! x) ↔ is_Some (w_rreqs w !! x)) as Hdom.
  { intros x. rewrite lookup_insert_is_Some'. split; [intros [<-|]; [by eexists|done]|by right]. }
  split; simpl; try done.
  - destruct Hh as [? Hr1 ? ? ? ?]. split; try done. intros x. rewrite Hdom. auto.
  - split; [done| |].
    + intros x. by rewrite Hdom.
    + intros x e0. rewrite lookup_insert. case_decide; [by intros [= <-]|apply Hent].
  - split; try done.
    + intros x. rewrite Hdom. auto.
    + intros id b Hid. specialize (H4 id b Hid). destruct id as [|x|]; [done| |done]. by rewrite Hdom.
Qed.

Lemma write_rreq_other a e w :
  other_alarms (AL_rreq a) w (set_w_rreqs (<[a := e]> (w_rreqs w)) w).
Proof. split; [done|done|]. intros x Hx. simpl. rewrite lookup_insert_ne; [done|congruence]. Qed.

Lemma read_rreq_eq w a e : w_rreqs w !! a = Some e → read_rreq a w = Ok e w.
Proof. intros Ha. unfold read_rreq. by rewrite Ha. Qed.

Lemma find_route_retry_spec w id dest tries :
  world_ok w → is_u32 dest → 0 < tries ≤ RREQ_RETRIES →
  rwp (other_alarms id) (aodv_find_route dest None (u8 tries)) (λ _ w',
    w_rreqs w' = w_rreqs w ∧
    (∃ k, w_trace w' = w_trace w ++ [discovery_event (env_sendto k) w dest None tries]) ∧
    w_data w' = bumped (w_data w) ∧ w_packets w' = w_packets w ∧ w_alarms w' = w_alarms w) w.
Proof.
  intros Hw Hd Ht. unfold RREQ_RETRIES in Ht. rewrite u8_id by (unfold is_u8; lia).
  eapply wp_mono; [apply aodv_find_route_spec; [done|done|unfold RREQ_RETRIES; lia|done]|].
  intros [] w' (Hw' & [Hb _ _ Harm] & [_ H2 H3 _ _ H6 H7]). rewrite (proj2 (Z.eqb_neq _ _)) in H7 by lia.
  destruct H7 as (H7 & _ & H8). split_and!; [done| |done..]. split; [done|auto|]. intros x _. by rewrite H7.
Qed.

Lemma rreq_alarm_retry_spec w a e :
  world_ok w → w_rreqs w !! a = Some e → 0 ≤ rf_prev_tries e < RREQ_RETRIES →
  rwp (other_alarms (AL_rreq a)) (__rreq_fifo_alarm_cb (AL_rreq a) a) (λ _, retried a e w) w.
Proof.
  intros Hw He Ht. unfold RREQ_RETRIES in Ht.
  pose proof (qo_entries _ _ (wo_queue _ Hw) a e He) as [Hid Hd _].
  unfold __rreq_fifo_alarm_cb. rwp_read by (by apply read_rreq_eq).
  rewrite (proj2 (Z.ltb_ge _ _)) by lia.
  rewrite s8_id by (unfold is_s8; lia).
  set (e1 := set_rf_prev_tries (rf_prev_tries e + 1) e).
  assert (rreq_entry_ok e1) as He1 by (split; simpl; [done..|unfold RREQ_RETRIES; lia]).
  eapply rwp_bind_step; [apply _|done|by eapply write_rreq_ok|apply write_rreq_other|].
  assert (world_ok (set_w_rreqs (<[a:=e1]> (w_rreqs w)) w)) as Hw1 by by eapply write_rreq_ok.
  rwp_state w1.
  rewrite (proj2 (Z.ltb_ge _ _)) by (rewrite u32_id; unfold is_u32, RREQ_RETRIES; lia).
  rwp_then routing_table_update_route_timers; [done|done|done|]. intros ? w2 Hw2 Hi2 (-> & Htm2 & Hsame2).
  rewrite backoff_exact by lia. unfold demand at 1.
  eapply rwp_bind_pure; [apply _|done|done|]. cbn [snd].
  destruct (set_alarm_time _) as [sc usc] eqn:Htv.
  assert (w_rreqs w2 = w_rreqs w1) as Hr2 by apply Hi2.
  assert (w_rreqs w2 !! a = Some e1) as He2 by (rewrite Hr2; simpl; apply lookup_insert_eq).
  destruct (bo_rreq _ _ _ _ (wo_blocks _ Hw2) a) as [b Hb]; [by exists e1|].
  eapply (rwp_bind _ inward _ _ (λ _ w3, armed (AL_rreq a) (timeradd (Timeval sc usc) (env_now (w_tick w2))) b
    (w_alarms w2) (w_alarms w3))); [|apply _|].
  { apply (add_alarm_spec w2 _ _ _ b); [done|done|done|by eapply set_alarm_time_ok|done]. }
  intros [] w3 Hw3 Hi3 Harm3.
  assert (inward w1 w3) as Hi by by etrans.
  assert (w_rreqs w3 = w_rreqs w1) as Hr3 by apply Hi.
  assert (w_rreqs w3 !! a = Some e1) as He3 by (rewrite Hr3; simpl; apply lookup_insert_eq).
  rwp_read by (by apply read_rreq_eq).
  rwp_then (find_route_retry_spec w3 (AL_rreq a) (rf_dst e) (rf_prev_tries e1));
    [done|done|simpl; unfold RREQ_RETRIES; lia|].
  intros [] w4 Hw4 Ho4 (Hr4 & Ht4 & Hd4 & Hp4 & Hal4).
  assert (w_rreqs w4 !! a = Some e1) as He4 by by rewrite Hr4.
  assert (w_data w3 = w_data w) as Hd3 by apply Hi.
  rwp_read by reflexivity. rwp_read by (by apply read_rreq_eq).
  eapply rwp_step; [done| |apply write_rreq_other|].
  - eapply write_rreq_ok; [done|done|]. destruct He1. split; simpl; [|done..]. apply Hw4.
  - split; simpl.
    + rewrite Hr4, Hr3, Hd4, Hd3. simpl. by rewrite insert_insert_eq.
    + destruct Ht4 as [k Ht4]. exists k. rewrite Ht4, (in_trace _ _ Hi). unfold discovery_event, discovery_rreq. by rewrite Hd3.
    + by rewrite Hd4, Hd3.
    + by rewrite Hp4, (in_packets _ _ Hi).
    + rewrite Hal4. destruct Harm3 as (_ & l1 & l2 & _ & -> & _). set_solver.
    + exists (w_tick w2). split; [apply Htm2|]. rewrite Hal4. unfold key. rewrite (proj1 Harm3), lookup_insert_eq.
      simpl. rewrite timeradd_usecs. erewrite set_alarm_time_usecs by done. lia.
    + intros i Hi' Hwhich. unfold timer_kept. simpl. rewrite Hal4.
      destruct (armed_timer_kept _ _ _ w2 w3 i Harm3 Hi') as [-> ->].
      destruct Hwhich as [Hroute|Hno]; [by apply Htm2|]. by apply timer_kept_same, Hsame2.
Qed.

(** A RREQ of another node is forgotten when its alarm fires. *)
Lemma rreq_alarm_foreign_spec w a e :
  world_ok w → w_rreqs w !! a = Some e → rf_prev_tries e < 0 →
  rwp (other_alarms (AL_rreq a)) (__rreq_fifo_alarm_cb (AL_rreq a) a)
    (λ _ w', w' = without_rreq a w) w.
Proof.
  intros Hw He Ht. unfold __rreq_fifo_alarm_cb. rwp_read by (by apply read_rreq_eq).
  rewrite (proj2 (Z.ltb_lt _ _) Ht).
  eapply rwp_step; [apply entry_delete_eq; [done|]|by apply without_rreq_ok| |done].
  - apply (qo_linked _ _ (wo_queue _ Hw)). by exists e.
  - split; [done| |].
    + intros i Hi Hin. simpl. by apply elem_of_unlink.
    + intros x Hx. simpl. rewrite lookup_delete_ne; [done|congruence].
Qed.

(** When the retries are used up the entry is freed and then read. *)
Lemma rreq_alarm_fault w a e :
  world_ok w → w_rreqs w !! a = Some e → rf_prev_tries e = RREQ_RETRIES →
  fails (__rreq_fifo_alarm_cb (AL_rreq a) a) UseAfterFree w.
Proof.
  intros Hw He Ht. unfold __rreq_fifo_alarm_cb, fails, mbind, M_bind.
  rewrite (read_rreq_eq _ _ _ He), Ht. change (RREQ_RETRIES <? 0) with false. cbv iota zeta.
  unfold write_rreq, modify. change (RREQ_RETRIES <? u32 (s8 (RREQ_RETRIES + 1))) with true. cbv iota.
  destruct (bo_rreq _ _ _ _ (wo_blocks _ Hw) a) as [b Hb]; [by exists e|].
  rewrite (entry_delete_steps _ a b); [|apply Hw|done|apply (qo_linked _ _ (wo_queue _ Hw)); by exists e].
  unfold read_rreq. simpl. by rewrite lookup_delete_eq.
Qed.

(** ** The flush callback *)

Lemma flush_cb_spec w :
  world_ok w →
  rwp (other_alarms AL_flush) (__msh_data_process_wait_queue_cb AL_flush) (λ _ w',
    w_data w' = set_md_num_rreq_sent 0 (w_data w) ∧ w_packets w' = w_packets w ∧
    w_trace w' = w_trace w ∧ w_rreqs w' = w_rreqs w) w.
Proof.
  intros Hw. unfold __msh_data_process_wait_queue_cb.
  eapply rwp_bind_step; [apply _|done| | |].
  - by apply upd_data_ok, num_rreq_sent_ok, Hw.
  - split; [|done|done]. by split.
  - assert (world_ok (set_w_data (set_md_num_rreq_sent 0 (w_data w)) w)) as Hw1
      by by apply upd_data_ok, num_rreq_sent_ok, Hw.
    destruct (bo_flush _ _ _ _ (wo_blocks _ Hw)) as [b Hb].
    apply (rwp_finer inward (other_alarms AL_flush) _ (λ _ w', w_data w' = set_md_num_rreq_sent 0 (w_data w) ∧
      w_packets w' = w_packets w ∧ w_trace w' = w_trace w ∧ w_rreqs w' = w_rreqs w)); [|done].
    by apply (add_alarm_spec _ _ _ _ b).
Qed.

(** ** Running the expired alarms *)

(** The alarm is the last one of a discovery of this node. *)
Definition last_try (w : world) (id : alarm_id) : bool :=
  match id with
  | AL_rreq a => from_option (λ e, rf_prev_tries e =? RREQ_RETRIES) false (w_rreqs w !! a)
  | _ => false
  end.

Lemma linked_not_scratch w a :
  world_ok w → AL_route a ∈ al_root (w_alarms w) → a ≠ w_find_route w.
Proof.
  intros Hw (b & Hb & Hl)%(ok_linked _ (wo_alarms _ Hw)) ->.
  apply (bo_find_route _ _ _ _ (wo_blocks _ Hw)) in Hb. congruence.
Qed.

(** [w] with the alarm [id] taken out of the queue. *)
Definition stopped (id : alarm_id) (b : alarm_block) (w : world) : world :=
  set_w_alarms (disarm id b (w_alarms w)) w.

Lemma stopped_ok w id b :
  world_ok w → al_blocks (w_alarms w) !! id = Some b → world_ok (stopped id b w).
Proof.
  intros [Hh Ht Hq Ha [H1 H2 H3 H4 H5] Hd] Hb. split; simpl; try done; [by apply disarm_ok|].
  assert (∀ i, is_Some (al_blocks (w_alarms w) !! i) →
            is_Some (<[id:=unlinked b]> (al_blocks (w_alarms w)) !! i)) as Hdom
    by (intros i Hi; rewrite lookup_insert_is_Some'; by right).
  split; auto.
  - intros i b'. rewrite lookup_insert. case_decide; [subst|apply H4].
    intros [= <-]. exact (H4 _ _ Hb).
  - intros b'. rewrite lookup_insert. case_decide; [by intros [= <-]|apply H5].
Qed.

Lemma stopped_other w id b : other_alarms id w (stopped id b w).
Proof. split; [done| |done]. intros i Hi Hin. simpl. by apply elem_of_unlink. Qed.

Lemma run_one_alarm_spec w id :
  world_ok w → id ∈ al_root (w_alarms w) → last_try w id = false →
  rwp (other_alarms id) (
    on_alarms (erase_and_clear id);;
    b ← on_alarms (read_block id);
    run_alarm (ab_function b) id (ab_data b)) (λ _ _, True) w.
Proof.
  intros Hw Hin Hlast. pose proof Hin as (b & Hb & Hl)%(ok_linked _ (wo_alarms _ Hw)).
  pose proof (bo_owner _ _ _ _ (wo_blocks _ Hw) id b Hb) as Hown.
  pose proof (stopped_ok w id b Hw Hb) as Hw1.
  eapply rwp_bind_step; [apply _| |exact Hw1|apply stopped_other|].
  { unfold on_alarms. simpl. rewrite (erase_and_clear_eq _ _ b); [done..|]. apply ok_tree_alive, Hw. }
  eapply (rwp_bind_pure _ _ _ _ _ (unlinked b)); [done| |].
  { unfold on_alarms, read_block. simpl. by rewrite lookup_insert_eq. }
  cbn [unlinked ab_function ab_data]. destruct id as [a|a|]; simpl in Hown.
  - destruct Hown as ([r Hr] & Hf & Hd). rewrite Hf, Hd. simpl.
    eapply rwp_mono; [|done]. eapply (route_alarm_cb_spec _ a r); [done|].
    split; [done|]. by apply (linked_not_scratch w).
  - destruct Hown as ([e He] & Hf & Hd). rewrite Hf, Hd. simpl in Hlast. rewrite He in Hlast.
    apply Z.eqb_neq in Hlast. simpl.
    pose proof (qo_entries _ _ (wo_queue _ Hw) a e He) as [_ _ Ht].
    destruct (Z.ltb_spec (rf_prev_tries e) 0).
    + eapply rwp_mono; [by eapply (rreq_alarm_foreign_spec _ a e)|done].
    + eapply rwp_mono; [eapply (rreq_alarm_retry_spec _ a e); [done|done|lia]|done].
  - rewrite Hown. eapply rwp_mono; [by apply flush_cb_spec|done].
Qed.

(** The alarms that are due at the next reading of the clock. *)
Definition due (w : world) (id : alarm_id) : Prop :=
  id ∈ al_root (w_alarms w) ∧ timer_lt (env_now (w_tick w)) (key (w_alarms w) id) = false.

Lemma run_queue_spec w (queue : list alarm_id) :
  world_ok w → NoDup queue → (∀ id, id ∈ queue → id ∈ al_root (w_alarms w) ∧ last_try w id = false) →
  rwp balanced (for_each queue (λ this,
    on_alarms (erase_and_clear this);;
    b ← on_alarms (read_block this);
    run_alarm (ab_function b) this (ab_data b))) (λ _ _, True) w.
Proof.
  revert w. induction queue as [|id queue IH]; intros w Hw Hnd Hq; simpl; [by rwp_return|].
  apply NoDup_cons in Hnd as [Hni Hnd]. destruct (Hq id) as [Hin Hlast]; [left|].
  apply wp_bind. eapply wp_mono; [by apply run_one_alarm_spec|].
  intros [] w1 (Hw1 & [Hb Harm Hrq] & _). eapply wp_mono; [apply IH; [done|done|]|].
  - intros i Hi. destruct (Hq i) as [Hi1 Hi2]; [by right|]. assert (i ≠ id) as Hne by set_solver.
    split; [by apply Harm|]. destruct i as [|a|]; try done. simpl in *. by rewrite Hrq by congruence.
  - intros [] w2 (Hw2 & Hb2 & _). split_and!; [done|by etrans|done].
Qed.

(** The last retry of a discovery is a fault wherever it stands in the queue. *)
Lemma run_one_alarm_fault w id :
  world_ok w → id ∈ al_root (w_alarms w) → last_try w id = true →
  fails (
    on_alarms (erase_and_clear id);;
    b ← on_alarms (read_block id);
    run_alarm (ab_function b) id (ab_data b)) UseAfterFree w.
Proof.
  intros Hw Hin Hlast. pose proof Hin as (b & Hb & Hl)%(ok_linked _ (wo_alarms _ Hw)).
  destruct id as [a|a|]; [done| |done]. simpl in Hlast.
  destruct (w_rreqs w !! a) as [e|] eqn:He; [|done]. apply Z.eqb_eq in Hlast.
  destruct (bo_owner _ _ _ _ (wo_blocks _ Hw) _ b Hb) as (_ & Hf & Hd).
  pose proof (stopped_ok w (AL_rreq a) b Hw Hb) as Hw1.
  apply fails_bind. unfold wp, on_alarms. simpl.
  rewrite (erase_and_clear_eq _ _ b) by (done || apply ok_tree_alive, Hw).
  apply fails_bind. unfold wp, read_block. simpl. rewrite lookup_insert_eq. simpl.
  rewrite Hf, Hd. simpl. by apply (rreq_alarm_fault (stopped (AL_rreq a) b w) a e).
Qed.

Lemma run_queue_fault w (queue : list alarm_id) :
  world_ok w → NoDup queue → (∀ id, id ∈ queue → id ∈ al_root (w_alarms w)) →
  (∃ id, id ∈ queue ∧ last_try w id = true) →
  fails (for_each queue (λ this,
    on_alarms (erase_and_clear this);;
    b ← on_alarms (read_block this);
    run_alarm (ab_function b) this (ab_data b))) UseAfterFree w.
Proof.
  revert w. induction queue as [|id queue IH]; intros w Hw Hnd Hq (x & Hx & Hlx); [set_solver|].
  apply NoDup_cons in Hnd as [Hni Hnd]. simpl.
  destruct (last_try w id) eqn:Hlast.
  { apply fails_first, run_one_alarm_fault; [done|apply Hq; left|done]. }
  assert (x ∈ queue) as Hxq by (apply elem_of_cons in Hx as [->|]; congruence).
  apply fails_bind. eapply wp_mono; [apply run_one_alarm_spec; [done|apply Hq; left|done]|].
  intros [] w1 (Hw1 & [_ Harm Hrq] & _). apply IH; [done|done| |].
  - intros i Hi. apply Harm; [set_solver|]. apply Hq. by right.
  - exists x. split; [done|]. destruct x as [|a|]; [done| |done]. simpl in *.
    rewrite Hrq by set_solver. done.
Qed.

Lemma get_next_alarm_run_spec w :
  world_ok w →
  rwp inward get_next_alarm_run (λ next _, next =
    match al_root (w_alarms w) with
    | [] => None
    | this :: _ => calculate_next_run (key (w_alarms w) this) (env_now (w_tick w))
    end) w.
Proof.
  intros Hw. unfold get_next_alarm_run.
  eapply rwp_bind_step; [apply _|done|by apply tick_world_ok|apply tick_inward|].
  assert (world_ok (set_w_tick (S (w_tick w)) w)) as Hw1 by by apply tick_world_ok.
  rwp_read by reflexivity. simpl. rewrite (in_live_tree_ok (w_alarms w)) by apply Hw. rwp_read by reflexivity.
  destruct (al_root (w_alarms w)) as [|this rest] eqn:Hroot; [by rwp_return|].
  destruct (ok_root_block _ this (wo_alarms _ Hw)) as [b Hb]; [rewrite Hroot; left|].
  eapply (rwp_bind_pure _ _ _ _ _ b); [done| |].
  { unfold on_alarms, read_block. simpl. rewrite Hb. by destruct w. }
  rwp_return. unfold key. by rewrite Hb.
Qed.

Lemma run_alarms_spec w next :
  world_ok w → (timerisset next = false → ∀ id, due w id → last_try w id = false) →
  rwp balanced (run_alarms next) (λ _ _, True) w.
Proof.
  intros Hw Hdue. unfold run_alarms, process_alarms. destruct (timerisset next); simpl; [by rwp_return|].
  specialize (Hdue eq_refl). unfold do_alarm_run.
  eapply rwp_bind_step; [apply _|done|by apply tick_world_ok|by from_inward; apply tick_inward|].
  assert (world_ok (set_w_tick (S (w_tick w)) w)) as Hw1 by by apply tick_world_ok.
  rwp_read by reflexivity. simpl.
  destruct (collect_expired_spec (w_alarms w) (env_now (w_tick w)) (wo_alarms _ Hw))
    as (l1 & l2 & Hroot & Hcol & Hl1 & Hl2).
  rewrite (in_live_tree_ok (w_alarms w)), Hcol by apply Hw. rwp_read by reflexivity.
  pose proof (ok_nodup _ (wo_alarms _ Hw)) as Hnd. rewrite Hroot in Hnd.
  apply NoDup_app in Hnd as (Hnd & _ & _).
  rwp_then run_queue_spec; [done|by rewrite reverse_Permutation| |].
  - intros id Hid. rewrite reverse_Permutation in Hid. assert (id ∈ al_root (w_alarms w)) as Hin by (rewrite Hroot; set_solver).
    split; [exact Hin|]. apply Hdue. split; [done|by apply Hl1].
  - intros [] w2 Hw2 _ _. rwp_last get_next_alarm_run_spec; done.
Qed.

Lemma run_alarms_fault w next id :
  world_ok w → timerisset next = false → due w id → last_try w id = true →
  fails (run_alarms next) UseAfterFree w.
Proof.
  intros Hw Hnext [Hin Hdue] Hlast. unfold run_alarms, process_alarms. rewrite Hnext. simpl.
  destruct (collect_expired_spec (w_alarms w) (env_now (w_tick w)) (wo_alarms _ Hw))
    as (l1 & l2 & Hroot & Hcol & Hl1 & Hl2).
  pose proof (ok_nodup _ (wo_alarms _ Hw)) as Hnd. rewrite Hroot in Hnd.
  apply NoDup_app in Hnd as (Hnd & _ & _).
  assert (id ∈ l1) as Hid.
  { rewrite Hroot in Hin. apply elem_of_app in Hin as [|Hin]; [done|]. apply Hl2 in Hin. congruence. }
  unfold do_alarm_run. apply fails_bind, wp_ext, fails_bind, wp_gets, fails_bind. simpl.
  rewrite (in_live_tree_ok (w_alarms w)), Hcol by apply Hw.
  apply wp_ret, fails_first, run_queue_fault.
  - by apply tick_world_ok.
  - by rewrite reverse_Permutation.
  - intros i Hi. rewrite reverse_Permutation in Hi. simpl. rewrite Hroot. set_solver.
  - exists id. by rewrite reverse_Permutation.
Qed.

(** When the alarms ran, none of them was a last retry. *)
Lemma run_alarms_ran w next run w' :
  world_ok w → run_alarms next w = Ok run w' → timerisset next = false →
  ∀ id, due w id → last_try w id = false.
Proof.
  intros Hw Hrun Hnext id Hdue. destruct (last_try w id) eqn:Hl; [|done].
  pose proof (run_alarms_fault w next id Hw Hnext Hdue Hl) as Hf. unfold fails in Hf. congruence.
Qed.
End timers_specs.
