(* ===== verification/ShutdownSpec.v ===== *)
(** * The end of the daemon

    [msh_data_shutdown] on a well-formed state: which objects go, what happens to the
    waiting packets, and what the kernel is asked. *)

From S2P Require Export TimersSpec.

Section shutdown_specs.
Context `{E : Env} {EO : EnvOk E}.
Implicit Types w : world.

(** Everything but the routes and their timers is as it was. *)
Record rest_same (w w' : world) : Prop := {
  rs_trace : w_trace w' = w_trace w;
  rs_data : w_data w' = w_data w;
  rs_packets : w_packets w' = w_packets w;
  rs_table : w_table w' = w_table w;
  rs_find_route : w_find_route w' = w_find_route w }.

#[export] Instance rest_same_preorder : PreOrder rest_same.
Proof. split; [done|]. intros w1 w2 w3 [] []. split; congruence. Qed.

(** The timer [id] is alive, in the tree exactly when it is armed, and then the tree can
    be followed. *)
Definition timer_alive (id : alarm_id) (w : world) : Prop := ∃ b,
  al_blocks (w_alarms w) !! id = Some b ∧ (ab_linked b = true ↔ id ∈ al_root (w_alarms w)) ∧
  (id ∈ al_root (w_alarms w) → tree_alive (w_alarms w) = true).

Lemma wp_del_alive id w (Q : unit → world → Prop) :
  timer_alive id w →
  (∀ A, (∀ i, i ≠ id → al_blocks A !! i = al_blocks (w_alarms w) !! i) →
     (∀ i, i ∈ al_root A ↔ i ≠ id ∧ i ∈ al_root (w_alarms w)) → is_Some (al_blocks A !! id) →
     Q tt (set_w_alarms A w)) →
  wp (del_alarm id) Q w.
Proof.
  intros (b & Hb & Hin & Hlive) HQ. apply wp_on_alarms. change (host_alarms w) with (w_alarms w).
  change (host_set_alarms ?A w) with (set_w_alarms A w).
  unfold wp, del_alarm_, read_block, mbind, M_bind. rewrite Hb. simpl. destruct (ab_linked b).
  - assert (id ∈ al_root (w_alarms w)) as Hid by by apply Hin.
    simpl. rewrite (erase_and_clear_eq _ _ b) by auto. apply HQ; simpl.
    + intros i Hi. by apply lookup_insert_ne.
    + intros i. rewrite elem_of_unlink. tauto.
    + rewrite lookup_insert_eq. by eexists.
  - simpl. apply (HQ (w_alarms w)); [done| |by eexists]. intros i. split; [|by intros [_ ?]].
    intros Hi. split; [|done]. intros ->. by apply Hin in Hi.
Qed.

(** ** The routes *)

(** The routes [freed] are gone, with their timers, which stay in the queue. *)
Record routes_freed (freed : list addr) (w w' : world) : Prop := {
  rf_rest : rest_same w w';
  rf_rreqs : w_rreqs w' = w_rreqs w ∧ w_rreq_queue w' = w_rreq_queue w;
  rf_routes a : w_routes w' !! a = if decide (a ∈ freed) then None else w_routes w !! a;
  rf_blocks id : (∀ a, a ∈ freed → id ≠ AL_route a) →
    al_blocks (w_alarms w') !! id = al_blocks (w_alarms w) !! id;
  rf_root id : id ∈ al_root (w_alarms w') ↔ id ∈ al_root (w_alarms w) }.

Lemma free_route_wp a freed w w' :
  routes_freed freed w w' → wp (free_route a) (λ _ w'', routes_freed (freed ++ [a]) w w'') w'.
Proof.
  intros [[] Hr Hro Hb Hroot]. apply wp_bind, wp_modify, wp_on_alarms, wp_modify. split; [by split|done| | |].
  - intros x. simpl. destruct (decide (x = a)) as [->|Hne].
    + rewrite lookup_delete_eq, decide_True by set_solver. done.
    + rewrite lookup_delete_ne, Hro by done. by rewrite (decide_ext (x ∈ freed) (x ∈ freed ++ [a])) by set_solver.
  - intros id Hid. simpl. rewrite lookup_delete_ne by (apply not_eq_sym, Hid; set_solver).
    apply Hb. intros x Hx. apply Hid. set_solver.
  - exact Hroot.
Qed.

Lemma routing_table_delete_spec w :
  world_ok w →
  wp routing_table_delete (λ _ w', routes_freed (w_table w ++ [w_find_route w]) w w') w.
Proof.
  intros Hw. unfold routing_table_delete.
  apply wp_bind, wp_gets, wp_bind, (wp_for_each (λ freed _ w', routes_freed freed w w')).
  - split; [done|done|by intros a; rewrite decide_False by apply not_elem_of_nil|done|done].
  - intros freed a rest w' Hl Hf. apply wp_bind. unfold wp at 1. rewrite routing_table_del_eq.
    + by apply free_route_wp.
    + rewrite (rs_table _ _ (rf_rest _ _ _ Hf)), Hl. by destruct freed.
  - intros w1 Hf. apply wp_bind, wp_gets. pose proof Hf as [Hrest _ Hro Hb Hroot].
    rewrite (rs_find_route _ _ Hrest). destruct (find_route_live _ Hw) as (r & Hr & Hni).
    pose proof (find_route_not_in_table _ Hw) as Hnt.
    assert (w_routes w1 !! w_find_route w = Some r) as Hr1 by by rewrite Hro, decide_False.
    assert (rt_updated_cb r = None) as Hcb.
    { destruct (rt_updated_cb r) as [[]|] eqn:Hcb; [|done]. by destruct Hni. }
    destruct (route_block w (w_find_route w) Hw) as [b Hb0]; [by eexists|].
    assert (AL_route (w_find_route w) ∉ al_root (w_alarms w)) as Hnr.
    { intros (b' & Hb' & Hl)%(ok_linked _ (wo_alarms _ Hw)). rewrite Hb0 in Hb'. injection Hb' as <-.
      by rewrite (bo_find_route _ _ _ _ (wo_blocks _ Hw) b Hb0) in Hl. }
    apply wp_bind, wp_bind, (wp_read_route _ r); [done|]. rewrite Hcb. apply wp_ret.
    apply wp_bind, wp_del_alive.
    { exists b. assert (AL_route (w_find_route w) ∉ al_root (w_alarms w1)) as Hni1 by by rewrite Hroot.
      rewrite Hb; [split; [done|]|].
      - split; [|done]. split; [|done]. by rewrite (bo_find_route _ _ _ _ (wo_blocks _ Hw) b Hb0).
      - intros a Ha [= Heq]. by rewrite <-Heq in Ha. }
    intros A HA HrA _. apply wp_bind, (wp_upd_route _ r); [done|].
    apply wp_bind, wp_modify, wp_on_alarms, wp_modify.
    destruct Hrest, Hf as [_ Hrr _ _ _]. split; [by split|done| | |].
    + intros x. simpl. rewrite delete_insert_eq. destruct (decide (x = w_find_route w)) as [->|Hne].
      * rewrite lookup_delete_eq, decide_True by set_solver. done.
      * rewrite lookup_delete_ne, Hro by done.
        by rewrite (decide_ext (x ∈ w_table w) (x ∈ w_table w ++ [w_find_route w])) by set_solver.
    + intros id Hid. simpl. assert (id ≠ AL_route (w_find_route w)) as Hne by (apply Hid; set_solver).
      rewrite lookup_delete_ne, HA by done. apply Hb. intros x Hx. apply Hid. set_solver.
    + intros id. simpl. rewrite HrA, Hroot. split; [by intros [_ ?]|]. intros Hid. split; [|done]. by intros ->.
Qed.

(** ** The discoveries *)

(** The entries [l] are left, each with its timer. *)
Record discoveries_left (l : list addr) (w : world) : Prop := {
  dl_queue : w_rreq_queue w = l;
  dl_rreqs a : is_Some (w_rreqs w !! a) → a ∈ l;
  dl_timers a : a ∈ l → timer_alive (AL_rreq a) w }.

Lemma rreq_fifo_delete_spec w :
  NoDup (w_rreq_queue w) → discoveries_left (w_rreq_queue w) w →
  wp rreq_fifo_delete (λ _ w', rest_same w w' ∧ w_routes w' = w_routes w ∧ discoveries_left [] w') w.
Proof.
  intros Hnd Hd. unfold rreq_fifo_delete. apply wp_bind, wp_gets.
  apply (wp_for_each (λ _ l w', rest_same w w' ∧ w_routes w' = w_routes w ∧ discoveries_left l w')); [done| |done].
  intros pre a l w' Hl (Hrest & Hro & [Hq Hr Ht]).
  assert (a ∉ l) as Ha.
  { rewrite Hl in Hnd. apply NoDup_app in Hnd as (_ & _ & Hnd). by apply NoDup_cons in Hnd as [? _]. }
  apply wp_bind, wp_del_alive; [apply Ht; left|]. intros A HA HrA _.
  apply wp_bind. unfold wp at 1, rreq_list_del. simpl. rewrite decide_True by (rewrite Hq; left).
  apply wp_bind, wp_modify, wp_on_alarms, wp_modify. split; [|split; [done|]].
  - destruct Hrest. by split.
  - split; simpl.
    + rewrite Hq. unfold unlink. rewrite filter_cons_False by (intros Hn; by apply Hn). by apply unlink_notin.
    + intros x [e [Hne Hx]%lookup_delete_Some]. specialize (Hr x). rewrite Hx in Hr.
      destruct (proj1 (elem_of_cons _ _ _) (Hr ltac:(by eexists))); [congruence|done].
    + intros x Hx. assert (x ≠ a) as Hne by (by intros ->). destruct (Ht x) as (b & Hb & Hb'); [by right|].
      exists b. simpl. rewrite lookup_delete_ne, HA by congruence. split; [done|].
      assert (AL_rreq x ≠ AL_rreq a) as Hne' by congruence. rewrite HrA. destruct Hb' as [Hlk Hlv].
      split; [rewrite Hlk; tauto|]. intros [_ Hin]. apply tree_alive_true. simpl.
      intros i [Hi1 Hi2]%HrA. rewrite lookup_delete_ne, HA by done.
      by apply (proj1 (tree_alive_true _) (Hlv Hin)).
Qed.

(** ** All of it *)

(** What the shutdown of [w] leaves. *)
Record shut_down (w w' : world) : Prop := {
  sd_packets : w_packets w' = [];
  sd_trace : w_trace w' = w_trace w ++ verdicts NF_DROP (w_packets w);
  sd_rreqs : w_rreqs w' = ∅ ∧ w_rreq_queue w' = [];
  sd_routes a : a ∈ w_table w → w_routes w' !! a = None;
  sd_data : w_data w' = w_data w }.

(** No route of the table has a running timer, or no RREQ entry has: [routing_table_delete]
    frees the routes with their timers still in the tree, and [rreq_fifo_delete] takes the
    running timers of the entries out of that tree. *)
Definition timers_apart (w : world) : Prop :=
  (∀ a, a ∈ w_table w → AL_route a ∉ al_root (w_alarms w)) ∨
  (∀ a, a ∈ w_rreq_queue w → AL_rreq a ∉ al_root (w_alarms w)).

(** The timers of the entries after the routes are gone. *)
Lemma entry_timer_alive w w2 a :
  world_ok w → timers_apart w → a ∈ w_rreq_queue w →
  routes_freed (w_table w ++ [w_find_route w]) w w2 → timer_alive (AL_rreq a) w2.
Proof.
  intros Hw Hap Ha [_ _ _ Hbl Hroot]. apply (qo_linked _ _ (wo_queue _ Hw)) in Ha as Hlive.
  destruct (bo_rreq _ _ _ _ (wo_blocks _ Hw) a Hlive) as [b Hb]. exists b. rewrite Hbl, Hroot by done.
  split; [done|]. split.
  { rewrite (ok_linked _ (wo_alarms _ Hw)). split; [by exists b|]. intros (b' & Hb' & ?). congruence. }
  intros Hin. destruct Hap as [Hap|Hap]; [|by apply Hap in Hin].
  apply tree_alive_true. intros i Hi%Hroot. rewrite Hbl.
  - destruct (ok_root_block _ i (wo_alarms _ Hw) Hi) as [bi Hbi]. by exists bi.
  - intros x [Hx|Hx%list_elem_of_singleton]%elem_of_app ->; [by apply (Hap x)|subst x].
    apply (ok_linked _ (wo_alarms _ Hw)) in Hi as (b' & Hb' & Hl).
    by rewrite (bo_find_route _ _ _ _ (wo_blocks _ Hw) b' Hb') in Hl.
Qed.

Lemma msh_data_shutdown_spec w : world_ok w → timers_apart w → wp msh_data_shutdown (λ _, shut_down w) w.
Proof.
  intros Hw Hap. destruct (bo_flush _ _ _ _ (wo_blocks _ Hw)) as [b Hb].
  apply wp_bind, (wp_del_alarm _ b); [apply Hw|done|].
  change (host_set_alarms _ w) with (stopped AL_flush b w).
  assert (world_ok (stopped AL_flush b w)) as Hw1 by by apply stopped_ok.
  apply wp_bind. eapply wp_mono; [by apply routing_table_delete_spec|].
  intros [] w2 Hfreed. pose proof Hfreed as [Hrest [Hr2 Hq2] Hro _ _]. destruct (wo_queue _ Hw) as [Hnd Hl _].
  apply wp_bind. eapply wp_mono.
  { apply rreq_fifo_delete_spec; [by rewrite Hq2|]. split; [done| |].
    - intros a Ha. rewrite Hr2 in Ha. rewrite Hq2. by apply Hl.
    - intros a Ha. rewrite Hq2 in Ha.
      apply (entry_timer_alive (stopped AL_flush b w)); [done| |done|exact Hfreed].
      destruct Hap as [Hap|Hap]; [left|right]; simpl; intros x Hx [_ Hin]%elem_of_unlink; by apply (Hap x). }
  intros [] w3 (Hrest3 & Hro3 & [Hq3 Hr3 _]).
  assert (rest_same (stopped AL_flush b w) w3) as [Htr Hda Hp Hta _] by by etrans.
  simpl in Htr, Hda, Hp, Hta.
  eapply wp_mono; [apply packets_fifo_delete_spec; rewrite Hp; apply Hw|].
  intros [] w4 (Hp4 & Ht4 & Hd4 & _ & Hro4 & Hr4 & Hq4). split.
  - done.
  - by rewrite Ht4, Htr, Hp.
  - rewrite Hr4, Hq4. split; [|done]. apply map_eq. intros a. rewrite lookup_empty.
    apply eq_None_not_Some. intros Ha%Hr3. by apply elem_of_nil in Ha.
  - intros a Ha. rewrite Hro4, Hro3, Hro, decide_True by set_solver. done.
  - by rewrite Hd4.
Qed.
End shutdown_specs.
