(* ===== verification/CommSpec.v ===== *)
(** * The command socket: answers and bounds

    How long the answers are, which commands stay inside their buffers, and what
    they change. *)

From S2P Require Export TimersSpec.
From stdpp Require Import pretty.
#[local] Open Scope Z_scope.

(** ** Lengths *)

Lemma pretty_N_go_length n x s :
  (x < 10 ^ N.of_nat n)%N → (String.length (pretty_N_go x s) ≤ n + String.length s)%nat.
Proof.
  revert x s. induction n as [|n IH]; intros x s Hx.
  - assert (x = 0%N) as -> by (simpl in Hx; lia). rewrite pretty_N_go_0. lia.
  - destruct (decide (x = 0%N)) as [->|Hne]; [rewrite pretty_N_go_0; lia|].
    rewrite pretty_N_go_step by lia. etrans; [apply IH|simpl; lia].
    rewrite Nat2N.inj_succ, N.pow_succ_r' in Hx. by apply N.Div0.div_lt_upper_bound.
Qed.

Lemma fmt_d_length x : strlen (fmt_d x) ≤ 11.
Proof.
  unfold strlen, fmt_d, s32. pose proof (Z.mod_pos_bound (x + 2 ^ 31) (2 ^ 32)).
  generalize ((x + 2 ^ 31) mod 2 ^ 32) H. intros y Hy. clear H.
  assert (∀ n : N, (n < 10 ^ 10)%N → (String.length (pretty n) ≤ 10)%nat) as HN.
  { intros n Hn. unfold pretty, pretty_N. case_decide; [simpl; lia|].
    etrans; [by apply (pretty_N_go_length 10)|simpl; lia]. }
  assert (∀ z : Z, - 2 ^ 31 ≤ z < 2 ^ 31 → (String.length (pretty z) ≤ 11)%nat) as HZ.
  { intros z Hz. destruct z as [|p|p]; [simpl; lia| |].
    - change (pretty (Z.pos p)) with (pretty (N.pos p)). pose proof (HN (N.pos p)). lia.
    - change (pretty (Z.neg p)) with ("-" +:+ pretty (N.pos p)).
      change (String.length ("-" +:+ pretty (N.pos p))) with (S (String.length (pretty (N.pos p)))).
      pose proof (HN (N.pos p)). lia. }
  specialize (HZ (y - 2 ^ 31)). lia.
Qed.

Lemma string_length_app s1 s2 : strlen (s1 +:+ s2) = strlen s1 + strlen s2.
Proof. unfold strlen. induction s1 as [|c s1 IH]; [done|]. change ((String c s1) +:+ s2) with (String c (s1 +:+ s2)). simpl String.length. lia. Qed.

Lemma concat_length (l : list Z) :
  strlen (String.concat "#" (fmt_d <$> l)) ≤ 12 * Z.of_nat (length l).
Proof.
  induction l as [|x l IH]; [done|]. pose proof (fmt_d_length x).
  rewrite fmap_cons. change (length (x :: l)) with (S (length l)). rewrite Nat2Z.inj_succ.
  destruct (fmt_d <$> l) as [|y l'] eqn:Hl; [change (strlen (fmt_d x) ≤ 12 * Z.succ (Z.of_nat (length l))); lia|].
  change (String.concat "#" (fmt_d x :: y :: l'))
    with (fmt_d x +:+ ("#" +:+ String.concat "#" (y :: l'))).
  rewrite !string_length_app. change (strlen "#") with 1. lia.
Qed.

Lemma fields_text_length l : strlen (fields_text l) ≤ 12 * Z.of_nat (length l) + 1.
Proof.
  unfold fields_text. rewrite string_length_app. change (strlen newline) with 1.
  pose proof (concat_length l). lia.
Qed.

Lemma statistics_text_length s : strlen (statistics_text s) ≤ 193.
Proof. etrans; [apply fields_text_length|done]. Qed.

Lemma route_text_length r : strlen (route_text r) ≤ 85.
Proof. etrans; [apply fields_text_length|done]. Qed.

Lemma strlen_nonneg s : 0 ≤ strlen s.
Proof. unfold strlen. lia. Qed.

Section comm_specs.
Context `{E : Env} {EO : EnvOk E}.
Implicit Types w : world.

(** ** Sending *)

(** Replies are the only trace of a command. *)
Definition replied (w w' : world) : Prop := ∃ evs, w_trace w' = w_trace w ++ evs ∧
  Forall (λ ev, ∃ s, ev = EvReply s) evs.

Lemma replies_silent evs :
  Forall (λ ev, ∃ s, ev = EvReply s) evs →
  verdict_ids evs = [] ∧ sent evs = [] ∧ Forall (λ ev, asks ev = false) evs.
Proof. induction 1 as [|ev evs [s ->] _ (IH1 & IH2 & IH3)]; [done|]. split_and!; [done|done|by constructor]. Qed.

Lemma replied_balanced w evs :
  Forall (λ ev, ∃ s, ev = EvReply s) evs → balanced w (set_w_trace (w_trace w ++ evs) w).
Proof.
  intros (Hv & Hs & Ha)%replies_silent. split; try done.
  - unfold ledger; simpl. by rewrite verdict_ids_app, Hv, app_nil_r.
  - by apply logs_app, silent_messages.
  - by apply (in_kernel_silent _ _ evs).
Qed.

(** The [send] calls for a text in a buffer of [bufsize] bytes: pieces of 1024 bytes. *)
Definition pieces (text : string) (bufsize size : Z) : list string :=
  (λ i, String.substring (Z.to_nat (1024 * Z.of_nat i)) 1024 (text +:+ zeros (Z.to_nat bufsize)))
    <$> seq 0 (Z.to_nat ((size + 1023) / 1024)).

Lemma replies_only l : Forall (λ ev, ∃ s, ev = EvReply s) (EvReply <$> l).
Proof. apply Forall_fmap, Forall_true. intros s. by exists s. Qed.

Lemma send_msg_eq text bufsize size w :
  0 ≤ size → 1024 * ((size + 1023) / 1024) ≤ bufsize →
  send_msg text bufsize size w =
    Ok tt (set_w_trace (w_trace w ++ (EvReply <$> pieces text bufsize size)) w).
Proof.
  intros Hs Hb. unfold send_msg, pieces.
  set (n := Z.to_nat ((size + 1023) / 1024)).
  assert (∀ i, i ∈ seq 0 n → 1024 * Z.of_nat i + 1024 ≤ bufsize) as Hin.
  { intros i [_ Hi]%elem_of_seq. unfold n in Hi. lia. }
  revert w. induction (seq 0 n) as [|i l IH]; intros w; simpl.
  { rewrite app_nil_r. by destruct w. }
  unfold mbind at 1, M_bind at 1. unfold mbind at 1, M_bind at 1, buffer_read.
  rewrite (proj2 (Z.leb_le _ _)) by (apply Hin; left). simpl.
  unfold emit, modify. etrans; [apply IH|].
  - intros j Hj. apply Hin. by right.
  - simpl. by rewrite <-(assoc_L (++)).
Qed.

(** *** The pieces put together *)

Lemma string_app_assoc s1 s2 s3 : (s1 +:+ s2) +:+ s3 = s1 +:+ (s2 +:+ s3).
Proof. induction s1 as [|c s1 IH]; [done|]. change (String c ((s1 +:+ s2) +:+ s3) = String c (s1 +:+ (s2 +:+ s3))). by f_equal. Qed.
Lemma string_app_nil_r s : s +:+ "" = s.
Proof. induction s as [|c s IH]; [done|]. change (String c (s +:+ "") = String c s). by f_equal. Qed.

Lemma substring_split n k m s :
  String.substring m n s +:+ String.substring (m + n) k s = String.substring m (n + k) s.
Proof.
  revert n m. induction s as [|c s IH]; intros n m; [by destruct m, n|].
  destruct m as [|m]; [|exact (IH n m)]. destruct n as [|n]; [done|].
  change (String c (String.substring 0 n s +:+ String.substring (0 + n) k s) = String c (String.substring 0 (n + k) s)).
  by rewrite IH.
Qed.

Lemma prefix_take s t n : (String.length s ≤ n)%nat → String.prefix s (String.substring 0 n (s +:+ t)) = true.
Proof.
  revert n. induction s as [|c s IH]; intros n Hn; [by destruct (String.substring _ _ _)|].
  destruct n as [|n]; [simpl in Hn; lia|]. change (String c s +:+ t) with (String c (s +:+ t)). simpl.
  destruct (Ascii.ascii_dec c c); [|done]. apply IH. simpl in Hn. lia.
Qed.

(** The receiver reads the text, then what the buffer has behind it. *)
Lemma pieces_text text bufsize :
  String.prefix text (foldr String.append "" (pieces text bufsize (strlen text))) = true.
Proof.
  unfold pieces. set (n := Z.to_nat _).
  assert (∀ m k s, foldr String.append "" ((λ i, String.substring (Z.to_nat (1024 * Z.of_nat i)) 1024 s) <$> seq m k)
    = String.substring (1024 * m) (1024 * k) s) as Hall.
  { intros m k s. revert m. induction k as [|k IH]; intros m.
    - rewrite Nat.mul_0_r. generalize (1024 * m)%nat. induction s as [|c s IHs]; intros [|x]; [done..|apply (IHs x)].
    - simpl seq. rewrite fmap_cons. cbn [foldr]. rewrite IH.
      replace (Z.to_nat (1024 * Z.of_nat m)) with (1024 * m)%nat by lia.
      replace (1024 * S m)%nat with (1024 * m + 1024)%nat by lia.
      replace (1024 * S k)%nat with (1024 + 1024 * k)%nat by lia. apply substring_split. }
  rewrite Hall. apply prefix_take. unfold n, strlen.
  enough (Z.of_nat (String.length text) ≤ 1024 * ((Z.of_nat (String.length text) + 1023) / 1024)) by lia.
  Z.to_euclidean_division_equations; lia.
Qed.

(** ** The answers *)

(** The lines of the routes, head of the table first. *)
Definition routes_text (w : world) (entries : list addr) : string :=
  foldr (λ a s, from_option route_text EmptyString (w_routes w !! a) +:+ s) EmptyString entries.

Lemma routes_text_length w entries : strlen (routes_text w entries) ≤ 85 * Z.of_nat (length entries).
Proof.
  induction entries as [|a l IH]; [done|]. change (length (a :: l)) with (S (length l)).
  change (routes_text w (a :: l))
    with (from_option route_text EmptyString (w_routes w !! a) +:+ routes_text w l).
  rewrite string_length_app, Nat2Z.inj_succ.
  assert (strlen (from_option route_text EmptyString (w_routes w !! a)) ≤ 85); [|lia].
  destruct (w_routes w !! a) as [r|]; [apply route_text_length|done].
Qed.

Lemma add_routes_eq w entries number buf :
  (∀ a, a ∈ entries → is_Some (w_routes w !! a)) →
  number + 85 * Z.of_nat (length entries) + 1 ≤ stats_size →
  add_routes entries number buf w = Ok (buf +:+ routes_text w entries) w.
Proof.
  revert number buf. induction entries as [|a l IH]; intros number buf Hlive Hn.
  { simpl. unfold mret, M_ret. by rewrite string_app_nil_r. }
  destruct (Hlive a) as [r Hr]; [left|]. simpl. unfold mbind at 1, M_bind at 1, read_route.
  rewrite Hr. simpl. change (length (a :: l)) with (S (length l)) in Hn. rewrite Nat2Z.inj_succ in Hn.
  pose proof (route_text_length r). rewrite (proj2 (Z.leb_le _ _)) by lia.
  rewrite IH; [by rewrite string_app_assoc|set_solver|lia].
Qed.

(** What [get_routes] prints when the lines fit the buffer. *)
Lemma get_routes_eq w :
  world_ok w → (length (w_table w) ≤ 48)%nat → get_routes w = Ok (routes_text w (w_table w)) w.
Proof.
  intros Hw Hlen. unfold get_routes, mbind, M_bind, gets. rewrite add_routes_eq; [done| |].
  - intros a (r & Hr & _)%(table_live _ _ Hw). by exists r.
  - unfold stats_size. lia.
Qed.

(** ** Commands *)

(** The commands that stay inside their buffers: all but [kill] and [restart], whose
    answer is sent from a buffer of four bytes; [showroutes] with up to 48 routes. *)
Definition command_safe (w : world) (command : string) : bool :=
  negb (is_command MSG_KILL command) && negb (is_command MSG_RESTART command) &&
  (negb (is_command MSG_SHOW_ROUTES command) || (length (w_table w) <=? 48)%nat).

(** The answer to a command, if it has one, and the counters after it. *)
Definition command_answer (w : world) (command : string) : option string :=
  if is_command MSG_SHOW_ROUTES command then Some (routes_text w (w_table w))
  else if is_command MSG_SHOW_STATISTICS command then Some (statistics_text (w_stats w))
  else if is_command MSG_CLEAN_STATISTICS command
  then Some (statistics_text (stats_reset (w_stats w))) else None.
Definition command_stats (w : world) (command : string) : statistics_t :=
  if is_command MSG_SHOW_ROUTES command || is_command MSG_SHOW_STATISTICS command then w_stats w
  else if is_command MSG_CLEAN_STATISTICS command then stats_reset (w_stats w) else w_stats w.

(** [w] after the answer: nothing else changes. *)
Definition answered (command : string) (w : world) : world :=
  set_w_trace (w_trace w ++ (EvReply <$>
      from_option (λ text, pieces text stats_size (strlen text)) [] (command_answer w command)))
    (set_w_stats (command_stats w command) w).

Lemma answered_ok command w : world_ok w → world_ok (answered command w).
Proof. intros Hw. by apply trace_world_ok, stats_world_ok. Qed.

Lemma fits_buffer text : strlen text ≤ 4096 → 1024 * ((strlen text + 1023) / 1024) ≤ stats_size.
Proof. unfold stats_size. intros. Z.to_euclidean_division_equations; lia. Qed.

Lemma comm_command_spec w command :
  world_ok w → command_safe w command = true →
  comm_interface_process_command command w = Ok tt (answered command w).
Proof.
  intros Hw Hsafe. unfold command_safe in Hsafe. unfold comm_interface_process_command.
  unfold answered, command_answer, command_stats.
  destruct (is_command MSG_KILL command); [done|]. destruct (is_command MSG_RESTART command); [done|].
  simpl in Hsafe. pose proof (strlen_nonneg) as Hnn.
  assert (∀ s, strlen (statistics_text s) ≤ 4096) as Hst
    by (intros s; pose proof (statistics_text_length s); lia).
  destruct (is_command MSG_SHOW_ROUTES command).
  { apply Nat.leb_le in Hsafe. unfold mbind, M_bind. rewrite (get_routes_eq w) by done.
    pose proof (routes_text_length w (w_table w)).
    rewrite send_msg_eq; [by destruct w|apply Hnn|apply fits_buffer; lia]. }
  destruct (is_command MSG_SHOW_STATISTICS command).
  { unfold get_statistics, mbind, M_bind. simpl.
    rewrite send_msg_eq; [by destruct w|apply Hnn|by apply fits_buffer]. }
  destruct (is_command MSG_CLEAN_STATISTICS command).
  - unfold get_statistics, mbind, M_bind. simpl.
    rewrite send_msg_eq; [done|apply Hnn|by apply fits_buffer].
  - simpl. rewrite app_nil_r. by destruct w.
Qed.

(** Whatever the command, when the answer comes out nothing else has changed. *)
Lemma send_msg_sent buf bufsize size w w' :
  send_msg buf bufsize size w = Ok tt w' → replied w w' ∧ w' = set_w_trace (w_trace w') w.
Proof.
  unfold send_msg. revert w. induction (seq 0 _) as [|i l IH]; intros w; simpl.
  { unfold mret, M_ret. intros [= <-]. split; [exists []; by rewrite app_nil_r|by destruct w]. }
  unfold mbind at 1, M_bind at 1. unfold mbind at 1, M_bind at 1.
  destruct (buffer_read _ _ _ _) as [chunk|]; [|done]. simpl.
  intros Hl%IH. destruct Hl as [(evs & Hevs & Hall) Heq]. simpl in *. split.
  - exists (EvReply chunk :: evs). split; [by rewrite Hevs, <-(assoc_L (++))|].
    constructor; [by eexists|done].
  - done.
Qed.

Lemma add_routes_reads entries number buf w text w' :
  add_routes entries number buf w = Ok text w' → w' = w.
Proof.
  revert number buf. induction entries as [|a l IH]; intros number buf; simpl; [by intros [= _ <-]|].
  unfold mbind, M_bind, read_route. destruct (w_routes w !! a) as [r|]; [|done]. simpl.
  case_match; [apply IH|done].
Qed.

Lemma comm_command_ran w command w' :
  world_ok w → comm_interface_process_command command w = Ok tt w' → world_ok w' ∧ balanced w w'.
Proof.
  intros Hw. assert (∀ v buf n k v', world_ok v → balanced w v → send_msg buf n k v = Ok tt v' →
    world_ok v' ∧ balanced w v') as Hsend.
  { intros v buf n k v' Hv Hb ((evs & Hevs & Hall) & Heq)%send_msg_sent. rewrite Heq, Hevs.
    split; [by apply trace_world_ok|]. etrans; [exact Hb|]. by apply replied_balanced. }
  unfold comm_interface_process_command.
  destruct (is_command MSG_KILL command); [done|]. destruct (is_command MSG_RESTART command); [done|].
  destruct (is_command MSG_SHOW_ROUTES command).
  { unfold get_routes, gets. unfold mbind at 1, M_bind at 1. unfold mbind at 1, M_bind at 1.
    destruct (add_routes _ _ _ w) as [text v|] eqn:Ht; [|done].
    apply add_routes_reads in Ht as ->. by apply Hsend. }
  destruct (is_command MSG_SHOW_STATISTICS command); [by apply Hsend|].
  destruct (is_command MSG_CLEAN_STATISTICS command); [|by intros [= <-]].
  apply (Hsend (set_w_stats (stats_reset (w_stats w)) w)); [by apply stats_world_ok|].
  by from_inward; apply stats_inward.
Qed.

(** The answer to [kill] and [restart] reads 1024 bytes from a buffer of four. *)
Lemma comm_command_overread w command :
  is_command MSG_KILL command = true ∨ is_command MSG_RESTART command = true →
  fails (comm_interface_process_command command) OutOfBounds w.
Proof.
  intros Hc. unfold comm_interface_process_command, fails.
  destruct (is_command MSG_KILL command); [done|]. by destruct Hc as [Hc | ->].
Qed.
End comm_specs.
