(* ===== verification/ClientSpec.v ===== *)
(** * What the client sends

    The words of the client against the commands of the daemon: which command a word names,
    how the daemon reacts to the text sent for it, and which texts a session sends. *)

From S2P Require Export Client.
From Stdlib Require Import Ascii.
#[local] Open Scope Z_scope.

(** ** The command a word names *)

Fixpoint named_in (commands : list string) (w : string) : option string :=
  match commands with
  | number :: name :: commands' =>
      if is_command number w || is_command name w then Some name else named_in commands' w
  | _ => None
  end.
(** The first entry of COMMANDS whose number or name the word starts with. *)
Definition named (w : string) : option string := named_in COMMANDS w.

(** The texts the daemon reacts to. *)
Definition daemon_commands : list string :=
  [MSG_KILL; MSG_RESTART; MSG_SHOW_ROUTES; MSG_SHOW_STATISTICS; MSG_CLEAN_STATISTICS].

Lemma prefix_append m w : String.prefix m w = true → ∃ x, w = m +:+ x.
Proof.
  revert w. induction m as [|a m IH]; intros w; [by exists w|]. destruct w as [|b w]; simpl; [done|].
  destruct (ascii_dec a b) as [->|]; [|done]. intros (x & ->)%IH. by exists x.
Qed.

Ltac split_named Hw Hc :=
  lazymatch type of Hw with (if ?b then _ else _) = _ => destruct b eqn:Hc end.

(** A word names a command in one of two ways, and the client sees which. *)
Lemma named_cases w m : named w = Some m → ∃ number x,
  (number, m) ∈ [("0", MSG_HELP); ("1", MSG_QUIT); ("2", MSG_KILL); ("3", MSG_RESTART);
                 ("4", MSG_SHOW_ROUTES); ("5", MSG_SHOW_STATISTICS); ("6", MSG_CLEAN_STATISTICS)]
  ∧ (w = number +:+ x ∨ w = m +:+ x).
Proof.
  unfold named, COMMANDS. cbn [named_in]. intros Hw.
  repeat (split_named Hw Hc; [injection Hw as <-; apply orb_true_iff in Hc as [(x & ->)%prefix_append|(x & ->)%prefix_append];
    eexists _, x; [split; [|left; reflexivity]|split; [|right; reflexivity]];
    repeat (first [apply list_elem_of_here|apply list_elem_of_further])|clear Hc]).
  discriminate.
Qed.

(** Names and numbers are told apart by their first characters; the rest of the word is
    not looked at. *)
Ltac named_cases H :=
  let n := fresh "number" in let x := fresh "x" in
  apply named_cases in H as (n & x & H & [->| ->]);
  repeat (apply elem_of_cons in H as [[= -> ->]|H]); try (by apply elem_of_nil in H);
  destruct x; reflexivity.

Lemma named_check w m : named w = Some m → existsb (λ c, is_command c w) COMMANDS = true.
Proof. intros H. named_cases H. Qed.
Lemma named_help w m : named w = Some m → is_help_command w = bool_decide (m = MSG_HELP).
Proof. intros H. named_cases H. Qed.
Lemma named_quit w m : named w = Some m → is_quit_command w = bool_decide (m = MSG_QUIT).
Proof. intros H. named_cases H. Qed.
(** The text sent for a word starts like the name of the command, and no other. *)
Lemma named_text w m c : named w = Some m → c ∈ daemon_commands →
  is_command c (command_name COMMANDS w) = is_command c m.
Proof.
  intros H Hc. unfold daemon_commands in Hc.
  repeat (apply elem_of_cons in Hc as [->|Hc]); try (by apply elem_of_nil in Hc); named_cases H.
Qed.
Lemma unnamed_check w : named w = None → existsb (λ c, is_command c w) COMMANDS = false.
Proof.
  unfold named, COMMANDS. cbn [named_in]. intros Hw. cbn [existsb].
  repeat (split_named Hw Hc; [discriminate|]; apply orb_false_iff in Hc as [-> ->]). reflexivity.
Qed.

(** ** Words on the terminal *)

(** A word the buffers hold, without the character that means something to [snprintf]. *)
Definition is_word (w : string) : bool :=
  negb (String.eqb w "") &&
  forallb (λ a, negb (isspace a) && negb (Ascii.eqb a "%")) (String.list_ascii_of_string w) &&
  (strlen w <? 127).

(** Each word behind a line end (the first character is lost to [getchar]). *)
Fixpoint typed (ws : list string) : string :=
  match ws with
  | [] => newline
  | w :: ws => newline +:+ w +:+ typed ws
  end.

Lemma append_length v w : String.length (v +:+ w) = (String.length v + String.length w)%nat.
Proof. induction v as [|a v IH]; [done|]. exact (f_equal S IH). Qed.
Lemma typed_length ws : (length ws < String.length (typed ws))%nat.
Proof.
  induction ws as [|w ws IH]; [simpl; lia|]. cbn [typed length]. rewrite !append_length.
  change (String.length newline) with 1%nat. lia.
Qed.

Lemma typed_newline ws : ∃ rest, typed ws = String (ascii_of_nat 10) rest.
Proof. destruct ws as [|w ws]; [by exists ""|]. by exists (w +:+ typed ws). Qed.

Lemma split_word_cons a s : isspace a = false →
  split_word (String a s) = let '(w, r) := split_word s in (String a w, r).
Proof. simpl. by intros ->. Qed.

Lemma split_word_typed w ws : forallb (λ a, negb (isspace a) && negb (Ascii.eqb a "%")) (String.list_ascii_of_string w) = true →
  split_word (w +:+ typed ws) = (w, typed ws).
Proof.
  destruct (typed_newline ws) as [rest ->]. induction w as [|a w IH]; [done|].
  intros [[Ha%negb_true_iff _]%andb_true_iff Hw]%andb_true_iff.
  specialize (IH Hw). 
  change (split_word (String a (w +:+ String (ascii_of_nat 10) rest)) = (String a w, String (ascii_of_nat 10) rest)).
  rewrite split_word_cons by done. by rewrite IH.
Qed.

Lemma format_of_plain w : forallb (λ a, negb (isspace a) && negb (Ascii.eqb a "%")) (String.list_ascii_of_string w) = true →
  format_of w = Some w.
Proof.
  induction w as [|a w IH]; [done|]. intros [[_ Ha%negb_true_iff]%andb_true_iff Hw]%andb_true_iff.
  specialize (IH Hw). destruct a as [[] [] [] [] [] [] [] []]; simpl; rewrite ?IH; try done.
Qed.

Lemma is_word_spec w : is_word w = true → w ≠ "" ∧
  forallb (λ a, negb (isspace a) && negb (Ascii.eqb a "%")) (String.list_ascii_of_string w) = true ∧ strlen w < 127.
Proof.
  unfold is_word. intros [[Hne%negb_true_iff Hp]%andb_true_iff Hl%Z.ltb_lt]%andb_true_iff.
  split; [|done]. intros ->. done.
Qed.

Lemma typed_skip w ws : is_word w = true → skip_space (w +:+ typed ws) = w +:+ typed ws.
Proof.
  intros (Hne & Hp & _)%is_word_spec. destruct w as [|a w]; [done|].
  apply andb_true_iff in Hp as [[Ha%negb_true_iff _]%andb_true_iff _].
  change (skip_space (String a (w +:+ typed ws)) = String a (w +:+ typed ws)). simpl. by rewrite Ha.
Qed.

(** Reading the next word. *)
Lemma scan_typed w ws c (Q : string → client → Prop) :
  cl_stdin c = w +:+ typed ws → is_word w = true →
  (∀ c', cl_stdin c' = typed ws → cl_net c' = cl_net c → cl_sent c' = cl_sent c → Q w c') →
  wp scan_command Q c.
Proof.
  intros Hin Hw HQ. unfold scan_command. wp_steps. rewrite Hin.
  pose proof Hw as (_ & Hp & Hlen)%is_word_spec. rewrite typed_skip, split_word_typed by done. wp_steps.
  destruct (Z.leb_spec (strlen w + 1) command_SIZE) as [_|Hl]; [|unfold command_SIZE in Hl; lia].
  wp_steps. by apply HQ.
Qed.

(** The words [get_command] turns down are consumed. *)
Lemma get_command_spec ws : ∀ fuel c, cl_stdin c = typed ws → Forall (λ w, is_word w = true) ws →
  (length ws < fuel)%nat → Exists (λ w, is_Some (named w)) ws →
  wp (get_command_loop fuel) (λ w c', ∃ bad ws', ws = bad ++ w :: ws' ∧ Forall (λ w, named w = None) bad ∧
    is_Some (named w) ∧ cl_stdin c' = typed ws' ∧ cl_net c' = cl_net c ∧ cl_sent c' = cl_sent c) c.
Proof.
  induction ws as [|w ws IH]; intros fuel c Hin Hws Hfuel Hex; [by apply Exists_nil in Hex|].
  apply Forall_cons in Hws as [Hw Hws]. destruct fuel as [|fuel]; [simpl in Hfuel; lia|]. simpl in Hfuel.
  cbn [get_command_loop]. unfold print at 1. wp_steps.
  unfold getchar. wp_steps. apply (scan_typed w ws); [cbn; by rewrite Hin|done|]. intros c1 Hin1 Hnet1 Hsent1. wp_steps.
  unfold check_command. destruct (named w) as [m|] eqn:Hm.
  - rewrite (named_check _ _ Hm). wp_steps. exists [], ws. by rewrite Hm.
  - rewrite (unnamed_check _ Hm). unfold print_line, print. wp_steps.
    apply Exists_cons in Hex as [Hex|Hex]; [destruct Hex; congruence|].
    eapply wp_mono; [apply IH; [exact Hin1|done|lia|done]|].
    intros w' c' (bad & ws' & -> & Hbad & Hsome & Hin2 & Hnet2 & Hsent2). exists (w :: bad), ws'.
    rewrite Hnet2, Hsent2. split; [done|]. split; [by constructor|done].
Qed.

(** ** A session *)

(** The commands a session asks the daemon for, up to the first quit; [None]: no quit. *)
Fixpoint requests (ws : list string) : option (list string) :=
  match ws with
  | [] => None
  | w :: ws =>
      match named w with
      | Some m => if bool_decide (m = MSG_HELP) then requests ws
                  else if bool_decide (m = MSG_QUIT) then Some []
                  else cons m <$> requests ws
      | None => requests ws
      end
  end.

Lemma requests_skip bad ws : Forall (λ w, named w = None) bad → requests (bad ++ ws) = requests ws.
Proof. induction 1 as [|w bad Hw _ IH]; simpl; [done|]. by rewrite Hw. Qed.
Lemma requests_named ws ms : requests ws = Some ms → Exists (λ w, is_Some (named w)) ws.
Proof.
  revert ms. induction ws as [|w ws IH]; intros ms; simpl; [done|]. intros Hr.
  destruct (named w) as [m|] eqn:Hm; [left; by exists m|right; by eapply IH].
Qed.

(** A connection that takes the text, and whose answers arrive in pieces shorter than the
    buffer; one with a piece that fills it. *)
Definition good_connection (k : connection) : Prop :=
  ∃ received, k = Answers received ∧ Forall (λ r, strlen r < reply_size) received.
Definition full_connection (k : connection) : Prop :=
  ∃ before r after, k = Answers (before ++ r :: after) ∧ Forall (λ r, strlen r < reply_size) before ∧
    reply_size ≤ strlen r.

Lemma print_reply_spec received c (Q : unit → client → Prop) :
  Forall (λ r, strlen r < reply_size) received →
  (∀ c', cl_stdin c' = cl_stdin c → cl_net c' = cl_net c → cl_sent c' = cl_sent c → Q tt c') →
  wp (print_reply received) Q c.
Proof.
  intros Hall. unfold print_reply. revert c. induction Hall as [|r received Hr _ IH]; intros c HQ; simpl.
  - wp_steps. by apply HQ.
  - wp_steps. destruct (Z.ltb_spec (strlen r) reply_size); [|lia]. unfold print. wp_steps. apply IH.
    intros c' H1 H2 H3. by apply HQ.
Qed.

(** What fills the client's buffer has its zero byte written outside of it. *)
Lemma full_reply_overflows before r after c :
  Forall (λ r, strlen r < reply_size) before → reply_size ≤ strlen r →
  fails (print_reply (before ++ r :: after)) OutOfBounds c.
Proof.
  intros Hall Hr. unfold print_reply. revert c. induction Hall as [|r0 before Hr0 _ IH]; intros c.
  - simpl. apply fails_first. destruct (Z.ltb_spec (strlen r) reply_size); [lia|done].
  - simpl. apply fails_bind. destruct (Z.ltb_spec (strlen r0) reply_size); [|lia].
    unfold print. wp_steps. apply IH.
Qed.

(** The text for a word has no percent sign. *)
Lemma command_name_format w m : named w = Some m → is_word w = true →
  format_of (command_name COMMANDS w) = Some (command_name COMMANDS w) ∧ strlen (command_name COMMANDS w) < 127.
Proof.
  intros Hm (_ & Hp & Hl)%is_word_spec. unfold COMMANDS. cbn [command_name].
  repeat (destruct (is_command _ w); [done|]). split; [by apply format_of_plain|done].
Qed.

Lemma send_command_spec w m k net c (Q : Z → client → Prop) :
  named w = Some m → is_word w = true → cl_net c = k :: net → good_connection k →
  (∀ c', cl_stdin c' = cl_stdin c → cl_net c' = net →
     cl_sent c' = cl_sent c ++ [command_name COMMANDS w] → Q 0 c') →
  wp (send_command w) Q c.
Proof.
  intros Hm Hw Hnet (received & -> & Hshort) HQ. unfold send_command, next_connection. wp_steps.
  rewrite Hnet. wp_steps. destruct (command_name_format _ _ Hm Hw) as [-> _]. cbn [demand]. wp_steps.
  apply print_reply_spec; [done|]. intros c' H1 H2 H3. wp_steps. by apply HQ.
Qed.

Lemma send_command_overflows w m k net c :
  named w = Some m → is_word w = true → cl_net c = k :: net → full_connection k →
  fails (send_command w) OutOfBounds c.
Proof.
  intros Hm Hw Hnet (before & r & after & -> & Hall & Hr). unfold send_command, next_connection.
  apply fails_bind. wp_steps. rewrite Hnet. wp_steps.
  destruct (command_name_format _ _ Hm Hw) as [-> _]. cbn [demand].
  apply fails_bind. wp_steps. apply fails_bind. wp_steps. apply fails_first. by apply full_reply_overflows.
Qed.

Section session.
Context `{E : Env}.

(** The daemon reacts to the text as to the plain command. *)
Definition same_reaction (text m : string) : Prop :=
  comm_interface_receive_packets (Some text) = comm_interface_receive_packets (Some m).

Lemma reaction_cong t m : strlen t < command_buffer_size → strlen m < command_buffer_size →
  (∀ c, c ∈ daemon_commands → is_command c t = is_command c m) → same_reaction t m.
Proof.
  intros Ht Hm Hc. unfold same_reaction, comm_interface_receive_packets, comm_interface_process_command.
  destruct (Z.ltb_spec (strlen t) command_buffer_size); [|lia].
  destruct (Z.ltb_spec (strlen m) command_buffer_size); [|lia].
  rewrite !Hc by (unfold daemon_commands; set_solver). done.
Qed.
Lemma named_reaction w m : named w = Some m → is_word w = true → same_reaction (command_name COMMANDS w) m.
Proof.
  intros Hm Hw. apply reaction_cong.
  - destruct (command_name_format _ _ Hm Hw). unfold command_buffer_size. lia.
  - apply named_cases in Hm as (n & x & Hin & _).
    repeat (apply elem_of_cons in Hin as [[= -> ->]|Hin]; [done|]). by apply elem_of_nil in Hin.
  - intros c Hc. by apply named_text.
Qed.

Lemma client_loop_spec fuel : ∀ ws c ms, cl_stdin c = typed ws → Forall (λ w, is_word w = true) ws →
  (length ws < fuel)%nat → requests ws = Some ms →
  Forall good_connection (take (length ms) (cl_net c)) → (length ms ≤ length (cl_net c))%nat →
  wp (client_loop fuel) (λ _ c', ∃ ts, cl_sent c' = cl_sent c ++ ts ∧ Forall2 same_reaction ts ms) c.
Proof.
  induction fuel as [|fuel IH]; intros ws c ms Hin Hws Hfuel Hreq Hnet Hlen; [lia|].
  cbn [client_loop]. unfold get_command, input_rounds. wp_steps.
  eapply wp_mono; [apply (get_command_spec ws); [exact Hin|done| |by eapply requests_named]|].
  { rewrite Hin. pose proof (typed_length ws). lia. }
  intros w c1 (bad & ws' & -> & Hbad & [m Hm] & Hin1 & Hnet1 & Hsent1).
  rewrite (requests_skip bad) in Hreq by done. cbn [requests] in Hreq. rewrite Hm in Hreq.
  apply Forall_app in Hws as [_ [Hw Hws]%Forall_cons]. rewrite length_app in Hfuel. simpl in Hfuel.
  rewrite <-Hnet1 in Hnet, Hlen. rewrite <-Hsent1.
  rewrite (named_help _ _ Hm). destruct (bool_decide (m = MSG_HELP)).
  { unfold help_command, print. wp_steps.
    apply (IH ws' (set_cl_printed (cl_printed c1 ++ [HELP_COMMAND]) c1) ms Hin1 Hws); [lia|done..]. }
  rewrite (named_quit _ _ Hm). destruct (bool_decide (m = MSG_QUIT)).
  { wp_steps. injection Hreq as <-. exists []. by rewrite app_nil_r. }
  apply fmap_Some in Hreq as (ms' & Hreq & ->). destruct (cl_net c1) as [|k net] eqn:Hk; [simpl in Hlen; lia|].
  apply Forall_cons in Hnet as [Hgood Hnet]. wp_steps.
  eapply send_command_spec; [done|done|done|done|]. intros c2 Hin2 Hnet2 Hsent2.
  eapply wp_mono; [eapply (IH ws' c2 ms')|].
  - congruence.
  - done.
  - lia.
  - done.
  - by rewrite Hnet2.
  - rewrite Hnet2. simpl in Hlen. lia.
  - intros _ c' (ts & Hts & HR). exists (command_name COMMANDS w :: ts).
    rewrite Hts, Hsent2, <-(assoc_L (++)). split; [done|]. constructor; [by apply named_reaction|done].
Qed.

Lemma client_loop_overflows fuel : ∀ ws c ms before k after, cl_stdin c = typed ws →
  Forall (λ w, is_word w = true) ws → (length ws < fuel)%nat → requests ws = Some ms →
  cl_net c = before ++ k :: after → Forall good_connection before → full_connection k →
  (length before < length ms)%nat → fails (client_loop fuel) OutOfBounds c.
Proof.
  induction fuel as [|fuel IH]; intros ws c ms before k after Hin Hws Hfuel Hreq Hnet Hgood Hfull Hlen; [lia|].
  cbn [client_loop]. unfold get_command, input_rounds. apply fails_bind. wp_steps.
  eapply wp_mono; [apply (get_command_spec ws); [exact Hin|done| |by eapply requests_named]|].
  { rewrite Hin. pose proof (typed_length ws). lia. }
  intros w c1 (bad & ws' & -> & Hbad & [m Hm] & Hin1 & Hnet1 & Hsent1).
  rewrite (requests_skip bad) in Hreq by done. cbn [requests] in Hreq. rewrite Hm in Hreq.
  apply Forall_app in Hws as [_ [Hw Hws]%Forall_cons]. rewrite length_app in Hfuel. simpl in Hfuel.
  rewrite <-Hnet1 in Hnet. rewrite (named_help _ _ Hm). destruct (bool_decide (m = MSG_HELP)).
  { unfold help_command, print. apply fails_bind. wp_steps.
    by apply (IH ws' (set_cl_printed (cl_printed c1 ++ [HELP_COMMAND]) c1) ms before k after Hin1 Hws); [lia|..]. }
  rewrite (named_quit _ _ Hm). destruct (bool_decide (m = MSG_QUIT)).
  { injection Hreq as <-. simpl in Hlen. lia. }
  apply fmap_Some in Hreq as (ms' & Hreq & ->). destruct before as [|k0 before].
  { apply fails_first. by eapply send_command_overflows. }
  apply Forall_cons in Hgood as [Hgood0 Hgood]. apply fails_bind.
  eapply send_command_spec; [done|done|exact Hnet|done|]. intros c2 Hin2 Hnet2 Hsent2.
  eapply (IH ws' c2 ms' before k after); [congruence|done|lia|done..|simpl in Hlen; lia].
Qed.
End session.
