(* ===== verification/MainLoopSpec.v ===== *)
(** * The daemon as a whole

    The state [msh_data_init] builds is well formed, every event of the main loop
    keeps it so, and over a whole run the packets the kernel handed over are
    accounted for. *)

From S2P Require Export CommSpec.

Section main_specs.
Context `{E : Env} {EO : EnvOk E}.
Implicit Types w : world.

(** ** Start *)

(** Memory before [main]: nothing allocated, nothing done. *)
Definition blank_world : world :=
  World 0 1%positive [] stats_init (init_data 0 0 0) (Alarms ∅ []) ∅ [] 1%positive ∅ [] [] ∅.

(** The state after [msh_data_init]: the scratch route of the lookups is the only
    object, and the flush alarm is initialised but not armed. *)
Definition initial_world (net_iface local broadcast : Z) : world :=
  World 0 2%positive [] stats_init (init_data net_iface local broadcast)
    (Alarms (<[AL_flush := AlarmBlock false (Timeval 0 0) None fn_process_wait_queue_cb]>
      {[AL_route 1%positive := new_block 1%positive]}) [])
    {[1%positive := zero_route]} [] 1%positive ∅ [] [] ∅.

Lemma msh_data_init_eq net_iface local broadcast :
  msh_data_init net_iface local broadcast blank_world =
    Ok 1 (initial_world net_iface local broadcast).
Proof. done. Qed.

Lemma initial_world_ok net_iface local broadcast : world_ok (initial_world net_iface local broadcast).
Proof.
  assert (∀ a (r : msh_route), ({[1%positive := zero_route]} : gmap addr msh_route) !! a = Some r →
    a = 1%positive ∧ r = zero_route) as Hr.
  { intros a r Har. by apply lookup_singleton_Some in Har as [<- <-]. }
  split; simpl.
  - split; try done; try set_solver.
    + intros a [r [-> _]%Hr]. lia.
    + intros a [e He]. by rewrite lookup_empty in He.
    + intros a [e He]. by rewrite lookup_empty in He.
    + constructor.
    + intros a n (r & [-> ->]%Hr & ?)%bind_Some. done.
  - split; [constructor| |set_solver| |].
    + intros a. split; [set_solver|]. intros (r & [_ ->]%Hr & Hin). done.
    + exists zero_route. by rewrite lookup_singleton_eq.
    + intros a r [_ ->]%Hr. by split.
  - split; [constructor| |].
    + intros a. rewrite lookup_empty. split; [set_solver|]. by intros [? [=]].
    + intros a e. by rewrite lookup_empty.
  - split; simpl; [constructor| | |constructor].
    + intros id. split; [set_solver|]. intros (b & Hb & Hl).
      apply lookup_insert_Some in Hb as [[_ <-]|[_ [_ <-]%lookup_singleton_Some]]; done.
    + intros id b Hb. by apply lookup_insert_Some in Hb as [[_ <-]|[_ [_ <-]%lookup_singleton_Some]].
  - split.
    + intros a [r [-> _]%Hr]. rewrite lookup_insert_ne by done. by rewrite lookup_singleton_eq.
    + intros a [e He]. by rewrite lookup_empty in He.
    + by rewrite lookup_insert_eq.
    + intros id b Hb. apply lookup_insert_Some in Hb as [[<- <-]|[_ [<- <-]%lookup_singleton_Some]]; [done|].
      by rewrite lookup_singleton_eq.
    + intros b Hb. rewrite lookup_insert_ne in Hb by done. by apply lookup_singleton_Some in Hb as [_ <-].
  - split; simpl; try done; apply htonl_range.
Qed.

Lemma initial_in_kernel net_iface local broadcast : in_kernel (initial_world net_iface local broadcast).
Proof. apply kernel_ok_empty. Qed.

(** ** One event *)

(** A packet with an IPv4 header, with enough of the UDP header when it is UDP. *)
Definition packet_ok (nfa : nfq_data) : Prop := ∃ hdr src dst proto, ip_packet nfa hdr src dst proto.
Definition datagram_in (rcv : msghdr * Z) : Prop := ∃ buf ttl, datagram_ok rcv.1 rcv.2 buf ttl.

(** Packets for a local process: they alone may be forgotten. *)
Definition packet_ids (pkts : list nfq_data) : list Z := nfqueue_packet_get_id <$> pkts.
Definition arriving (nfa : nfq_data) : bool := nfqueue_packet_get_hook nfa =? NF_IP_LOCAL_IN.
Definition arrived (pkts : list nfq_data) : list nfq_data := filter (λ nfa, arriving nfa = true) pkts.

Lemma packet_ids_app l1 l2 : packet_ids (l1 ++ l2) = packet_ids l1 ++ packet_ids l2.
Proof. apply fmap_app. Qed.
Lemma arrived_app l1 l2 : arrived (l1 ++ l2) = arrived l1 ++ arrived l2.
Proof. apply filter_app. Qed.

(** [w'] accounts for the packets [pkts] besides those of [w], except the [lost] ones,
    which arrived for a local process. *)
Definition accounts (pkts lost : list nfq_data) (w w' : world) : Prop :=
  ledger w' ++ packet_ids lost ≡ₚ packet_ids pkts ++ ledger w ∧ lost ⊆+ arrived pkts.

Lemma accounts_all pkts w w' : ledger w' ≡ₚ packet_ids pkts ++ ledger w → accounts pkts [] w w'.
Proof. intros H. split; [by simpl; rewrite app_nil_r|apply submseteq_nil_l]. Qed.
Lemma accounts_none w w' : ledger w' ≡ₚ ledger w → accounts [] [] w w'.
Proof. intros H. by apply accounts_all. Qed.

Lemma accounts_trans pkts lost w1 w2 pkts' lost' w3 :
  accounts pkts lost w1 w2 → accounts pkts' lost' w2 w3 → accounts (pkts' ++ pkts) (lost' ++ lost) w1 w3.
Proof.
  intros [H1 S1] [H2 S2]. split.
  - rewrite !packet_ids_app, (assoc_L (++)), H2, <-!(assoc_L (++)). by rewrite H1.
  - rewrite arrived_app. by apply submseteq_app.
Qed.

Lemma accounts_perm pkts pkts' lost w w' : pkts ≡ₚ pkts' → accounts pkts lost w w' → accounts pkts' lost w w'.
Proof. unfold accounts, packet_ids, arrived. by intros ->. Qed.

Lemma packet_managed_accounts nfa dst proto w w' :
  packet_managed nfa dst proto w w' → ∃ lost, accounts [nfa] lost w w'.
Proof.
  intros Hpost%packet_managed_ledger. unfold fate_of in Hpost.
  destruct (is_aodv nfa proto); [exists []; by apply accounts_all|].
  destruct (_ =? NF_IP_LOCAL_IN) eqn:Hin.
  - destruct (_ || _); [exists []; by apply accounts_all|]. exists [nfa]. split; [by rewrite Hpost, (comm (++))|].
    unfold arrived. by rewrite filter_cons_True.
  - exists []. apply accounts_all. rewrite Hpost. by repeat case_match.
Qed.

Lemma nfqueue_receive_spec msgs w :
  world_ok w → Forall packet_ok msgs →
  rwp speaks (nfqueue_receive_packet (Some msgs)) (λ _ w', ∃ lost,
    accounts msgs lost w w') w.
Proof.
  intros Hw Hmsgs. revert w Hw. unfold nfqueue_receive_packet.
  induction Hmsgs as [|nfa msgs (hdr & src & dst & proto & Hip) _ IH]; intros w Hw; simpl.
  { rwp_return. exists []. by apply accounts_none. }
  apply (rwp_bind speaks speaks _ _ (λ _ w', packet_managed nfa dst proto w w')); [|apply _|].
  { rwp_then manage_packet_spec; [done|done|]. intros ? w1 Hw1 _ Hpost. by rwp_return. }
  intros [] w1 Hw1 _ [lost1 H1]%packet_managed_accounts.
  eapply rwp_mono; [by apply IH|]. intros [] w2 _ _ (lost2 & H2). exists (lost2 ++ lost1).
  by eapply (accounts_perm (msgs ++ [nfa])); [apply Permutation_app_comm|by eapply accounts_trans].
Qed.

Lemma nfqueue_error_spec w :
  world_ok w → rwp inward (nfqueue_receive_packet None) (λ _ _, True) w.
Proof. intros Hw. eapply rwp_step; [done|by apply stats_world_ok|apply stats_inward|done]. Qed.

Lemma aodv_receive_spec rcv w :
  world_ok w → (∀ r, rcv = Some r → datagram_in r) →
  rwp balanced (aodv_socket_receive_packet rcv) (λ _ _, True) w.
Proof.
  intros Hw Hrcv. destruct rcv as [[msg n]|].
  - destruct (Hrcv _ eq_refl) as (buf & ttl & Hm). eapply rwp_mono; [by eapply aodv_process_packet_spec|done].
  - eapply rwp_step; [done|by apply stats_world_ok|by from_inward; apply stats_inward|done].
Qed.

Lemma comm_receive_ran received w w' :
  world_ok w → comm_interface_receive_packets received w = Ok tt w' → world_ok w' ∧ balanced w w'.
Proof.
  intros Hw. destruct received as [command|]; [|done]. simpl. case_match; [|done].
  by apply comm_command_ran.
Qed.

(** ** Runs *)

(** One event of the main loop and the packets the kernel hands over in it.  The
    guards say what the environment delivers; a fault ends the run, so the events
    are the ones that return. *)
Inductive daemon_step : world → list nfq_data → world → Prop :=
  | step_packets w msgs w' :
      Forall packet_ok msgs → nfqueue_receive_packet (Some msgs) w = Ok tt w' →
      daemon_step w msgs w'
  | step_packets_error w w' :
      nfqueue_receive_packet None w = Ok tt w' → daemon_step w [] w'
  | step_datagram w rcv w' :
      (∀ r, rcv = Some r → datagram_in r) → aodv_socket_receive_packet rcv w = Ok tt w' →
      daemon_step w [] w'
  | step_command w received w' :
      comm_interface_receive_packets received w = Ok tt w' → daemon_step w [] w'
  | step_alarms w next run w' :
      run_alarms next w = Ok run w' → daemon_step w [] w'
  | step_next w run w' :
      get_next_alarm_run w = Ok run w' → daemon_step w [] w'.

(** A run and all the packets handed over in it. *)
Inductive daemon_run (w : world) : list nfq_data → world → Prop :=
  | run_done : daemon_run w [] w
  | run_step pkts w1 pkts' w' :
      daemon_run w pkts w1 → daemon_step w1 pkts' w' → daemon_run w (pkts' ++ pkts) w'.

Lemma rwp_result {A} (R : world → world → Prop) (m : M world A) Q w a w' :
  rwp R m Q w → m w = Ok a w' → world_ok w' ∧ R w w' ∧ Q a w'.
Proof. unfold rwp, wp. intros Hm Heq. by rewrite Heq in Hm. Qed.

(** Every event keeps the invariant, sends only messages and accounts for its packets. *)
Lemma daemon_step_spec w pkts w' :
  world_ok w → daemon_step w pkts w' → world_ok w' ∧ speaks w w' ∧ ∃ lost, accounts pkts lost w w'.
Proof.
  intros Hw Hstep.
  assert (∀ v, balanced w v → speaks w v ∧ ∃ lost, accounts [] lost w v) as Hbal.
  { intros v Hb. split; [by apply (finer (R:=balanced))|].
    exists []. apply accounts_none, (bl_ledger w v Hb). }
  destruct Hstep as [w msgs w' Hmsgs Heq|w w' Heq|w rcv w' Hrcv Heq|w received w' Heq
    |w next run w' Heq|w run w' Heq].
  - pose proof (nfqueue_receive_spec msgs w Hw Hmsgs) as Hspec.
    by destruct (rwp_result _ _ _ _ _ _ Hspec Heq) as (? & ? & ?).
  - destruct (rwp_result _ _ _ _ _ _ (nfqueue_error_spec w Hw) Heq) as (? & Hi & _).
    split; [done|]. apply Hbal. by from_inward.
  - destruct (rwp_result _ _ _ _ _ _ (aodv_receive_spec rcv w Hw Hrcv) Heq) as (? & Hb & _). auto.
  - destruct (comm_receive_ran _ _ _ Hw Heq). auto.
  - pose proof (run_alarms_ran _ _ _ _ Hw Heq) as Hd.
    destruct (rwp_result _ _ _ _ _ _ (run_alarms_spec w next Hw Hd) Heq) as (? & Hb & _). auto.
  - destruct (rwp_result _ _ _ _ _ _ (get_next_alarm_run_spec w Hw) Heq) as (? & Hi & _).
    split; [done|]. apply Hbal. by from_inward.
Qed.

Lemma daemon_run_spec w pkts w' :
  world_ok w → daemon_run w pkts w' → world_ok w' ∧ speaks w w' ∧ ∃ lost, accounts pkts lost w w'.
Proof.
  intros Hw Hrun. induction Hrun as [|pkts w1 pkts' w' Hrun (Hw1 & Hs1 & lost & Hacc) Hstep].
  { split_and!; [done..|]. exists []. by apply accounts_none. }
  destruct (daemon_step_spec w1 pkts' w' Hw1 Hstep) as (Hw' & Hs' & lost' & Hacc').
  split; [done|]. split; [by etrans|].
  exists (lost' ++ lost). by eapply accounts_trans.
Qed.

(** ** The loop of [main] *)

(** What the environment delivers in one wake-up, and the packets in it. *)
Definition ready_ok (rd : ready) : Prop :=
  (∀ msgs, rd_nfqueue rd = Some (Some msgs) → Forall packet_ok msgs) ∧
  (∀ r, rd_daemon rd = Some (Some r) → datagram_in r).
Definition handed_over (rd : ready) : list nfq_data :=
  match rd_nfqueue rd with
  | Some (Some msgs) => msgs
  | _ => []
  end.

Lemma daemon_run_trans w pkts v pkts' w' :
  daemon_run w pkts v → daemon_run v pkts' w' → daemon_run w (pkts' ++ pkts) w'.
Proof.
  intros H1 H2. induction H2 as [|pkts2 w1 pkts3 w2 _ IH Hstep]; [done|].
  rewrite <-(assoc_L (++)). by eapply run_step.
Qed.
Lemma daemon_run_one w pkts w' : daemon_step w pkts w' → daemon_run w pkts w'.
Proof. intros Hs. rewrite <-(app_nil_r pkts). eapply run_step; [constructor|done]. Qed.

Lemma receive_ready_run rd w w' :
  ready_ok rd → receive_ready rd w = Ok tt w' → daemon_run w (handed_over rd) w'.
Proof.
  intros [Hq Hd] ([] & w1 & H1 & ([] & w2 & H2 & H3)%bind_ok)%bind_ok.
  assert (daemon_run w (handed_over rd) w1) as R1.
  { unfold handed_over, isset in *. destruct (rd_nfqueue rd) as [[msgs|]|].
    - by apply daemon_run_one, step_packets; [apply Hq|].
    - by apply daemon_run_one, step_packets_error.
    - injection H1 as <-. constructor. }
  assert (daemon_run w1 [] w2) as R2.
  { unfold isset in H2. destruct (rd_daemon rd) as [rcv|]; [|injection H2 as <-; constructor].
    eapply daemon_run_one, step_datagram; [|exact H2]. intros r ->. by apply Hd. }
  assert (daemon_run w2 [] w') as R3.
  { unfold isset in H3. destruct (rd_comm rd) as [rcv|]; [|injection H3 as <-; constructor].
    by eapply daemon_run_one, step_command. }
  exact (daemon_run_trans _ _ _ _ _ R1 (daemon_run_trans _ _ _ _ _ R2 R3)).
Qed.

Lemma update_next_run next w r w' : update_next next w = Ok r w' → daemon_run w [] w'.
Proof.
  intros (run & v & Hrun & [= _ <-])%bind_ok. by eapply daemon_run_one, step_next.
Qed.

(** The loop as a sequence of events, each with the value of [next]. *)
Inductive loop_event :=
  | FromKernel (received : option (list nfq_data))
  | FromNeighbour (received : option (msghdr * Z))
  | FromClient (received : option string)
  | UpdateNext
  | RunAlarms.

Definition loop_do (e : loop_event) (next : option timeval) : M world (option timeval) :=
  match e with
  | FromKernel received => nfqueue_receive_packet received;; mret next
  | FromNeighbour received => aodv_socket_receive_packet received;; mret next
  | FromClient received => comm_interface_receive_packets received;; mret next
  | UpdateNext => update_next next
  | RunAlarms =>
      tv ← demand Uninitialised next;
      run ← run_alarms tv;
      mret (match run with Some _ => run | None => Some tv end)
  end.
Fixpoint loop_do_all (l : list loop_event) (next : option timeval) : M world (option timeval) :=
  match l with
  | [] => mret next
  | e :: l' => next' ← loop_do e next; loop_do_all l' next'
  end.

(** The events of one wake-up: what the descriptors report, in the order of [main], then
    [get_next_alarm_run]; and of one round: its wake-ups, and the alarms. *)
Definition wakeup_events (rd : ready) : list loop_event :=
  from_option (λ x, [FromKernel x]) [] (rd_nfqueue rd) ++ from_option (λ x, [FromNeighbour x]) [] (rd_daemon rd) ++
  from_option (λ x, [FromClient x]) [] (rd_comm rd) ++ [UpdateNext].
Definition round_events (wakeups : list ready) : list loop_event :=
  concat (wakeup_events <$> wakeups) ++ [UpdateNext; RunAlarms].

Lemma loop_do_all_app l1 l2 next w :
  loop_do_all (l1 ++ l2) next w = (next' ← loop_do_all l1 next; loop_do_all l2 next') w.
Proof.
  revert next w. induction l1 as [|e l1 IH]; intros next w; simpl; [done|].
  unfold mbind, M_bind. destruct (loop_do e next w) as [next' w1|]; [apply IH|done].
Qed.

Lemma wakeup_do rd next w : loop_do_all (wakeup_events rd) next w = (receive_ready rd;; update_next next) w.
Proof.
  assert (∀ v, loop_do_all [UpdateNext] next v = update_next next v) as Hu.
  { intros v. simpl. unfold mbind at 1, M_bind at 1. by destruct (update_next next v). }
  unfold wakeup_events, receive_ready, isset.
  destruct (rd_nfqueue rd) as [q|], (rd_daemon rd) as [d|], (rd_comm rd) as [c|];
    cbn [from_option app]; simpl loop_do_all; rewrite ?Hu;
    unfold mbind, M_bind, mret, M_ret; repeat (case_match; simplify_eq/=; try done); by rewrite <-Hu.
Qed.

(** A fault-free part of the loop keeps what it relies on. *)
Lemma run_keeps w pkts w' :
  world_ok w → md_end (w_data w) = false → daemon_run w pkts w' → world_ok w' ∧ md_end (w_data w') = false.
Proof.
  intros Hw He Hr. destruct (daemon_run_spec _ _ _ Hw Hr) as (Hw' & Hs & _).
  split; [done|]. by rewrite (sk_end _ _ Hs).
Qed.

Lemma select_loop_do wakeups next w :
  world_ok w → md_end (w_data w) = false → Forall ready_ok wakeups →
  select_loop wakeups next w = loop_do_all (concat (wakeup_events <$> wakeups)) next w.
Proof.
  intros Hw He Hall. revert next w Hw He. induction Hall as [|rd wakeups Hrd _ IH]; intros next w Hw He; [done|].
  rewrite fmap_cons, concat_cons, loop_do_all_app. unfold mbind at 1, M_bind at 1. rewrite wakeup_do. simpl.
  unfold mbind, M_bind, data, gets. rewrite He. simpl. destruct (receive_ready rd w) as [[] w1|] eqn:Hrecv; [|done].
  apply (receive_ready_run _ _ _ Hrd) in Hrecv. destruct (run_keeps _ _ _ Hw He Hrecv) as [Hw1 He1].
  destruct (update_next next w1) as [next' w2|] eqn:Hnext; [|done]. apply update_next_run in Hnext.
  destruct (run_keeps _ _ _ Hw1 He1 Hnext). by apply IH.
Qed.

Lemma main_round_do wakeups next w :
  world_ok w → md_end (w_data w) = false → Forall ready_ok wakeups →
  main_round wakeups next w = loop_do_all (round_events wakeups) next w.
Proof.
  intros Hw He Hall. unfold round_events. rewrite loop_do_all_app. unfold main_round, mbind at 1 5, M_bind at 1 5.
  rewrite select_loop_do by done. destruct (loop_do_all _ _ w) as [next' w1|]; [|done]. simpl.
  unfold mbind, M_bind. destruct (update_next next' w1) as [[tv|] w2|]; [|done..]. simpl.
  by destruct (run_alarms tv w2).
Qed.

(** The packets of an event, and what the environment delivers in it. *)
Definition event_packets (e : loop_event) : list nfq_data :=
  match e with FromKernel (Some msgs) => msgs | _ => [] end.
Definition event_arrives (e : loop_event) : Prop :=
  match e with
  | FromKernel (Some msgs) => Forall packet_ok msgs
  | FromNeighbour (Some r) => datagram_in r
  | _ => True
  end.

Lemma loop_do_run e next w r w' :
  event_arrives e → loop_do e next w = Ok r w' → daemon_run w (event_packets e) w'.
Proof.
  intros He Hdo. apply daemon_run_one. destruct e as [[msgs|]|rcv|rcv| |]; simpl in *.
  - apply bind_ok in Hdo as ([] & v & H & [= _ <-]). by apply step_packets.
  - apply bind_ok in Hdo as ([] & v & H & [= _ <-]). by apply step_packets_error.
  - apply bind_ok in Hdo as ([] & v & H & [= _ <-]). eapply step_datagram; [|exact H]. by intros r' ->.
  - apply bind_ok in Hdo as ([] & v & H & [= _ <-]). by eapply step_command.
  - apply bind_ok in Hdo as (run & v & H & [= _ <-]). by eapply step_next.
  - apply bind_ok in Hdo as (tv & v & H & (run & v' & H' & [= _ <-])%bind_ok).
    destruct next; [injection H as <- <-|done]. by eapply step_alarms.
Qed.

Lemma loop_do_all_run l next w r w' :
  Forall event_arrives l → loop_do_all l next w = Ok r w' →
  ∃ seen, seen ≡ₚ concat (event_packets <$> l) ∧ daemon_run w seen w'.
Proof.
  intros Hall. revert next w. induction Hall as [|e l He _ IH]; intros next w; simpl.
  { intros [= _ <-]. exists []. split; [done|constructor]. }
  intros (next' & w1 & H1 & (seen & Hp & Hr)%IH)%bind_ok. apply (loop_do_run _ _ _ _ _ He) in H1.
  exists (seen ++ event_packets e). split; [by rewrite Hp, (comm (++))|by eapply daemon_run_trans].
Qed.

Lemma wakeup_arrives rd : ready_ok rd → Forall event_arrives (wakeup_events rd).
Proof.
  intros [Hq Hd]. unfold wakeup_events. rewrite !Forall_app. split_and!; [| | |by repeat constructor].
  - destruct (rd_nfqueue rd) as [[msgs|]|]; repeat constructor. by apply Hq.
  - destruct (rd_daemon rd) as [[r|]|]; repeat constructor. by apply Hd.
  - by destruct (rd_comm rd); repeat constructor.
Qed.
Lemma round_arrives wakeups : Forall ready_ok wakeups → Forall event_arrives (round_events wakeups).
Proof.
  intros Hall. unfold round_events. apply Forall_app. split; [|by repeat constructor].
  induction Hall; simpl; [constructor|]. apply Forall_app. split; [by apply wakeup_arrives|done].
Qed.

Lemma rounds_arrive rounds :
  Forall (Forall ready_ok) rounds → Forall event_arrives (concat (round_events <$> rounds)).
Proof.
  induction 1; simpl; [constructor|]. apply Forall_app. split; [by apply round_arrives|done].
Qed.

(** The packets of the events are those of the wake-ups. *)
Lemma wakeup_packets rd : concat (event_packets <$> wakeup_events rd) = handed_over rd.
Proof.
  unfold wakeup_events, handed_over. destruct (rd_nfqueue rd) as [[msgs|]|], (rd_daemon rd), (rd_comm rd);
    simpl; by rewrite ?app_nil_r.
Qed.
Lemma round_packets wakeups : concat (event_packets <$> round_events wakeups) = concat (handed_over <$> wakeups).
Proof.
  unfold round_events. rewrite fmap_app, concat_app. simpl. rewrite app_nil_r.
  induction wakeups as [|rd wakeups IH]; [done|].
  by rewrite !fmap_cons, !concat_cons, fmap_app, concat_app, IH, wakeup_packets.
Qed.
Lemma rounds_packets rounds :
  concat (event_packets <$> concat (round_events <$> rounds)) = concat (handed_over <$> concat rounds).
Proof.
  induction rounds as [|wakeups rounds IH]; [done|].
  by rewrite !fmap_cons, !concat_cons, !fmap_app, !concat_app, IH, round_packets.
Qed.

(** What a round leaves. *)
Lemma main_round_keeps wakeups next w r w' :
  world_ok w → md_end (w_data w) = false → Forall ready_ok wakeups → main_round wakeups next w = Ok r w' →
  world_ok w' ∧ md_end (w_data w') = false.
Proof.
  intros Hw He Hall. rewrite main_round_do by done. intros (seen & _ & Hr)%loop_do_all_run; [|by apply round_arrives].
  by eapply run_keeps.
Qed.

(** The whole loop is its events, one after the other: nothing that returns without a
    fault tells the daemon to end. *)
Lemma main_loop_do rounds next w :
  world_ok w → md_end (w_data w) = false → Forall (Forall ready_ok) rounds →
  main_loop rounds next w = loop_do_all (concat (round_events <$> rounds)) next w.
Proof.
  intros Hw He Hall. revert next w Hw He. induction Hall as [|wakeups rounds Hr _ IH]; intros next w Hw He; [done|].
  rewrite fmap_cons, concat_cons, loop_do_all_app. unfold mbind at 1, M_bind at 1.
  rewrite <-main_round_do by done. simpl. unfold mbind, M_bind, data, gets. rewrite He. simpl.
  destruct (main_round wakeups next w) as [next' w1|] eqn:Hround; [|done].
  destruct (main_round_keeps _ _ _ _ _ Hw He Hr Hround). by apply IH.
Qed.

(** ** Before the first alarm *)

(** When [select] is interrupted before any alarm exists, [next] is read without
    a value. *)
Lemma main_round_uninitialised w :
  al_root (w_alarms w) = [] → fails (main_round [] None) Uninitialised w.
Proof.
  intros Hroot. unfold main_round, fails, select_loop, update_next, get_next_alarm_run.
  unfold mbind, M_bind, mret, M_ret, gets, gettimeofday, world_clock, ext, in_live_tree, tree_alive. simpl. by rewrite Hroot.
Qed.
End main_specs.
