(* ===== verification/NetworkSpec.v ===== *)
(** * What the hosts of a network do to each other

    Every datagram on the air is a message its receiver handles without a fault, and a
    route discovery passes from host to host along a line. *)

From S2P Require Export MainLoopSpec Network.

(** ** Deliveries *)

Lemma take_BUF_SIZE bs :
  take (length bs `min` BUF_SIZE) (take BUF_SIZE (bs ++ replicate BUF_SIZE 0)) = take BUF_SIZE bs.
Proof.
  rewrite take_take. replace ((length bs `min` BUF_SIZE) `min` BUF_SIZE)%nat with (length bs `min` BUF_SIZE)%nat by lia.
  rewrite take_app_le by lia. destruct (decide (length bs ≤ BUF_SIZE)%nat).
  - by rewrite !take_ge by lia.
  - by replace (length bs `min` BUF_SIZE)%nat with BUF_SIZE by lia.
Qed.

Lemma recvmsg_ok src ttl bs msg n :
  is_u8 ttl → bytes_ok bs → (1 ≤ length bs)%nat → recvmsg_result src ttl bs = (msg, n) →
  datagram_ok msg n (take BUF_SIZE (bs ++ replicate BUF_SIZE 0)) ttl ∧
  take (Z.to_nat n) (take BUF_SIZE (bs ++ replicate BUF_SIZE 0)) = take BUF_SIZE bs ∧
  (is_u32 src → aodv_pkt_get_address (pkt_of msg n (take BUF_SIZE (bs ++ replicate BUF_SIZE 0)) ttl) = src).
Proof.
  intros Ht Hb Hl [= <- <-]. rewrite Nat2Z.id. split_and!; [|apply take_BUF_SIZE|].
  - split; cbn [msg_iov msg_name msg_control]; [done| | | | |simpl; f_equal; by apply u8_id|done].
    + apply Forall_take, Forall_app. split; [done|]. apply Forall_replicate. done.
    + rewrite length_take, length_app, length_replicate. unfold BUF_SIZE. lia.
    + unfold BUF_SIZE. lia.
    + intros a [= <-]. apply htonl_range.
  - intros Hs. apply ntohl_htonl. done.
Qed.

(** Cutting a message at the end of the buffer leaves a message. *)
Lemma take_message bs : aodv_message bs → aodv_message (take BUF_SIZE bs).
Proof.
  intros (Hb & Hl & Hm). split; [by apply Forall_take|]. rewrite length_take. split; [lia|].
  unfold whole_message. rewrite length_take. unfold BUF_SIZE.
  destruct Hm as [[Hh Hn]|[Hh Hn]]; [left|right]; (split; [|lia]); by destruct bs.
Qed.

Lemma delivery_ok src dst ev rcv :
  message_ok ev → delivery src dst ev = Some rcv → datagram_in rcv.
Proof.
  destruct ev as [sent_n a port ttl [bs|]| | |]; try done. intros (_ & Ht & Hb & _ & Hm). simpl.
  destruct (_ && _); [|done]. intros [= <-].
  destruct (recvmsg_result _ _ _) as [msg n] eqn:Hr. apply recvmsg_ok in Hr as [Hok _]; [by eexists _, _|done..|].
  destruct Hm as [[_ ?]|[_ ?]]; lia.
Qed.
(** ** Every host stays well formed *)

Definition host_ok (w : world) : Prop := world_ok w ∧ messages_ok w.
Definition net_ok (ws : list world) : Prop := Forall host_ok ws.

(** The captured packets are IPv4 packets. *)
Definition event_delivered (e : host_event) : Prop :=
  match e with Captured (Some msgs) => Forall packet_ok msgs | _ => True end.

Section safety.
Context (envs : nat → Env) {envs_ok : ∀ i, EnvOk (envs i)} (near : nat → nat → Prop).
Implicit Types w : world.

Lemma host_run_step (E : Env) e w w' :
  event_delivered e → host_run e w = Ok tt w' → ∃ ids, daemon_step w ids w'.
Proof.
  destruct e as [[msgs|]|received|next|]; simpl; intros He.
  - intros H. eexists. by apply step_packets.
  - intros H. exists []. by apply step_packets_error.
  - intros H. exists []. by eapply step_command.
  - intros (run & v & H & [= <-])%bind_ok. exists []. by eapply step_alarms.
  - intros (run & v & H & [= <-])%bind_ok. exists []. by eapply step_next.
Qed.

Lemma daemon_step_host (E : Env) {EO : EnvOk E} ids w w' :
  host_ok w → daemon_step w ids w' → host_ok w' ∧ speaks w w'.
Proof.
  intros [Hw Hm] Hs. destruct (daemon_step_spec w ids w' Hw Hs) as (Hw' & Hsp & _).
  split; [|done]. split; [done|]. eapply logs_messages; [apply Hsp|done].
Qed.

Lemma net_ok_lookup ws i w : net_ok ws → ws !! i = Some w → host_ok w.
Proof. intros Hok Hi. by eapply Forall_lookup. Qed.

(** A host that receives a message of another one. *)
Lemma delivery_received j src w ev rcv :
  host_ok w → message_ok ev → delivery src (w_data w) ev = Some rcv →
  rwp balanced (host_receive (envs j) rcv) (λ _ _, True) w.
Proof.
  intros [Hw _] Hev Hd. apply (aodv_receive_spec (E:=envs j)); [done|]. intros r [= <-]. by eapply delivery_ok.
Qed.

Lemma net_step_ok ws ws' :
  net_step envs near event_delivered ws ws' → net_ok ws → net_ok ws'.
Proof.
  intros Hs Hok. destruct Hs as [i w e w' Hi He Hr|i j wi wj ev rcv w' Hn Hi Hj Hev Hd Hr].
  - destruct (host_run_step _ _ _ _ He Hr) as [ids Hs].
    apply Forall_insert; [done|]. eapply (daemon_step_host (envs i)); [by eapply net_ok_lookup|done].
  - apply Forall_insert; [done|].
    eapply (daemon_step_host (envs j) []); [by eapply net_ok_lookup|]. apply (step_datagram _ (Some rcv)); [|done].
    intros r [= <-]. eapply delivery_ok; [|done].
    eapply Forall_forall; [|done]. by eapply net_ok_lookup.
Qed.

Lemma net_run_ok ws ws' :
  net_run envs near event_delivered ws ws' → net_ok ws → net_ok ws'.
Proof. induction 1 as [|ws ws1 ws' Hs _ IH]; [done|]. intros Hok. by eapply IH, net_step_ok. Qed.

(** Hosts that have just started. *)
Definition started (configs : list (Z * Z * Z)) : list world :=
  (λ '(iface, local, broadcast), initial_world iface local broadcast) <$> configs.
Lemma started_ok configs : net_ok (started configs).
Proof.
  apply Forall_fmap, Forall_true. intros [[iface local] broadcast].
  split; [apply (initial_world_ok (E:=envs 0%nat))|constructor].
Qed.
End safety.

(** ** Messages on the air *)

(** A RREQ or RREP (fields in host order) as it is sent. *)
Definition rreq_event (address port ttl : Z) (r : aodv_rreq) (numbytes : Z) : event :=
  EvSend numbytes (htonl address) port ttl (Some (bytes_of_rreq (aodv_pkt_prepare_rreq r))).
Definition rrep_event (address port ttl : Z) (r : aodv_rrep) (numbytes : Z) : event :=
  EvSend numbytes (htonl address) port ttl (Some (bytes_of_rrep (aodv_pkt_prepare_rrep r))).

(** A datagram that a host has sent, without an error of [sendto]. *)
Definition on_air (w : world) (ev : Z → event) : Prop := ∃ numbytes, 0 ≤ numbytes ∧ ev numbytes ∈ w_trace w.

(** [sendto] never fails at a host. *)
Definition sends_ok `{E : Env} : Prop := ∀ n, 0 ≤ env_sendto n.

Lemma rreq_message r :
  rreq_ok r → rq_type r = AODV_RREQ → aodv_message (bytes_of_rreq (aodv_pkt_prepare_rreq r)) ∧
  valid_rreq (bytes_of_rreq (aodv_pkt_prepare_rreq r)) = Some r.
Proof.
  intros Hr Ht. pose proof (prepare_rreq_ok _ Hr) as Hp. split.
  - split; [by apply bytes_of_rreq_ok|]. split; [done|by apply whole_built_rreq].
  - rewrite (valid_rreq_head _ (aodv_pkt_prepare_rreq r)).
    + f_equal. by apply prepare_rreq_ntoh.
    + by rewrite <-Ht.
    + rewrite <-(app_nil_r (bytes_of_rreq _)). by apply rreq_of_bytes_of.
Qed.

Lemma rrep_message r :
  rrep_ok r → rp_type r = AODV_RREP → aodv_message (bytes_of_rrep (aodv_pkt_prepare_rrep r)) ∧
  valid_rreq (bytes_of_rrep (aodv_pkt_prepare_rrep r)) = None ∧
  valid_rrep (bytes_of_rrep (aodv_pkt_prepare_rrep r)) = Some r.
Proof.
  intros Hr Ht. pose proof (prepare_rrep_ok _ Hr) as Hp. split.
  - split; [by apply bytes_of_rrep_ok|]. split; [done|by apply whole_built_rrep].
  - destruct (valid_rrep_head (bytes_of_rrep (aodv_pkt_prepare_rrep r)) (aodv_pkt_prepare_rrep r)) as [H1 H2].
    + by rewrite <-Ht.
    + rewrite <-(app_nil_r (bytes_of_rrep _)). by apply rrep_of_bytes_of.
    + split; [done|]. rewrite H2. f_equal. by apply prepare_rrep_ntoh.
Qed.

Section one_hop.
Context (E : Env) {EO : EnvOk E}.
Implicit Types w : world.

(** The delivery of a whole message returns, and the host has processed it. *)
Lemma receive_message dsrc w a port ttl bs n :
  0 ≤ n → host_ok w → is_u32 (md_ip_addr dsrc) → is_u8 ttl → 0 < ttl → aodv_message bs →
  (length bs ≤ BUF_SIZE)%nat → for_host a (w_data w) = true →
  ∃ rcv w' p, delivery dsrc (w_data w) (EvSend n a port ttl (Some bs)) = Some rcv ∧
    host_receive E rcv w = Ok tt w' ∧ host_ok w' ∧ balanced w w' ∧
    aodv_pkt_get_address p = md_ip_addr dsrc ∧ pk_ttl p = ttl ∧ datagram_processed p bs w w'.
Proof.
  intros Hn [Hw Hm] Hs Ht Hpos (Hb & Hl & Hwhole) Hbuf Hfor. simpl.
  rewrite (proj2 (Z.leb_le _ _) Hn), (proj2 (Z.ltb_lt _ _) Hpos), Hfor. simpl.
  destruct (recvmsg_result (md_ip_addr dsrc) ttl bs) as [msg len] eqn:Hr.
  apply recvmsg_ok in Hr as (Hok & Htake & Haddr); [|done..|destruct Hwhole as [[_ ?]|[_ ?]]; lia].
  pose proof (aodv_process_packet_spec _ _ _ _ w Hw Hok) as Hspec.
  rewrite Htake, (take_ge bs) in Hspec by done.
  apply wp_run in Hspec as ([] & w' & Heq & Hw' & Hbal & Hproc).
  eexists _, w', _. split; [done|]. split; [exact Heq|]. split.
  { split; [done|]. eapply logs_messages; [apply Hbal|done]. }
  split; [done|]. split; [by apply Haddr|]. by split.
Qed.

Lemma sent_elem w w' evs ev : sent (w_trace w') = sent (w_trace w) ++ evs → ev ∈ evs → ev ∈ w_trace w'.
Proof.
  intros Hs Hev. assert (ev ∈ sent (w_trace w')) as Hin by (rewrite Hs; apply elem_of_app; by right).
  by apply list_elem_of_filter in Hin as [_ ?].
Qed.
Lemma processed_rreq p bs r w w' :
  aodv_pkt_get_address p ≠ md_ip_addr (w_data w) → valid_rreq bs = Some r →
  datagram_processed p bs w w' → rreq_processed p bs r w w'.
Proof. unfold datagram_processed. intros Hne ->. by rewrite (proj2 (Z.eqb_neq _ _) Hne). Qed.

Lemma processed_rrep p bs r w w' :
  aodv_pkt_get_address p ≠ md_ip_addr (w_data w) → valid_rreq bs = None → valid_rrep bs = Some r →
  datagram_processed p bs w w' →
  rrep_processed p bs r w w' ∧ discovery_answered p r w w' ∧ rrep_relayed p bs r w w'.
Proof. unfold datagram_processed. intros Hne -> ->. by rewrite (proj2 (Z.eqb_neq _ _) Hne). Qed.

(** A host that knows nothing about the RREQ [id] and its destination. *)
Record unaware (id dest : Z) (w : world) : Prop := {
  ua_fresh : remembers w id dest = false;
  ua_lookup : table_lookup w dest = None }.

(** A host passes a new RREQ on and remembers the way back. *)
Lemma rreq_hop dsrc w port ttl r n :
  let src := md_ip_addr dsrc in let me := md_ip_addr (w_data w) in
  let r' := set_rq_hop_count (u8 (rq_hop_count r + 1)) r in
  0 ≤ n → host_ok w → kernel_accepts → sends_ok → is_u32 src → src ≠ me → 1 < ttl < 256 → rreq_ok r → rq_type r = AODV_RREQ →
  unaware (rq_rreq_id r) (rq_dest_ip_addr r) w → rq_dest_ip_addr r ≠ me → rq_dest_ip_addr r ≠ src →
  rq_dest_ip_addr r ≠ rq_orig_ip_addr r →
  ∃ rcv w' port', delivery dsrc (w_data w) (rreq_event (md_broadcast_addr (w_data w)) port ttl r n) = Some rcv ∧
    host_receive E rcv w = Ok tt w' ∧ host_ok w' ∧ speaks w w' ∧
    on_air w' (rreq_event (md_broadcast_addr (w_data w)) port' (ttl - 1) r') ∧
    hop_to w' (rq_orig_ip_addr r) = Some src ∧ table_lookup w' (rq_dest_ip_addr r) = None.
Proof.
  intros src me r' Hn Hw Hk Hso Hsrc Hne Httl Hr Ht [Hrem Hl] Hd1 Hd2 Hd3.
  destruct (rreq_message r Hr Ht) as [Hm Hv].
  destruct (receive_message dsrc w (htonl (md_broadcast_addr (w_data w))) port ttl
    (bytes_of_rreq (aodv_pkt_prepare_rreq r)) n)
    as (rcv & w' & p & Hdel & Hrun & Hw' & Hbal & Haddr & Hpttl & Hproc); [done|done|done|
      unfold is_u8; lia|lia|done|unfold BUF_SIZE; simpl; lia|by unfold for_host; rewrite Z.eqb_refl, orb_true_r|].
  apply (processed_rreq _ _ r) in Hproc as [_ Hproc]; [|by rewrite Haddr|done].
  rewrite Hrem in Hproc. destruct Hproc as (k & b & Hs & Hco & [Hback Hothers]). rewrite Haddr in *.
  rewrite (co_unknown _ _ _ _ Hco) in Hs by done. unfold rreq_reaction in Hs.
  rewrite (proj2 (Z.eqb_neq (rq_dest_ip_addr r) (md_ip_addr (w_data w))) Hd1), Hpttl, (proj2 (Z.ltb_lt _ _)) in Hs by lia.
  simpl in Hs.
  exists rcv, w', (pk_port p). split; [done|]. split; [done|]. split; [done|].
  split; [by apply (finer (R:=balanced))|]. split; [|split; [by apply Hback|by rewrite Hothers]].
  exists (env_sendto k). split; [done|].
  eapply sent_elem; [exact Hs|]. apply list_elem_of_singleton. unfold rreq_event, forward_event. f_equal.
  rewrite Hpttl. symmetry. apply u8_id. unfold is_u8. lia.
Qed.

(** The destination answers a new RREQ. *)
Lemma rreq_arrival dsrc w port ttl r n :
  let src := md_ip_addr dsrc in let me := md_ip_addr (w_data w) in
  0 ≤ n → host_ok w → sends_ok → is_u32 src → src ≠ me → 0 < ttl < 256 → rreq_ok r → rq_type r = AODV_RREQ →
  remembers w (rq_rreq_id r) me = false → rq_dest_ip_addr r = me →
  ∃ rcv w' seq, delivery dsrc (w_data w) (rreq_event (md_broadcast_addr (w_data w)) port ttl r n) = Some rcv ∧
    host_receive E rcv w = Ok tt w' ∧ host_ok w' ∧ speaks w w' ∧ is_u32 seq ∧
    remembers w' (rq_rreq_id r) me = true ∧
    on_air w' (rrep_event src (htons AODV_UDP_PORT) DEFAULT_TTL
      (AodvRrep AODV_RREP 0 0 0 0 0 me seq (rq_orig_ip_addr r) MY_ROUTE_TIMEOUT)).
Proof.
  intros src me Hn Hw Hso Hsrc Hne Httl Hr Ht Hrem Hd. destruct (rreq_message r Hr Ht) as [Hm Hv].
  destruct (receive_message dsrc w (htonl (md_broadcast_addr (w_data w))) port ttl
    (bytes_of_rreq (aodv_pkt_prepare_rreq r)) n)
    as (rcv & w' & p & Hdel & Hrun & Hw' & Hbal & Haddr & Hpttl & Hproc); [done|done|done|
      unfold is_u8; lia|lia|done|unfold BUF_SIZE; simpl; lia|by unfold for_host; rewrite Z.eqb_refl, orb_true_r|].
  apply (processed_rreq _ _ r) in Hproc as [Hknows%remembers_knows Hproc]; [|by rewrite Haddr|done].
  rewrite Hd in Hknows. rewrite Hd, Hrem in Hproc. destruct Hproc as (k & b & Hs & _).
  unfold rreq_reaction in Hs. rewrite Haddr, Hd in Hs. unfold me in Hs. rewrite Z.eqb_refl in Hs.
  exists rcv, w', (answer_seq (w_data w) r). split; [done|]. split; [done|]. split; [done|].
  split; [by apply (finer (R:=balanced))|]. split.
  - unfold answer_seq. case_match; [apply u32_range|]. apply (do_seq_num _ (wo_data _ (proj1 Hw))).
  - split; [done|]. exists (env_sendto k). split; [done|].
    eapply sent_elem; [exact Hs|]. by apply list_elem_of_singleton.
Qed.

(** A host passes a RREP on to the neighbour the originator is behind, and its kernel has
    the route to the destination. *)
Lemma rrep_hop dsrc w port ttl r n hop :
  let src := md_ip_addr dsrc in let me := md_ip_addr (w_data w) in
  let r' := set_rp_hop_count (u8 (rp_hop_count r + 1)) r in
  0 ≤ n → host_ok w → kernel_accepts → sends_ok → is_u32 src → src ≠ me → 0 < ttl < 256 → rrep_ok r →
  rp_type r = AODV_RREP → table_lookup w (rp_dest_ip_addr r) = None → hop_to w (rp_orig_ip_addr r) = Some hop →
  rp_orig_ip_addr r ≠ me → rp_orig_ip_addr r ≠ rp_dest_ip_addr r → rp_orig_ip_addr r ≠ src →
  ∃ rcv w' port', delivery dsrc (w_data w) (rrep_event me port ttl r n) = Some rcv ∧
    host_receive E rcv w = Ok tt w' ∧ host_ok w' ∧ speaks w w' ∧
    on_air w' (rrep_event hop port' (ttl - 1) r') ∧ kernel_via w' (rp_dest_ip_addr r) src.
Proof.
  intros src me r' Hnum Hw Hk Hso Hsrc Hne Httl Hr Ht Hl Hhop Ho1 Ho2 Ho3.
  destruct (rrep_message r Hr Ht) as (Hm & Hn & Hv).
  destruct (receive_message dsrc w (htonl me) port ttl (bytes_of_rrep (aodv_pkt_prepare_rrep r)) n)
    as (rcv & w' & p & Hdel & Hrun & Hw' & Hbal & Haddr & Hpttl & Hproc); [done|done|done|
      unfold is_u8; lia|lia|done|unfold BUF_SIZE; simpl; lia|by unfold for_host; rewrite Z.eqb_refl|].
  apply (processed_rrep _ _ r) in Hproc as (_ & _ & Hrel); [|by rewrite Haddr|done|done].
  specialize (Hrel Hk Hl Ho1 Ho2). rewrite Haddr, Hhop in Hrel. specialize (Hrel Ho3) as [[k Hrel] Hkern]. simpl in Hrel.
  exists rcv, w', (pk_port p). split; [done|]. split; [done|]. split; [done|].
  split; [by apply (finer (R:=balanced))|]. split; [|exact Hkern].
  exists (env_sendto k). split; [done|].
  eapply sent_elem; [exact Hrel|]. apply list_elem_of_singleton. unfold rrep_event, forward_rrep_event. f_equal.
  rewrite Hpttl. symmetry. apply u8_id. unfold is_u8. lia.
Qed.

(** The RREP reaches the host that asked: the discovery is over. *)
Lemma rrep_arrival dsrc w port ttl r n :
  let src := md_ip_addr dsrc in let me := md_ip_addr (w_data w) in
  0 ≤ n → host_ok w → kernel_accepts → is_u32 src → src ≠ me → 0 < ttl < 256 → rrep_ok r →
  rp_type r = AODV_RREP → table_lookup w (rp_dest_ip_addr r) = None → rp_orig_ip_addr r = me →
  ∃ rcv w', delivery dsrc (w_data w) (rrep_event me port ttl r n) = Some rcv ∧
    host_receive E rcv w = Ok tt w' ∧ host_ok w' ∧ speaks w w' ∧ ledger w' ≡ₚ ledger w ∧
    route_learned (rp_dest_ip_addr r) src (u8 (rp_hop_count r + 1)) (rp_dest_seq_num r) w w'.
Proof.
  intros src me Hnum Hw Hk Hsrc Hne Httl Hr Ht Hl Ho. destruct (rrep_message r Hr Ht) as (Hm & Hn & Hv).
  destruct (receive_message dsrc w (htonl me) port ttl (bytes_of_rrep (aodv_pkt_prepare_rrep r)) n)
    as (rcv & w' & p & Hdel & Hrun & Hw' & Hbal & Haddr & Hpttl & Hproc); [done|done|done|
      unfold is_u8; lia|lia|done|unfold BUF_SIZE; simpl; lia|by unfold for_host; rewrite Z.eqb_refl|].
  apply (processed_rrep _ _ r) in Hproc as (_ & Hans & _); [|by rewrite Haddr|done|done].
  specialize (Hans Ho). rewrite Hl in Hans. specialize (Hans Hk). rewrite Haddr in Hans.
  exists rcv, w'. split; [done|]. split; [done|]. split; [done|].
  split; [by apply (finer (R:=balanced))|]. by split; [apply Hbal|].
Qed.
End one_hop.

(** ** Along a line *)

Section line.
Context (envs : nat → Env) {envs_ok : ∀ i, EnvOk (envs i)} (near : nat → nat → Prop).
Implicit Types w : world.

(** The address of a host. *)
Definition addr_in (ws : list world) (i : nat) : Z :=
  from_option (λ w, md_ip_addr (w_data w)) 0 (ws !! i).

(** The first host after the start of a path [p] to [d]. *)
Definition first_of (p : list nat) (d : nat) : nat := default d (head p).

(** A path from [i] over the hosts [p] to [d]: neighbours hear each other, use the same
    broadcast address [B], and none of them knows the RREQ [id] for [dest], the address
    of [d]; the hosts on the way have no route to [dest] in their tables, not even an
    expired one, their kernels take every route, and no [sendto] of a host of the path
    fails. *)
Fixpoint clear_path (ws : list world) (B id dest : Z) (i : nat) (p : list nat) (d : nat) : Prop :=
  match p with
  | [] => near i d ∧ near d i ∧ sends_ok (E:=envs d) ∧ ∃ w, ws !! d = Some w ∧
      md_broadcast_addr (w_data w) = B ∧ md_ip_addr (w_data w) = dest ∧ remembers w id dest = false
  | j :: p' => near i j ∧ near j i ∧ kernel_accepts (E:=envs j) ∧ sends_ok (E:=envs j) ∧
      (∃ w, ws !! j = Some w ∧ md_broadcast_addr (w_data w) = B ∧ unaware id dest w) ∧
      clear_path ws B id dest j p' d
  end.

Lemma clear_path_frame ws ws' B id dest i p d :
  (∀ k, k ∈ p ++ [d] → ws' !! k = ws !! k) → clear_path ws B id dest i p d → clear_path ws' B id dest i p d.
Proof.
  revert i. induction p as [|j p IH]; intros i Hf; simpl.
  - by rewrite (Hf d) by set_solver.
  - rewrite (Hf j) by set_solver. intros (?&?&?&?&?&?). split_and!; [done..|].
    apply IH; [|done]. intros k Hk. apply Hf. set_solver.
Qed.

Lemma clear_path_near ws B id dest i p d :
  clear_path ws B id dest i p d → near i (first_of p d) ∧ near (first_of p d) i.
Proof. destruct p; simpl; tauto. Qed.

Lemma clear_path_dest ws B id dest i p d : clear_path ws B id dest i p d → addr_in ws d = dest.
Proof.
  revert i. induction p as [|j p IH]; intros i; simpl.
  - intros (_ & _ & _ & w & Hd & _ & Ha & _). unfold addr_in. by rewrite Hd.
  - intros (_ & _ & _ & _ & _ & Hp). by eapply IH.
Qed.

Lemma addr_in_insert ws j w w' k :
  ws !! j = Some w → speaks w w' → addr_in (<[j := w']> ws) k = addr_in ws k.
Proof.
  intros Hj Hs. unfold addr_in. destruct (decide (j = k)) as [<-|Hne].
  - rewrite list_lookup_insert_eq by (by eapply lookup_lt_Some). rewrite Hj. simpl. apply Hs.
  - by rewrite list_lookup_insert_ne.
Qed.

Lemma first_of_elem p d : first_of p d ∈ p ++ [d].
Proof. destruct p; set_solver. Qed.

Lemma deliver_step ws i j wi wj ev rcv w' :
  near i j → ws !! i = Some wi → ws !! j = Some wj → ev ∈ w_trace wi →
  delivery (w_data wi) (w_data wj) ev = Some rcv → host_receive (envs j) rcv wj = Ok tt w' →
  net_run envs near event_delivered ws (<[j := w']> ws).
Proof. intros. eapply rtc_once. by eapply net_deliver. Qed.

(** The RREP about [dest] for [orig] that has come over [hops] hosts. *)
Definition rrep_back (dest seq orig : Z) (hops : nat) : aodv_rrep :=
  AodvRrep AODV_RREP 0 0 0 0 (Z.of_nat hops) dest seq orig MY_ROUTE_TIMEOUT.

Lemma rrep_back_ok dest seq orig hops :
  is_u32 dest → is_u32 seq → is_u32 orig → (hops < 64)%nat → rrep_ok (rrep_back dest seq orig hops).
Proof. intros. split; simpl; try done; [unfold is_u8; lia|]. by rewrite !Forall_cons, Forall_nil. Qed.

Lemma rrep_back_step dest seq orig hops :
  (hops < 64)%nat → set_rp_hop_count (u8 (rp_hop_count (rrep_back dest seq orig hops) + 1))
    (rrep_back dest seq orig hops) = rrep_back dest seq orig (S hops).
Proof.
  intros Hh. unfold rrep_back, set_rp_hop_count. simpl. f_equal. rewrite u8_id by (unfold is_u8; lia). lia.
Qed.

(** The kernel of every host of the path leads to [dest] over the next one. *)
Fixpoint kernels_lead (ws : list world) (dest : Z) (p : list nat) (d : nat) : Prop :=
  match p with
  | [] => True
  | j :: p' => (∃ w, ws !! j = Some w ∧ kernel_via w dest (addr_in ws (first_of p' d))) ∧
      kernels_lead ws dest p' d
  end.

Lemma kernels_lead_frame ws ws' dest p d :
  (∀ k, k ∈ p → ws' !! k = ws !! k) → (∀ k, addr_in ws' k = addr_in ws k) →
  kernels_lead ws dest p d → kernels_lead ws' dest p d.
Proof.
  intros Hf Ha. revert Hf. induction p as [|j p IH]; intros Hf; simpl; [done|].
  rewrite (Hf j), Ha by set_solver. intros [? Hp]. split; [done|]. apply IH; [|done]. set_solver.
Qed.

(** What the first host after [i] has sent when the RREQ has crossed the path and the
    answer has come back to it. *)
Record answered_at (ws : list world) (i : nat) (p : list nat) (d : nat) (id dest orig : Z) (ws' : list world)
    (w' : world) : Prop := {
  aa_ok : net_ok ws';
  aa_others k : k ∉ p ++ [d] → ws' !! k = ws !! k;
  aa_first : ws' !! first_of p d = Some w';
  aa_addr : md_ip_addr (w_data w') = addr_in ws (first_of p d);
  aa_addrs k : addr_in ws' k = addr_in ws k;
  aa_kernels : kernels_lead ws' dest p d;
  aa_dest : ∃ wd, ws' !! d = Some wd ∧ remembers wd id dest = true;
  aa_rrep : ∃ port seq, is_u32 seq ∧
    on_air w' (rrep_event (addr_in ws i) port (64 - Z.of_nat (length p)) (rrep_back dest seq orig (length p))) }.

Lemma host_addr_u32 w : host_ok w → is_u32 (md_ip_addr (w_data w)).
Proof. intros [Hw _]. apply (do_ip_addr _ (wo_data _ Hw)). Qed.
Lemma addr_in_eq ws i w : ws !! i = Some w → addr_in ws i = md_ip_addr (w_data w).
Proof. intros Hi. unfold addr_in. by rewrite Hi. Qed.

(** The destination is the next host. *)
Lemma rreq_crosses_last ws i d w r port ttl B :
  net_ok ws → clear_path ws B (rq_rreq_id r) (rq_dest_ip_addr r) i [] d →
  addr_in ws i ≠ addr_in ws d → rreq_ok r → rq_type r = AODV_RREQ → ws !! i = Some w →
  on_air w (rreq_event B port ttl r) → 0 < ttl < 256 →
  ∃ ws' w', net_run envs near event_delivered ws ws' ∧
    answered_at ws i [] d (rq_rreq_id r) (rq_dest_ip_addr r) (rq_orig_ip_addr r) ws' w'.
Proof.
  intros Hok (Hid & _ & Hso & wd & Hd & HB & Hdest & Hrem) Hne Hr Ht Hi (n & Hn & Hev) Httl.
  rewrite (addr_in_eq _ _ _ Hi), (addr_in_eq _ _ _ Hd) in Hne. subst B.
  pose proof (net_ok_lookup _ _ _ Hok Hi) as Hwi. pose proof (net_ok_lookup _ _ _ Hok Hd) as Hwd.
  rewrite <-Hdest in Hrem.
  destruct (rreq_arrival (envs d) (w_data w) wd port ttl r n)
    as (rcv & w' & seq & Hdel & Hrun & Hw' & Hsp & Hseq & Hkn & Hans); [by try apply host_addr_u32..|].
  exists (<[d := w']> ws), w'. split; [by eapply deliver_step|].
  assert (<[d := w']> ws !! d = Some w') as Hd' by (apply list_lookup_insert_eq; by eapply lookup_lt_Some).
  split; [by apply Forall_insert| |done| | |done| |].
  - intros k Hk. apply list_lookup_insert_ne. set_solver.
  - change (first_of [] d) with d. rewrite (addr_in_eq _ _ _ Hd). apply Hsp.
  - intros k. by eapply addr_in_insert.
  - exists w'. split; [done|]. by rewrite <-Hdest.
  - exists (htons AODV_UDP_PORT), seq. split; [done|]. by rewrite <-Hdest, (addr_in_eq _ _ _ Hi).
Qed.

(** The RREP comes back over the host [j] that passed the RREQ on. *)
Lemma rrep_crosses_back ws ws2 i j p d id dest orig wj w2 :
  near (first_of p d) j →
  host_ok wj → kernel_accepts (E:=envs j) → sends_ok (E:=envs j) → j ∉ p ++ [d] → (length p < 63)%nat → ws !! j = Some wj →
  answered_at ws j p d id dest orig ws2 w2 → is_u32 dest → is_u32 orig →
  addr_in ws (first_of p d) ≠ addr_in ws j → table_lookup wj dest = None →
  hop_to wj orig = Some (addr_in ws i) → orig ≠ addr_in ws j → orig ≠ dest → orig ≠ addr_in ws (first_of p d) →
  ∃ w', net_run envs near event_delivered ws2 (<[j := w']> ws2) ∧ host_ok w' ∧ speaks wj w' ∧
    kernel_via w' dest (addr_in ws (first_of p d)) ∧ ∃ port seq, is_u32 seq ∧
      on_air w' (rrep_event (addr_in ws i) port (64 - Z.of_nat (S (length p)))
        (rrep_back dest seq orig (S (length p)))).
Proof.
  intros Hn Hwj Hk Hso Hj Hlen Hjw [Hok2 Hoth Hfst Haddr _ _ _ (port & seq & Hseq & n & Hnum & Hev)] Hd Ho Hne1 Hl Hhop Hne2 Hne3 Hne4.
  assert (ws2 !! j = Some wj) as Hj2 by by rewrite Hoth.
  pose proof (net_ok_lookup _ _ _ Hok2 Hfst) as Hw2. rewrite (addr_in_eq _ _ _ Hjw) in Hne1, Hne2, Hev.
  rewrite <-Haddr in Hne1, Hne4.
  destruct (rrep_hop (envs j) (w_data w2) wj port (64 - Z.of_nat (length p)) (rrep_back dest seq orig (length p)) n (addr_in ws i))
    as (rcv & w' & port' & Hdel & Hrun & Hw' & Hsp & Hev' & Hkern);
    [done|done|done|done|by apply host_addr_u32|done|lia|apply rrep_back_ok; [done..|lia]|done..|].
  exists w'. split; [by eapply deliver_step|]. split; [done|]. split; [done|].
  split; [by rewrite <-Haddr|]. exists port', seq. split; [done|]. rewrite rrep_back_step in Hev' by lia.
  by replace (64 - Z.of_nat (S (length p))) with (64 - Z.of_nat (length p) - 1) by lia.
Qed.

Lemma addr_path_insert ws j w w' (l : list nat) :
  ws !! j = Some w → speaks w w' → addr_in (<[j := w']> ws) <$> l = addr_in ws <$> l.
Proof. intros. apply list_fmap_ext. intros ? k _. by eapply addr_in_insert. Qed.

(** The hosts of the path after the first one. *)
Lemma NoDup_path ws i j p d :
  NoDup (addr_in ws <$> i :: (j :: p) ++ [d]) →
  NoDup (addr_in ws <$> j :: p ++ [d]) ∧ j ∉ p ++ [d] ∧ addr_in ws i ≠ addr_in ws j ∧
  addr_in ws i ∉ addr_in ws <$> p ++ [d] ∧ (∀ k, k ∈ p ++ [d] → addr_in ws k ≠ addr_in ws j).
Proof.
  simpl. rewrite !NoDup_cons, !elem_of_cons. intros (Hi & Hj & Hnd). split; [done|]. split.
  { intros Hin. apply Hj, list_elem_of_fmap. by exists j. }
  split; [tauto|]. split; [tauto|]. intros k Hk Heq. apply Hj. rewrite <-Heq. apply list_elem_of_fmap. by exists k.
Qed.

Lemma addr_not_in ws x (l : list nat) : x ∉ addr_in ws <$> l → ∀ k, k ∈ l → x ≠ addr_in ws k.
Proof. intros Hx k Hk ->. apply Hx, list_elem_of_fmap. by exists k. Qed.

(** The host before the path has answered, too. *)
Lemma answered_before ws ws2 i j p d id dest orig wj w1 w2 w3 :
  ws !! j = Some wj → j ∉ p ++ [d] → speaks wj w1 → speaks w1 w3 → host_ok w3 →
  answered_at (<[j := w1]> ws) j p d id dest orig ws2 w2 →
  kernel_via w3 dest (addr_in (<[j := w1]> ws) (first_of p d)) →
  (∃ port seq, is_u32 seq ∧ on_air w3 (rrep_event (addr_in ws i) port (64 - Z.of_nat (S (length p)))
     (rrep_back dest seq orig (S (length p))))) →
  answered_at ws i (j :: p) d id dest orig (<[j := w3]> ws2) w3.
Proof.
  intros Hj Hjp Hsp Hsp3 Hw3 [Hok2 Hoth _ _ Haddrs Hlead (wd & Hd & Hrem) _] Hkern Hev.
  assert (∀ k, addr_in (<[j := w1]> ws) k = addr_in ws k) as Ha1 by (intros k; by eapply addr_in_insert).
  assert (ws2 !! j = Some w1) as Hj2.
  { rewrite Hoth by done. apply list_lookup_insert_eq. by eapply lookup_lt_Some. }
  assert (∀ k, addr_in (<[j := w3]> ws2) k = addr_in ws2 k) as Ha3 by (intros k; by eapply addr_in_insert).
  split; [by apply Forall_insert| | | | | | |done].
  6: { exists wd. split; [|done]. rewrite list_lookup_insert_ne; [done|]. set_solver. }
  - intros k Hk. rewrite list_lookup_insert_ne by set_solver. rewrite Hoth by set_solver.
    apply list_lookup_insert_ne. set_solver.
  - apply list_lookup_insert_eq. by eapply lookup_lt_Some.
  - change (first_of (j :: p) d) with j. rewrite (addr_in_eq _ _ _ Hj), (sk_ip_addr _ _ Hsp3). apply Hsp.
  - intros k. by rewrite Ha3, Haddrs.
  - split.
    + exists w3. rewrite Ha3, Haddrs. split; [|done]. apply list_lookup_insert_eq. by eapply lookup_lt_Some.
    + eapply kernels_lead_frame; [|exact Ha3|exact Hlead]. intros k Hk. apply list_lookup_insert_ne.
      intros ->. apply Hjp, elem_of_app. by left.
Qed.

Lemma rreq_crosses p ws i d w r port ttl B :
  net_ok ws → clear_path ws B (rq_rreq_id r) (rq_dest_ip_addr r) i p d →
  NoDup (addr_in ws <$> i :: p ++ [d]) → rq_orig_ip_addr r ∉ addr_in ws <$> p ++ [d] →
  rreq_ok r → rq_type r = AODV_RREQ → ws !! i = Some w → on_air w (rreq_event B port ttl r) →
  Z.of_nat (length p) < ttl < 256 → (length p < 64)%nat →
  ∃ ws' w', net_run envs near event_delivered ws ws' ∧
    answered_at ws i p d (rq_rreq_id r) (rq_dest_ip_addr r) (rq_orig_ip_addr r) ws' w'.
Proof.
  revert ws i w r port ttl. induction p as [|j p IH]; intros ws i w r port ttl Hok Hp Hnd Ho Hr Ht Hi Hev Httl Hlen.
  { eapply rreq_crosses_last; [done..| |done|done|done|done|simpl in Httl; lia].
    simpl in Hnd. rewrite NoDup_cons in Hnd. set_solver. }
  pose proof (clear_path_dest _ _ _ _ _ _ _ Hp) as Hdest.
  destruct Hev as (n & Hn & Hev).
  destruct Hp as (Hij & Hji & Hkj & Hsj & (wj & Hj & HB & Hua) & Hp). simpl in Hlen, Httl.
  destruct (NoDup_path _ _ _ _ _ Hnd) as (Hnd' & Hjp & Hne & Hip & Hkp).
  pose proof (addr_not_in _ _ _ Ho) as Ho'. simpl in Ho'.
  assert (d ∈ p ++ [d]) as Hdp by set_solver.
  pose proof (net_ok_lookup _ _ _ Hok Hi) as Hwi. pose proof (net_ok_lookup _ _ _ Hok Hj) as Hwj.
  destruct (rreq_words _ Hr) as (_ & Hd32 & _ & Ho32 & _). subst B.
  destruct (rreq_hop (envs j) (w_data w) wj port ttl r n)
    as (rcv & w1 & port1 & Hdel & Hrun & Hw1 & Hsp & Hev1 & Hhop & Hl);
    [done|done|done|done|by apply host_addr_u32|by rewrite <-(addr_in_eq _ _ _ Hi), <-(addr_in_eq _ _ _ Hj)|lia|done..| | | |].
  { rewrite <-(addr_in_eq _ _ _ Hj), <-Hdest. by apply Hkp. }
  { rewrite <-(addr_in_eq _ _ _ Hi), <-Hdest. apply not_eq_sym. by apply (addr_not_in _ _ _ Hip). }
  { rewrite <-Hdest. apply not_eq_sym, Ho'. set_solver. }
  set (ws1 := <[j := w1]> ws).
  assert (ws1 !! j = Some w1) as Hj1 by (apply list_lookup_insert_eq; by eapply lookup_lt_Some).
  assert (∀ k, addr_in ws1 k = addr_in ws k) as Ha1 by (intros k; by eapply addr_in_insert).
  assert (∀ l : list nat, addr_in ws1 <$> l = addr_in ws <$> l) as Hal1 by (intros l; by eapply addr_path_insert).
  destruct (IH ws1 j w1 (set_rq_hop_count (u8 (rq_hop_count r + 1)) r) port1 (ttl - 1)) as (ws2 & w2 & Hrun2 & Hans);
    [by apply Forall_insert| |by rewrite Hal1| | |done|done|done|lia|lia|].
  { eapply clear_path_frame; [|exact Hp]. intros k Hk. apply list_lookup_insert_ne. set_solver. }
  { rewrite Hal1. simpl in Ho. set_solver. }
  { destruct Hr. split; simpl; try done. apply u8_range. }
  simpl in Hans.
  destruct (rrep_crosses_back ws1 ws2 i j p d (rq_rreq_id r) (rq_dest_ip_addr r) (rq_orig_ip_addr r) w1 w2)
    as (w3 & Hrun3 & Hw3 & Hsp3 & Hkern3 & port3 & seq & Hseq & Hev3);
    [by eapply clear_path_near|done|done|done|done|lia|done|exact Hans|done|done|..].
  { rewrite !Ha1. apply Hkp, first_of_elem. }
  { done. }
  { by rewrite Ha1, (addr_in_eq _ _ _ Hi). }
  { rewrite Ha1. apply Ho'. set_solver. }
  { rewrite <-Hdest. apply Ho'. set_solver. }
  { rewrite Ha1. apply Ho'. pose proof (first_of_elem p d). set_solver. }
  exists (<[j := w3]> ws2), w3.
  split; [eapply rtc_l; [by eapply (net_deliver _ _ _ _ i j)|]; exact (transitivity (R:=rtc _) Hrun2 Hrun3)|].
  eapply (answered_before ws ws2 i j p d _ _ _ wj w1 w2 w3); [done..|].
  exists port3, seq. split; [done|]. by rewrite Ha1 in Hev3.
Qed.

(** The whole discovery: the RREQ crosses the line and the answer reaches the host that
    asked. *)
Lemma discovery_over_line ws o p d w r port ttl B :
  net_ok ws → ws !! o = Some w → kernel_accepts (E:=envs o) →
  table_lookup w (rq_dest_ip_addr r) = None →
  rreq_ok r → rq_type r = AODV_RREQ → rq_orig_ip_addr r = md_ip_addr (w_data w) →
  on_air w (rreq_event B port ttl r) → Z.of_nat (length p) < ttl < 256 → (length p < 64)%nat →
  clear_path ws B (rq_rreq_id r) (rq_dest_ip_addr r) o p d →
  NoDup (addr_in ws <$> o :: p ++ [d]) →
  ∃ ws' w', net_run envs near event_delivered ws ws' ∧ ws' !! o = Some w' ∧ world_ok w' ∧
    (∃ rt, route_to w' (rq_dest_ip_addr r) = Some rt ∧ rt_next_hop rt = addr_in ws (first_of p d) ∧
       rt_hop_count rt = Z.of_nat (length p) + 1 ∧ has_flag (rt_flags rt) RTFLAG_VALID_ENTRY = true) ∧
    kernels_lead ws' (rq_dest_ip_addr r) (o :: p) d ∧
    (∃ wd, ws' !! d = Some wd ∧ remembers wd (rq_rreq_id r) (rq_dest_ip_addr r) = true) ∧
    released (rq_dest_ip_addr r) w w' ∧ (∀ e, e ∈ w_packets w' → pf_dest e ≠ rq_dest_ip_addr r).
Proof.
  intros Hok Ho Hk Hl Hr Ht Horig Hev Httl Hlen Hp Hnd.
  assert (addr_in ws o ∉ addr_in ws <$> p ++ [d]) as Hop by (simpl in Hnd; by apply NoDup_cons in Hnd as [? _]).
  destruct (rreq_crosses p ws o d w r port ttl B) as (ws1 & w1 & Hrun1 & [Hok1 Hoth Hfst Haddr Haddrs Hlead (wd & Hwd & Hrem) (port1 & seq & Hseq & n1 & Hn1 & Hev1)]);
    [done|done|done|by rewrite Horig, <-(addr_in_eq _ _ _ Ho)|done..|].
  pose proof (addr_not_in _ _ _ Hop _ (first_of_elem p d)) as Hne.
  assert (o ∉ p ++ [d]) as Hni by (intros Hin; apply Hop, list_elem_of_fmap; by exists o).
  assert (ws1 !! o = Some w) as Ho1 by by rewrite Hoth.
  pose proof (net_ok_lookup _ _ _ Hok1 Hfst) as Hw1. pose proof (net_ok_lookup _ _ _ Hok Ho) as Hw.
  destruct (rreq_words _ Hr) as (_ & Hd32 & _ & Ho32 & _).
  rewrite (addr_in_eq _ _ _ Ho) in Hev1, Hne.
  destruct (rrep_arrival (envs o) (w_data w1) w port1 (64 - Z.of_nat (length p))
    (rrep_back (rq_dest_ip_addr r) seq (rq_orig_ip_addr r) (length p)) n1)
    as (rcv & w' & Hdel & Hrun & [Hw' _] & Hsp & _ & [(rt & Hrt & Hpath & Hv) Hpk Hrel Hkern]);
    [done|done|done|by apply host_addr_u32|rewrite Haddr; by apply not_eq_sym|lia|by apply rrep_back_ok|done..|].
  destruct (clear_path_near _ _ _ _ _ _ _ Hp) as [_ Hn].
  assert (∀ k, addr_in (<[o := w']> ws1) k = addr_in ws1 k) as Ha' by (intros k; by eapply addr_in_insert).
  exists (<[o := w']> ws1), w'. split; [exact (transitivity (R:=rtc _) Hrun1 (deliver_step _ _ _ _ _ _ _ _ Hn Hfst Ho1 Hev1 Hdel Hrun))|].
  split; [apply list_lookup_insert_eq; by eapply lookup_lt_Some|]. split; [done|]. split.
  2: { split; [|split; [|done]].
    2: { exists wd. split; [|done]. rewrite list_lookup_insert_ne; [done|]. set_solver. }
    split.
    - exists w'. split; [apply list_lookup_insert_eq; by eapply lookup_lt_Some|].
      by rewrite Ha', Haddrs, <-Haddr.
    - eapply kernels_lead_frame; [|exact Ha'|exact Hlead]. intros k Hk'. apply list_lookup_insert_ne.
      intros ->. apply Hni, elem_of_app. by left. }
  exists rt. destruct Hpath as [_ H2 H3 _ _]. split; [done|]. rewrite H2, H3, Haddr. split; [done|]. split; [|done].
  simpl. rewrite u8_id; [done|]. unfold is_u8. lia.
Qed.

(** ** The start of a discovery *)

(** The first RREQ for [dest]. *)
Definition opening_rreq (d : msh_data_t) (dest : Z) : aodv_rreq :=
  AodvRreq AODV_RREQ 0 ((Z.lor RREQ_GRATUITOUS_RREP_FLAG RREQ_UNKNOWN_SEQ_NUM_FLAG) mod 32) 0 0
    (u32 (md_rreq_id d + 1)) dest 0 (md_ip_addr d) (u32 (md_seq_num d + 1)).

Lemma opening_rreq_ok d dest : is_u32 dest → is_u32 (md_ip_addr d) → rreq_ok (opening_rreq d dest).
Proof.
  intros. split; simpl; try done. rewrite !Forall_cons, Forall_nil.
  split_and!; [apply u32_range|done..|apply u32_range|done].
Qed.

(** A packet without a route is captured at the host [o]. *)
Lemma captured_is_held ws o w nfa hdr src dst proto :
  net_ok ws → ws !! o = Some w → ip_packet nfa hdr src dst proto → fate_of nfa dst proto w = Held →
  ∃ w1, host_run (E:=envs o) (Captured (Some [nfa])) w = Ok tt w1 ∧ host_ok w1 ∧ speaks w w1 ∧
    held (E:=envs o) (nfqueue_packet_get_id nfa) dst w w1.
Proof.
  intros Hok Ho Hip Hfate. destruct (net_ok_lookup _ _ _ Hok Ho) as [Hw Hm].
  pose proof (manage_packet_spec (E:=envs o) nfa hdr src dst proto w Hw Hip) as Hspec.
  apply wp_run in Hspec as (ret & w1 & Heq & Hw1 & Hsp & Hheld).
  unfold packet_managed in Hheld. rewrite Hfate in Hheld.
  exists w1. split.
  - simpl. unfold mbind, M_bind. by rewrite Heq.
  - split; [split; [done|]|by split]. eapply logs_messages; [apply Hsp|done].
Qed.
End line.

(** What a receiver's check makes of a whole message. *)
Lemma aodv_message_accepted bs : aodv_message bs → is_Some (valid_rreq bs) ∨ is_Some (valid_rrep bs).
Proof.
  intros (_ & _ & [[Hh Hl]|[Hh Hl]]); [left|right].
  - destruct (rreq_of_bytes_some bs Hl) as [r Hr]. rewrite (valid_rreq_head bs r) by done. by eexists.
  - destruct (rrep_of_bytes_some bs Hl) as [r Hr]. destruct (valid_rrep_head bs r Hh Hr) as [_ ->]. by eexists.
Qed.

(** ** Schedules are runs *)

Section schedules.
Context (envs : nat → Env) (near : nat → nat → Prop) (event_ok : host_event → Prop).

Definition permitted (a : net_action) : Prop :=
  match a with Act _ e => event_ok e | Deliver i j _ => near i j end.

Lemma after_some (r : outcome world unit) w' : after r = Some w' ↔ r = Ok tt w'.
Proof. destruct r as [[] w|f]; simpl; naive_solver. Qed.

Lemma net_step_do ws ws' :
  net_step envs near event_ok ws ws' ↔ ∃ a, permitted a ∧ net_do envs a ws = Some ws'.
Proof.
  split.
  - intros [i w e w' Hi He Hr|i j wi wj ev rcv w' Hn Hi Hj [k Hk]%list_elem_of_lookup Hd Hr].
    + exists (Act i e). split; [done|]. simpl. by rewrite Hi; simpl; rewrite Hr.
    + exists (Deliver i j k). split; [done|]. simpl. rewrite Hi, Hj; simpl; rewrite Hk; simpl.
      by rewrite Hd; simpl; rewrite Hr.
  - intros ([i e|i j k] & Hp & Hdo); simpl in Hdo.
    + apply bind_Some in Hdo as (w & Hi & (w' & Hr%after_some & [= <-])%bind_Some). by eapply net_host.
    + apply bind_Some in Hdo as (wi & Hi & (wj & Hj & (ev & Hk & (rcv & Hd &
        (w' & Hr%after_some & [= <-])%bind_Some)%bind_Some)%bind_Some)%bind_Some).
      eapply net_deliver; [done..| |done|done]. by eapply list_elem_of_lookup_2.
Qed.

Lemma net_run_do l ws ws' :
  Forall permitted l → net_do_all envs l ws = Some ws' → net_run envs near event_ok ws ws'.
Proof.
  intros Hl. revert ws. induction Hl as [|a l Ha Hl IH]; intros ws; simpl; [by intros [= <-]|].
  destruct (net_do envs a ws) as [ws1|] eqn:Ha1; [|done]. intros Hrun.
  eapply rtc_l; [|by apply IH]. apply net_step_do. by exists a.
Qed.
End schedules.

Lemma forallb_seq (f : nat → bool) n k : forallb f (seq 0 n) = true → (k < n)%nat → f k = true.
Proof. rewrite forallb_forall. intros Hf Hk. apply Hf, in_seq. lia. Qed.

Lemma losslessb_sound near l ws : losslessb near l ws = true → lossless near l ws.
Proof.
  unfold losslessb. intros Hall i j k wi wj ev rcv Hn Hi Hj Hk Hd.
  apply (forallb_seq _ _ i) in Hall; [|by eapply lookup_lt_Some].
  apply (forallb_seq _ _ j) in Hall; [|by eapply lookup_lt_Some]. rewrite Hi in Hall. simpl in Hall.
  apply (forallb_seq _ _ k) in Hall; [|by eapply lookup_lt_Some].
  unfold lossless_at in Hall. rewrite Hi, Hj, Hk in Hall. simpl in Hall. rewrite Hd, Hn in Hall.
  by apply bool_decide_eq_true in Hall.
Qed.
