(* ===== verification/Witness.v ===== *)
(** * A concrete daemon

    An environment, a daemon at 10.0.0.1 with nothing done yet, and some states it
    reaches: the inputs at which the properties are instantiated. *)

From S2P Require Export MainLoopSpec.

(** A clock that advances one second per call, and calls that succeed. *)
#[export] Instance test_env : Env := {|
  env_now n := Timeval (1000 + Z.of_nat n) 0;
  env_sendto _ := 24;
  env_rtnl_route_add _ := 0;
  env_rtnl_route_del _ := 0;
  env_nfq_set_verdict _ := 0 |}.

#[export] Instance test_env_ok : EnvOk test_env.
Proof. intros n. split; simpl; lia. Qed.

(** The state an operation leaves. *)
Definition final {A} (m : M world A) (w : world) : world :=
  match m w with Ok _ w' => w' | Fault _ => w end.

Lemma final_ok {A} R (m : M world A) Q w : rwp R m Q w → world_ok (final m w).
Proof. unfold rwp, wp, final. destruct (m w); [by intros []|done]. Qed.

(** Evaluate whether concrete bytes are bytes. *)
Ltac decide_bytes := apply (bool_decide_unpack _); vm_compute; exact I.

Definition ip (a b c d : Z) : Z := a * 2 ^ 24 + b * 2 ^ 16 + c * 2 ^ 8 + d.
Definition us : Z := ip 10 0 0 1.
Definition neighbour : Z := ip 10 0 0 2.
Definition far : Z := ip 10 0 0 9.
Definition everyone : Z := ip 10 0 0 255.

(** 10.0.0.1 on interface 3. *)
Definition fresh_daemon : world := initial_world 3 (htonl us) (htonl everyone).
Lemma fresh_daemon_ok : world_ok fresh_daemon.
Proof. apply initial_world_ok. Qed.

(** A packet of a local process for 10.0.0.9. *)
Definition ip_header (src dst proto : Z) : bytes :=
  [0x45; 0; 0; 28; 0; 0; 0; 0; 64; proto; 0; 0] ++ be32 src ++ be32 dst ++ [0; 80; 0; 80; 0; 8; 0; 0].
Definition captured (id hook src dst : Z) : nfq_data :=
  NfqData (Some (PacketHdr (htonl id) 0 hook)) (Some (ip_header src dst 6)).

Lemma captured_ip id hook src dst :
  is_u32 src → is_u32 dst → ip_packet (captured id hook src dst) (ip_header src dst 6) src dst 6.
Proof.
  intros Hs Hd.
  assert (∀ z, is_u32 z → ntohl (of_le32 (be32 z)) = z) as Hbe.
  { intros z Hz. rewrite <-le32_htonl, of_le32_le32, u32_id by apply htonl_range. by apply ntohl_htonl. }
  split; [done| | |done|done].
  - change (Some (ntohl (of_le32 (be32 src))) = Some src). by rewrite Hbe.
  - change (Some (ntohl (of_le32 (be32 dst))) = Some dst). by rewrite Hbe.
Qed.

(** One packet waits for a route to 10.0.0.9 and the first RREQ is out. *)
Definition waiting_daemon : world := final (manage_packet (captured 7 NF_IP_LOCAL_OUT us far)) fresh_daemon.
Lemma waiting_daemon_ok : world_ok waiting_daemon.
Proof. eapply final_ok, manage_packet_spec; [apply fresh_daemon_ok|by apply captured_ip]. Qed.

(** A message of the neighbour. *)
Definition from_neighbour (buf : bytes) : msghdr :=
  MsgHdr (Some (SockAddr AF_INET (htons AODV_UDP_PORT) (htonl neighbour))) (Some buf)
    [CMsg SOL_IP IP_TTL [5]].
Lemma from_neighbour_ok buf :
  bytes_ok buf → 1 ≤ Z.of_nat (length buf) < 2 ^ 31 →
  datagram_ok (from_neighbour buf) (Z.of_nat (length buf)) buf 5.
Proof. intros Hb Hl. split; simpl; try done; [lia|lia|]. intros a [= <-]. apply htonl_range. Qed.

(** The neighbour answers: 10.0.0.9 is two hops away. *)
Definition rrep_for_us : bytes := bytes_of_rrep (aodv_pkt_prepare_rrep
  (AodvRrep AODV_RREP 0 0 0 0 1 far 5 us MY_ROUTE_TIMEOUT)).
Definition routed_daemon : world :=
  final (aodv_process_packet (from_neighbour rrep_for_us) 20) waiting_daemon.
Lemma routed_daemon_ok : world_ok routed_daemon.
Proof.
  eapply final_ok, (aodv_process_packet_spec _ 20); [apply waiting_daemon_ok|].
  apply (from_neighbour_ok rrep_for_us); [|done]. decide_bytes.
Qed.

Lemma routed_run : daemon_run fresh_daemon [captured 7 NF_IP_LOCAL_OUT us far] routed_daemon.
Proof.
  apply (run_step _ [captured 7 NF_IP_LOCAL_OUT us far] waiting_daemon []);
    [apply (run_step _ [] fresh_daemon [captured 7 NF_IP_LOCAL_OUT us far]); [constructor|]|].
  - apply step_packets; [|vm_compute; reflexivity].
    apply Forall_singleton. eexists _, us, far, 6. by apply captured_ip.
  - apply (step_datagram _ (Some (from_neighbour rrep_for_us, 20))); [|vm_compute; reflexivity].
    intros r [= <-]. eexists _, 5. apply (from_neighbour_ok rrep_for_us); [|done].
    decide_bytes.
Qed.

(** The RREQ entry of the waiting packet, and its address. *)
Definition entry_at : addr := 3%positive.
Definition first_entry : rreq_fifo := RreqFifo 1 far 0.
Lemma waiting_entry : w_rreqs waiting_daemon !! entry_at = Some first_entry.
Proof. by vm_compute. Qed.

(** Both retries are spent: the next expiry is the last one. *)
Definition retry (w : world) : world := final (__rreq_fifo_alarm_cb (AL_rreq entry_at) entry_at) w.
Definition retried_daemon : world := retry waiting_daemon.
Definition exhausted_daemon : world := retry retried_daemon.
Lemma retried_entry : w_rreqs retried_daemon !! entry_at = Some (RreqFifo 2 far 1).
Proof. by vm_compute. Qed.
Lemma exhausted_entry : w_rreqs exhausted_daemon !! entry_at = Some (RreqFifo 3 far RREQ_RETRIES).
Proof. by vm_compute. Qed.
Lemma retry_ok w e :
  world_ok w → w_rreqs w !! entry_at = Some e → 0 ≤ rf_prev_tries e < RREQ_RETRIES → world_ok (retry w).
Proof. intros Hw He Ht. eapply final_ok, rreq_alarm_retry_spec; done. Qed.
Lemma retried_daemon_ok : world_ok retried_daemon.
Proof. by apply (retry_ok _ first_entry); [apply waiting_daemon_ok|apply waiting_entry|]. Qed.
Lemma exhausted_daemon_ok : world_ok exhausted_daemon.
Proof. by apply (retry_ok _ (RreqFifo 2 far 1)); [apply retried_daemon_ok|apply retried_entry|]. Qed.

(** A hundred seconds later. *)
Definition overdue_daemon : world := set_w_tick 100 exhausted_daemon.

(** The route to 10.0.0.9, and what is left of it after its first expiry. *)
Definition route_far : addr := 9%positive.
Definition far_route : msh_route := default zero_route (w_routes routed_daemon !! route_far).
Lemma routed_route : route_at routed_daemon route_far far_route.
Proof. split; [vm_compute; reflexivity|vm_compute; discriminate]. Qed.
Definition expire (w : world) : world :=
  final (__msh_route_alarm_cb (AL_route route_far) route_far) w.
Definition expired_daemon : world := expire routed_daemon.
Lemma expire_ok w r : world_ok w → route_at w route_far r → world_ok (expire w).
Proof. intros Hw Hr. by eapply final_ok, route_alarm_cb_spec. Qed.
Lemma expired_daemon_ok : world_ok expired_daemon.
Proof. apply (expire_ok _ far_route); [apply routed_daemon_ok|apply routed_route]. Qed.
Lemma expired_route_at : route_at expired_daemon route_far (expired_route far_route).
Proof. split; [vm_compute; reflexivity|vm_compute; discriminate]. Qed.

(** RREQs of 10.0.0.9 that the neighbour passes on. *)
Definition stranger : Z := ip 10 0 0 77.
Definition rreq_for (dest : Z) : aodv_rreq := AodvRreq AODV_RREQ 0 0 0 2 42 dest 0 far 9.
Definition rreq_bytes (dest : Z) : bytes := bytes_of_rreq (aodv_pkt_prepare_rreq (rreq_for dest)).

(** A new route to 10.0.0.9, not yet offered to the table. *)
Definition offered_route : msh_route := set_rt_dst_ip far zero_route.
Definition offer (w : world) : world :=
  set_w_routes (<[w_brk w := offered_route]> (w_routes (with_new_route w))) (with_new_route w).
Lemma offer_ok w : world_ok w → world_ok (offer w) ∧ route_at (offer w) (w_brk w) offered_route.
Proof.
  intros Hw. destruct (brk_free _ Hw) as (_ & _ & _ & Hne). split.
  - eapply upd_route_world_ok; [by apply with_new_route_ok|apply lookup_insert_eq|by apply dst_ip_step].
  - split; [apply lookup_insert_eq|done].
Qed.

(** The timer of the route to 10.0.0.9. *)
Definition far_block : alarm_block :=
  default (new_block route_far) (al_blocks (w_alarms routed_daemon) !! AL_route route_far).
