(* ===== verification/KernelProps.v ===== *)
(** * Properties of the routes in the kernel

    The kernel's routing table is what the daemon is for: it follows the daemon's table,
    next hops apart. *)

From S2P Require Export ShutdownSpec NetworkSpec Witness.

(** ** The kernel follows the table *)

(** Destination and interface of the routes in the kernel, and of those in the table. *)
Definition kernel_routes (t : list event) : list (option string * option Z) :=
  (λ nk, (nr_dst nk.2, nr_oif nk.2)) <$> map_to_list (installed t).
Definition table_routes (w : world) : list (option string * option Z) :=
  (λ a, ((λ r, in_addr2nl_addr (rt_dst_ip r) 0) <$> w_routes w !! a, Some (md_net_iface (w_data w)))) <$> w_table w.

Section kernel_props.
Context `{E : Env} {EO : EnvOk E}.
Implicit Types w : world.

(** The libnl object of a route of the table, with what the kernel has for it. *)
Definition entry_of (w : world) (a : addr) : option (addr * nl_route) :=
  n ← handle (w_routes w) a; k ← installed (w_trace w) !! n; Some (n, k).

Lemma entries_permutation w :
  NoDup (w_table w) → in_kernel w → map_to_list (installed (w_trace w)) ≡ₚ omap (entry_of w) (w_table w).
Proof.
  intros Hnd [H1 H2 H3]. apply NoDup_Permutation; [apply NoDup_map_to_list| |].
  - revert H3. clear H1 H2. induction Hnd as [|a l Ha Hnd IH]; intros H3; simpl; [constructor|].
    assert (NoDup (omap (entry_of w) l)) as Hl by (apply IH; intros b c n Hb Hc; apply H3; by right).
    destruct (entry_of w a) as [[n k]|] eqn:Hn; [|done]. apply NoDup_cons. split; [|done].
    intros (b & Hb & Hbn)%list_elem_of_omap.
    apply bind_Some in Hn as (n1 & Hn & (? & _ & [= -> ->])%bind_Some).
    apply bind_Some in Hbn as (n2 & Hbn & (? & _ & [= -> ->])%bind_Some).
    apply Ha. rewrite (H3 a b n); [done|left|by right|done|done].
  - intros [n k]. rewrite elem_of_map_to_list, list_elem_of_omap. split.
    + intros Hk. destruct (H2 n) as (a & Ha & Hh); [by eexists|]. exists a. split; [done|].
      unfold entry_of. rewrite Hh. simpl. by rewrite Hk.
    + intros (a & _ & (n' & _ & (k' & Hk & [= -> ->])%bind_Some)%bind_Some). done.
Qed.

Lemma in_kernel_routes w :
  NoDup (w_table w) → in_kernel w → kernel_routes (w_trace w) ≡ₚ table_routes w.
Proof.
  intros Hnd Hk. unfold kernel_routes, table_routes. rewrite (entries_permutation w) by done.
  destruct Hk as [H1 _ _]. clear Hnd. revert H1. induction (w_table w) as [|a l IH]; intros H1; [done|].
  destruct (H1 a) as (n & k & [E1 E2 E3 E4]); [left|]. simpl.
  assert (entry_of w a = Some (n, k)) as -> by (unfold entry_of; rewrite E1; simpl; by rewrite E2).
  simpl. rewrite E3, E4. apply perm_skip, IH. intros b Hb. apply H1. by right.
Qed.

(** C2. Whatever the daemon receives after [msh_data_init], the routes it has asked the
    kernel for, and not asked back, are those of its table: one for each, with the route's
    destination and the daemon's interface. *)
Theorem kernel_follows_the_table net_iface local broadcast pkts w :
  daemon_run (initial_world net_iface local broadcast) pkts w →
  kernel_routes (w_trace w) ≡ₚ table_routes w ∧ md_net_iface (w_data w) = net_iface.
Proof.
  intros Hrun. destruct (daemon_run_spec _ _ _ (initial_world_ok net_iface local broadcast) Hrun) as (Hw & Hs & _).
  split; [|apply Hs]. apply in_kernel_routes; [apply Hw|].
  apply (sk_kernel _ _ Hs), initial_in_kernel.
Qed.

(** C8. A route of the table gets another next hop: lookups use it from then on, the
    kernel goes on with the route it has. *)
Theorem new_next_hop_misses_the_kernel w a hop :
  world_ok w → a ∈ w_table w → is_u32 hop →
  wp (msh_route_set_next_hop a hop) (λ _ w', world_ok w' ∧
    rt_next_hop <$> w_routes w' !! a = Some hop ∧ installed (w_trace w') = installed (w_trace w)) w.
Proof.
  intros Hw Ha Hhop. destruct (table_live w a Hw Ha) as (r & Hr & _).
  eapply wp_mono; [by apply msh_route_set_next_hop_spec|]. intros [] w' (Hw' & _ & [Hro _ _ _ Hin]).
  split_and!; [done| |done]. rewrite Hro. simpl. by rewrite lookup_insert_eq.
Qed.

(** C6. The end of the daemon, after whatever it received, when no route of its table has a
    running timer or no entry of the RREQ queue has one: [msh_data_shutdown] returns, drops
    the packets that still wait, so that every packet the kernel handed over has got exactly
    one verdict (but for those forgotten on arrival), and frees the RREQ entries and the
    routes of the table; but it deletes no route from the kernel, which keeps all of them.
    (Without the hypothesis [rreq_fifo_delete] erases timers from a tree that still holds
    those of the freed routes, and may read them: [freed_alarm_is_read].) *)
Theorem shutdown_settles_the_packets net_iface local broadcast pkts w :
  daemon_run (initial_world net_iface local broadcast) pkts w → timers_apart w →
  wp msh_data_shutdown (λ _ w', w_packets w' = [] ∧ w_rreqs w' = ∅ ∧
    (∀ a, a ∈ w_table w → w_routes w' !! a = None) ∧
    (∃ lost, lost ⊆+ arrived pkts ∧ verdict_ids (w_trace w') ++ packet_ids lost ≡ₚ packet_ids pkts) ∧
    kernel_routes (w_trace w') ≡ₚ table_routes w) w.
Proof.
  intros Hrun Hap. destruct (daemon_run_spec _ _ _ (initial_world_ok net_iface local broadcast) Hrun)
    as (Hw & Hs & lost & Hacc & Hlost).
  eapply wp_mono; [by apply msh_data_shutdown_spec|]. intros [] w' [Hp Ht [Hr _] Hro _].
  split; [done|]. split; [done|]. split; [done|]. split.
  - exists lost. split; [done|]. simpl in Hacc. rewrite app_nil_r in Hacc.
    by rewrite Ht, verdict_ids_app, verdict_ids_verdicts.
  - unfold kernel_routes. rewrite Ht, installed_silent by apply verdicts_silent.
    apply in_kernel_routes; [apply Hw|]. apply (sk_kernel _ _ Hs), initial_in_kernel.
Qed.
End kernel_props.

(** ** At concrete states *)

Lemma kernel_follows_the_table_witness :
  kernel_routes (w_trace routed_daemon) ≡ₚ table_routes routed_daemon ∧ md_net_iface (w_data routed_daemon) = 3.
Proof. exact (kernel_follows_the_table 3 (htonl us) (htonl everyone) _ routed_daemon routed_run). Defined.

(** Two routes are in the kernel there. *)
Lemma routed_kernel : length (kernel_routes (w_trace routed_daemon)) = 2%nat.
Proof. vm_compute. reflexivity. Qed.

Lemma new_next_hop_misses_the_kernel_witness :
  wp (msh_route_set_next_hop route_far stranger) (λ _ w', world_ok w' ∧
    rt_next_hop <$> w_routes w' !! route_far = Some stranger ∧
    installed (w_trace w') = installed (w_trace routed_daemon)) routed_daemon.
Proof.
  apply new_next_hop_misses_the_kernel; [apply routed_daemon_ok| |by vm_compute].
  apply (bool_decide_unpack _). vm_compute. exact I.
Defined.

Lemma routed_timers_apart : timers_apart routed_daemon.
Proof.
  assert (w_rreq_queue routed_daemon = []) as Hq by (vm_compute; reflexivity).
  right. intros a Ha. rewrite Hq in Ha. destruct (proj1 (elem_of_nil _) Ha).
Qed.

Lemma shutdown_settles_the_packets_witness :
  let pkts := [captured 7 NF_IP_LOCAL_OUT us far] in
  wp msh_data_shutdown (λ _ w', w_packets w' = [] ∧ w_rreqs w' = ∅ ∧
    (∀ a, a ∈ w_table routed_daemon → w_routes w' !! a = None) ∧
    (∃ lost, lost ⊆+ arrived pkts ∧ verdict_ids (w_trace w') ++ packet_ids lost ≡ₚ packet_ids pkts) ∧
    kernel_routes (w_trace w') ≡ₚ table_routes routed_daemon) routed_daemon.
Proof.
  exact (shutdown_settles_the_packets 3 (htonl us) (htonl everyone) _ routed_daemon routed_run routed_timers_apart).
Defined.
