(* ===== verification/NetworkProps.v ===== *)
(** * Properties of a network of daemons

    What the hosts' daemons do together: no host can make another one fault, and route
    discovery works from end to end. *)

From S2P Require Export NetworkSpec Witness.

Section network_props.
Context (envs : nat → Env) {envs_ok : ∀ i, EnvOk (envs i)} (near : nat → nat → Prop).
Implicit Types w : world.

(** C5. In a network where every host started with [msh_data_init] and only the daemons
    speak, whatever the hosts do and whatever is delivered to whom, lost, repeated or
    late: every host stays well formed, everything a host ever sent is a whole RREQ or RREP
    that the check of its receiver accepts, and every delivery is handled without a
    fault. *)
Theorem hosts_speak_the_protocol configs ws :
  net_run envs near event_delivered (started configs) ws →
  (∀ i w, ws !! i = Some w → world_ok w ∧
     ∀ n a port ttl payload, EvSend n a port ttl payload ∈ w_trace w →
     ∃ bs, payload = Some bs ∧ (is_Some (valid_rreq bs) ∨ is_Some (valid_rrep bs))) ∧
  (∀ i j wi wj ev rcv, ws !! i = Some wi → ws !! j = Some wj → ev ∈ w_trace wi →
     delivery (w_data wi) (w_data wj) ev = Some rcv →
     ∃ w', host_receive (envs j) rcv wj = Ok tt w' ∧ world_ok w' ∧ ledger w' ≡ₚ ledger wj).
Proof.
  intros Hrun. pose proof (net_run_ok envs near _ _ Hrun (started_ok envs configs)) as Hok. split.
  - intros i w Hi. destruct (net_ok_lookup _ _ _ Hok Hi) as [Hw Hm]. split; [done|].
    intros n a port ttl payload Hev. unfold messages_ok in Hm. rewrite Forall_forall in Hm.
    destruct (Hm _ Hev) as (_ & _ & Hp). destruct payload as [bs|]; [|done]. exists bs.
    split; [done|]. by apply aodv_message_accepted.
  - intros i j wi wj ev rcv Hi Hj Hev Hd.
    assert (message_ok ev) as Hmsg.
    { eapply Forall_forall; [|exact Hev]. apply (net_ok_lookup _ _ _ Hok Hi). }
    pose proof (delivery_received envs j _ wj ev rcv (net_ok_lookup _ _ _ Hok Hj) Hmsg Hd) as Hspec.
    apply wp_run in Hspec as ([] & w' & Heq & Hw' & Hb & _). exists w'. split; [done|]. by split; [|apply Hb].
Qed.

(** C4. Route discovery over a line of hosts.  Hypotheses: a host has broadcast a RREQ,
    with more time to live than there are hosts between it and the destination; neither it
    nor a host of the line has a route to the destination in its table, not even an expired
    one; the hosts of the line and the destination do not remember that RREQ; the kernels of
    the asking host and of the hosts of the line take every route; no [sendto] fails at the
    hosts that relay and answer; the addresses differ and the broadcast address is the same.
    Then there are deliveries, along the line and back, after which the destination
    remembers the RREQ and the asking host has a valid route: through the first host of the
    line, as many hops as the line has; the kernels of the asking host and of every host of
    the line lead to the destination over the next one, and every packet that waited for
    the destination at the asking host has been accepted. *)
Theorem discovery_crosses_a_line ws o p d w r port ttl B :
  net_ok ws → ws !! o = Some w → kernel_accepts (E:=envs o) →
  table_lookup w (rq_dest_ip_addr r) = None →
  rreq_ok r → rq_type r = AODV_RREQ → rq_orig_ip_addr r = md_ip_addr (w_data w) →
  on_air w (rreq_event B port ttl r) → Z.of_nat (length p) < ttl < 256 → (length p < 64)%nat →
  clear_path envs near ws B (rq_rreq_id r) (rq_dest_ip_addr r) o p d →
  NoDup (addr_in ws <$> o :: p ++ [d]) →
  ∃ ws' w', net_run envs near event_delivered ws ws' ∧ ws' !! o = Some w' ∧ world_ok w' ∧
    (∃ rt, route_to w' (rq_dest_ip_addr r) = Some rt ∧ rt_next_hop rt = addr_in ws (first_of p d) ∧
       rt_hop_count rt = Z.of_nat (length p) + 1 ∧ has_flag (rt_flags rt) RTFLAG_VALID_ENTRY = true) ∧
    kernels_lead ws' (rq_dest_ip_addr r) (o :: p) d ∧
    (∃ wd, ws' !! d = Some wd ∧ remembers wd (rq_rreq_id r) (rq_dest_ip_addr r) = true) ∧
    released (rq_dest_ip_addr r) w w' ∧ (∀ e, e ∈ w_packets w' → pf_dest e ≠ rq_dest_ip_addr r).
Proof. intros. by eapply discovery_over_line. Qed.

(** C3. A packet captured at a host, for a destination with at most two hosts in between.
    Hypotheses: the packet is one to hold, and at the host no discovery of the destination
    is under way; neither it nor a host of the line has a route to the destination in its
    table, not even an expired one; the hosts of the line and the destination do not
    remember the RREQ the host will send; the kernels of the host and of the hosts of the
    line take every route; no [sendto] fails at any of them.  Then: the host holds the
    packet, without a verdict, and broadcasts one RREQ, its first; from there deliveries lead
    to a state in which the destination remembers the RREQ, the packet is accepted, the host
    has a valid route over the first host of the line and the kernels along the line lead
    to the destination, each over the next host. *)
Theorem captured_packet_is_released ws o p d w nfa hdr src dst proto B :
  net_ok ws → ws !! o = Some w → kernel_accepts (E:=envs o) → sends_ok (E:=envs o) →
  md_broadcast_addr (w_data w) = B →
  ip_packet nfa hdr src dst proto → fate_of nfa dst proto w = Held →
  table_lookup w dst = None → discovering w dst = false → (length p ≤ 2)%nat →
  clear_path envs near ws B (u32 (md_rreq_id (w_data w) + 1)) dst o p d →
  NoDup (addr_in ws <$> o :: p ++ [d]) →
  ∃ w1 a k ws' w', host_run (E:=envs o) (Captured (Some [nfa])) w = Ok tt w1 ∧
    w_packets w1 = PacketsFifo a (nfqueue_packet_get_id nfa) dst :: w_packets w ∧
    w_trace w1 = w_trace w ++
      [rreq_event B (htons AODV_UDP_PORT) 3 (opening_rreq (w_data w) dst) (env_sendto (Env:=envs o) k)] ∧
    net_run envs near event_delivered (<[o := w1]> ws) ws' ∧ ws' !! o = Some w' ∧
    (∃ wd, ws' !! d = Some wd ∧ remembers wd (u32 (md_rreq_id (w_data w) + 1)) dst = true) ∧
    EvVerdict (nfqueue_packet_get_id nfa) NF_ACCEPT ∈ w_trace w' ∧
    kernels_lead ws' dst (o :: p) d ∧
    ∃ rt, route_to w' dst = Some rt ∧ rt_next_hop rt = addr_in ws (first_of p d) ∧
      rt_hop_count rt = Z.of_nat (length p) + 1 ∧ has_flag (rt_flags rt) RTFLAG_VALID_ENTRY = true.
Proof.
  intros Hok Ho Hk Hso HB Hip Hfate Hl Hdisc Hlen Hp Hnd.
  destruct (captured_is_held envs ws o w nfa hdr src dst proto) as (w1 & Hrun1 & Hw1 & Hsp & Hheld); [done..|].
  set (ws1 := <[o := w1]> ws) in *. destruct Hheld as [(a & Hpk) [k Htr] _ Hl1]. rewrite Hdisc in Htr.
  change (discovery_event _ _ _ _ _) with (rreq_event (md_broadcast_addr (w_data w)) (htons AODV_UDP_PORT) 3
    (opening_rreq (w_data w) dst) (env_sendto (Env:=envs o) k)) in Htr. rewrite HB in Htr.
  pose proof (host_addr_u32 _ (net_ok_lookup _ _ _ Hok Ho)) as Hme.
  assert (is_u32 dst) as Hdst by (eapply rd32_u32, Hip).
  assert (o ∉ p ++ [d]) as Hop.
  { intros Hin. simpl in Hnd. apply NoDup_cons in Hnd as [Hni _]. apply Hni, list_elem_of_fmap. by exists o. }
  destruct (discovery_over_line envs near ws1 o p d w1 (opening_rreq (w_data w) dst) (htons AODV_UDP_PORT) 3 B)
    as (ws' & w' & Hrun & Ho' & _ & (rt & Hrt & Hhop & Hcount & Hv) & Hlead & Hdest & Hrel & _).
  - by apply Forall_insert.
  - apply list_lookup_insert_eq. by eapply lookup_lt_Some.
  - done.
  - simpl. by rewrite Hl1.
  - by apply opening_rreq_ok.
  - done.
  - symmetry. apply Hsp.
  - exists (env_sendto (Env:=envs o) k). split; [done|]. rewrite Htr. apply elem_of_app. right.
    by apply list_elem_of_singleton.
  - lia.
  - lia.
  - eapply clear_path_frame; [done| |exact Hp]. intros j Hin. apply list_lookup_insert_ne. by intros ->.
  - unfold ws1. by erewrite addr_path_insert.
  - exists w1, a, k, ws', w'. split; [done|]. split; [done|]. split; [done|]. split; [done|].
    split; [done|]. split; [done|]. split.
    + apply (Hrel (PacketsFifo a (nfqueue_packet_get_id nfa) dst)); [rewrite Hpk; left|done].
    + split; [exact Hlead|]. exists rt. split; [done|]. split; [|done]. rewrite Hhop. by eapply addr_in_insert.
Qed.
End network_props.

(** ** At a concrete network *)

(** 10.0.0.1, 10.0.0.2 and 10.0.0.9 in a row: the middle one hears both others. *)
Definition in_a_row (i j : nat) : Prop := S i = j ∨ S j = i.
Definition three_hosts : list world := started
  [(3, htonl us, htonl everyone); (3, htonl neighbour, htonl everyone); (3, htonl far, htonl everyone)].
Definition test_envs (i : nat) : Env := test_env.
#[export] Instance test_envs_ok i : EnvOk (test_envs i) := test_env_ok.

Lemma capture_delivered id hook src dst :
  is_u32 src → is_u32 dst → event_delivered (Captured (Some [captured id hook src dst])).
Proof. intros. apply Forall_singleton. eexists _, src, dst, 6. by apply captured_ip. Qed.

(** After the first captured packet: the RREQ is on the air. *)
Definition three_hosts_asking : list world := <[0%nat := waiting_daemon]> three_hosts.

Lemma three_hosts_run : net_run test_envs in_a_row event_delivered three_hosts three_hosts_asking.
Proof.
  apply rtc_once, (net_host _ _ _ _ 0 fresh_daemon (Captured (Some [captured 7 NF_IP_LOCAL_OUT us far]))).
  - done.
  - by apply capture_delivered.
  - vm_compute. reflexivity.
Qed.

Lemma three_hosts_path B id :
  B = everyone → clear_path test_envs in_a_row three_hosts_asking B id far 0 [1%nat] 2.
Proof.
  intros ->. split_and!; [by left|by right|done|done| |split_and!; [by left|by right|done|]].
  - exists (initial_world 3 (htonl neighbour) (htonl everyone)). split; [done|]. split; [vm_compute; reflexivity|].
    split; vm_compute; reflexivity.
  - exists (initial_world 3 (htonl far) (htonl everyone)). split; [done|]. split; [vm_compute; reflexivity|].
    split; vm_compute; reflexivity.
Qed.

Lemma three_hosts_distinct : NoDup (addr_in three_hosts <$> [0; 1; 2]%nat).
Proof. apply (bool_decide_unpack _). vm_compute. exact I. Qed.

Lemma hosts_speak_the_protocol_witness :
  (∀ i w, three_hosts_asking !! i = Some w → world_ok w ∧
     ∀ n a port ttl payload, EvSend n a port ttl payload ∈ w_trace w →
     ∃ bs, payload = Some bs ∧ (is_Some (valid_rreq bs) ∨ is_Some (valid_rrep bs))) ∧
  (∀ i j wi wj ev rcv, three_hosts_asking !! i = Some wi → three_hosts_asking !! j = Some wj → ev ∈ w_trace wi →
     delivery (w_data wi) (w_data wj) ev = Some rcv →
     ∃ w', host_receive (test_envs j) rcv wj = Ok tt w' ∧ world_ok w' ∧ ledger w' ≡ₚ ledger wj).
Proof. eapply (hosts_speak_the_protocol test_envs in_a_row). exact three_hosts_run. Defined.

Lemma test_kernel_accepts i : kernel_accepts (E:=test_envs i).
Proof. intros n. vm_compute. reflexivity. Qed.
Lemma test_sends_ok i : sends_ok (E:=test_envs i).
Proof. intros n. vm_compute. discriminate. Qed.
Lemma three_hosts_asking_ok : net_ok three_hosts_asking.
Proof. exact (net_run_ok test_envs in_a_row _ _ three_hosts_run (started_ok test_envs _)). Qed.

Lemma discovery_crosses_a_line_witness :
  let r := opening_rreq (w_data fresh_daemon) far in
  ∃ ws' w', net_run test_envs in_a_row event_delivered three_hosts_asking ws' ∧ ws' !! 0%nat = Some w' ∧ world_ok w' ∧
    (∃ rt, route_to w' (rq_dest_ip_addr r) = Some rt ∧ rt_next_hop rt = addr_in three_hosts_asking (first_of [1%nat] 2) ∧
       rt_hop_count rt = Z.of_nat (length [1%nat]) + 1 ∧ has_flag (rt_flags rt) RTFLAG_VALID_ENTRY = true) ∧
    kernels_lead ws' (rq_dest_ip_addr r) [0; 1]%nat 2 ∧
    (∃ wd, ws' !! 2%nat = Some wd ∧ remembers wd (rq_rreq_id r) (rq_dest_ip_addr r) = true) ∧
    released (rq_dest_ip_addr r) waiting_daemon w' ∧ (∀ e, e ∈ w_packets w' → pf_dest e ≠ rq_dest_ip_addr r).
Proof.
  intros r. apply (discovery_crosses_a_line test_envs in_a_row three_hosts_asking 0 [1%nat] 2 waiting_daemon r
    (htons AODV_UDP_PORT) 3 everyone); [apply three_hosts_asking_ok|reflexivity|apply test_kernel_accepts|
    vm_compute; reflexivity|apply opening_rreq_ok; by vm_compute|reflexivity|vm_compute; reflexivity| |
    simpl; lia|simpl; lia|by apply three_hosts_path|apply (bool_decide_unpack _); vm_compute; exact I].
  exists 24. split; [done|].
  replace (w_trace waiting_daemon) with [discovery_event 24 fresh_daemon far None 0] by (vm_compute; reflexivity).
  left.
Defined.

Lemma captured_packet_is_released_witness :
  ∃ w1 a k ws' w', host_run (Captured (Some [captured 7 NF_IP_LOCAL_OUT us far])) fresh_daemon = Ok tt w1 ∧
    w_packets w1 = PacketsFifo a (nfqueue_packet_get_id (captured 7 NF_IP_LOCAL_OUT us far)) far ::
      w_packets fresh_daemon ∧
    w_trace w1 = w_trace fresh_daemon ++
      [rreq_event everyone (htons AODV_UDP_PORT) 3 (opening_rreq (w_data fresh_daemon) far) (env_sendto k)] ∧
    net_run test_envs in_a_row event_delivered (<[0%nat := w1]> three_hosts) ws' ∧ ws' !! 0%nat = Some w' ∧
    (∃ wd, ws' !! 2%nat = Some wd ∧ remembers wd (u32 (md_rreq_id (w_data fresh_daemon) + 1)) far = true) ∧
    EvVerdict (nfqueue_packet_get_id (captured 7 NF_IP_LOCAL_OUT us far)) NF_ACCEPT ∈ w_trace w' ∧
    kernels_lead ws' far [0; 1]%nat 2 ∧
    ∃ rt, route_to w' far = Some rt ∧ rt_next_hop rt = addr_in three_hosts (first_of [1%nat] 2) ∧
      rt_hop_count rt = Z.of_nat (length [1%nat]) + 1 ∧ has_flag (rt_flags rt) RTFLAG_VALID_ENTRY = true.
Proof.
  apply (captured_packet_is_released test_envs in_a_row three_hosts 0 [1%nat] 2 fresh_daemon
    (captured 7 NF_IP_LOCAL_OUT us far) (ip_header us far 6) us far 6 everyone);
    [apply (started_ok test_envs)|reflexivity|apply test_kernel_accepts|apply test_sends_ok|vm_compute; reflexivity|by apply captured_ip|
     reflexivity|vm_compute; reflexivity|vm_compute; reflexivity|simpl; lia| |apply three_hosts_distinct].
  eapply (clear_path_frame test_envs in_a_row three_hosts_asking); [|by apply three_hosts_path].
  intros k Hk. unfold three_hosts_asking. rewrite list_lookup_insert_ne; [done|]. intros <-. set_solver.
Defined.

(** ** A routing loop

    10.0.0.1 looks for two destinations, 10.0.0.2 and 10.0.0.77 hear it and each other.
    Each of them gets first the one RREQ from 10.0.0.1 and the other one relayed, and what
    10.0.0.1 sent itself afterwards. *)

Definition elsewhere : Z := ip 10 0 0 10.
Definition three_neighbours : list world := started
  [(3, htonl us, htonl everyone); (3, htonl neighbour, htonl everyone); (3, htonl stranger, htonl everyone)].
Definition everyone_near (i j : nat) : bool := negb (bool_decide (i = j)).

Definition crossing_requests : list net_action :=
  [Act 0 (Captured (Some [captured 7 NF_IP_LOCAL_OUT us far]));
   Act 0 (Captured (Some [captured 8 NF_IP_LOCAL_OUT us elsewhere]));
   Deliver 0 2 0; Deliver 0 1 1; Deliver 1 2 5; Deliver 2 1 5;
   Deliver 0 1 0; Deliver 0 2 1; Deliver 1 0 5; Deliver 2 0 5;
   Deliver 1 0 11; Deliver 2 0 11; Deliver 1 2 11; Deliver 2 1 11].

(** What is left at the host [i], and its route to 10.0.0.1. *)
Definition crossed : list world := default [] (net_do_all test_envs crossing_requests three_neighbours).
Definition crossed_host (i : nat) : world := nth i crossed fresh_daemon.
Definition route_back (i : nat) : msh_route := default zero_route (route_to (crossed_host i) us).

(** C7. The daemons can build a routing loop: three hosts in range of each other, which have
    just started, and two packets captured at 10.0.0.1.  There is a run in which every
    datagram sent was delivered exactly once to every other host (no loss, no repetition;
    deliveries take different times), no delivery is left to do, and the valid route of
    10.0.0.2 to 10.0.0.1 goes through 10.0.0.77, that of 10.0.0.77 through 10.0.0.2. *)
Theorem routing_loop_is_reachable :
  ∃ l ws' w1 w2 r1 r2,
    Forall (permitted everyone_near event_delivered) l ∧
    net_do_all test_envs l three_neighbours = Some ws' ∧ lossless everyone_near l ws' ∧
    net_run test_envs everyone_near event_delivered three_neighbours ws' ∧
    ws' !! 1%nat = Some w1 ∧ route_to w1 us = Some r1 ∧
    ws' !! 2%nat = Some w2 ∧ route_to w2 us = Some r2 ∧
    rt_next_hop r1 = stranger ∧ has_flag (rt_flags r1) RTFLAG_VALID_ENTRY = true ∧
    rt_next_hop r2 = neighbour ∧ has_flag (rt_flags r2) RTFLAG_VALID_ENTRY = true.
Proof.
  assert (Forall (permitted everyone_near event_delivered) crossing_requests) as Hl
    by (repeat (apply Forall_cons_2; [first [by apply capture_delivered|by vm_compute]|]); apply Forall_nil_2).
  assert (net_do_all test_envs crossing_requests three_neighbours = Some crossed) as Hdo
    by (vm_compute; reflexivity).
  exists crossing_requests, crossed, (crossed_host 1), (crossed_host 2), (route_back 1), (route_back 2).
  split; [exact Hl|]. split; [exact Hdo|]. split; [apply losslessb_sound; vm_compute; reflexivity|].
  split; [by apply (net_run_do _ _ _ crossing_requests)|split_and!; vm_compute; reflexivity].
Qed.
