(* ===== verification/DaemonProps.v ===== *)
(** * Properties of the daemon: events, packets and timers

    The main theorems about what the daemon does with each event. *)

From S2P Require Export Witness.

Section daemon_props.
Context {E : Env} {EO : EnvOk E}.
Implicit Types w : world.

(** C1. From the state [msh_data_init] builds, along every run of the main loop the
    state stays well formed (pointers live, lists and timers consistent, one route per
    destination), and the packets the kernel handed over are accounted for: each one
    has got exactly one verdict, or still waits in the queue, or is one of the [lost]
    ones that the daemon forgot, and those were packets for a process of the node itself. *)
Theorem daemon_runs_safely net_iface local broadcast pkts w :
  daemon_run (initial_world net_iface local broadcast) pkts w →
  world_ok w ∧ ∃ lost, lost ⊆+ arrived pkts ∧
    verdict_ids (w_trace w) ++ (pf_id <$> w_packets w) ++ packet_ids lost ≡ₚ packet_ids pkts.
Proof.
  intros Hrun. destruct (daemon_run_spec _ _ _ (initial_world_ok net_iface local broadcast) Hrun)
    as (Hw & _ & lost & Hacc & Hlost). split; [done|]. exists lost. split; [done|].
  unfold ledger in Hacc. simpl in Hacc. by rewrite app_nil_r, <-(assoc_L (++)) in Hacc.
Qed.

(** C9. Whatever well-formed datagram arrives, [aodv_process_packet] returns without
    undefined behaviour, keeps the state well formed, gives no verdict and forgets no
    waiting packet; messages of the node itself and messages the check rejects send
    nothing, RREQs and RREPs are handled as [rreq_processed] and [rrep_processed] say. *)
Theorem process_packet_safe msg n buf ttl w :
  world_ok w → datagram_ok msg n buf ttl →
  wp (aodv_process_packet msg n) (λ _ w', world_ok w' ∧ ledger w' ≡ₚ ledger w ∧
    datagram_processed (pkt_of msg n buf ttl) (take (Z.to_nat n) buf) w w') w.
Proof.
  intros Hw Hm. eapply wp_mono; [by eapply aodv_process_packet_spec|].
  intros [] w' (? & [? _ _ _ _] & ?). done.
Qed.

(** C10. [manage_packet] on a captured IP packet: AODV traffic, forwarded packets and
    broadcasts are accepted at once, and so is a packet to a reachable destination; a
    local packet without a route is held, and a RREQ for its destination is sent
    unless a discovery is already under way (one is under way afterwards); an incoming
    packet for an unknown address gets no verdict at all. *)
Theorem manage_packet_fate nfa hdr src dst proto w :
  world_ok w → ip_packet nfa hdr src dst proto →
  wp (manage_packet nfa) (λ _ w', world_ok w' ∧
    match fate_of nfa dst proto w with
    | Accepted => judged (nfqueue_packet_get_id nfa) NF_ACCEPT w w'
    | Held => held (nfqueue_packet_get_id nfa) dst w w'
    | Forgotten => inward w w'
    end) w.
Proof.
  intros Hw Hp. eapply wp_mono; [by eapply manage_packet_spec|]. by intros ? w' (? & _ & ?).
Qed.

(** C11. Running the expired alarms never commits undefined behaviour, as long as none
    of them is the last retry of a discovery; the state stays well formed and no
    waiting packet gets lost. *)
Theorem run_alarms_safe next w :
  world_ok w → (∀ id, due w id → last_try w id = false) →
  wp (run_alarms next) (λ _ w', world_ok w' ∧ ledger w' ≡ₚ ledger w) w.
Proof.
  intros Hw Hd. eapply wp_mono; [by apply run_alarms_spec|]. by intros ? w' (? & [? _ _ _ _] & _).
Qed.

(** C12. A discovery that runs out of retries: when its alarm is due, running the
    alarms frees the queue entry and then reads its destination, wherever the alarm
    stands among the due ones. *)
Theorem last_retry_use_after_free next id w :
  world_ok w → timerisset next = false → due w id → last_try w id = true →
  fails (run_alarms next) UseAfterFree w.
Proof. apply run_alarms_fault. Qed.

(** C13. A retry sends one RREQ for the same destination with the next id and the time to
    live of that try, and counts it in the entry.  The timer of the entry runs again, for
    [NET_TRAVERSAL_TIME] doubled once per try, from a reading of the clock in the callback;
    no other timer stops; and none changes at all, but those of routes when the table has a
    valid route to the destination ([routing_table_update_route] keeps them alive). *)
Theorem retry_sends_next_rreq a e w :
  world_ok w → w_rreqs w !! a = Some e → 0 ≤ rf_prev_tries e < RREQ_RETRIES →
  wp (__rreq_fifo_alarm_cb (AL_rreq a) a) (λ _ w', world_ok w' ∧
    w_rreqs w' = <[a := RreqFifo (u32 (md_rreq_id (w_data w) + 1)) (rf_dst e) (rf_prev_tries e + 1)]>
                   (w_rreqs w) ∧
    (∃ k, w_trace w' = w_trace w ++ [discovery_event (env_sendto k) w (rf_dst e) None (rf_prev_tries e + 1)]) ∧
    w_data w' = bumped (w_data w) ∧ w_packets w' = w_packets w ∧
    AL_rreq a ∈ al_root (w_alarms w') ∧
    (∃ n, (w_tick w ≤ n)%nat ∧ usecs (key (w_alarms w') (AL_rreq a)) =
       usecs (env_now n) + 2 ^ (rf_prev_tries e + 1) * NET_TRAVERSAL_TIME * 1000) ∧
    (∀ id, id ∈ al_root (w_alarms w) → id ∈ al_root (w_alarms w')) ∧
    (∀ id, id ≠ AL_rreq a → (∀ b, id ≠ AL_route b) ∨ valid_route w (rf_dst e) = false →
       timer_kept id w w')) w.
Proof.
  intros Hw He Ht. eapply wp_mono; [by apply (rreq_alarm_retry_spec w a e)|].
  intros [] w' (? & [_ Harm _] & []). split_and!; [done..| |done].
  intros id Hid. destruct (decide (id = AL_rreq a)) as [->|Hne]; [done|by apply Harm].
Qed.

(** C14. [aodv_find_route] broadcasts exactly one RREQ (fresh id and sequence number,
    ring-search time to live), advances the three counters, and remembers the RREQ in
    the queue at the first try only. *)
Theorem find_route_sends_one_rreq dest tries w :
  world_ok w → is_u32 dest → 0 ≤ tries ≤ RREQ_RETRIES →
  wp (aodv_find_route dest None tries) (λ _ w', world_ok w' ∧
    (∃ k, w_trace w' = w_trace w ++ [EvSend (env_sendto k) (htonl (md_broadcast_addr (w_data w))) (htons AODV_UDP_PORT)
      (u8 (expanding_ring_search_ttl 0 tries))
      (Some (bytes_of_rreq (aodv_pkt_prepare_rreq
        (AodvRreq AODV_RREQ 0 (Z.lor RREQ_GRATUITOUS_RREP_FLAG RREQ_UNKNOWN_SEQ_NUM_FLAG) 0 0
           (u32 (md_rreq_id (w_data w) + 1)) dest 0 (md_ip_addr (w_data w))
           (u32 (md_seq_num (w_data w) + 1))))))]) ∧
    w_data w' = bumped (w_data w) ∧ discovering w' dest = (tries =? 0) || discovering w dest) w.
Proof.
  intros Hw Hd Ht. eapply wp_mono; [by apply (aodv_find_route_spec w dest None tries)|].
  intros [] w' (Hw' & _ & [_ H2 H3 _ _ _ H7]). split_and!; [done|exact H3|done|].
  destruct (Z.eqb_spec tries 0) as [->|]; destruct H7 as [H7 H8]; simpl.
  - eapply discovering_true; [rewrite H8; left|by rewrite H7, lookup_insert_eq|done|done].
  - by apply discovering_hushed; [|apply H8].
Qed.

(** C15. A route expires in two steps.  The first expiry takes its valid flag, leaves
    everything else about it and makes its destruction due [DELETE_PERIOD] from then.  The
    second destroys it: it leaves the table and the memory, no AODV message is sent and no
    other timer stops. *)
Theorem route_expires_in_two_steps a r w :
  world_ok w → route_at w a r →
  (rt_alarm_action r = RTACTION_UNSET_VALID_ENTRY →
   wp (__msh_route_alarm_cb (AL_route a) a) (λ _ w', world_ok w' ∧
     w_routes w' = <[a := set_rt_alarm_action RTACTION_DESTROY (unset_flag RTFLAG_VALID_ENTRY r)]> (w_routes w) ∧
     w_table w' = w_table w ∧ w_trace w' = w_trace w ∧
     AL_route a ∈ al_root (w_alarms w') ∧
     usecs (key (w_alarms w') (AL_route a)) = usecs (env_now (w_tick w)) + DELETE_PERIOD * 1000) w) ∧
  (rt_alarm_action r = RTACTION_DESTROY →
   wp (__msh_route_alarm_cb (AL_route a) a) (λ _ w', world_ok w' ∧
     w_routes w' = delete a (w_routes w) ∧ a ∉ w_table w' ∧ sent (w_trace w') = sent (w_trace w) ∧
     (∀ id, id ≠ AL_route a → id ∈ al_root (w_alarms w) → id ∈ al_root (w_alarms w'))) w).
Proof.
  intros Hw Hat. split; intros Hact; (eapply wp_mono; [by apply route_alarm_cb_spec|]); rewrite Hact; intros [] w'.
  - intros (Hw' & _ & [[_ Ht _ Htr] Hr (b & t & _ & Htime & [Hbl (l1 & l2 & _ & Hroot & _)])]).
    split_and!; [done..| |].
    + rewrite Hroot. set_solver.
    + unfold key. rewrite Hbl, lookup_insert_eq. done.
  - intros (Hw' & [_ Harm _] & [Hr Ht _ Hs]). split_and!; [done|done| |done|done].
    rewrite Ht, elem_of_unlink. by intros [].
Qed.
End daemon_props.

(** ** At concrete states *)

Lemma daemon_runs_safely_witness :
  let pkts := [captured 7 NF_IP_LOCAL_OUT us far] in
  daemon_run fresh_daemon pkts routed_daemon ∧ world_ok routed_daemon ∧ ∃ lost, lost ⊆+ arrived pkts ∧
    verdict_ids (w_trace routed_daemon) ++ (pf_id <$> w_packets routed_daemon) ++ packet_ids lost ≡ₚ packet_ids pkts.
Proof.
  split; [exact routed_run|].
  exact (daemon_runs_safely 3 (htonl us) (htonl everyone) _ routed_daemon routed_run).
Defined.

Lemma process_packet_safe_witness :
  wp (aodv_process_packet (from_neighbour rrep_for_us) 20) (λ _ w',
    world_ok w' ∧ ledger w' ≡ₚ ledger waiting_daemon ∧
    datagram_processed (pkt_of (from_neighbour rrep_for_us) 20 rrep_for_us 5)
      (take (Z.to_nat 20) rrep_for_us) waiting_daemon w') waiting_daemon.
Proof.
  apply process_packet_safe; [apply waiting_daemon_ok|].
  apply (from_neighbour_ok rrep_for_us); [decide_bytes|done].
Defined.

Lemma manage_packet_fate_witness :
  fate_of (captured 7 NF_IP_LOCAL_OUT us far) far 6 fresh_daemon = Held ∧
  wp (manage_packet (captured 7 NF_IP_LOCAL_OUT us far)) (λ _ w', world_ok w' ∧
    match fate_of (captured 7 NF_IP_LOCAL_OUT us far) far 6 fresh_daemon with
    | Accepted => judged (nfqueue_packet_get_id (captured 7 NF_IP_LOCAL_OUT us far)) NF_ACCEPT fresh_daemon w'
    | Held => held (nfqueue_packet_get_id (captured 7 NF_IP_LOCAL_OUT us far)) far fresh_daemon w'
    | Forgotten => inward fresh_daemon w'
    end) fresh_daemon.
Proof.
  split; [done|].
  eapply (manage_packet_fate (captured 7 NF_IP_LOCAL_OUT us far) _ us far 6);
    [apply fresh_daemon_ok|by apply captured_ip].
Defined.

Lemma run_alarms_safe_witness :
  wp (run_alarms (Timeval 0 0)) (λ _ w', world_ok w' ∧ ledger w' ≡ₚ ledger routed_daemon) routed_daemon.
Proof.
  apply run_alarms_safe; [apply routed_daemon_ok|]. intros [a|a|] _; [done| |done].
  assert (w_rreqs routed_daemon = ∅) as Hno by by vm_compute. unfold last_try. by rewrite Hno.
Defined.

Lemma last_retry_use_after_free_witness :
  fails (run_alarms (Timeval 0 0)) UseAfterFree overdue_daemon.
Proof.
  apply (last_retry_use_after_free _ (AL_rreq entry_at)).
  - apply tick_world_ok, exhausted_daemon_ok.
  - done.
  - split; [apply (bool_decide_unpack _)|]; vm_compute; [exact I|reflexivity].
  - vm_compute. reflexivity.
Defined.

Lemma retry_sends_next_rreq_witness :
  wp (__rreq_fifo_alarm_cb (AL_rreq entry_at) entry_at) (λ _ w', world_ok w' ∧
    w_rreqs w' = <[entry_at := RreqFifo 2 far 1]> (w_rreqs waiting_daemon) ∧
    (∃ k, w_trace w' = w_trace waiting_daemon ++ [discovery_event (env_sendto k) waiting_daemon far None 1]) ∧
    w_data w' = bumped (w_data waiting_daemon) ∧ w_packets w' = w_packets waiting_daemon ∧
    AL_rreq entry_at ∈ al_root (w_alarms w') ∧
    (∃ n, (w_tick waiting_daemon ≤ n)%nat ∧ usecs (key (w_alarms w') (AL_rreq entry_at)) =
       usecs (env_now n) + 2 ^ (rf_prev_tries first_entry + 1) * NET_TRAVERSAL_TIME * 1000) ∧
    (∀ id, id ∈ al_root (w_alarms waiting_daemon) → id ∈ al_root (w_alarms w')) ∧
    (∀ id, id ≠ AL_rreq entry_at → (∀ b, id ≠ AL_route b) ∨ valid_route waiting_daemon (rf_dst first_entry) = false →
       timer_kept id waiting_daemon w')) waiting_daemon.
Proof.
  apply (retry_sends_next_rreq entry_at first_entry waiting_daemon);
    [apply waiting_daemon_ok|apply waiting_entry|done].
Defined.

Lemma find_route_sends_one_rreq_witness :
  wp (aodv_find_route far None 0) (λ _ w', world_ok w' ∧
    (∃ k, w_trace w' = w_trace fresh_daemon ++ [EvSend (env_sendto k) (htonl (md_broadcast_addr (w_data fresh_daemon)))
      (htons AODV_UDP_PORT) (u8 (expanding_ring_search_ttl 0 0))
      (Some (bytes_of_rreq (aodv_pkt_prepare_rreq
        (AodvRreq AODV_RREQ 0 (Z.lor RREQ_GRATUITOUS_RREP_FLAG RREQ_UNKNOWN_SEQ_NUM_FLAG) 0 0
           (u32 (md_rreq_id (w_data fresh_daemon) + 1)) far 0 (md_ip_addr (w_data fresh_daemon))
           (u32 (md_seq_num (w_data fresh_daemon) + 1))))))]) ∧
    w_data w' = bumped (w_data fresh_daemon) ∧
    discovering w' far = (0 =? 0) || discovering fresh_daemon far) fresh_daemon.
Proof. apply (find_route_sends_one_rreq far 0 fresh_daemon); [apply fresh_daemon_ok|done|done]. Defined.

Lemma route_expires_in_two_steps_witness :
  wp (__msh_route_alarm_cb (AL_route route_far) route_far) (λ _ w', world_ok w' ∧
    w_routes w' = <[route_far := expired_route far_route]> (w_routes routed_daemon) ∧
    w_table w' = w_table routed_daemon ∧ w_trace w' = w_trace routed_daemon ∧
    AL_route route_far ∈ al_root (w_alarms w') ∧
    usecs (key (w_alarms w') (AL_route route_far)) =
      usecs (env_now (w_tick routed_daemon)) + DELETE_PERIOD * 1000) routed_daemon ∧
  wp (__msh_route_alarm_cb (AL_route route_far) route_far) (λ _ w', world_ok w' ∧
    w_routes w' = delete route_far (w_routes expired_daemon) ∧ route_far ∉ w_table w' ∧
    sent (w_trace w') = sent (w_trace expired_daemon) ∧
    (∀ id, id ≠ AL_route route_far → id ∈ al_root (w_alarms expired_daemon) → id ∈ al_root (w_alarms w')))
    expired_daemon.
Proof.
  split.
  - apply (proj1 (route_expires_in_two_steps route_far far_route _ routed_daemon_ok routed_route)). by vm_compute.
  - exact (proj2 (route_expires_in_two_steps route_far (expired_route far_route) _ expired_daemon_ok expired_route_at) eq_refl).
Defined.
