(* ===== verification/ProtocolProps.v ===== *)
(** * Properties of the protocol: RREQs and RREPs

    What the node does with a message that passes the check, stated on whole
    datagrams. *)

From S2P Require Export DaemonProps.

Section protocol_props.
Context {E : Env} {EO : EnvOk E}.
Implicit Types w : world.

(** A datagram of another node that carries the valid RREQ (or RREP) [r]. *)
Record rreq_datagram (w : world) (msg : msghdr) (n : Z) (buf : bytes) (ttl : Z) (r : aodv_rreq) : Prop := {
  rqd_ok : datagram_ok msg n buf ttl;
  rqd_foreign : aodv_pkt_get_address (pkt_of msg n buf ttl) ≠ md_ip_addr (w_data w);
  rqd_rreq : valid_rreq (take (Z.to_nat n) buf) = Some r }.
Record rrep_datagram (w : world) (msg : msghdr) (n : Z) (buf : bytes) (ttl : Z) (r : aodv_rrep) : Prop := {
  rpd_ok : datagram_ok msg n buf ttl;
  rpd_foreign : aodv_pkt_get_address (pkt_of msg n buf ttl) ≠ md_ip_addr (w_data w);
  rpd_rrep : valid_rrep (take (Z.to_nat n) buf) = Some r }.

Lemma process_rreq_datagram w msg n buf ttl r :
  world_ok w → rreq_datagram w msg n buf ttl r →
  rwp balanced (aodv_process_packet msg n) (λ _ w',
    rreq_processed (pkt_of msg n buf ttl) (take (Z.to_nat n) buf) r w w') w.
Proof.
  intros Hw [Hm Hne Hr]. eapply rwp_mono; [by eapply aodv_process_packet_spec|].
  intros [] w' _ _. unfold datagram_processed. by rewrite (proj2 (Z.eqb_neq _ _) Hne), Hr.
Qed.

Lemma valid_not_both bs r : valid_rrep bs = Some r → valid_rreq bs = None.
Proof.
  unfold valid_rrep, valid_rreq. case_bool_decide as H; [|done]. intros _.
  by rewrite H.
Qed.

Lemma process_rrep_datagram w msg n buf ttl r :
  world_ok w → rrep_datagram w msg n buf ttl r →
  rwp balanced (aodv_process_packet msg n) (λ _ w',
    rrep_processed (pkt_of msg n buf ttl) (take (Z.to_nat n) buf) r w w' ∧
    discovery_answered (pkt_of msg n buf ttl) r w w' ∧
    rrep_relayed (pkt_of msg n buf ttl) (take (Z.to_nat n) buf) r w w') w.
Proof.
  intros Hw [Hm Hne Hr]. eapply rwp_mono; [by eapply aodv_process_packet_spec|].
  intros [] w' _ _. unfold datagram_processed.
  by rewrite (proj2 (Z.eqb_neq _ _) Hne), (valid_not_both _ _ Hr), Hr.
Qed.

Lemma rreq_reaction_short n d p bs r b : (length (rreq_reaction n d p bs r b) ≤ 1)%nat.
Proof. unfold rreq_reaction. repeat case_match; simpl; lia. Qed.

(** Datagrams that arrive one after the other. *)
Definition receive_all (l : list (msghdr * Z)) : M world unit :=
  for_each l (λ '(msg, n), aodv_process_packet msg n).

(** A RREQ, of any originator, with the id and the destination given. *)
Definition carries (w : world) (id dest : Z) (rcv : msghdr * Z) : Prop := ∃ buf ttl r,
  rreq_datagram w rcv.1 rcv.2 buf ttl r ∧ rq_rreq_id r = id ∧ rq_dest_ip_addr r = dest.

Lemma remembered_rreqs_silent id dest later w :
  world_ok w → remembers w id dest = true → Forall (carries w id dest) later →
  rwp balanced (receive_all later) (λ _ w',
    sent (w_trace w') = sent (w_trace w) ∧ w_rreq_queue w' = w_rreq_queue w) w.
Proof.
  intros Hw Hk Hall. revert w Hw Hk Hall. induction later as [|[msg n] later IH]; intros w Hw Hk Hall; [by rwp_return|].
  apply Forall_cons in Hall as [(buf & ttl & r & Hm & Hid & Hdst) Hall].
  rwp_then process_rreq_datagram; [done|exact Hm|]. intros [] w1 Hw1 Hb1 [Hk1 Hpost].
  rewrite Hid, Hdst in Hk1, Hpost. rewrite Hk in Hpost. destruct Hpost as [Hs1 Hq1].
  eapply rwp_mono; [apply IH; [done|by apply remembers_knows|]|].
  - eapply Forall_impl; [exact Hall|]. intros rcv (buf' & ttl' & r' & [? Hf ?] & Heq).
    exists buf', ttl', r'. split; [|done]. split; try done. by rewrite (bl_ip_addr _ _ Hb1).
  - intros [] w2 _ _ [Hs2 Hq2]. split; congruence.
Qed.

(** C16. Flooding stops: the first reception of a RREQ sends at most one message, and after
    it every RREQ with the same id and the same destination is met with silence and leaves
    the queue as it is, however many arrive one after the other, from whatever neighbours.
    The originators are not compared: the RREQ of another host that happens to have that id
    and destination is taken for a repetition, too, and neither answered nor passed on. *)
Theorem duplicate_rreq_sends_nothing msg n buf ttl r later w :
  world_ok w → rreq_datagram w msg n buf ttl r →
  Forall (carries w (rq_rreq_id r) (rq_dest_ip_addr r)) later →
  wp (aodv_process_packet msg n) (λ _ w1, ∃ evs,
    sent (w_trace w1) = sent (w_trace w) ++ evs ∧ (length evs ≤ 1)%nat ∧
    wp (receive_all later) (λ _ w2, world_ok w2 ∧
      sent (w_trace w2) = sent (w_trace w1) ∧ w_rreq_queue w2 = w_rreq_queue w1) w1) w.
Proof.
  intros Hw Hm Hlater. eapply wp_mono; [by eapply process_rreq_datagram|].
  intros [] w1 (Hw1 & Hb & Hk%remembers_knows & Hpost).
  assert (∃ evs, sent (w_trace w1) = sent (w_trace w) ++ evs ∧ (length evs ≤ 1)%nat) as (evs & Hs & Hl).
  { destruct (remembers w _ _).
    - exists []. rewrite app_nil_r. split; [by destruct Hpost|simpl; lia].
    - destruct Hpost as (k & b & Hs & _). eexists. split; [exact Hs|]. apply rreq_reaction_short. }
  exists evs. split_and!; [done..|].
  eapply wp_mono; [apply (remembered_rreqs_silent _ _ later w1 Hw1 Hk)|].
  - eapply Forall_impl; [exact Hlater|]. intros rcv (buf' & ttl' & r' & [? Hf ?] & Heq).
    exists buf', ttl', r'. split; [|done]. split; try done. by rewrite (bl_ip_addr _ _ Hb).
  - by intros [] w2 (? & _ & ?).
Qed.

(** C17. The destination of a new RREQ answers it with one RREP to the neighbour the
    RREQ came from: hop count 0, its own sequence number, the originator of the RREQ, and it
    sends nothing else.  The own number is raised first when the RREQ asks for exactly that
    number (the comment in the source, after RFC 3561 6.6.1, wants that when the RREQ asks
    for the number after it). *)
Theorem destination_answers_rreq msg n buf ttl r w :
  world_ok w → rreq_datagram w msg n buf ttl r →
  rq_dest_ip_addr r = md_ip_addr (w_data w) → remembers w (rq_rreq_id r) (rq_dest_ip_addr r) = false →
  wp (aodv_process_packet msg n) (λ _ w', world_ok w' ∧
    ∃ k, sent (w_trace w') = sent (w_trace w) ++
      [EvSend (env_sendto k) (htonl (aodv_pkt_get_address (pkt_of msg n buf ttl))) (htons AODV_UDP_PORT) 64
        (Some (bytes_of_rrep (aodv_pkt_prepare_rrep (AodvRrep AODV_RREP 0 0 0 0 0
          (md_ip_addr (w_data w))
          (if rq_dest_seq_num r =? md_seq_num (w_data w) then u32 (md_seq_num (w_data w) + 1)
           else md_seq_num (w_data w))
          (rq_orig_ip_addr r) 6000))))]) w.
Proof.
  intros Hw Hm Hd Hn. eapply wp_mono; [by eapply process_rreq_datagram|].
  intros [] w' (Hw' & _ & _ & Hpost). rewrite Hn in Hpost. destruct Hpost as (k & b & Hs & _).
  unfold rreq_reaction in Hs. rewrite Hd, Z.eqb_refl in Hs. split; [done|]. by exists k.
Qed.

(** The RREQ a node passes on: to everyone, one hop further, one hop less to live. *)
Definition relayed_rreq (numbytes : Z) (w : world) (p : aodv_pkt) (bs : bytes) (r : aodv_rreq) : event :=
  EvSend numbytes (htonl (md_broadcast_addr (w_data w))) (pk_port p) (pk_ttl p - 1)
    (Some (bytes_of_rreq (aodv_pkt_prepare_rreq (set_rq_hop_count (u8 (rq_hop_count r + 1)) r)) ++ drop 24 bs)).

Lemma relayed_event num w msg n buf ttl r bs :
  datagram_ok msg n buf ttl → (1 <? ttl) = true → (24 ≤ length bs)%nat →
  let r' := set_rq_hop_count (u8 (rq_hop_count r + 1)) r in
  forward_event num (w_data w) (pkt_of msg n buf ttl) (bytes_of_rreq r' ++ drop 24 bs) r' =
    relayed_rreq num w (pkt_of msg n buf ttl) bs r.
Proof.
  intros [_ _ _ _ _ _ Ht] Hlt Hlen r'. unfold forward_event, relayed_rreq. simpl pk_ttl.
  rewrite u8_id by (unfold is_u8 in *; lia). by rewrite drop_app_length'.
Qed.

Lemma valid_rreq_length bs r : valid_rreq bs = Some r → (24 ≤ length bs)%nat.
Proof.
  unfold valid_rreq. case_bool_decide; [|done]. intros (r0 & Hr%rreq_of_bytes_length & _)%fmap_Some. lia.
Qed.

(** C18. A new RREQ for a destination the node knows nothing about is rebroadcast, hop
    count one up and time to live one down, unless its time to live is used up; nothing
    else is sent.  (The destination is neither the originator nor the neighbour it came
    from: for those the reverse routes are known by then.) *)
Theorem unknown_destination_relays_rreq msg n buf ttl r w :
  world_ok w → rreq_datagram w msg n buf ttl r → remembers w (rq_rreq_id r) (rq_dest_ip_addr r) = false →
  rq_dest_ip_addr r ≠ md_ip_addr (w_data w) → table_lookup w (rq_dest_ip_addr r) = None →
  rq_dest_ip_addr r ≠ aodv_pkt_get_address (pkt_of msg n buf ttl) → rq_dest_ip_addr r ≠ rq_orig_ip_addr r →
  wp (aodv_process_packet msg n) (λ _ w', world_ok w' ∧ ∃ k, sent (w_trace w') = sent (w_trace w) ++
    if 1 <? ttl then [relayed_rreq (env_sendto k) w (pkt_of msg n buf ttl) (take (Z.to_nat n) buf) r] else []) w.
Proof.
  intros Hw Hm Hn Hd Hl Hne1 Hne2. eapply wp_mono; [by eapply process_rreq_datagram|].
  intros [] w' (Hw' & _ & _ & Hpost). rewrite Hn in Hpost. destruct Hpost as (k & b & Hs & Hco & _).
  unfold rreq_reaction in Hs. rewrite (co_unknown _ _ _ _ Hco), (proj2 (Z.eqb_neq _ _) Hd) in Hs by done.
  split; [done|]. exists k. rewrite Hs. cbn [negb andb pk_ttl pkt_of]. destruct (1 <? ttl) eqn:Ht; [|done].
  destruct Hm as [Hok _ Hv%valid_rreq_length]. by rewrite relayed_event.
Qed.

(** C19. A node that has a route to the destination and that [may_answer] neither
    answers the RREQ nor passes it on: the RREP it builds is never sent. *)
Theorem known_destination_swallows_rreq msg n buf ttl r w :
  world_ok w → rreq_datagram w msg n buf ttl r →
  rq_dest_ip_addr r ≠ md_ip_addr (w_data w) → is_Some (table_lookup w (rq_dest_ip_addr r)) →
  may_answer (w_data w) r = true →
  wp (aodv_process_packet msg n) (λ _ w', world_ok w' ∧ sent (w_trace w') = sent (w_trace w)) w.
Proof.
  intros Hw Hm Hd Hl Hans. eapply wp_mono; [by eapply process_rreq_datagram|].
  intros [] w' (Hw' & _ & _ & Hpost). split; [done|]. destruct (remembers _ _ _); [by destruct Hpost|].
  destruct Hpost as (k & b & Hs & Hco & _). rewrite Hs. unfold rreq_reaction.
  rewrite (proj2 (Z.eqb_neq _ _) Hd), (co_known _ _ _ _ Hco), Hans by done. apply app_nil_r.
Qed.

(** C20. A RREP is passed on at most once, unchanged but for the hop count and the time to
    live, and never by the node it is for.  When it is for this node, it matters whether the
    table has an entry for the destination.  If not (a first discovery), and the kernel takes
    the routes: the table leads to the destination through the neighbour afterwards (which
    may be the destination itself), with the sequence number of the RREP and one hop more,
    the route is valid, the kernel has it too, and the packets that waited for it are gone
    from the queue and accepted.  If it has, be it an expired one (a discovery of a
    destination known before): all packets that wait for the destination go on waiting, and
    the kernel goes on sending for it where it did. *)
Theorem rrep_completes_discovery msg n buf ttl r w :
  world_ok w → rrep_datagram w msg n buf ttl r →
  wp (aodv_process_packet msg n) (λ _ w', world_ok w' ∧ ledger w' ≡ₚ ledger w ∧
    (sent (w_trace w') = sent (w_trace w) ∨
     rp_orig_ip_addr r ≠ md_ip_addr (w_data w) ∧ ∃ k hop, sent (w_trace w') = sent (w_trace w) ++
       [EvSend (env_sendto k) (htonl hop) (pk_port (pkt_of msg n buf ttl)) (u8 (ttl - 1))
         (Some (bytes_of_rrep (aodv_pkt_prepare_rrep (set_rp_hop_count (u8 (rp_hop_count r + 1)) r)) ++
                drop 20 (take (Z.to_nat n) buf)))]) ∧
    (kernel_accepts → rp_orig_ip_addr r = md_ip_addr (w_data w) → table_lookup w (rp_dest_ip_addr r) = None →
     (∃ rt, route_to w' (rp_dest_ip_addr r) = Some rt ∧
        rt_next_hop rt = aodv_pkt_get_address (pkt_of msg n buf ttl) ∧
        rt_hop_count rt = u8 (rp_hop_count r + 1) ∧ rt_dest_seq_num rt = rp_dest_seq_num r ∧
        has_flag (rt_flags rt) RTFLAG_VALID_ENTRY = true) ∧
     kernel_via w' (rp_dest_ip_addr r) (aodv_pkt_get_address (pkt_of msg n buf ttl)) ∧
     (∀ e, e ∈ w_packets w' → pf_dest e ≠ rp_dest_ip_addr r) ∧ released (rp_dest_ip_addr r) w w') ∧
    (rp_orig_ip_addr r = md_ip_addr (w_data w) → is_Some (table_lookup w (rp_dest_ip_addr r)) →
     waiting_for (rp_dest_ip_addr r) w' = waiting_for (rp_dest_ip_addr r) w ∧
     ∀ hop, kernel_via w (rp_dest_ip_addr r) hop → kernel_via w' (rp_dest_ip_addr r) hop)) w.
Proof.
  intros Hw Hm. eapply wp_mono; [by eapply process_rrep_datagram|].
  intros [] w' (Hw' & Hb & Hpost & Hans & _). split; [done|]. split; [apply Hb|]. split; [|split].
  - destruct Hpost as [?|(Hne & k & hop & Hs)]; [by left|].
    right. split; [done|]. exists k, hop. rewrite Hs. unfold forward_rrep_event. by rewrite drop_app_length'.
  - intros Hk Ho Hl. specialize (Hans Ho). rewrite Hl in Hans.
    destruct (Hans Hk) as [(rt & Hrt & [_ H2 H3 H4 _] & Hv) Hpk Hrel Hkern]. split_and!; [by exists rt|done..].
  - intros Ho [a Ha]. specialize (Hans Ho). rewrite Ha in Hans. by destruct Hans.
Qed.

(** C21. The reverse route of a RREQ leads to the originator through the neighbour, with
    the hop count given and the newer sequence number (compared as signed numbers); when
    the kernel takes it, it is the table's route; routes to other destinations stay. *)
Theorem reverse_route_leads_back orig seq hop prev_hop w :
  world_ok w → is_u32 orig → is_u32 seq → is_u8 hop → is_u32 prev_hop →
  wp (reverse_route orig seq hop prev_hop) (λ a w', world_ok w' ∧
    (∃ r, w_routes w' !! a = Some r ∧ reverse_path orig seq hop prev_hop (route_to w orig) r) ∧
    (kernel_accepts → table_lookup w' orig = Some a) ∧
    (∀ ip, ip ≠ orig → table_lookup w' ip = table_lookup w ip)) w.
Proof.
  intros Hw Ho Hs Hh Hp. eapply wp_mono; [by apply reverse_route_spec|].
  intros a w' (Hw' & Hle & (r & [Hr _] & Hpath) & Hk).
  split_and!; [done|by exists r|done|]. intros ip Hne. by eapply learns_lookup.
Qed.
End protocol_props.

(** ** At concrete states *)

Lemma rreq_from_neighbour w buf r :
  bytes_ok buf → length buf = 24%nat → neighbour ≠ md_ip_addr (w_data w) → valid_rreq (take 24 buf) = Some r →
  rreq_datagram w (from_neighbour buf) 24 buf 5 r.
Proof.
  intros Hb Hl Hne Hv. split; [|exact Hne|exact Hv].
  pose proof (from_neighbour_ok buf Hb) as Hok. rewrite Hl in Hok. by apply Hok.
Qed.

Lemma rrep_from_neighbour w :
  neighbour ≠ md_ip_addr (w_data w) →
  rrep_datagram w (from_neighbour rrep_for_us) 20 rrep_for_us 5
    (AodvRrep AODV_RREP 0 0 0 0 1 far 5 us MY_ROUTE_TIMEOUT).
Proof.
  intros Hne. split; [apply (from_neighbour_ok rrep_for_us); [|done]|exact Hne|vm_compute; reflexivity].
  decide_bytes.
Qed.

Ltac from_neighbour :=
  apply rreq_from_neighbour;
  [decide_bytes|reflexivity|vm_compute; discriminate|vm_compute; reflexivity].

(** A RREQ of 10.0.0.2 with the id and the destination of the one of 10.0.0.9. *)
Definition other_rreq : bytes := bytes_of_rreq (aodv_pkt_prepare_rreq
  (AodvRreq AODV_RREQ 0 0 0 0 42 stranger 0 neighbour 5)).

Lemma duplicate_rreq_sends_nothing_witness :
  wp (aodv_process_packet (from_neighbour (rreq_bytes stranger)) 24) (λ _ w1, ∃ evs,
    sent (w_trace w1) = sent (w_trace fresh_daemon) ++ evs ∧ (length evs ≤ 1)%nat ∧
    wp (receive_all [(from_neighbour (rreq_bytes stranger), 24); (from_neighbour other_rreq, 24)]) (λ _ w2,
      world_ok w2 ∧ sent (w_trace w2) = sent (w_trace w1) ∧ w_rreq_queue w2 = w_rreq_queue w1) w1) fresh_daemon.
Proof.
  apply (duplicate_rreq_sends_nothing _ _ (rreq_bytes stranger) 5 (rreq_for stranger));
    [apply fresh_daemon_ok|from_neighbour|].
  apply Forall_cons; split; [|apply Forall_cons; split; [|apply Forall_nil; exact I]].
  - exists (rreq_bytes stranger), 5, (rreq_for stranger). split; [from_neighbour|by split].
  - exists other_rreq, 5, (AodvRreq AODV_RREQ 0 0 0 0 42 stranger 0 neighbour 5).
    split; [simpl; from_neighbour|by split].
Defined.

Lemma destination_answers_rreq_witness :
  wp (aodv_process_packet (from_neighbour (rreq_bytes us)) 24) (λ _ w', world_ok w' ∧
    ∃ k, sent (w_trace w') = sent (w_trace fresh_daemon) ++
      [EvSend (env_sendto k) (htonl (aodv_pkt_get_address (pkt_of (from_neighbour (rreq_bytes us)) 24 (rreq_bytes us) 5)))
        (htons AODV_UDP_PORT) 64
        (Some (bytes_of_rrep (aodv_pkt_prepare_rrep (AodvRrep AODV_RREP 0 0 0 0 0
          (md_ip_addr (w_data fresh_daemon))
          (if rq_dest_seq_num (rreq_for us) =? md_seq_num (w_data fresh_daemon)
           then u32 (md_seq_num (w_data fresh_daemon) + 1) else md_seq_num (w_data fresh_daemon))
          (rq_orig_ip_addr (rreq_for us)) 6000))))]) fresh_daemon.
Proof.
  apply destination_answers_rreq; [apply fresh_daemon_ok|from_neighbour|vm_compute; reflexivity..].
Defined.

Lemma unknown_destination_relays_rreq_witness :
  wp (aodv_process_packet (from_neighbour (rreq_bytes stranger)) 24) (λ _ w', world_ok w' ∧
    ∃ k, sent (w_trace w') = sent (w_trace fresh_daemon) ++
      if 1 <? 5 then [relayed_rreq (env_sendto k) fresh_daemon (pkt_of (from_neighbour (rreq_bytes stranger)) 24 (rreq_bytes stranger) 5)
        (take (Z.to_nat 24) (rreq_bytes stranger)) (rreq_for stranger)] else []) fresh_daemon.
Proof.
  apply unknown_destination_relays_rreq; [apply fresh_daemon_ok|from_neighbour|
    vm_compute; first [reflexivity|discriminate]..].
Defined.

(** The routed daemon is asked for 10.0.0.9, to which it has a route. *)
Lemma known_destination_swallows_rreq_witness :
  wp (aodv_process_packet (from_neighbour (bytes_of_rreq (aodv_pkt_prepare_rreq
      (AodvRreq AODV_RREQ 0 0 0 2 42 far 7 stranger 9)))) 24)
    (λ _ w', world_ok w' ∧ sent (w_trace w') = sent (w_trace routed_daemon)) routed_daemon.
Proof.
  apply (known_destination_swallows_rreq _ _ (bytes_of_rreq (aodv_pkt_prepare_rreq
      (AodvRreq AODV_RREQ 0 0 0 2 42 far 7 stranger 9))) 5 (AodvRreq AODV_RREQ 0 0 0 2 42 far 7 stranger 9));
    [apply routed_daemon_ok| |vm_compute; discriminate|eexists; vm_compute; reflexivity|vm_compute; reflexivity].
  split; [apply from_neighbour_ok; [decide_bytes|done]|vm_compute; discriminate|
    vm_compute; reflexivity].
Defined.

(** The route to 10.0.0.9 has expired and a packet for it waits again. *)
Definition asking_again : world := final (manage_packet (captured 9 NF_IP_LOCAL_OUT us far)) expired_daemon.
Lemma asking_again_ok : world_ok asking_again.
Proof. eapply final_ok, manage_packet_spec; [apply expired_daemon_ok|by apply captured_ip]. Qed.
Lemma asking_again_waits : length (waiting_for far asking_again) = 1%nat.
Proof. vm_compute. reflexivity. Qed.

Lemma rrep_completes_discovery_witness :
  let r := AodvRrep AODV_RREP 0 0 0 0 1 far 5 us MY_ROUTE_TIMEOUT in
  wp (aodv_process_packet (from_neighbour rrep_for_us) 20) (λ _ w', world_ok w' ∧
    (∃ rt, route_to w' (rp_dest_ip_addr r) = Some rt ∧
       rt_next_hop rt = aodv_pkt_get_address (pkt_of (from_neighbour rrep_for_us) 20 rrep_for_us 5) ∧
       rt_hop_count rt = u8 (rp_hop_count r + 1) ∧ rt_dest_seq_num rt = rp_dest_seq_num r ∧
       has_flag (rt_flags rt) RTFLAG_VALID_ENTRY = true) ∧
    (∀ e, e ∈ w_packets w' → pf_dest e ≠ rp_dest_ip_addr r) ∧
    released (rp_dest_ip_addr r) waiting_daemon w' ∧
    sent (w_trace w') = sent (w_trace waiting_daemon)) waiting_daemon ∧
  wp (aodv_process_packet (from_neighbour rrep_for_us) 20) (λ _ w',
    waiting_for far w' = waiting_for far asking_again ∧ length (waiting_for far asking_again) = 1%nat) asking_again.
Proof.
  intros r. split.
  - eapply wp_mono; [apply (rrep_completes_discovery _ 20 rrep_for_us 5 r);
      [apply waiting_daemon_ok|apply rrep_from_neighbour; vm_compute; discriminate]|].
    intros [] w' (Hw' & _ & Hsent & Hdone & _). destruct Hdone as (Hrt & _ & Hpk & Hrel).
    + intros n. vm_compute; reflexivity.
    + reflexivity.
    + vm_compute; reflexivity.
    + split_and!; [done..|]. destruct Hsent as [?|[Hne _]]; [done|]. by destruct Hne.
  - eapply wp_mono; [apply (rrep_completes_discovery _ 20 rrep_for_us 5 r);
      [apply asking_again_ok|apply rrep_from_neighbour; vm_compute; discriminate]|].
    intros [] w' (_ & _ & _ & _ & Hagain). destruct Hagain as [Hwait _].
    + vm_compute; reflexivity.
    + eexists. vm_compute; reflexivity.
    + split; [exact Hwait|apply asking_again_waits].
Defined.

Lemma reverse_route_leads_back_witness :
  wp (reverse_route far 9 2 neighbour) (λ a w', world_ok w' ∧
    (∃ r, w_routes w' !! a = Some r ∧ reverse_path far 9 2 neighbour (route_to fresh_daemon far) r) ∧
    (kernel_accepts → table_lookup w' far = Some a) ∧
    (∀ ip, ip ≠ far → table_lookup w' ip = table_lookup fresh_daemon ip)) fresh_daemon.
Proof. by apply reverse_route_leads_back; [apply fresh_daemon_ok|..]. Defined.
