(* ===== verification/TableProps.v ===== *)
(** * Properties of the routing table and the packet queue *)

From S2P Require Export ProtocolProps.

Section table_props.
Context {E : Env} {EO : EnvOk E}.
Implicit Types w : world.

(** C35. The lookup is that of a finite map from addresses to routes: it finds the one
    route of the table with that destination, or none when there is none, and the
    table stays as it is. *)
Theorem find_by_ip_is_lookup dest w :
  world_ok w → is_u32 dest →
  wp (routing_table_find_by_ip dest) (λ found w', world_ok w' ∧ w_table w' = w_table w ∧
    ∀ a, found = Some a ↔ a ∈ w_table w ∧ rt_dst_ip <$> w_routes w !! a = Some dest) w.
Proof.
  intros Hw Hd. unfold wp. rewrite routing_table_find_by_ip_eq by done.
  split_and!; [by apply with_find_ip_ok|done|]. intros a. by apply table_lookup_Some.
Qed.

(** C36. [routing_table_add] on a route that is not in the table: with a route to that
    destination in the table it returns 1 and changes nothing; when the kernel refuses
    the route it returns -1 and the table and the waiting packets stay; otherwise it
    returns 0, the route is the first of the table and found by its destination, the
    kernel has it, and exactly the packets that waited for it leave the queue, accepted. *)
Theorem routing_table_add_outcome a r w :
  world_ok w → route_at w a r → ¬ in_table r →
  wp (routing_table_add a) (λ ret w', world_ok w' ∧ ledger w' ≡ₚ ledger w ∧
    match table_lookup w (rt_dst_ip r) with
    | Some _ => ret = 1 ∧ w' = w
    | None =>
        (ret = -1 ∧ w_table w' = w_table w ∧ w_packets w' = w_packets w) ∨
        (ret = 0 ∧ w_table w' = a :: w_table w ∧ table_lookup w' (rt_dst_ip r) = Some a ∧
         kernel_has w' r ∧
         w_packets w' = filter (λ e, ¬ pf_dest e = rt_dst_ip r) (w_packets w) ∧ released (rt_dst_ip r) w w')
    end) w.
Proof.
  intros Hw Hr Hni. eapply wp_mono; [by eapply routing_table_add_at|].
  intros ret w' (Hw' & Hle & Hpost & Hkern & _). split_and!; [done| |].
  - apply (bl_ledger w w'). by apply (finer (R := learns (rt_dst_ip r))).
  - unfold add_post in Hpost. destruct (table_lookup _ _); [done|]. naive_solver.
Qed.

(** [routing_table_update_route] answers 1 exactly when the destination is the node
    itself or the table has a valid route to it; it never stores anything in the
    caller's [invalid_route], and it gives no verdict and sends nothing. *)
Theorem update_route_reports_reachability dst invalid orig w :
  world_ok w → is_u32 dst → is_u32 orig →
  wp (routing_table_update_route dst invalid orig) (λ res w', world_ok w' ∧
    res = (if reachable w dst then 1 else 0, invalid) ∧
    w_trace w' = w_trace w ∧ w_table w' = w_table w ∧ w_packets w' = w_packets w) w.
Proof.
  intros Hw Hd Ho. eapply wp_mono; [by apply routing_table_update_route_spec|].
  intros res w' (Hw' & Hi & ->). by destruct Hi.
Qed.

(** [packets_fifo_process_route] accepts exactly the packets for the route's
    destination, in the order of the queue (latest first), and the others keep waiting;
    its scratch route is freed again. *)
Theorem process_route_accepts_waiting route r w :
  world_ok w → w_routes w !! route = Some r →
  wp (packets_fifo_process_route route) (λ _ w', world_ok w' ∧
    w_packets w' = filter (λ e, ¬ pf_dest e = rt_dst_ip r) (w_packets w) ∧
    w_trace w' = w_trace w ++
      ((λ e, EvVerdict (pf_id e) NF_ACCEPT) <$> filter (λ e, pf_dest e = rt_dst_ip r) (w_packets w)) ∧
    w_routes w' = w_routes w ∧ w_alarms w' = w_alarms w ∧ w_table w' = w_table w) w.
Proof.
  intros Hw Hr. eapply wp_mono; [by apply packets_fifo_process_route_spec|].
  by intros [] w' (? & _ & ?).
Qed.

(** [packets_fifo_drop_packets] drops exactly the packets for the destination and
    nothing else happens outside. *)
Theorem drop_packets_drops_waiting dest w :
  world_ok w →
  wp (packets_fifo_drop_packets dest) (λ _ w', world_ok w' ∧
    w_packets w' = filter (λ e, ¬ pf_dest e = dest) (w_packets w) ∧
    w_trace w' = w_trace w ++
      ((λ e, EvVerdict (pf_id e) NF_DROP) <$> filter (λ e, pf_dest e = dest) (w_packets w)) ∧
    w_routes w' = w_routes w ∧ w_alarms w' = w_alarms w) w.
Proof.
  intros Hw. eapply wp_mono; [by apply drop_packets_spec|]. by intros [] w' (? & _ & ?).
Qed.

(** [routing_table_del] deletes nothing: on a table with routes it returns 1 and
    leaves everything as it was, whatever route it is given, and on an empty table it
    dereferences a null pointer. *)
Theorem routing_table_del_deletes_nothing route w :
  routing_table_del route w =
    match w_table w with [] => Fault NullDeref | _ :: _ => Ok 1 w end.
Proof.
  unfold routing_table_del, routing_table_find, mbind, M_bind, gets, find_in.
  by destruct (w_table w).
Qed.

(** The lifetime of a managed route: afterwards the route is valid, its timer runs
    out [ms] milliseconds after the clock was read, and nothing else about the path, the
    table or the queues changed. *)
Theorem set_lifetime_arms_timer a r ms w :
  world_ok w → route_at w a r →
  wp (msh_route_set_lifetime a ms) (λ _ w', world_ok w' ∧
    (∃ r', w_routes w' = <[a := r']> (w_routes w) ∧ same_path r r' ∧
       has_flag (rt_flags r') RTFLAG_VALID_ENTRY = true ∧
       rt_alarm_action r' = RTACTION_UNSET_VALID_ENTRY) ∧
    AL_route a ∈ al_root (w_alarms w') ∧
    usecs (key (w_alarms w') (AL_route a)) = usecs (env_now (w_tick w)) + ms * 1000 ∧
    w_table w' = w_table w ∧ w_packets w' = w_packets w ∧ w_trace w' = w_trace w) w.
Proof.
  intros Hw [Hr Hne]. eapply wp_mono; [by apply msh_route_set_lifetime_spec|].
  intros [] w' (Hw' & [_ Ht Hp Htr] & [Hro _ (b & t & _ & _ & Ht' & Hbl & l1 & l2 & _ & Hroot & _)]).
  split_and!; [done| | | |done..].
  - exists (touched r). split_and!; [done|apply touched_same_path| |done].
    simpl. rewrite has_flag_lor. apply orb_true_r.
  - rewrite Hroot. set_solver.
  - unfold key. by rewrite Hbl, lookup_insert_eq.
Qed.

(** The value [msh_route_get_lifetime] returns for a valid route with a pending
    timer is not the time left but the 32-bit complement of it: with [left] whole
    microseconds to go it returns 2{^32} minus [left] in milliseconds, rounded up. *)
Theorem get_lifetime_is_negative_time a r b w :
  world_ok w → w_routes w !! a = Some r → al_blocks (w_alarms w) !! AL_route a = Some b →
  has_flag (rt_flags r) RTFLAG_VALID_ENTRY = true →
  let left := usecs (ab_tv b) - usecs (env_now (w_tick w)) in
  0 < left ≤ (2 ^ 32 - 1) * 1000 →
  wp (msh_route_get_lifetime a) (λ x _, x = 2 ^ 32 - (left + 999) / 1000) w.
Proof.
  intros Hw Hr Hb Hv left Hleft. eapply wp_mono; [by eapply msh_route_get_lifetime_spec|].
  intros x w' (_ & _ & _ & ->).
  pose proof (ok_times _ (wo_alarms _ Hw) _ _ Hb) as Hok. pose proof (env_now_ok (w_tick w)) as Hnow.
  assert (timer_gt (ab_tv b) (env_now (w_tick w)) = true) as Hgt
    by (apply timer_lt_spec; [done|done|lia]).
  rewrite Hv, Hgt. cbn [andb]. unfold lifetime_left. rewrite get_alarm_time_spec by by apply timersub_ok.
  rewrite timersub_usecs. unfold u32. subst left.
  replace ((usecs (env_now (w_tick w)) - usecs (ab_tv b)) / 1000)
    with (- ((usecs (ab_tv b) - usecs (env_now (w_tick w)) + 999) / 1000))
    by (Z.to_euclidean_division_equations; lia).
  symmetry. apply Z.mod_unique with (-1); [|lia]. left. Z.to_euclidean_division_equations; lia.
Qed.
End table_props.

(** ** At concrete states *)

Lemma find_by_ip_is_lookup_witness :
  wp (routing_table_find_by_ip far) (λ found w', world_ok w' ∧ w_table w' = w_table routed_daemon ∧
    ∀ a, found = Some a ↔ a ∈ w_table routed_daemon ∧ rt_dst_ip <$> w_routes routed_daemon !! a = Some far)
    routed_daemon.
Proof. apply find_by_ip_is_lookup; [apply routed_daemon_ok|done]. Defined.

Lemma routing_table_add_outcome_witness :
  wp (routing_table_add (w_brk waiting_daemon)) (λ ret w', world_ok w' ∧
    ledger w' ≡ₚ ledger (offer waiting_daemon) ∧
    match table_lookup (offer waiting_daemon) (rt_dst_ip offered_route) with
    | Some _ => ret = 1 ∧ w' = offer waiting_daemon
    | None =>
        (ret = -1 ∧ w_table w' = w_table (offer waiting_daemon) ∧
         w_packets w' = w_packets (offer waiting_daemon)) ∨
        (ret = 0 ∧ w_table w' = w_brk waiting_daemon :: w_table (offer waiting_daemon) ∧
         table_lookup w' (rt_dst_ip offered_route) = Some (w_brk waiting_daemon) ∧
         kernel_has w' offered_route ∧
         w_packets w' = filter (λ e, ¬ pf_dest e = rt_dst_ip offered_route) (w_packets (offer waiting_daemon)) ∧
         released (rt_dst_ip offered_route) (offer waiting_daemon) w')
    end) (offer waiting_daemon).
Proof.
  destruct (offer_ok _ waiting_daemon_ok) as [Hw Hat]. by apply routing_table_add_outcome.
Defined.

Lemma update_route_reports_reachability_witness :
  reachable routed_daemon far = true ∧
  wp (routing_table_update_route far None us) (λ res w', world_ok w' ∧
    res = (if reachable routed_daemon far then 1 else 0, None) ∧
    w_trace w' = w_trace routed_daemon ∧ w_table w' = w_table routed_daemon ∧
    w_packets w' = w_packets routed_daemon) routed_daemon.
Proof.
  split; [vm_compute; reflexivity|]. apply update_route_reports_reachability; [apply routed_daemon_ok|done|done].
Defined.

Lemma process_route_accepts_waiting_witness :
  wp (packets_fifo_process_route (w_brk waiting_daemon)) (λ _ w', world_ok w' ∧
    w_packets w' = filter (λ e, ¬ pf_dest e = rt_dst_ip offered_route) (w_packets (offer waiting_daemon)) ∧
    w_trace w' = w_trace (offer waiting_daemon) ++ ((λ e, EvVerdict (pf_id e) NF_ACCEPT) <$>
      filter (λ e, pf_dest e = rt_dst_ip offered_route) (w_packets (offer waiting_daemon))) ∧
    w_routes w' = w_routes (offer waiting_daemon) ∧ w_alarms w' = w_alarms (offer waiting_daemon) ∧
    w_table w' = w_table (offer waiting_daemon)) (offer waiting_daemon).
Proof.
  destruct (offer_ok _ waiting_daemon_ok) as [Hw [Hr _]]. by apply process_route_accepts_waiting.
Defined.

Lemma drop_packets_drops_waiting_witness :
  wp (packets_fifo_drop_packets far) (λ _ w', world_ok w' ∧
    w_packets w' = filter (λ e, ¬ pf_dest e = far) (w_packets waiting_daemon) ∧
    w_trace w' = w_trace waiting_daemon ++
      ((λ e, EvVerdict (pf_id e) NF_DROP) <$> filter (λ e, pf_dest e = far) (w_packets waiting_daemon)) ∧
    w_routes w' = w_routes waiting_daemon ∧ w_alarms w' = w_alarms waiting_daemon) waiting_daemon.
Proof. apply drop_packets_drops_waiting, waiting_daemon_ok. Defined.

Lemma set_lifetime_arms_timer_witness :
  wp (msh_route_set_lifetime route_far ACTIVE_ROUTE_TIMEOUT) (λ _ w', world_ok w' ∧
    (∃ r', w_routes w' = <[route_far := r']> (w_routes routed_daemon) ∧ same_path far_route r' ∧
       has_flag (rt_flags r') RTFLAG_VALID_ENTRY = true ∧
       rt_alarm_action r' = RTACTION_UNSET_VALID_ENTRY) ∧
    AL_route route_far ∈ al_root (w_alarms w') ∧
    usecs (key (w_alarms w') (AL_route route_far)) =
      usecs (env_now (w_tick routed_daemon)) + ACTIVE_ROUTE_TIMEOUT * 1000 ∧
    w_table w' = w_table routed_daemon ∧ w_packets w' = w_packets routed_daemon ∧
    w_trace w' = w_trace routed_daemon) routed_daemon.
Proof. apply set_lifetime_arms_timer; [apply routed_daemon_ok|apply routed_route]. Defined.

Lemma get_lifetime_is_negative_time_witness :
  wp (msh_route_get_lifetime route_far) (λ x _, x = 2 ^ 32 -
    (usecs (ab_tv far_block) - usecs (env_now (w_tick routed_daemon)) + 999) / 1000) routed_daemon.
Proof.
  apply (get_lifetime_is_negative_time route_far far_route far_block);
    [apply routed_daemon_ok|vm_compute; reflexivity..|].
  split; vm_compute; [reflexivity|discriminate].
Defined.
