(* ===== verification/WireProps.v ===== *)
(** * Properties of the messages on the wire *)

From S2P Require Export TableProps.

(** *** Reading what was built *)

Lemma rreq_ntoh_prepare r : rreq_ok r → rreq_ntoh (aodv_pkt_prepare_rreq r) = r.
Proof. apply prepare_rreq_ntoh. Qed.
Lemma rrep_ntoh_prepare r : rrep_ok r → rrep_ntoh (aodv_pkt_prepare_rrep r) = r.
Proof. apply prepare_rrep_ntoh. Qed.

Lemma rreq_of_bytes_exact r : rreq_ok r → rreq_of_bytes (bytes_of_rreq r) = Some r.
Proof. intros Hr. rewrite <-(app_nil_r (bytes_of_rreq r)). by apply rreq_of_bytes_of. Qed.
Lemma rrep_of_bytes_exact r : rrep_ok r → rrep_of_bytes (bytes_of_rrep r) = Some r.
Proof. intros Hr. rewrite <-(app_nil_r (bytes_of_rrep r)). by apply rrep_of_bytes_of. Qed.

(** The check on a message prepared for the wire gives the message back. *)
Lemma check_prepared_rreq p r :
  rreq_ok r → rq_type r = AODV_RREQ → pk_payload_len p = 24 →
  aodv_pkt_check_payload p (bytes_of_rreq (aodv_pkt_prepare_rreq r)) = Some (1, bytes_of_rreq r, None).
Proof.
  intros Hr Ht Hl. pose proof (prepare_rreq_ok _ Hr) as Hp.
  unfold aodv_pkt_check_payload, aodv_pkt_get_payload_len. rewrite Hl.
  change (aodv_pkt_get_type (bytes_of_rreq (aodv_pkt_prepare_rreq r))) with (Some (s8 (rq_type r))).
  rewrite Ht. cbn [mbind option_bind]. change (s8 AODV_RREQ =? AODV_RREQ) with true.
  change (sizeof_rreq <=? u64 (s32 24)) with true. cbv iota.
  rewrite (update_rreq_eq _ _ _ (rreq_of_bytes_exact _ Hp)), rreq_ntoh_prepare by done.
  cbn [mbind option_bind]. by rewrite drop_ge, app_nil_r.
Qed.
Lemma check_prepared_rrep p r :
  rrep_ok r → rp_type r = AODV_RREP → pk_payload_len p = 20 →
  aodv_pkt_check_payload p (bytes_of_rrep (aodv_pkt_prepare_rrep r)) = Some (1, bytes_of_rrep r, None).
Proof.
  intros Hr Ht Hl. pose proof (prepare_rrep_ok _ Hr) as Hp.
  unfold aodv_pkt_check_payload, aodv_pkt_get_payload_len. rewrite Hl.
  change (aodv_pkt_get_type (bytes_of_rrep (aodv_pkt_prepare_rrep r))) with (Some (s8 (rp_type r))).
  rewrite Ht. cbn [mbind option_bind].
  change (s8 AODV_RREP =? AODV_RREQ) with false. change (s8 AODV_RREP =? AODV_RREP) with true.
  change (sizeof_rrep <=? u64 (s32 20)) with true. cbv iota.
  rewrite (update_rrep_eq _ _ _ (rrep_of_bytes_exact _ Hp)), rrep_ntoh_prepare by done.
  cbn [mbind option_bind]. by rewrite drop_ge, app_nil_r.
Qed.

(** C37. A RREQ arrives as it was built: the payload [aodv_pkt_build_rreq] makes is
    accepted by the receiver's check, and the receiver then reads the arguments it was
    built from (of the flags, the five bits that fit). *)
Theorem built_rreq_is_received flags hop id dst seq orig oseq p :
  is_u8 hop → Forall is_u32 [id; dst; seq; orig; oseq] →
  let sent := aodv_pkt_build_rreq flags hop id dst seq orig oseq p in
  ∃ bs bs', pk_payload sent = Some bs ∧ aodv_pkt_check_payload sent bs = Some (1, bs', None) ∧
    rreq_of_bytes bs' = Some (AodvRreq AODV_RREQ 0 (flags mod 32) 0 hop id dst seq orig oseq).
Proof.
  intros Hh Hw sent. set (r := AodvRreq AODV_RREQ 0 (flags mod 32) 0 hop id dst seq orig oseq).
  assert (rreq_ok r) as Hr by (split; simpl; try done; by apply Z.mod_pos_bound).
  exists (bytes_of_rreq (aodv_pkt_prepare_rreq r)), (bytes_of_rreq r).
  split_and!; [done|by apply check_prepared_rreq|by apply rreq_of_bytes_exact].
Qed.

(** A RREP arrives as it was built. *)
Theorem built_rrep_is_received flags prefix hop dst seq orig lifetime p :
  is_u8 hop → Forall is_u32 [dst; seq; orig; lifetime] →
  let sent := aodv_pkt_build_rrep flags prefix hop dst seq orig lifetime p in
  ∃ bs bs', pk_payload sent = Some bs ∧ aodv_pkt_check_payload sent bs = Some (1, bs', None) ∧
    rrep_of_bytes bs' = Some (AodvRrep AODV_RREP 0 (flags mod 4) (prefix mod 32) 0 hop dst seq orig lifetime).
Proof.
  intros Hh Hw sent. set (r := AodvRrep AODV_RREP 0 (flags mod 4) (prefix mod 32) 0 hop dst seq orig lifetime).
  assert (rrep_ok r) as Hr by (split; simpl; try done; by apply Z.mod_pos_bound).
  exists (bytes_of_rrep (aodv_pkt_prepare_rrep r)), (bytes_of_rrep r).
  split_and!; [done|by apply check_prepared_rrep|by apply rrep_of_bytes_exact].
Qed.

(** The layout of RFC 3561 section 5.1: type, the flags in the high bits of the
    second byte, a zero byte, the hop count, and five words in network byte order. *)
Theorem rreq_wire_format flags hop id dst seq orig oseq p :
  pk_payload (aodv_pkt_build_rreq flags hop id dst seq orig oseq p) =
    Some ([1; 8 * (flags mod 32); 0; hop] ++ be32 id ++ be32 dst ++ be32 seq ++ be32 orig ++ be32 oseq).
Proof.
  unfold aodv_pkt_build_rreq, bytes_of_rreq.
  cbn [pk_payload set_pk_payload rq_type rq_reserved2 rq_flags rq_reserved rq_hop_count rq_rreq_id
       rq_dest_ip_addr rq_dest_seq_num rq_orig_ip_addr rq_orig_seq_num].
  by rewrite !le32_htonl.
Qed.

(** Decoding and encoding again is the identity on the whole payload, bytes after
    the message included: what a node relays differs from what it received only in the
    fields it changes. *)
Theorem relay_preserves_bytes bs :
  bytes_ok bs →
  (∀ r, rreq_of_bytes bs = Some r →
     bytes_of_rreq (aodv_pkt_prepare_rreq (rreq_ntoh r)) ++ drop 24 bs = bs) ∧
  (∀ r, rrep_of_bytes bs = Some r →
     bytes_of_rrep (aodv_pkt_prepare_rrep (rrep_ntoh r)) ++ drop 20 bs = bs).
Proof.
  intros Hok. split; intros r Hr.
  - destruct (bytes_of_rreq_of bs r Hok Hr) as [Heq Hrok]. by rewrite prepare_rreq_ntoh.
  - destruct (bytes_of_rrep_of bs r Hok Hr) as [Heq Hrok]. by rewrite prepare_rrep_ntoh.
Qed.

(** The sizes [aodv_pkt_check] asks for, by the type of the message. *)
Definition acceptable (bs : bytes) : bool :=
  let len := Z.of_nat (length bs) in
  let type := nth 0 bs 0 in
  if type =? AODV_RREQ then 24 <=? len
  else if type =? AODV_RREP then 20 <=? len
  else if type =? AODV_RERR then
    (12 <=? len) && negb (nth 3 bs 0 =? 0) && (len =? 4 + 8 * nth 3 bs 0)
  else (type =? AODV_RREP_ACK) && (2 <=? len).

(** An in-place update keeps the length. *)
Lemma update_rreq_length f bs r :
  rreq_of_bytes bs = Some r → length (bytes_of_rreq (f r) ++ drop 24 bs) = length bs.
Proof.
  intros Hl%rreq_of_bytes_length. rewrite length_app, length_drop.
  change (length (bytes_of_rreq (f r))) with 24%nat. lia.
Qed.
Lemma update_rrep_length f bs r :
  rrep_of_bytes bs = Some r → length (bytes_of_rrep (f r) ++ drop 20 bs) = length bs.
Proof.
  intros Hl%rrep_of_bytes_length. rewrite length_app, length_drop.
  change (length (bytes_of_rrep (f r))) with 20%nat. lia.
Qed.

(** [aodv_pkt_check] accepts a payload exactly when it is long enough for its type
    (for a RERR: exactly as long as its destination count says, which is not zero);
    unknown types are rejected, and the payload keeps its length. *)
Theorem check_accepts p bs :
  pkt_ok p → pk_payload p = Some bs → bs ≠ [] →
  ∃ ok bs' st, aodv_pkt_check_payload p bs = Some (ok, bs', st) ∧
    ok = (if acceptable bs then 1 else 0) ∧ length bs' = length bs ∧ (ok = 1 → st = None).
Proof.
  intros Hp Hbs Hne. pose proof (payload_len_u64 _ _ Hp Hbs) as Hlen.
  destruct (po_payload _ Hp _ Hbs) as [Hok _].
  assert (∃ t, aodv_pkt_get_type bs = Some (s8 t) ∧ nth 0 bs 0 = t ∧ is_u8 t) as (t & Ht & Hnth & Hu).
  { destruct bs as [|t bs]; [done|]. exists t. by apply Forall_cons in Hok as [? _]. }
  unfold aodv_pkt_check_payload, acceptable. rewrite Hlen, Ht, Hnth. cbn [mbind option_bind].
  rewrite !s8_type by (done || unfold AODV_RREQ, AODV_RREP, AODV_RERR, AODV_RREP_ACK; lia).
  unfold sizeof_rreq, sizeof_rrep, sizeof_rrep_ack, sizeof_unrecheable_dest.
  change (4 + 8) with 12. set (len := Z.of_nat (length bs)).
  destruct (t =? AODV_RREQ).
  { destruct (Z.leb_spec 24 len) as [Hl|_]; [|by eexists _, _, _].
    destruct (rreq_of_bytes_some _ Hl) as [r Hr]. rewrite (update_rreq_eq _ _ _ Hr).
    eexists _, _, _. split_and!; [done|done|by apply update_rreq_length|done]. }
  destruct (t =? AODV_RREP).
  { destruct (Z.leb_spec 20 len) as [Hl|_]; [|by eexists _, _, _].
    destruct (rrep_of_bytes_some _ Hl) as [r Hr]. rewrite (update_rrep_eq _ _ _ Hr).
    eexists _, _, _. split_and!; [done|done|by apply update_rrep_length|done]. }
  destruct (t =? AODV_RERR).
  { destruct (Z.leb_spec 12 len) as [Hl|_]; [|by eexists _, _, _].
    unfold rerr_of_bytes, sizeof_rerr. fold len. rewrite (proj2 (Z.ltb_ge _ _)) by lia.
    cbn [mbind option_bind er_dest_count]. unfold u8_at.
    destruct (nth 3 bs 0 =? 0); [by eexists _, _, _|]. destruct (len =? _); by eexists _, _, _. }
  destruct (t =? AODV_RREP_ACK); [|by eexists _, _, _]. destruct (2 <=? len); by eexists _, _, _.
Qed.

(** A datagram without payload: the type is read outside the buffer. *)
Theorem empty_datagram_overread msg buf ttl w :
  msg_iov msg = Some buf →
  (if msg_control msg is [] then Some 0 else receive_ttl (msg_control msg)) = Some ttl →
  fails (aodv_process_packet msg 0) OutOfBounds w.
Proof.
  intros Hi Ht.
  assert (wp (aodv_pkt_get msg 0) (λ a w', ∃ p, w_pkts w' !! a = Some p ∧ pk_payload p = Some []) w) as Hget.
  { apply (aodv_pkt_get_wp msg 0 buf ttl); [done|lia|done|]. intros s. eexists.
    split; [apply lookup_insert_eq|done]. }
  apply wp_run in Hget as (a & w' & Hget & p & Ha & Hp).
  unfold fails, aodv_process_packet, mbind, M_bind. rewrite Hget.
  unfold aodv_pkt_check, mbind, M_bind. erewrite payload_eq, read_pkt_eq by done. done.
Qed.

(** The destinations lie inside the buffer when they are all written. *)
Lemma write_dests_inside off dests bs bs' :
  write_dests off dests bs = Some bs' → dests ≠ [] → (off + 8 * length dests ≤ length bs)%nat.
Proof.
  revert off bs. induction dests as [|d dests IH]; [done|]. intros off bs Hw _. cbn [write_dests] in Hw.
  unfold write_at in Hw. change (length (le32 _ ++ le32 _)) with 8%nat in Hw.
  destruct (Nat.leb_spec (off + 8) (length bs)) as [Hle|]; [|done].
  destruct dests as [|d' dests]; [simpl; lia|].
  apply IH in Hw; [|done]. rewrite !length_app, !le32_length, length_take, length_drop in Hw. simpl in Hw |- *. lia.
Qed.

(** C38. [aodv_pkt_build_rerr] writes outside the message it allocates, whatever the
    destinations are, as soon as its count, a [uint8_t], is not zero: its cursor starts 32
    bytes into the message instead of 4.  A count that is a multiple of 256 is zero for it,
    and the message is the header alone, however many destinations there are. *)
Theorem build_rerr_overflows flag dest_count dests p :
  u8 dest_count ≤ Z.of_nat (length dests) →
  aodv_pkt_build_rerr flag dest_count dests p =
    if u8 dest_count =? 0
    then Some (set_pk_payload (Some [AODV_RERR; 128 * (flag mod 2); 0; 0]) (set_pk_payload_len 4 p))
    else None.
Proof.
  intros Hle. unfold aodv_pkt_build_rerr. cbv zeta. destruct (Z.ltb_spec (Z.of_nat (length dests)) (u8 dest_count)); [lia|].
  assert (0 ≤ u8 dest_count) as H0 by (by apply Z.mod_pos_bound).
  destruct (Z.eqb_spec (u8 dest_count) 0) as [->|Hne].
  - rewrite take_0. unfold bytes_of_rerr. cbn [er_type er_reserved2 er_flag er_reserved er_dest_count].
    by rewrite (Z.add_0_l (128 * _)).
  - set (buf := _ ++ replicate _ 0). set (bs := write_dests _ _ buf).
    assert (∀ x, bs = Some x → False) as Hbs; [|by destruct bs as [x|]; [destruct (Hbs x)|]].
    assert (length (take (Z.to_nat (u8 dest_count)) dests) = Z.to_nat (u8 dest_count)) as Hlen
      by (rewrite length_take; lia).
    intros x. unfold bs. intros Hx%write_dests_inside; [|intros Hnil; rewrite Hnil in Hlen; simpl in Hlen; lia].
    rewrite Hlen in Hx. unfold buf, sizeof_rerr, sizeof_unrecheable_dest in Hx.
    rewrite length_app, length_replicate in Hx. simpl length in Hx. lia.
Qed.

(** ** At concrete messages *)

Definition some_pkt : aodv_pkt := AodvPkt None 0 AF_INET (htons AODV_UDP_PORT) everyone DEFAULT_TTL.

Lemma built_rreq_is_received_witness :
  let sent := aodv_pkt_build_rreq 9 0 1 far 0 us 1 some_pkt in
  ∃ bs bs', pk_payload sent = Some bs ∧ aodv_pkt_check_payload sent bs = Some (1, bs', None) ∧
    rreq_of_bytes bs' = Some (AodvRreq AODV_RREQ 0 (9 mod 32) 0 0 1 far 0 us 1).
Proof.
  apply (built_rreq_is_received 9 0 1 far 0 us 1 some_pkt); [done|].
  repeat constructor; vm_compute; congruence.
Defined.

Lemma built_rrep_is_received_witness :
  let sent := aodv_pkt_build_rrep 1 0 2 far 5 us 6000 some_pkt in
  ∃ bs bs', pk_payload sent = Some bs ∧ aodv_pkt_check_payload sent bs = Some (1, bs', None) ∧
    rrep_of_bytes bs' = Some (AodvRrep AODV_RREP 0 (1 mod 4) (0 mod 32) 0 2 far 5 us 6000).
Proof.
  apply (built_rrep_is_received 1 0 2 far 5 us 6000 some_pkt); [done|].
  repeat constructor; vm_compute; congruence.
Defined.

Lemma relay_preserves_bytes_witness :
  (∀ r, rreq_of_bytes (rreq_bytes far) = Some r →
     bytes_of_rreq (aodv_pkt_prepare_rreq (rreq_ntoh r)) ++ drop 24 (rreq_bytes far) = rreq_bytes far) ∧
  (∀ r, rrep_of_bytes (rreq_bytes far) = Some r →
     bytes_of_rrep (aodv_pkt_prepare_rrep (rrep_ntoh r)) ++ drop 20 (rreq_bytes far) = rreq_bytes far).
Proof. apply relay_preserves_bytes. decide_bytes. Defined.

Definition received_rrep : aodv_pkt :=
  AodvPkt (Some rrep_for_us) 20 AF_INET (htons AODV_UDP_PORT) (htonl neighbour) 5.
Lemma received_rrep_ok : pkt_ok received_rrep.
Proof.
  split.
  - intros bs [= <-]. split; [decide_bytes|done].
  - done.
  - done.
  - apply htonl_range.
  - done.
Qed.

Lemma check_accepts_witness :
  ∃ ok bs' st, aodv_pkt_check_payload received_rrep rrep_for_us = Some (ok, bs', st) ∧
    ok = (if acceptable rrep_for_us then 1 else 0) ∧ length bs' = length rrep_for_us ∧ (ok = 1 → st = None).
Proof. apply check_accepts; [apply received_rrep_ok|done|done]. Defined.

Lemma empty_datagram_overread_witness :
  fails (aodv_process_packet (from_neighbour []) 0) OutOfBounds waiting_daemon.
Proof. by apply (empty_datagram_overread _ [] 5). Defined.

(** One destination, and 256. *)
Lemma build_rerr_overflows_witness :
  aodv_pkt_build_rerr 0 1 [UnrecheableDest far 5] some_pkt = None ∧
  (pk_payload <$> aodv_pkt_build_rerr 1 256 (replicate 256 (UnrecheableDest far 5)) some_pkt) =
    Some (Some [AODV_RERR; 128; 0; 0]).
Proof.
  split.
  - by rewrite (build_rerr_overflows 0 1 [UnrecheableDest far 5] some_pkt).
  - by rewrite (build_rerr_overflows 1 256 (replicate 256 (UnrecheableDest far 5)) some_pkt).
Defined.
