(* ===== verification/TimerProps.v ===== *)
(** * Properties of the main loop, the timer queue and the command socket *)

From S2P Require Export WireProps.

Section main_props.
Context {E : Env} {EO : EnvOk E}.
Implicit Types w : world.

(** C26. The loop of [main] refines the step relation of the daemon.  A daemon that was told
    to end does nothing.  For any other, and whatever the descriptors report, as long as the
    datagrams and packets are well formed, the two nested loops are the sequence of their
    events (what each wake-up reports, in the order of [main], [get_next_alarm_run] after
    each, the alarms after each round), faults included; and when that commits no fault it
    is a run of single steps in which the kernel handed over the packets of all the
    wake-ups, each once; the state stays well formed and every packet is accounted for.
    (No run without a fault ends early: the commands that end the daemon are faults, C40.) *)
Theorem main_loop_refines_steps rounds next w :
  world_ok w → Forall (Forall ready_ok) rounds →
  if md_end (w_data w) then main_loop rounds next w = Ok next w
  else main_loop rounds next w = loop_do_all (concat (round_events <$> rounds)) next w ∧
    ∀ r w', main_loop rounds next w = Ok r w' →
      ∃ seen, seen ≡ₚ concat (handed_over <$> concat rounds) ∧
        daemon_run w seen w' ∧ world_ok w' ∧ ∃ lost, accounts seen lost w w'.
Proof.
  intros Hw Hall. destruct (md_end (w_data w)) eqn:He.
  { destruct rounds; [done|]. simpl. unfold mbind, M_bind, data, gets. by rewrite He. }
  split; [by apply main_loop_do|]. intros r w'. rewrite main_loop_do by done.
  intros (seen & Hp & Hr)%loop_do_all_run; [|by apply rounds_arrive].
  exists seen. destruct (daemon_run_spec _ _ _ Hw Hr) as (Hw' & _ & Hacc).
  split; [by rewrite Hp, rounds_packets|]. done.
Qed.

(** In a round in which [select] reports nothing before the first alarm exists
    (its first call is interrupted), [main] reads [next] without a value. *)
Theorem first_round_reads_uninitialised w :
  al_root (w_alarms w) = [] → fails (main_round [] None) Uninitialised w.
Proof. apply main_round_uninitialised. Qed.

(** [add_alarm] (re)arms the alarm at the current time plus the given one: it is
    moved in the queue behind everything that is not due later and before everything
    that is, the queue stays sorted, and no other alarm moves. *)
Theorem add_alarm_keeps_order id sc usc b w :
  alarms_ok (w_alarms w) → al_blocks (w_alarms w) !! id = Some b → 0 ≤ usc < 1000000 →
  wp (add_alarm id sc usc) (λ _ w', alarms_ok (w_alarms w') ∧
    let at_time := usecs (env_now (w_tick w)) + sc * 1000000 + usc in
    usecs (key (w_alarms w') id) = at_time ∧
    (∀ x, x ≠ id → key (w_alarms w') x = key (w_alarms w) x) ∧
    ∃ l1 l2, unlink id (al_root (w_alarms w)) = l1 ++ l2 ∧ al_root (w_alarms w') = l1 ++ id :: l2 ∧
      (∀ x, x ∈ l1 → usecs (key (w_alarms w) x) ≤ at_time) ∧
      (∀ x, x ∈ l2 → at_time < usecs (key (w_alarms w) x))) w.
Proof.
  intros Hok Hb Hu. apply (wp_add_alarm (St := world) id sc usc b); [done..|].
  intros now w1 A [= <- <-] Hnow [Hbl (l1 & l2 & Hun & Hroot & H1 & H2)] HA. simpl.
  assert (timeval_ok (timeradd (Timeval sc usc) (env_now (w_tick w)))) as Htv by by apply timeradd_ok.
  assert (usecs (timeradd (Timeval sc usc) (env_now (w_tick w))) =
    usecs (env_now (w_tick w)) + sc * 1000000 + usc) as Hus
    by (rewrite timeradd_usecs; unfold usecs at 1; simpl; lia).
  assert (∀ x, x ∈ l1 ++ l2 → timeval_ok (key (w_alarms w) x)) as Hkey.
  { intros x Hx. rewrite <-Hun in Hx. apply elem_of_unlink in Hx as [_ Hx].
    destruct (ok_root_block _ x Hok Hx) as [bx Hbx]. unfold key. rewrite Hbx. by apply (ok_times _ Hok x). }
  split_and!; [done| | |].
  - unfold key. by rewrite Hbl, lookup_insert_eq.
  - intros x Hx. unfold key. by rewrite Hbl, lookup_insert_ne.
  - exists l1, l2. split_and!; [done|done| |].
    + intros x Hx. rewrite <-Hus. apply Z.nlt_ge. intros Hlt%timer_lt_spec; [|done|apply Hkey; set_solver].
      rewrite H1 in Hlt by done. done.
    + intros x Hx. rewrite <-Hus. apply timer_lt_spec; [done|apply Hkey; set_solver|by apply H2].
Qed.

(** [get_next_alarm_run] finds the alarm that is due first and answers how long it
    still takes, zero when it is overdue; it answers nothing exactly when no alarm is
    armed. *)
Theorem next_run_is_the_earliest w :
  world_ok w → (∀ id, id ∈ al_root (w_alarms w) → tv_sec (key (w_alarms w) id) ≠ LONG_MAX) →
  wp get_next_alarm_run (λ next w', w' = set_w_tick (S (w_tick w)) w ∧
    match next with
    | None => al_root (w_alarms w) = []
    | Some t => ∃ id, id ∈ al_root (w_alarms w) ∧
        (∀ x, x ∈ al_root (w_alarms w) → usecs (key (w_alarms w) id) ≤ usecs (key (w_alarms w) x)) ∧
        usecs t = Z.max 0 (usecs (key (w_alarms w) id) - usecs (env_now (w_tick w)))
    end) w.
Proof.
  intros Hw Hmax. apply wp_bind, wp_ext, wp_bind, wp_gets, wp_bind. simpl.
  rewrite (in_live_tree_ok (w_alarms w)) by apply Hw. apply wp_ret.
  pose proof (wo_alarms _ Hw) as Hok. pose proof (ok_sorted _ Hok) as Hs.
  destruct (al_root (w_alarms w)) as [|this rest] eqn:Hroot; [by apply wp_ret|].
  assert (∀ x, x ∈ this :: rest → timeval_ok (key (w_alarms w) x)) as Hkey.
  { intros x Hx. rewrite <-Hroot in Hx. destruct (ok_root_block _ x Hok Hx) as [bx Hbx].
    unfold key. rewrite Hbx. by apply (ok_times _ Hok x). }
  destruct (ok_root_block _ this Hok) as [b Hb]; [rewrite Hroot; left|].
  assert (key (w_alarms w) this = ab_tv b) as Hk by (unfold key; by rewrite Hb).
  apply wp_bind, wp_on_alarms. unfold wp at 1, read_block. simpl. rewrite Hb. simpl.
  apply wp_ret. split; [by destruct w|].
  unfold calculate_next_run. rewrite (proj2 (Z.eqb_neq _ _)); [|rewrite <-Hk; apply Hmax; left].
  simpl. exists this. split_and!; [left| |].
  - intros x [->|Hx]%elem_of_cons; [done|]. apply StronglySorted_inv in Hs as [_ Hs].
    rewrite Forall_forall in Hs. specialize (Hs x Hx). apply Z.nlt_ge. intros Hlt.
    rewrite (proj2 (timer_lt_spec _ _ (Hkey x (list_elem_of_further _ _ _ Hx)) (Hkey this (list_elem_of_here _ _)))) in Hs;
      done.
  - rewrite Hk. unfold timer_gt. pose proof (Hkey this (list_elem_of_here _ _)) as Ht. rewrite Hk in Ht.
    pose proof (timer_lt_spec (env_now (w_tick w)) (ab_tv b) (env_now_ok _) Ht) as Hlt.
    destruct (timer_lt _ _).
    + rewrite timersub_usecs. pose proof (proj1 Hlt eq_refl). lia.
    + assert (¬ usecs (env_now (w_tick w)) < usecs (ab_tv b)) by (rewrite <-Hlt; done).
      unfold usecs at 1; simpl. lia.
Qed.

(** C40. [showroutes] (up to 48 routes), [showstatistics], [cleanstatistics] and unknown
    commands stay inside their buffers and do nothing but send their answer (and clean
    the counters); what the client receives starts with the whole answer: one line per
    route of the table, in its order, or the line of the counters.  The acknowledgement
    of [kill] and [restart] is sent in one piece of 1024 bytes from a buffer of four. *)
Theorem commands_and_their_buffers command w :
  world_ok w →
  (command_safe w command = true →
     comm_interface_process_command command w = Ok tt (answered command w) ∧
     ∀ text, command_answer w command = Some text →
       String.prefix text (foldr String.append "" (pieces text stats_size (strlen text))) = true) ∧
  (is_command MSG_KILL command = true ∨ is_command MSG_RESTART command = true →
     fails (comm_interface_process_command command) OutOfBounds w).
Proof.
  intros Hw. split; [|apply comm_command_overread]. intros Hs.
  split; [by apply comm_command_spec|]. intros text _. apply pieces_text.
Qed.
End main_props.

(** ** A host whose callbacks may do anything to the queue *)

(** The call of an alarm, and whether the alarm was in the queue when it was made. *)
Record recorder := Recorder {
  rc_alarms : alarms;
  rc_now : timeval;
  rc_calls : list ((alarm_fn * alarm_id * option addr) * bool) }.

#[export] Instance recorder_clock : Clock recorder := λ s, Ok (rc_now s) s.
#[export] Instance recorder_host : AlarmHost recorder := {
  host_alarms := rc_alarms;
  host_set_alarms A s := Recorder A (rc_now s) (rc_calls s) }.

(** What the callbacks make of the queue. *)
Definition callbacks := alarm_fn → alarm_id → option addr → alarms → alarms.

Definition record_call (cb : callbacks) (f : alarm_fn) (id : alarm_id) (d : option addr) : M recorder unit :=
  modify (λ s, Recorder (cb f id d (rc_alarms s)) (rc_now s)
    (rc_calls s ++ [((f, id, d), bool_decide (id ∈ al_root (rc_alarms s)))])).

(** The call an alarm asks for. *)
Definition call_of (A : alarms) (id : alarm_id) : option (alarm_fn * alarm_id * option addr) :=
  (λ b, (ab_function b, id, ab_data b)) <$> al_blocks A !! id.

(** Whether an alarm is due at [now]; the due ones, the latest first. *)
Definition is_due (A : alarms) (now : timeval) (id : alarm_id) : bool := negb (timer_lt now (key A id)).
Definition due_alarms (A : alarms) (now : timeval) : list alarm_id :=
  reverse (filter (λ id, is_due A now id = true) (al_root A)).

(** One alarm after the other leaves the queue, and then its callback acts on the queue. *)
Definition fire (cb : callbacks) (A : alarms) (id : alarm_id) : alarms :=
  match al_blocks A !! id with
  | Some b => cb (ab_function b) id (ab_data b) (disarm id b A)
  | None => A
  end.
Definition fire_all (cb : callbacks) (ids : list alarm_id) (A : alarms) : alarms := foldl (fire cb) A ids.

(** A callback keeps the queue well formed and neither stops nor changes another alarm that
    is in it: it may arm alarms, its own one too. *)
Definition considerate (cb : callbacks) : Prop := ∀ f id d A,
  alarms_ok A → id ∉ al_root A → is_Some (al_blocks A !! id) → alarms_ok (cb f id d A) ∧
  ∀ x, x ∈ al_root A → x ∈ al_root (cb f id d A) ∧ call_of (cb f id d A) x = call_of A x.

(** The state of the loop over the expired alarms: the ones before [this] are called. *)
Record ran (cb : callbacks) (s0 : recorder) (before after : list alarm_id) (s : recorder) : Prop := {
  ran_now : rc_now s = rc_now s0;
  ran_ok : alarms_ok (rc_alarms s);
  ran_alarms : rc_alarms s = fire_all cb before (rc_alarms s0);
  ran_calls : rc_calls s = rc_calls s0 ++ ((λ c, (c, false)) <$> omap (call_of (rc_alarms s0)) before);
  ran_pending id : id ∈ after → id ∈ al_root (rc_alarms s) ∧ call_of (rc_alarms s) id = call_of (rc_alarms s0) id }.

Lemma run_recorded cb s0 before this after s :
  considerate cb → NoDup (this :: after) → ran cb s0 before (this :: after) s →
  wp (on_alarms (erase_and_clear this);;
      b ← on_alarms (read_block this);
      record_call cb (ab_function b) this (ab_data b)) (λ _, ran cb s0 (before ++ [this]) after) s.
Proof.
  intros Hcb [Hni _]%NoDup_cons [H1 Hok H2 H3 H4]. destruct (H4 this) as [Hin Hcall]; [left|].
  destruct (ok_root_block _ this Hok Hin) as [b Hb].
  apply wp_bind, wp_on_alarms. unfold wp at 1. simpl.
  rewrite (erase_and_clear_eq _ _ b) by (done || by apply ok_tree_alive).
  apply wp_bind, wp_on_alarms. unfold wp at 1, read_block. simpl. rewrite lookup_insert_eq. simpl.
  set (A := disarm this b (rc_alarms s)).
  assert (this ∉ al_root A) as Hout by (simpl; rewrite elem_of_unlink; by intros []).
  destruct (Hcb (ab_function b) this (ab_data b) A) as [Hok' Hkeep];
    [by apply disarm_ok|done|simpl; rewrite lookup_insert_eq; by eexists|].
  split; simpl.
  - done.
  - exact Hok'.
  - unfold fire_all. rewrite foldl_app. simpl. fold (fire_all cb before (rc_alarms s0)). rewrite <-H2.
    unfold fire. by rewrite Hb.
  - change (Alarms _ _) with A. rewrite (bool_decide_eq_false_2 _ Hout), H3, <-(assoc_L (++)), omap_app, fmap_app.
    simpl. rewrite <-Hcall. unfold call_of. by rewrite Hb.
  - intros id Hid. assert (id ≠ this) as Hne by (by intros ->). destruct (H4 id) as [Hin' Hc]; [by right|].
    destruct (Hkeep id) as [Hk1 Hk2]; [by apply elem_of_unlink|]. split; [exact Hk1|].
    rewrite <-Hc. change (Alarms _ _) with A. rewrite Hk2. unfold call_of. simpl. by rewrite lookup_insert_ne.
Qed.

Lemma omap_calls A l : (∀ id, id ∈ l → is_Some (al_blocks A !! id)) → length (omap (call_of A) l) = length l.
Proof.
  induction l as [|x l IH]; intros Hl; simpl; [done|]. destruct (Hl x) as [b Hb]; [left|].
  unfold call_of at 1. rewrite Hb. simpl. f_equal. apply IH. intros id Hid. apply Hl. by right.
Qed.

(** C39. [do_alarm_run], with callbacks that may do anything to the queue but spoil it or
    touch another alarm in it (they may arm alarms, their own one too): it calls the
    callback of every alarm that is due at its reading of the clock, each exactly once and
    with its own data, the latest first; each is taken out of the queue before its call and
    finds the queue without it; what the callbacks arm does not run; the queue afterwards is
    exactly what these steps make of it, every alarm that was not due is still in it, and
    the answer is the time to its first one. *)
Theorem due_alarms_run_once cb s :
  alarms_ok (rc_alarms s) → considerate cb →
  let due := due_alarms (rc_alarms s) (rc_now s) in
  wp (do_alarm_run (record_call cb)) (λ next s',
    rc_calls s' = rc_calls s ++ ((λ c, (c, false)) <$> omap (call_of (rc_alarms s)) due) ∧
    length (omap (call_of (rc_alarms s)) due) = length due ∧
    rc_alarms s' = fire_all cb due (rc_alarms s) ∧ alarms_ok (rc_alarms s') ∧
    (∀ id, id ∈ al_root (rc_alarms s) → is_due (rc_alarms s) (rc_now s) id = false → id ∈ al_root (rc_alarms s')) ∧
    next = match al_root (rc_alarms s') with
           | [] => None
           | this :: _ => calculate_next_run (key (rc_alarms s') this) (rc_now s)
           end) s.
Proof.
  intros Hok Hcb due. destruct (collect_expired_spec (rc_alarms s) (rc_now s) Hok) as (l1 & l2 & Hroot & Hcol & H1 & H2).
  pose proof (ok_nodup _ Hok) as Hnd. rewrite Hroot in Hnd. apply NoDup_app in Hnd as (Hnd1 & Hdis & Hnd2).
  assert (due = reverse l1) as Hdue.
  { unfold due, due_alarms. f_equal. rewrite Hroot. apply filter_left; intros x Hx; unfold is_due;
      [by rewrite H1|by rewrite H2]. }
  assert (NoDup (reverse l1 ++ l2)) as Hnd by (rewrite reverse_Permutation; by apply NoDup_app).
  apply wp_bind. unfold wp at 1, gettimeofday, recorder_clock. apply wp_bind, wp_gets, wp_bind. simpl.
  rewrite in_live_tree_ok, Hcol by done. apply wp_ret, wp_bind.
  apply (wp_for_each (λ before after, ran cb s before (after ++ l2))).
  - split; [done|done|done|by rewrite app_nil_r|]. intros id Hid. split; [|done].
    rewrite Hroot. rewrite reverse_Permutation in Hid. done.
  - intros pre x post s' Hsplit Hran. apply run_recorded; [done| |exact Hran].
    rewrite Hsplit, <-(assoc_L (++)) in Hnd. by apply NoDup_app in Hnd as (_ & _ & Hnd).
  - intros s' [R1 Rok R2 R3 R4].
    assert (wp get_next_alarm_run (λ next s'', s'' = s' ∧ next =
      match al_root (rc_alarms s') with
      | [] => None
      | this :: _ => calculate_next_run (key (rc_alarms s') this) (rc_now s')
      end) s') as Hnext.
    { unfold get_next_alarm_run. apply wp_bind. unfold wp at 1, gettimeofday, recorder_clock.
      apply wp_bind, wp_gets, wp_bind. simpl. rewrite in_live_tree_ok by done. apply wp_ret.
      destruct (al_root (rc_alarms s')) as [|this rest] eqn:Hr; [by apply wp_ret|].
      destruct (ok_root_block _ this Rok) as [b Hb]; [rewrite Hr; left|].
      apply wp_bind, wp_on_alarms. unfold wp at 1, read_block. simpl. rewrite Hb. simpl.
      apply wp_ret. split; [by destruct s'|]. unfold key. by rewrite Hb. }
    eapply wp_mono; [exact Hnext|]. intros next s'' [-> ->]. rewrite Hdue, <-R1. split_and!; [done| |done|done| |done].
    + apply omap_calls. intros id Hid. rewrite elem_of_reverse in Hid.
      destruct (ok_root_block _ id Hok) as [b Hb]; [rewrite Hroot; set_solver|]. by exists b.
    + intros id Hid Hnot. apply R4. rewrite Hroot in Hid. apply elem_of_app in Hid as [Hid|Hid]; [|done].
      unfold is_due in Hnot. rewrite R1, H1 in Hnot by done. done.
Qed.

(** ** At concrete states *)

(** The wake-ups of one round that take [fresh_daemon] to [routed_daemon]. *)
Definition first_round : list ready :=
  [Ready (Some (Some [captured 7 NF_IP_LOCAL_OUT us far])) None None;
   Ready None (Some (Some (from_neighbour rrep_for_us, 20))) (Some (Some MSG_SHOW_ROUTES))].
Definition after_first_round : world := final (main_loop [first_round] None) fresh_daemon.

Lemma first_round_ok : Forall (Forall ready_ok) [first_round].
Proof.
  apply Forall_singleton, Forall_cons; split; [|apply Forall_singleton]; split; simpl; try done.
  - intros msgs [= <-]. apply Forall_singleton. eexists _, us, far, 6. by apply captured_ip.
  - intros r [= <-]. eexists _, 5. apply (from_neighbour_ok rrep_for_us); [|done]. decide_bytes.
Qed.

Lemma main_loop_refines_steps_witness :
  main_loop [first_round] None fresh_daemon = loop_do_all (round_events first_round ++ []) None fresh_daemon ∧
  ∃ seen, seen ≡ₚ [captured 7 NF_IP_LOCAL_OUT us far] ∧
    daemon_run fresh_daemon seen after_first_round ∧ world_ok after_first_round ∧
    ∃ lost, accounts seen lost fresh_daemon after_first_round.
Proof.
  assert (∃ r, main_loop [first_round] None fresh_daemon = Ok r after_first_round) as [r Hrun]
    by (eexists; vm_compute; reflexivity).
  assert (md_end (w_data fresh_daemon) = false) as He by (vm_compute; reflexivity).
  pose proof (main_loop_refines_steps [first_round] None fresh_daemon fresh_daemon_ok first_round_ok) as Hmain.
  rewrite He in Hmain. destruct Hmain as [Heq Hall].
  split; [exact Heq|]. exact (Hall r after_first_round Hrun).
Defined.

Lemma first_round_reads_uninitialised_witness : fails (main_round [] None) Uninitialised fresh_daemon.
Proof. by apply first_round_reads_uninitialised. Defined.

Lemma add_alarm_keeps_order_witness :
  let id := AL_route route_far in let w := routed_daemon in
  wp (add_alarm id 5 0) (λ _ w', alarms_ok (w_alarms w') ∧
    let at_time := usecs (env_now (w_tick w)) + 5 * 1000000 + 0 in
    usecs (key (w_alarms w') id) = at_time ∧
    (∀ x, x ≠ id → key (w_alarms w') x = key (w_alarms w) x) ∧
    ∃ l1 l2, unlink id (al_root (w_alarms w)) = l1 ++ l2 ∧ al_root (w_alarms w') = l1 ++ id :: l2 ∧
      (∀ x, x ∈ l1 → usecs (key (w_alarms w) x) ≤ at_time) ∧
      (∀ x, x ∈ l2 → at_time < usecs (key (w_alarms w) x))) w.
Proof.
  apply (add_alarm_keeps_order (AL_route route_far) 5 0 far_block);
    [apply routed_daemon_ok|vm_compute; reflexivity|done].
Defined.

Lemma next_run_is_the_earliest_witness :
  let w := routed_daemon in
  wp get_next_alarm_run (λ next w', w' = set_w_tick (S (w_tick w)) w ∧
    match next with
    | None => al_root (w_alarms w) = []
    | Some t => ∃ id, id ∈ al_root (w_alarms w) ∧
        (∀ x, x ∈ al_root (w_alarms w) → usecs (key (w_alarms w) id) ≤ usecs (key (w_alarms w) x)) ∧
        usecs t = Z.max 0 (usecs (key (w_alarms w) id) - usecs (env_now (w_tick w)))
    end) w.
Proof.
  apply next_run_is_the_earliest; [apply routed_daemon_ok|].
  assert (Forall (λ id, tv_sec (key (w_alarms routed_daemon) id) ≠ LONG_MAX) (al_root (w_alarms routed_daemon)))
    as Hall by (apply (bool_decide_unpack _); vm_compute; exact I).
  intros id. rewrite Forall_forall in Hall. apply Hall.
Defined.

(** Callbacks that arm their own alarm again, at [tv]. *)
Definition rearm (tv : timeval) : callbacks := λ _ id _ A,
  match al_blocks A !! id with
  | Some b => match __add_alarm id (Alarms (<[id := with_tv tv (unlinked b)]> (al_blocks A)) (unlink id (al_root A))) with
              | Ok _ A' => A'
              | Fault _ => A
              end
  | None => A
  end.

Lemma rearm_considerate tv : timeval_ok tv → considerate (rearm tv).
Proof.
  intros Htv f id d A Hok Hid [b Hb]. unfold rearm. rewrite Hb.
  pose proof (link_armed A id tv b Hok Hb) as Hl. unfold wp in Hl.
  destruct (__add_alarm _ _) as [[] A'|]; [|done]. split; [by eapply armed_ok|].
  destruct Hl as (Hbl & l1 & l2 & Hun & Hroot & _). intros x Hx.
  assert (x ≠ id) as Hne by (by intros ->). split.
  - assert (x ∈ unlink id (al_root A)) as Hin by by apply elem_of_unlink. rewrite Hun in Hin. rewrite Hroot. set_solver.
  - unfold call_of. by rewrite Hbl, lookup_insert_ne.
Qed.

Definition route_recorder : recorder := Recorder (w_alarms routed_daemon) (Timeval 5000 0) [].
Lemma due_alarms_run_once_witness :
  let s := route_recorder in let cb := rearm (Timeval 5001 0) in
  let due := due_alarms (rc_alarms s) (rc_now s) in
  length due = 2%nat ∧
  wp (do_alarm_run (record_call cb)) (λ next s',
    rc_calls s' = rc_calls s ++ ((λ c, (c, false)) <$> omap (call_of (rc_alarms s)) due) ∧
    length (omap (call_of (rc_alarms s)) due) = length due ∧
    rc_alarms s' = fire_all cb due (rc_alarms s) ∧ alarms_ok (rc_alarms s') ∧
    (∀ id, id ∈ al_root (rc_alarms s) → is_due (rc_alarms s) (rc_now s) id = false → id ∈ al_root (rc_alarms s')) ∧
    next = match al_root (rc_alarms s') with
           | [] => None
           | this :: _ => calculate_next_run (key (rc_alarms s') this) (rc_now s)
           end) s.
Proof.
  intros s cb due. split; [vm_compute; reflexivity|].
  apply due_alarms_run_once; [apply routed_daemon_ok|by apply rearm_considerate].
Defined.

Lemma commands_and_their_buffers_witness :
  let w := routed_daemon in
  (command_safe w MSG_SHOW_ROUTES = true →
     comm_interface_process_command MSG_SHOW_ROUTES w = Ok tt (answered MSG_SHOW_ROUTES w) ∧
     ∀ text, command_answer w MSG_SHOW_ROUTES = Some text →
       String.prefix text (foldr String.append "" (pieces text stats_size (strlen text))) = true) ∧
  (is_command MSG_KILL MSG_SHOW_ROUTES = true ∨ is_command MSG_RESTART MSG_SHOW_ROUTES = true →
     fails (comm_interface_process_command MSG_SHOW_ROUTES) OutOfBounds w).
Proof. apply commands_and_their_buffers, routed_daemon_ok. Defined.
