(* ===== verification/TreeProps.v ===== *)
(** * Properties: the red-black tree and the timer queue on it

    What rbtree.c does to a tree in memory, and that the queue of alarm.c on its nodes is
    the sequence that the rest of the development works with. *)

From S2P Require Export RbTreeSpec AlarmTreeSpec.

Section states.
Context {A : Type} `{Countable A}.

#[export] Instance rb_node_eq_dec : EqDecision (rb_node A).
Proof. solve_decision. Defined.

#[export] Instance stored_dec nodes p (t : tree A) : Decision (stored nodes p t).
Proof. revert p. induction t as [|c l IHl a r IHr]; intros p; simpl; apply _. Defined.

#[export] Instance holds_dec (s : rb_state A) t : Decision (holds s t).
Proof. unfold holds. apply _. Defined.

(** C23. Insertion: [rb_link_node] puts a node of the memory that is not in the tree into a
    hole of a red-black tree, and [rb_insert_color] then returns without a fault and leaves
    a red-black tree in memory whose order is the old one with the node at the hole; its
    height is at most twice the logarithm of its size, and no other node changes. *)
Theorem insertion_keeps_red_black (s : rb_state A) (a : A) k :
  holds s (plug Leaf k) → red_black (plug Leaf k) →
  is_Some (rs_nodes s !! a) → a ∉ inorder (plug Leaf k) →
  wp (rb_link_node a (parent_of k) (link_of k);; rb_insert_color a)
    (λ _ s', (∃ t, holds s' t ∧ red_black t ∧ inorder t = behind Rgt k ++ a :: ahead Rgt k ∧
        (depth t ≤ 2 * Nat.log2 (S (length (inorder t))))%nat) ∧
      ∀ b, b ∉ inorder (plug Leaf k) → b ≠ a → rs_nodes s' !! b = rs_nodes s !! b) s.
Proof.
  intros Hh Hrb Hn Ha. eapply wp_mono; [eapply (wp_tree_loose _ _ a s _ Hh Hn Ha), rb_insert_spec, Hrb|].
  intros _ s' [(h & (t & h1 & h2 & -> & Hd & [Hrb' Ho] & Ht) & Hle) Hsame]. split; [|exact Hsame].
  exists t. split_and!; [|done..|by apply red_black_depth]. eapply whole_holds; [exact Ht|].
  etrans; [|exact Hle]. by apply map_union_subseteq_r.
Qed.

(** C24. Deletion: [rb_erase] of a node of a red-black tree returns without a fault and
    leaves a red-black tree with the other nodes in their order; no node outside the tree
    changes. *)
Theorem erasure_keeps_red_black (s : rb_state A) (a : A) t :
  holds s t → red_black t → a ∈ inorder t →
  wp (RbTree.rb_erase a)
    (λ _ s', (∃ t', holds s' t' ∧ red_black t' ∧ inorder t' = unlink a (inorder t)) ∧
      ∀ b, b ∉ inorder t → rs_nodes s' !! b = rs_nodes s !! b) s.
Proof.
  intros Hh Hrb Ha. eapply wp_mono; [eapply (wp_tree _ _ _ _ Hh), (rb_erase_spec a t Hrb Ha)|].
  intros _ s' [(h & (h0 & h3 & -> & Hd0 & _ & (t' & h1 & h2 & -> & Hd & [Hrb' Ho] & Ht)) & Hle) Hsame].
  split; [|exact Hsame]. exists t'. split_and!; [|done..]. eapply whole_holds; [exact Ht|].
  etrans; [|exact Hle]. etrans; [by apply map_union_subseteq_r|by apply map_union_subseteq_r].
Qed.

(** A function that leaves the tree alone, said of runs. *)
Lemma wp_look {X} (m : M (rb_state A) X) (v : X) s t :
  holds s t → twp m (λ v' t', t' = t ∧ v' = v) t → wp m (λ v' s', v' = v ∧ holds s' t) s.
Proof.
  intros Hh Hm. eapply wp_mono; [by apply (wp_tree _ _ _ _ Hh Hm)|].
  intros v' s' [(h & (t' & h1 & h2 & -> & Hd & [-> ->] & Ht) & Hle) _]. split; [done|].
  eapply whole_holds; [exact Ht|]. etrans; [|exact Hle]. by apply map_union_subseteq_r.
Qed.

(** C25. Walks: on any tree in memory [rb_first] and [rb_last] return the ends of the order,
    [rb_next] and [rb_prev] of a node its neighbours, [NULL] where there is none; all four
    return, whatever the shape of the tree, and leave it as it is. *)
Theorem walks_follow_the_order (s : rb_state A) (t : tree A) :
  holds s t →
  wp rb_first (λ v s', v = head (inorder t) ∧ holds s' t) s ∧
  wp rb_last (λ v s', v = last (inorder t) ∧ holds s' t) s ∧
  ∀ l1 a l2, inorder t = l1 ++ a :: l2 →
    wp (rb_next a) (λ v s', v = head l2 ∧ holds s' t) s ∧
    wp (rb_prev a) (λ v s', v = last l1 ∧ holds s' t) s.
Proof.
  intros Hh. split_and!.
  - apply wp_look; [done|]. apply (extreme_spec Lft).
  - apply wp_look; [done|]. rewrite -head_reverse. change (inorder t) with (walk (opp Lft) t).
    rewrite -walk_reverse. apply (extreme_spec Rgt).
  - intros l1 a l2 Ht. split; (apply wp_look; [done|]).
    + by apply (step_spec Rgt t a l1 l2).
    + rewrite -head_reverse. apply (step_spec Lft t a (reverse l2) (reverse l1)).
      rewrite (walk_reverse Rgt) -/(inorder t) Ht reverse_app reverse_cons -app_assoc. done.
Qed.
End states.

(** C22. The timer queue on the nodes implements the sequence of alarms: on related states,
    whenever a function of alarm.h on the in-order sequence returns, the function on the
    red-black tree in memory returns the same result (no null dereference, no endless
    loop, no node lost) and related states.  For [process_alarms] this holds with any
    callbacks that are related in the same way.  The time given to [add_alarm] is normalised,
    less than a million of microseconds, as every caller's is; [init_alarm], which makes a
    block known, is not among these functions. *)
Theorem alarm_tree_implements_the_sequence (C : Type) `{Clock C} : clock_ok (C := C) →
  (∀ id sc usc, timeval_ok (Timeval sc usc) →
    simulates (C := C) (AlarmTree.add_alarm id sc usc) (Alarm.add_alarm id sc usc)) ∧
  (∀ id, simulates (C := C) (AlarmTree.del_alarm id) (Alarm.del_alarm id)) ∧
  (∀ id, simulates (C := C) (AlarmTree.alarm_pending id) (Alarm.alarm_pending id)) ∧
  simulates (C := C) AlarmTree.get_next_alarm_run Alarm.get_next_alarm_run ∧
  ∀ runT runA, (∀ f id d, simulates (C := C) (runT f id d) (runA f id d)) → ∀ next,
    simulates (AlarmTree.process_alarms runT next) (Alarm.process_alarms runA next).
Proof.
  intros Hclk. split_and!.
  - intros id sc usc. by apply add_alarm_simulates.
  - apply del_alarm_simulates.
  - apply alarm_pending_simulates.
  - apply get_next_simulates.
  - intros runT runA Hrun next. unfold AlarmTree.process_alarms, Alarm.process_alarms.
    destruct (negb _); [by apply do_alarm_run_simulates|apply simulates_ret].
Qed.

(** ** Witnesses *)

(** Three nodes linked one after the other, the fourth one loose. *)
Definition three_nodes : rb_state positive :=
  match (rb_link_node 1%positive None LinkRoot;; rb_insert_color 1%positive;;
         rb_link_node 2%positive (Some 1%positive) (LinkChild Rgt 1%positive);; rb_insert_color 2%positive;;
         rb_link_node 3%positive (Some 2%positive) (LinkChild Rgt 2%positive);; rb_insert_color 3%positive)
        (RbState {[4%positive := RbNode 7 None None]} None) with
  | Ok _ s => s
  | Fault _ => RbState ∅ None
  end.

Definition three_tree : tree positive :=
  Node Black (Node Red Leaf 1%positive Leaf) 2%positive (Node Red Leaf 3%positive Leaf).
Definition fourth_hole : list (frame positive) :=
  [Frame Rgt Red 3%positive Leaf; Frame Rgt Black 2%positive (Node Red Leaf 1%positive Leaf)].

Lemma three_tree_red_black : red_black three_tree.
Proof. exists 1%nat. repeat econstructor. Qed.

Lemma insertion_keeps_red_black_witness :
  plug Leaf fourth_hole = three_tree ∧
  wp (rb_link_node 4%positive (Some 3%positive) (LinkChild Rgt 3%positive);; rb_insert_color 4%positive)
    (λ _ s', ∃ t, holds s' t ∧ red_black t ∧ inorder t = [1; 2; 3; 4]%positive) three_nodes.
Proof.
  split; [reflexivity|]. eapply wp_mono.
  - apply (insertion_keeps_red_black three_nodes 4%positive fourth_hole).
    + by apply (bool_decide_unpack _); vm_compute.
    + apply three_tree_red_black.
    + by exists (RbNode 7 None None).
    + by apply (bool_decide_unpack _); vm_compute.
  - intros _ s' [(t & Hh & Hrb & Ho & _) _]. exists t. by split_and!.
Defined.

Lemma erasure_keeps_red_black_witness :
  wp (RbTree.rb_erase 2%positive)
    (λ _ s', ∃ t, holds s' t ∧ red_black t ∧ inorder t = [1; 3]%positive) three_nodes.
Proof.
  eapply wp_mono.
  - apply (erasure_keeps_red_black three_nodes 2%positive three_tree).
    + by apply (bool_decide_unpack _); vm_compute.
    + apply three_tree_red_black.
    + by apply (bool_decide_unpack _); vm_compute.
  - intros _ s' [(t & Hh & Hrb & Ho) _]. exists t. by split_and!.
Defined.

Lemma walks_follow_the_order_witness :
  wp rb_first (λ v _, v = Some 1%positive) three_nodes ∧
  wp (rb_next 2%positive) (λ v _, v = Some 3%positive) three_nodes.
Proof.
  assert (holds three_nodes three_tree) as Hh by (by apply (bool_decide_unpack _); vm_compute).
  destruct (walks_follow_the_order three_nodes three_tree Hh) as (Hf & _ & Hn).
  destruct (Hn [1%positive] 2%positive [3%positive] eq_refl) as [Hnext _]. split.
  - eapply wp_mono; [exact Hf|]. by intros v s' [-> _].
  - eapply wp_mono; [exact Hnext|]. by intros v s' [-> _].
Defined.

(** A queue with one alarm out of the tree, and a clock that stands still. *)
#[local] Instance still_clock : Clock unit := λ c, Ok (Timeval 10 0) c.

Definition one_alarm : alarms :=
  Alarms {[AL_flush := AlarmBlock false (Timeval 0 0) None fn_process_wait_queue_cb]} [].
Definition one_alarm_tree : tree_alarms :=
  match (new_block AL_flush (RbNode 3 None None);;
         AlarmTree.init_alarm_ AL_flush None fn_process_wait_queue_cb)
        (TreeAlarms (RbState ∅ None) ∅) with
  | Ok _ T => T
  | Fault _ => TreeAlarms (RbState ∅ None) ∅
  end.

Lemma tree_rel_empty : tree_rel (TreeAlarms (RbState ∅ None) ∅) (Alarms ∅ []).
Proof.
  split; [done|]. assert (whole (@Leaf alarm_id) ⊢ nodes_rep [] ∅) as He.
  { iIntros "Ht". iSplit; [|by iApply big_sepM_empty]. iExists Leaf. iFrame. iPureIntro.
    split; [exists 0%nat; constructor|done]. }
  apply (hprop_in _ _ He). exists ∅, {[None := inr None]}. split_and!; [done|apply map_disjoint_empty_l|done..].
Qed.

Lemma one_alarm_related : host_rel (one_alarm_tree, tt) (one_alarm, tt).
Proof.
  split_and!; [|split|done].
  - pose proof (init_alarm_refines _ _ AL_flush (RbNode 3 None None) None fn_process_wait_queue_cb
      tree_rel_empty eq_refl eq_refl) as Hwp. exact Hwp.
  - constructor.
  - intros id. simpl. split; [by intros ?%elem_of_nil|].
    intros (b & Hb & Hl). cbn in Hb. apply lookup_singleton_Some in Hb as [_ <-]. done.
  - intros id b Hb. cbn in Hb. apply lookup_singleton_Some in Hb as [_ <-]. done.
  - constructor.
Qed.

Lemma alarm_tree_implements_the_sequence_witness :
  wp (AlarmTree.add_alarm AL_flush 1 500) (λ _ s', ∃ a',
    Alarm.add_alarm AL_flush 1 500 (one_alarm, tt) = Ok tt a' ∧
    al_root a'.1 = [AL_flush] ∧ host_rel s' a') (one_alarm_tree, tt).
Proof.
  assert (clock_ok (C := unit)) as Hclk by (by intros c t c' [= <- _]).
  destruct (alarm_tree_implements_the_sequence unit Hclk) as [Hadd _].
  pose proof (Hadd AL_flush 1 500 ltac:(done) _ _ one_alarm_related) as Hsim.
  eapply wp_mono; [exact Hsim|]. intros [] s' [_ Hr]. eexists. split_and!; [reflexivity| |exact Hr]. reflexivity.
Defined.

(** ** A block that is freed in the tree *)

(** [routing_table_delete] frees the routes without [del_alarm]; when the alarm of one of them
    is pending and [rreq_fifo_delete] then deletes an alarm that hangs below it, [rb_erase]
    reads the freed node. *)
Definition shutdown_of_two : M (tree_alarms * unit) unit :=
  let route := AL_route 1%positive in
  let rreq := AL_rreq 2%positive in
  on_tree_alarms (new_block route (RbNode 0 None None));;
  AlarmTree.init_alarm route (Some 1%positive) fn_msh_route_alarm_cb;;
  AlarmTree.add_alarm route 3 0;;
  on_tree_alarms (new_block rreq (RbNode 0 None None));;
  AlarmTree.init_alarm rreq (Some 2%positive) fn_rreq_fifo_alarm_cb;;
  AlarmTree.add_alarm rreq 5 0;;
  on_tree_alarms (AlarmTree.free_block route);;
  AlarmTree.del_alarm rreq.

Lemma freed_alarm_is_read :
  fails shutdown_of_two UseAfterFree (TreeAlarms (RbState ∅ None) ∅, tt).
Proof. by vm_compute. Qed.
