(* ===== verification/ListProps.v ===== *)
(** * Properties: the lists under the queues and tables

    What linux_list.h does to a list in memory, said without the logic: the lists of the
    daemon are the sequences by which [PacketsFifo], [RreqFifo], [RoutingTable] and
    [RouteObj] model them, [list_add] being [cons] and [list_del] being [unlink].  For each
    of the four this is carried through the functions of its source file. *)

From S2P Require Export PacketListSpec RreqListSpec TableListSpec PrecursorListSpec ShutdownSpec Witness.

Section state.
Context {A : Type} `{Countable A}.
Implicit Types (s : gmap (A * member) (pointer A)) (h : A) (l : list A).
Notation lprop := (hpropI (A * member) (pointer A)).

(** The loop that takes the nodes with [p] off the list. *)
Lemma purge_spec (p : A → bool) h l :
  dll h l ⊢ hwp (list_for_each_safe h (λ e, when (p e) (list_del e)))
    (λ _, dll h (filter (λ e, p e = false) l)).
Proof.
  iIntros "Hl". iApply hwp_wand. iSplitL "Hl".
  - iApply (list_for_each_safe_spec h l (λ seen kept, ⌜kept = filter (λ e, p e = false) seen⌝)%I).
    2:{ iFrame. done. }
    iIntros (seen kept x l2) "[Hl ->]". destruct (p x) eqn:Hx; simpl.
    + iApply hwp_wand. iSplitL; [iApply (list_del_spec with "Hl")|].
      iIntros (_) "[Hl _]". iExists _. iFrame. iPureIntro.
      rewrite filter_app filter_cons_False; [by rewrite app_nil_r|congruence].
    + iApply hwp_ret. iExists (filter (λ e, p e = false) seen ++ [x]). rewrite -app_assoc. iFrame.
      iPureIntro. by rewrite filter_app filter_cons_True.
  - by iIntros (_) "(%kept & Hl & ->)".
Qed.

(** C27. The lists of linux_list.h are sequences: on a list in memory [list_add] of a node
    that is not in it puts the node in front and [list_add_tail] behind, [list_del] takes a
    node out and leaves it poisoned, [list_empty] tells whether there are nodes, and the
    [_safe] loop may unlink the nodes it visits; each returns without a fault and changes
    no node outside the list. *)
Theorem lists_are_sequences s h l : is_list s h l →
  (∀ new, allocated s new → new ∉ h :: l →
    wp (list_add new h) (λ _ s', is_list s' h (new :: l) ∧ outside_of (new :: h :: l) s s') s ∧
    wp (list_add_tail new h) (λ _ s', is_list s' h (l ++ [new]) ∧ outside_of (new :: h :: l) s s') s) ∧
  (∀ e, e ∈ l → wp (list_del e) (λ _ s', is_list s' h (unlink e l) ∧
      s' !! (e, m_next) = Some (Poison LIST_POISON1) ∧ s' !! (e, m_prev) = Some (Poison LIST_POISON2) ∧
      outside_of (h :: l) s s') s) ∧
  wp (list_empty h) (λ r s', r = bool_decide (l = []) ∧ is_list s' h l) s ∧
  ∀ p : A → bool, wp (list_for_each_safe h (λ e, when (p e) (list_del e)))
    (λ _ s', is_list s' h (filter (λ e, p e = false) l) ∧ outside_of (h :: l) s s') s.
Proof.
  intros Hl. split_and!.
  - intros new Hall Hnew. split; [by apply list_add_state|by apply list_add_tail_state].
  - intros e He. by apply list_del_state.
  - eapply wp_mono; [by apply list_empty_state|]. by intros r s' [-> ->].
  - intros p. eapply wp_mono; [by eapply (wp_list _ _ _ _ _ Hl), purge_spec|].
    intros _ s' [(hp & HQ & Hle) Hsame]. split; [by eapply dll_is_list|done].
Qed.
End state.

(** ** Operations on nodes and on sequences *)

(** The operation on the nodes and the one on the sequence both return, the same value and
    related states. *)
Definition runs_as {S W X} (R : S → W → Prop) (m' : M S X) (m : M W X) (s : S) (w : W) : Prop :=
  ∃ x w' s', m w = Ok x w' ∧ m' s = Ok x s' ∧ R s' w'.

Lemma simulated_runs_as {S W X} (R : S → W → Prop) (m' : M S X) (m : M W X) P s w :
  simulated R m' m s w → wp m P w → runs_as R m' m s w.
Proof.
  unfold simulated. intros Hs (x & w' & Heq & _)%wp_run. rewrite Heq in Hs.
  apply wp_run in Hs as (? & s' & HQ & -> & Hrel). by exists x, w', s'.
Qed.

(** ** The queue of waiting packets *)

(** C28. The queue of packets_fifo.c, on the memory of its nodes: the functions that push,
    drop, release and test packets return, with the result of the functions on the sequence
    of entries and a memory that holds the new sequence and nothing else; deleting the queue
    gives every packet its verdict and leaves no memory behind.  So the loops, whose bodies
    unlink and free the entries they visit, never read a freed entry. *)
Theorem packet_queue_implements_the_sequence `{E : Env} {EO : EnvOk E} head Q w :
  queue_rel head Q w → world_ok w →
  (∀ id dest, runs_as (queue_rel head) (PacketList.packets_fifo_push head id dest) (PacketsFifo.packets_fifo_push id dest) Q w) ∧
  (∀ dest, runs_as (queue_rel head) (PacketList.packets_fifo_drop_packets head dest)
     (PacketsFifo.packets_fifo_drop_packets dest) Q w) ∧
  (∀ route, is_Some (w_routes w !! route) → runs_as (queue_rel head) (PacketList.packets_fifo_process_route head route)
     (PacketsFifo.packets_fifo_process_route route) Q w) ∧
  runs_as (queue_rel head) (PacketList.packets_fifo_is_empty head) PacketsFifo.packets_fifo_is_empty Q w ∧
  ∃ w', PacketsFifo.packets_fifo_delete w = Ok tt w' ∧ w_packets w' = [] ∧
    PacketList.packets_fifo_delete head Q = Ok tt (PacketNodes ∅ ∅ w').
Proof.
  intros HQ Hw. split_and!.
  - intros id dest. eapply (simulated_runs_as _ _ _ (λ _ _, True)); [by apply push_simulated|done].
  - intros dest. eapply simulated_runs_as; [by apply drop_packets_simulated|by apply drop_packets_spec].
  - intros route [r Hr]. eapply simulated_runs_as; [by apply process_route_simulated|].
    by eapply packets_fifo_process_route_spec.
  - eapply (simulated_runs_as _ _ _ (λ _ _, True)); [by apply is_empty_simulated|done].
  - by apply delete_implements.
Qed.

(** ** The queue of RREQs *)

Lemma world_discoveries w : world_ok w → discoveries_left (w_rreq_queue w) w.
Proof.
  intros Hw. destruct (wo_queue _ Hw) as [Hnd Hl _]. split; [done| |].
  - intros a Ha. by apply Hl.
  - intros a Ha%Hl. destruct (bo_rreq _ _ _ _ (wo_blocks _ Hw) a Ha) as [b Hb]. exists b. split; [done|].
    split; [|intros _; by apply ok_tree_alive, wo_alarms].
    split; intros Hlk.
    + apply (ok_linked _ (wo_alarms _ Hw)). by exists b.
    + apply (ok_linked _ (wo_alarms _ Hw)) in Hlk as (b' & ? & ?). by simplify_eq.
Qed.

(** C29. The queue of rreq_fifo.c, on the memory of its nodes: the functions that add, look
    for and delete entries return, with the result of the functions on the sequence of
    addresses and a memory that holds the new sequence and no other node; deleting the
    queue leaves no node behind. *)
Theorem rreq_queue_implements_the_sequence `{E : Env} {EO : EnvOk E} head Q w :
  rreq_rel head Q w → world_ok w →
  (∀ rreq_id dst, is_u32 rreq_id → is_u32 dst → runs_as (rreq_rel head)
     (RreqList.rreq_fifo_push head rreq_id dst) (RreqFifo.rreq_fifo_push rreq_id dst) Q w) ∧
  (∀ rreq_id dst tries, is_u32 rreq_id → is_u32 dst → 0 ≤ tries ≤ RREQ_RETRIES → runs_as (rreq_rel head)
     (RreqList.rreq_fifo_push_owned head rreq_id dst tries) (RreqFifo.rreq_fifo_push_owned rreq_id dst tries) Q w) ∧
  (∀ rreq_id dst, runs_as (rreq_rel head)
     (RreqList.rreq_fifo_contains head rreq_id dst) (RreqFifo.rreq_fifo_contains rreq_id dst) Q w) ∧
  (∀ dst, runs_as (rreq_rel head) (RreqList.rreq_fifo_waiting_response_for head dst)
     (RreqFifo.rreq_fifo_waiting_response_for dst) Q w) ∧
  (∀ rreq_id dst, runs_as (rreq_rel head)
     (RreqList.rreq_fifo_del head rreq_id dst) (RreqFifo.rreq_fifo_del rreq_id dst) Q w) ∧
  ∃ w', RreqFifo.rreq_fifo_delete w = Ok tt w' ∧ w_rreq_queue w' = [] ∧
    RreqList.rreq_fifo_delete head Q = Ok tt (RreqNodes ∅ w').
Proof.
  intros HQ Hw. split_and!.
  - intros rreq_id dst Hi Hd. eapply simulated_runs_as; [by apply insert_simulated|by apply rreq_fifo_push_spec].
  - intros rreq_id dst tries Hi Hd Ht.
    eapply simulated_runs_as; [by apply push_owned_simulated|by apply rreq_fifo_push_owned_spec].
  - intros rreq_id dst. eapply (simulated_runs_as _ _ _ (λ _ _, True)); [by apply contains_simulated|].
    unfold wp. by rewrite rreq_fifo_contains_eq.
  - intros dst. eapply (simulated_runs_as _ _ _ (λ _ _, True)); [by apply waiting_simulated|].
    unfold wp. by rewrite rreq_fifo_waiting_response_for_eq.
  - intros rreq_id dst. eapply simulated_runs_as; [by apply del_simulated|by apply rreq_fifo_del_spec].
  - pose proof (rreq_fifo_delete_spec w (qo_nodup _ _ (wo_queue _ Hw)) (world_discoveries w Hw)) as Hdel.
    apply wp_run in Hdel as ([] & w' & Hdel & _ & _ & [Hq _ _]). exists w'.
    split; [done|]. split; [done|]. by eapply delete_simulated.
Qed.

(** ** The routing table *)

Lemma runs_as_rwp {S X} (T : S → world → Prop) R0 (m' : M S X) (m : M world X) P s w :
  simulated T m' m s w → rwp R0 m P w → runs_as T m' m s w.
Proof. apply simulated_runs_as. Qed.

Lemma scratch_callback w : world_ok w → callbacks w !! w_find_route w = Some None.
Proof.
  intros Hw. destruct (find_route_live _ Hw) as (r & Hr & Hni). unfold callbacks. rewrite lookup_fmap Hr /=.
  destruct (rt_updated_cb r) as [[]|] eqn:Hcb; [|done]. by destruct Hni.
Qed.

(** C30. The routing table, on the memory of the list nodes inside its routes, which every
    state of the daemon has: looking up, adding, refreshing, changing and destroying routes
    and their expiry return, with the result of the functions on the sequence of routes and
    a memory where the list has the new sequence and just the live routes have links, so a
    route that is freed is never in the list; deleting the table frees the routes while they
    are in its list, without following a link of a freed one. *)
Theorem routing_table_implements_the_sequence `{E : Env} {EO : EnvOk E} w :
  world_ok w →
  (∃ Q, table_rel Q w) ∧ ∀ Q, table_rel Q w →
  (∀ ip, is_u32 ip → runs_as table_rel (TableList.routing_table_find_by_ip ip)
     (RoutingTable.routing_table_find_by_ip ip) Q w) ∧
  (∀ a r, route_at w a r → ¬ in_table r → runs_as table_rel (TableList.routing_table_add a)
     (RoutingTable.routing_table_add a) Q w) ∧
  (∀ dst invalid orig, is_u32 dst → is_u32 orig →
     runs_as table_rel (TableList.routing_table_update_route dst invalid orig)
       (RoutingTable.routing_table_update_route dst invalid orig) Q w) ∧
  (∀ callback, (∀ a, Apart (callback a)) → wp (RoutingTable.routing_table_foreach callback) (λ _ _, True) w →
     runs_as table_rel (TableList.routing_table_foreach (λ a, on_rest (callback a)))
       (RoutingTable.routing_table_foreach callback) Q w) ∧
  (∀ a r hop, route_at w a r → is_u32 hop → runs_as table_rel (TableList.msh_route_set_next_hop a hop)
     (MshRoute.msh_route_set_next_hop a hop) Q w) ∧
  (∀ a r, route_at w a r → runs_as table_rel (TableList.__msh_route_alarm_cb (AL_route a) a)
     (MshRoute.__msh_route_alarm_cb (AL_route a) a) Q w) ∧
  (∀ a r, route_at w a r → runs_as table_rel (TableList.msh_route_destroy a) (MshRoute.msh_route_destroy a) Q w) ∧
  runs_as links_rel TableList.routing_table_delete RoutingTable.routing_table_delete Q w.
Proof.
  intros Hw. split; [by apply table_nodes_exist|]. intros Q HQ. split_and!.
  - intros ip Hip. eapply (simulated_runs_as _ _ _ (λ _ _, True)); [by apply find_by_ip_simulated|].
    unfold wp. by rewrite routing_table_find_by_ip_eq.
  - intros a r [Hr Hne] Hni. eapply runs_as_rwp; [by apply add_simulated|by eapply routing_table_add_spec].
  - intros dst invalid orig Hd Ho.
    eapply runs_as_rwp; [by apply update_route_simulated|by apply routing_table_update_route_spec].
  - intros callback Hcb Hrun. eapply simulated_runs_as; [by apply foreach_simulated|exact Hrun].
  - intros a r hop [Hr _] Hhop.
    eapply runs_as_rwp; [by apply set_next_hop_simulated|by eapply msh_route_set_next_hop_spec].
  - intros a r Hr. eapply runs_as_rwp; [by apply alarm_cb_simulated|by eapply route_alarm_cb_spec].
  - intros a r Hr. eapply runs_as_rwp; [by apply destroy_simulated|by eapply msh_route_destroy_spec].
  - eapply simulated_runs_as; [by apply table_delete_simulated, scratch_callback|by apply routing_table_delete_spec].
Qed.

(** ** The precursors of the routes *)

(** C31. The precursor lists of the routes, on the memory of their nodes, which every state of
    the daemon has: allocating a route, adding, deleting and visiting precursors and
    destroying a route return, with the result of the functions on the sequences; the lists
    of the other routes stay, every entry belongs to a live route, and the loop of
    [msh_route_destroy] leaves none behind. *)
Theorem precursor_lists_implement_the_sequences `{E : Env} {EO : EnvOk E} w :
  world_ok w →
  (∃ Q, precursors_rel Q w) ∧ ∀ Q, precursors_rel Q w →
  runs_as precursors_rel PrecursorList.msh_route_alloc MshRoute.msh_route_alloc Q w ∧
  (∀ a r, route_at w a r → runs_as precursors_rel (PrecursorList.msh_route_destroy a) (MshRoute.msh_route_destroy a) Q w) ∧
  ∀ a r, w_routes w !! a = Some r →
    (∀ ip, runs_as precursors_rel (PrecursorList.msh_route_add_precursor a ip)
       (MshRoute.msh_route_add_precursor a ip) Q w) ∧
    (∀ ip, runs_as precursors_rel (PrecursorList.msh_route_del_precursor a ip)
       (MshRoute.msh_route_del_precursor a ip) Q w) ∧
    ∀ callback, (∀ ip, Beside (callback a ip)) →
      wp (MshRoute.msh_route_foreach_precursor a callback) (λ _ _, True) w →
      runs_as precursors_rel
        (PrecursorList.msh_route_foreach_precursor a (λ route ip, on_object (callback route ip)))
        (MshRoute.msh_route_foreach_precursor a callback) Q w.
Proof.
  intros Hw. split; [apply precursor_nodes_exist, (ho_routes _ _ _ _ _ (wo_heap _ Hw))|].
  intros Q HQ. split; [|split].
  - eapply (simulated_runs_as _ _ _ (λ _ _, True)); [by apply alloc_precursors_simulated|].
    unfold wp. by rewrite msh_route_alloc_eq.
  - intros a r Hr. eapply runs_as_rwp; [by apply destroy_precursors_simulated|by eapply msh_route_destroy_spec].
  - intros a r Hr. split; [|split].
    + intros ip. eapply (simulated_runs_as _ _ _ (λ _ _, True)); [by apply add_precursor_simulated|].
      unfold wp, MshRoute.msh_route_add_precursor. by rewrite (upd_route_eq _ _ _ _ Hr).
    + intros ip. eapply (simulated_runs_as _ _ _ (λ _ _, True)); [by apply del_precursor_simulated|].
      unfold wp, MshRoute.msh_route_del_precursor. by rewrite (upd_route_eq _ _ _ _ Hr).
    + intros callback Hcb Hrun. eapply simulated_runs_as; [by apply foreach_precursor_simulated|exact Hrun].
Qed.

(** ** Witness *)

(** A head 1 with the nodes 2 and 3, and the node 4 apart. *)
Definition two_on_a_list : gmap (positive * member) (pointer positive) :=
  {[ (1%positive, m_next) := At 2%positive; (1%positive, m_prev) := At 3%positive;
     (2%positive, m_next) := At 3%positive; (2%positive, m_prev) := At 1%positive;
     (3%positive, m_next) := At 1%positive; (3%positive, m_prev) := At 2%positive;
     (4%positive, m_next) := NULL; (4%positive, m_prev) := NULL ]}.

Lemma two_on_a_list_ok : is_list two_on_a_list 1%positive [2; 3]%positive.
Proof. split; [by repeat split|]. by apply (bool_decide_unpack _). Qed.

Lemma lists_are_sequences_witness :
  wp (list_add 4%positive 1%positive) (λ _ s', is_list s' 1%positive [4; 2; 3]%positive) two_on_a_list ∧
  wp (list_del 2%positive) (λ _ s', is_list s' 1%positive [3]%positive) two_on_a_list.
Proof.
  destruct (lists_are_sequences _ _ _ two_on_a_list_ok) as (Hadd & Hdel & _). split.
  - eapply wp_mono; [apply (Hadd 4%positive)|by intros _ s' [? _]].
    + split; by eexists.
    + by apply (bool_decide_unpack _).
  - eapply wp_mono; [apply (Hdel 2%positive)|by intros _ s' [? _]]. by left.
Defined.

(** The queue of a daemon where two packets wait, built by [packets_fifo_alloc] and two
    pushes. *)
Definition two_packets : packet_nodes :=
  match (head ← PacketList.packets_fifo_alloc;
         PacketList.packets_fifo_push head 7 far;; PacketList.packets_fifo_push head 8 stranger)
        (PacketNodes ∅ ∅ fresh_daemon) with
  | Ok _ Q => Q
  | Fault _ => PacketNodes ∅ ∅ fresh_daemon
  end.

(** The same on the sequence; the head takes an address, too. *)
Definition two_waiting : world := final
  (fresh_addr;; PacketsFifo.packets_fifo_push 7 far;; PacketsFifo.packets_fifo_push 8 stranger) fresh_daemon.

Lemma two_waiting_ok : world_ok two_waiting.
Proof.
  pose proof (brk_world_ok fresh_daemon fresh_daemon_ok) as H0.
  assert (is_u32 far) as H7 by done. assert (is_u32 stranger) as H8 by done.
  exact (push_world_ok 8 stranger _ (push_world_ok 7 far _ H0 H7) H8).
Qed.

Lemma two_packets_rel : queue_rel (w_brk fresh_daemon) two_packets two_waiting.
Proof.
  pose proof (packets_fifo_alloc_spec fresh_daemon eq_refl) as (head & Q0 & Ha & w0 & Hf & H0)%wp_run.
  pose proof (push_simulated head 7 far Q0 w0 H0) as H1. injection Hf as <- <-.
  apply wp_run in H1 as ([] & Q1 & Heq1 & _ & H1).
  pose proof (push_simulated _ 8 stranger Q1 _ H1) as (? & Q2 & Heq2 & _ & H2)%wp_run.
  unfold two_packets. rewrite (bind_eq _ _ _ _ _ Ha) (bind_eq _ _ _ _ _ Heq1) Heq2. exact H2.
Qed.

Lemma packet_queue_implements_the_sequence_witness :
  runs_as (queue_rel (w_brk fresh_daemon)) (PacketList.packets_fifo_drop_packets (w_brk fresh_daemon) far)
    (PacketsFifo.packets_fifo_drop_packets far) two_packets two_waiting ∧
  ∃ w', PacketsFifo.packets_fifo_delete two_waiting = Ok tt w' ∧ w_packets w' = [] ∧
    PacketList.packets_fifo_delete (w_brk fresh_daemon) two_packets = Ok tt (PacketNodes ∅ ∅ w').
Proof.
  destruct (packet_queue_implements_the_sequence _ _ _ two_packets_rel two_waiting_ok) as (_ & Hdrop & _ & _ & Hdel).
  split; [apply Hdrop|exact Hdel].
Defined.

(** The queue of RREQs of the same daemon: alone, with its head in memory. *)
Definition empty_queue : rreq_nodes :=
  match RreqList.rreq_fifo_alloc (RreqNodes ∅ fresh_daemon) with Ok _ Q => Q | Fault _ => RreqNodes ∅ fresh_daemon end.
Definition queue_daemon : world := final fresh_addr fresh_daemon.

Lemma empty_queue_rel : rreq_rel (w_brk fresh_daemon) empty_queue queue_daemon.
Proof.
  pose proof (rreq_fifo_alloc_spec fresh_daemon eq_refl) as (head & Q0 & Ha & w0 & Hf & H0)%wp_run.
  injection Hf as <- <-. unfold empty_queue. rewrite Ha. exact H0.
Qed.

(** One RREQ has been sent. *)
Lemma one_rreq :
  ∃ w Q, world_ok w ∧ rreq_rel (w_brk fresh_daemon) Q w ∧
    RreqFifo.rreq_fifo_push_owned 1 far 0 queue_daemon = Ok tt w ∧
    RreqList.rreq_fifo_push_owned (w_brk fresh_daemon) 1 far 0 empty_queue = Ok tt Q.
Proof.
  assert (is_u32 far) as Hfar by done.
  pose proof (rreq_fifo_push_owned_spec queue_daemon 1 far 0 (brk_world_ok _ fresh_daemon_ok) ltac:(done) Hfar ltac:(unfold RREQ_RETRIES; lia))
    as ([] & w & Hrun & Hw & _)%wp_run.
  pose proof (push_owned_simulated (w_brk fresh_daemon) 1 far 0 _ _ empty_queue_rel) as Hs. unfold simulated in Hs.
  rewrite Hrun in Hs. apply wp_run in Hs as ([] & Q & HQ & _ & Hrel). by exists w, Q.
Qed.

Lemma rreq_queue_implements_the_sequence_witness :
  ∃ w Q, RreqFifo.rreq_fifo_push_owned 1 far 0 queue_daemon = Ok tt w ∧
    RreqList.rreq_fifo_push_owned (w_brk fresh_daemon) 1 far 0 empty_queue = Ok tt Q ∧
    runs_as (rreq_rel (w_brk fresh_daemon)) (RreqList.rreq_fifo_del (w_brk fresh_daemon) 1 far)
      (RreqFifo.rreq_fifo_del 1 far) Q w.
Proof.
  destruct one_rreq as (w & Q & Hw & HQ & Hrun & HrunQ). exists w, Q. split; [exact Hrun|]. split; [exact HrunQ|].
  apply (rreq_queue_implements_the_sequence _ _ _ HQ Hw).
Defined.

(** Routes to 10.0.0.9 and to the neighbour are in the table; the first expires. *)
Lemma routing_table_implements_the_sequence_witness :
  ∃ Q, table_rel Q routed_daemon ∧
    runs_as table_rel (TableList.__msh_route_alarm_cb (AL_route route_far) route_far)
      (MshRoute.__msh_route_alarm_cb (AL_route route_far) route_far) Q routed_daemon ∧
    runs_as links_rel TableList.routing_table_delete RoutingTable.routing_table_delete Q routed_daemon.
Proof.
  destruct (routing_table_implements_the_sequence routed_daemon routed_daemon_ok) as [[Q HQ] Himp].
  exists Q. split; [exact HQ|]. destruct (Himp Q HQ) as (_ & _ & _ & _ & _ & Hcb & _ & Hdel).
  split; [exact (Hcb route_far far_route routed_route)|exact Hdel].
Defined.

(** The route to 10.0.0.9 gets a precursor, or is destroyed with those it has. *)
Lemma precursor_lists_implement_the_sequences_witness :
  ∃ Q, precursors_rel Q routed_daemon ∧
    runs_as precursors_rel (PrecursorList.msh_route_add_precursor route_far stranger)
      (MshRoute.msh_route_add_precursor route_far stranger) Q routed_daemon ∧
    runs_as precursors_rel (PrecursorList.msh_route_destroy route_far) (MshRoute.msh_route_destroy route_far)
      Q routed_daemon.
Proof.
  destruct (precursor_lists_implement_the_sequences routed_daemon routed_daemon_ok) as [[Q HQ] Himp].
  exists Q. split; [exact HQ|]. destruct (Himp Q HQ) as (_ & Hdes & Hlist). split.
  - exact (proj1 (Hlist route_far far_route (ra_route _ _ _ routed_route)) stranger).
  - exact (Hdes route_far far_route routed_route).
Defined.
