(* ===== verification/NfqProps.v ===== *)
(** * Properties of libnetfilter_queue

    The queue handles of a connection are a table of callbacks: the calls that create and
    destroy queues update it when the kernel agrees, and a packet is delivered through it. *)

From S2P Require Export NfqLibSpec PacketPrint.

Section properties.
Context {CB D E : Type} {NE : Nfnetlink E}.
Implicit Types (L : nfq_lib CB D E) (h q : handle).

(** C32. A connection [h] that serves the queue numbers of the table [B] keeps doing so:
    [nfq_create_queue] refuses a number that is bound and leaves everything as it was, and
    otherwise binds it exactly when the kernel does not answer with an error;
    [nfq_destroy_queue] unbinds the number of the queue exactly when the kernel answers 0,
    and gives its memory back; [__nfq_rcv_pkt] calls the callback bound to the number in the
    packet with the data bound to it, and answers -ENODEV when there is none.  The other
    connections serve what they served.  The functions are run with memory: creating a queue
    is stated for a [malloc] that succeeds, since its result is not looked at. *)
Theorem queue_handles_are_a_table L h l B x :
  serves L h l B → lb_handles L !! h = Some x →
  (∀ num cb data, match B !! num with
   | Some _ => nfq_create_queue h num cb data L = Ok None L
   | None => ∀ e1 r e2, malloc_ok (lb_ext L) = Ok true e1 →
       nfnl_talk (nfnlh x) (config_msg x NFQNL_CFG_CMD_BIND num) e1 = Ok r e2 →
       ∃ o L', nfq_create_queue h num cb data L = Ok o L' ∧ others_kept h L L' ∧
         match o with
         | Some q => 0 ≤ r ∧ q ∉ l ∧ serves L' h (q :: l) (<[num := (cb, data)]> B)
         | None => r < 0 ∧ lb_errno L' = r ∧ serves L' h l B
         end
   end) ∧
  (∀ q y r e, q ∈ l → lb_queues L !! q = Some y →
     nfnl_talk (nfnlh x) (config_msg x NFQNL_CFG_CMD_UNBIND (q_id y)) (lb_ext L) = Ok r e →
     ∃ L', nfq_destroy_queue q L = Ok r L' ∧ others_kept h L L' ∧
       if r =? 0 then serves L' h (unlink q l) (delete (q_id y) B) ∧ lb_queues L' !! q = None
       else serves L' h l B) ∧
  (∀ Msg (run : CB → handle → Msg → D → M (nfq_lib CB D E) Z) res_id (msg : Msg),
     match B !! ntohs res_id with
     | Some (Some cb, data) => ∃ q, q ∈ l ∧ __nfq_rcv_pkt run h res_id msg L = run cb q msg data L
     | _ => __nfq_rcv_pkt run h res_id msg L = Ok (- ENODEV) L
     end).
Proof.
  intros Hs Hx. split_and!.
  - intros num cb data. destruct (B !! num) as [v|] eqn:Hv; [by eapply create_bound|].
    intros e1 r e2 Hm Ht. pose proof (create_spec L h l B x num cb data e1 r e2 Hs Hx Hv Hm Ht) as Hc.
    destruct (Z.ltb_spec r 0); [destruct Hc as (L' & ? & ? & ? & ?); by exists None, L'|].
    destruct Hc as (q & L' & ? & ? & ? & ?). by exists (Some q), L'.
  - intros q y r e Hq Hy Ht. by eapply destroy_spec.
  - intros Msg run res_id msg. by apply rcv_pkt_spec.
Qed.
End properties.

(** ** The description of a packet *)

Section print.
Context {Attrs : Type} {NA : Nfattrs Attrs}.
Implicit Types (nfad : Attrs) (bs : bytes).

Lemma rd8_Some bs off : is_Some (rd8 bs off) ↔ (off < length bs)%nat.
Proof. apply lookup_lt_is_Some. Qed.

Lemma rd16_Some bs off : is_Some (rd16 bs off) ↔ (off + 1 < length bs)%nat.
Proof.
  rewrite <-lookup_lt_is_Some. unfold rd16. split.
  - intros [z Hz]. destruct (bs !! (off + 1)%nat); [done|]. by destruct (bs !! off).
  - intros [b1 H1]. destruct (lookup_lt_is_Some_2 bs off) as [b0 H0].
    { apply lookup_lt_Some in H1. lia. }
    rewrite H0, H1. by eexists.
Qed.

Lemma rd32_Some bs off : is_Some (rd32 bs off) ↔ (off + 3 < length bs)%nat.
Proof.
  rewrite <-lookup_lt_is_Some. unfold rd32. split.
  - intros [z Hz]. destruct (bs !! (off + 3)%nat); [done|].
    by destruct (bs !! off), (bs !! (off + 1)%nat), (bs !! (off + 2)%nat).
  - intros [b3 H3]. apply lookup_lt_Some in H3 as Hlen.
    destruct (lookup_lt_is_Some_2 bs off) as [b0 H0]; [lia|].
    destruct (lookup_lt_is_Some_2 bs (off + 1)) as [b1 H1]; [lia|].
    destruct (lookup_lt_is_Some_2 bs (off + 2)) as [b2 H2]; [lia|].
    rewrite H0, H1, H2, H3. by eexists.
Qed.

(** Whole attributes: [struct nfqnl_msg_packet_hdr] and the length of a hardware address. *)
Definition whole_attributes nfad : Prop :=
  (∀ bs, nfq_get_msg_packet_hdr nfad = Some bs → (7 ≤ length bs)%nat) ∧
  (∀ bs, nfq_get_packet_hw nfad = Some bs → (2 ≤ length bs)%nat).

Lemma header_text_spec nfad : whole_attributes nfad → ∃ s, header_text nfad =
  Some (if nfqa_packet_hdr (nfq_data_of nfad) then nfqueue_packet_get_id (nfq_data_of nfad) else 0, s).
Proof.
  intros [Hh _]. unfold header_text, nfqueue_packet_get_id, nfq_data_of. simpl.
  destruct (nfq_get_msg_packet_hdr nfad) as [bs|]; simpl; [|by eexists].
  specialize (Hh bs eq_refl). unfold packet_hdr_of_bytes.
  destruct (proj2 (rd32_Some bs 0)) as [id ->]; [lia|]. destruct (proj2 (rd16_Some bs 4)) as [p ->]; [lia|].
  destruct (proj2 (rd8_Some bs 6)) as [k ->]; [lia|]. simpl. by eexists.
Qed.

Lemma mac_text_spec nfad : whole_attributes nfad → is_Some (mac_text nfad).
Proof.
  intros [_ Hm]. unfold mac_text. destruct (nfq_get_packet_hw nfad) as [bs|]; [|by eexists].
  specialize (Hm bs eq_refl). destruct (proj2 (rd16_Some bs 0)) as [len ->]; [lia|]. by eexists.
Qed.

(** The IP addresses end after 20 bytes, the TCP ports after 24. *)
Lemma ip_text_spec nfad : is_Some (ip_text nfad) ↔
  ∀ data, nfa_payload nfad NFQA_PAYLOAD = Some data → (20 ≤ length data)%nat.
Proof.
  unfold ip_text, nfq_get_iphdr, nfq_data_of, nfq_get_payload, nfq_get_ip_saddr, nfq_get_ip_daddr. simpl.
  destruct (nfa_payload nfad NFQA_PAYLOAD) as [data|]; simpl; [|split; [intros _ ? [=]|by eexists]].
  pose proof (rd32_Some data 12) as H12. pose proof (rd32_Some data 16) as H16. split.
  - intros Hs ? [= <-]. enough (16 + 3 < length data)%nat by lia. apply H16.
    destruct (rd32 data 12); [|by destruct Hs]. destruct (rd32 data 16); [by eexists|by destruct Hs].
  - intros Hlen. specialize (Hlen data eq_refl).
    destruct (proj2 H12) as [s ->]; [lia|]. destruct (proj2 H16) as [d ->]; [lia|]. by eexists.
Qed.

Lemma tcp_text_spec nfad : is_Some (tcp_text nfad) ↔
  ∀ data, nfa_payload nfad NFQA_PAYLOAD = Some data → (24 ≤ length data)%nat.
Proof.
  unfold tcp_text, nfq_get_tcphdr, nfq_data_of, nfq_get_payload, nfq_get_tcp_source, nfq_get_tcp_dest,
    sizeof_nfq_iphdr. simpl.
  destruct (nfa_payload nfad NFQA_PAYLOAD) as [data|]; simpl; [|split; [intros _ ? [=]|by eexists]].
  pose proof (rd16_Some (drop 20 data) 0) as H0. pose proof (rd16_Some (drop 20 data) 2) as H2.
  rewrite length_drop in H0, H2. split.
  - intros Hs ? [= <-]. enough (2 + 1 < length data - 20)%nat by lia. apply H2.
    destruct (rd16 (drop 20 data) 0); [|by destruct Hs]. destruct (rd16 (drop 20 data) 2); [by eexists|by destruct Hs].
  - intros Hlen. specialize (Hlen data eq_refl).
    destruct (proj2 H0) as [s ->]; [lia|]. destruct (proj2 H2) as [d ->]; [lia|]. by eexists.
Qed.

(** [nfqueue_packet_print] answers the id of the packet, or 0 where the packet has no
    header and [nfqueue_packet_get_id] answers 2{^32} - 1.  It prints the ports of a TCP
    header whatever the packet holds, and so reads behind a payload of less than 24 bytes. *)
Theorem print_reads_a_tcp_header nfad : whole_attributes nfad →
  match nfqueue_packet_print nfad with
  | Some (id, _) =>
      id = (if nfqa_packet_hdr (nfq_data_of nfad) then nfqueue_packet_get_id (nfq_data_of nfad) else 0) ∧
      ∀ data, nfa_payload nfad NFQA_PAYLOAD = Some data → (24 ≤ length data)%nat
  | None => ∃ data, nfa_payload nfad NFQA_PAYLOAD = Some data ∧ (length data < 24)%nat
  end.
Proof.
  intros Hw. unfold nfqueue_packet_print.
  destruct (header_text_spec nfad Hw) as [s ->], (mac_text_spec nfad Hw) as [mac ->]. simpl.
  pose proof (ip_text_spec nfad) as Hip. pose proof (tcp_text_spec nfad) as Htcp.
  assert (is_Some (tcp_text nfad) → is_Some (ip_text nfad)) as Himp.
  { rewrite Hip, Htcp. intros Hlen data Hd. specialize (Hlen data Hd). lia. }
  destruct (tcp_text nfad) as [tcp|] eqn:Ht.
  - destruct Himp as [ip ->]; [by eexists|]. simpl. split; [done|]. by apply Htcp.
  - assert (∃ data, nfa_payload nfad NFQA_PAYLOAD = Some data ∧ (length data < 24)%nat) as Hshort.
    { destruct (nfa_payload nfad NFQA_PAYLOAD) as [data|].
      - exists data. split; [done|]. destruct (decide (length data < 24)%nat) as [|Hge]; [done|].
        destruct (proj2 Htcp) as [? Hc]; [|done]. intros ? [= <-]. lia.
      - destruct (proj2 Htcp) as [? Hc]; done. }
    by destruct (ip_text nfad).
Qed.
End print.

(** A UDP packet without data: 28 bytes of payload; and one of 20 bytes. *)
Definition short_attrs (payload : bytes) (attr : Z) : option bytes :=
  if attr =? NFQA_PACKET_HDR then Some [0; 0; 0; 7; 8; 0; 3]
  else if attr =? NFQA_PAYLOAD then Some payload else None.
#[local] Instance bytes_attrs : Nfattrs (Z → option bytes) := {
  nfa_payload a t := a t;
  nfa_u32 a t := 0 }.

Lemma short_attrs_whole payload : whole_attributes (short_attrs payload).
Proof. split; intros bs [= <-]. simpl. lia. Qed.

Lemma print_reads_a_tcp_header_witness :
  nfqueue_packet_print (short_attrs (replicate 20 0)) = None ∧
  ∃ data, short_attrs (replicate 20 0) NFQA_PAYLOAD = Some data ∧ (length data < 24)%nat.
Proof.
  pose proof (print_reads_a_tcp_header _ (short_attrs_whole (replicate 20 0))) as Hshort.
  assert (nfqueue_packet_print (short_attrs (replicate 20 0)) = None) as Hnone by (vm_compute; reflexivity).
  split; [exact Hnone|]. rewrite Hnone in Hshort. exact Hshort.
Defined.


(** ** Witness *)

(** A libnfnetlink that answers 0 to every message, with memory for every [malloc]. *)
#[local] Instance agreeable : Nfnetlink unit := {|
  malloc_ok := mret true;
  nfnl_open := mret (Some 1%positive);
  nfnl_close := λ _, mret 0;
  nfnl_subsys_open := λ _ _ _ _, mret (Some 2%positive);
  nfnl_subsys_close := λ _, mret tt;
  nfnl_callback_register := λ _ _ _, mret 0;
  nfnl_talk := λ _ _, mret 0;
  nfnl_sendiov := λ _ _, mret 0;
  nfnl_fd := λ _, 3;
  nfnl_handle_packet := λ _ _, mret 0 |}.

(** One connection, with the queue handle 4 for the number 7. *)
Definition one_queue : nfq_lib Z Z unit :=
  NfqLib {[ 1%positive := NfqHandle 1%positive (Some 2%positive) (Some 4%positive) ]}
         {[ 4%positive := NfqQHandle None 1%positive 7 (Some 100) 200 ]} None 0 tt.

Lemma one_queue_serves : serves one_queue 1%positive [4%positive] {[ 7 := (Some 100, 200) ]}.
Proof.
  split; [split|].
  - by apply (bool_decide_unpack _).
  - eexists. split; [reflexivity|]. split; [done|]. eexists. split; reflexivity.
  - intros q ->%list_elem_of_singleton. eexists. split; reflexivity.
  - by intros q q' x x' ->%list_elem_of_singleton ->%list_elem_of_singleton.
  - intros i v. rewrite lookup_singleton_Some. split.
    + intros [<- <-]. eexists 4%positive, _. split; [by left|]. by repeat split.
    + intros (q & x & ->%list_elem_of_singleton & [= <-] & <- & <-). done.
Qed.

(** The number 7 is not bound again, 8 is; the queue 4 is destroyed; a packet for 7 is handed
    to its callback. *)
Lemma queue_handles_are_a_table_witness :
  nfq_create_queue 1%positive 7 (Some 5) 6 one_queue = Ok None one_queue ∧
  (∃ q L', nfq_create_queue 1%positive 8 (Some 5) 6 one_queue = Ok (Some q) L' ∧
     serves L' 1%positive [q; 4%positive] (<[8 := (Some 5, 6)]> {[ 7 := (Some 100, 200) ]})) ∧
  (∃ L', nfq_destroy_queue 4%positive one_queue = Ok 0 L' ∧ lb_queues L' !! 4%positive = None) ∧
  __nfq_rcv_pkt (λ cb _ msg data, mret (cb + msg + data)) 1%positive (htons 7) 9 one_queue = Ok 309 one_queue.
Proof.
  destruct (queue_handles_are_a_table _ _ _ _ _ one_queue_serves eq_refl) as (Hcreate & Hdestroy & Hrcv).
  split_and!.
  - exact (Hcreate 7 (Some 5) 6).
  - destruct (Hcreate 8 (Some 5) 6 tt 0 tt eq_refl eq_refl) as ([q|] & L' & Hc & _ & Hpost); [|lia].
    exists q, L'. split; [done|]. apply Hpost.
  - destruct (Hdestroy 4%positive _ 0 tt (list_elem_of_here _ _) eq_refl eq_refl) as (L' & Hd & _ & _ & Hfree).
    by exists L'.
  - destruct (Hrcv Z (λ cb _ msg data, mret (cb + msg + data)) (htons 7) 9) as (q & _ & ->). done.
Defined.
