(* ===== verification/StartupProps.v ===== *)
(** * Properties of start-up, shutdown and the client

    What [msh_data_init] sets up before the main loop can wait on it, and that
    [msh_data_shutdown] gives it back; the sessions of the command line client, against the
    daemon's side of the command socket. *)

From S2P Require Export Boot Witness StartupSpec ClientSpec.
From Stdlib Require Import Ascii.
#[local] Open Scope Z_scope.

Section start.
Context `{En : Env} {E : Type} `{System E}.
Implicit Types b : boot E.

Lemma wpf_on_start {X} F (m : M (startup E) X) (Q : X → boot E → Prop) b :
  wpf F m (λ x s, Q x (Boot s (bt_world b))) (bt_start b) → wpf F (on_start m) Q b.
Proof. unfold wpf, on_start. by destruct (m (bt_start b)). Qed.
Lemma wpf_on_world {X} F (m : M world X) (Q : X → boot E → Prop) b :
  wp m (λ x w, Q x (Boot (bt_start b) w)) (bt_world b) → wpf F (on_world m) Q b.
Proof. unfold wp, wpf, on_world. by destruct (m (bt_world b)). Qed.

(** What [main] finds when [msh_data_init] returns 1: the state of the daemon is an initial
    one, the queue 0 of the connection is served by [manage_packet], and the descriptor set
    holds the three descriptors of the main loop. *)
Record started b : Prop := {
  sd_world : ∃ net_iface local broadcast, bt_world b = initial_world net_iface local broadcast;
  sd_queue : ∃ h q, su_handle (bt_start b) = Some h ∧ su_queue (bt_start b) = Some q ∧
    serves (su_lib (bt_start b)) h [q] {[ 0 := (Some fn_manage_packet, None) ]};
  sd_fds : ∃ f, su_fds (bt_start b) = Some f ∧ fds_ok f ∧
    readfds f = {[su_comm_fd (bt_start b)]} ∪
      ({[su_daemon_fd (bt_start b)]} ∪ {[su_nfqueue_fd (bt_start b)]}) }.

(** The end of a start that makes the calls of [tr] on [b0]: its result, and the calls of
    the shutdown behind a successful one. *)
Definition start_ended (argc : Z) b0 (r : init_end) b : Prop :=
  ∃ n s h daemon_fd comm_fd i tr, told (lb_ext (su_lib (bt_start b0))) tr (bt_start b) ∧
    match r with
    | Exits c => argc < 2 ∧ c = 1 ∧ tr = []
    | Goes_on => False
    | Returns r => 2 ≤ argc ∧
        (r = ERR_INIT ∧ refused (start_calls n s h daemon_fd comm_fd i) tr ∨
         r = 1 ∧ made (start_calls n s h daemon_fd comm_fd i) tr ∧ started b ∧
         wp msh_data_shutdown_sockets (λ _ s', su_fds s' = None ∧ ∃ r1 r2 r3 r4,
           told (lb_ext (su_lib (bt_start b0))) (tr ++ end_events n s daemon_fd comm_fd r1 r2 r3 r4) s' ∧
           (r1 = 0 → lb_queues (su_lib s') = lb_queues (su_lib (bt_start b0))) ∧
           (r2 = 0 → lb_handles (su_lib s') = lb_handles (su_lib (bt_start b0)))) (bt_start b))
    end.

(** The calls behind those for the sockets. *)
Lemma link_refused n s h daemon_fd comm_fd tr : made (socket_calls n s h daemon_fd comm_fd) tr →
  refused (start_calls n s h daemon_fd comm_fd 0) (tr ++ [(Link, Index None)]).
Proof.
  intros Hm. eapply refused_behind; [exact Hm|]. exists [], (Link, Index None), []. split_and!; try done.
  - by intros [??].
  - by exists [Addresses 0].
Qed.
Lemma links_made n s h daemon_fd comm_fd i l tr : made (socket_calls n s h daemon_fd comm_fd) tr →
  made (start_calls n s h daemon_fd comm_fd i) ((tr ++ [(Link, Index (Some i))]) ++ [(Addresses i, Known l)]).
Proof.
  intros Hm. rewrite <-app_assoc. apply made_app; [exact Hm|]. split; [done|].
  apply Forall_cons_2; [by exists i|]. by apply Forall_singleton.
Qed.

(** C33. Whatever the system answers to the calls of [msh_data_init], which are performed one
    after the other from the state before: without an interface name the program exits with
    status 1 before any call; ERR_INIT is returned exactly when one of the calls [start_calls]
    fails ([succeeded]), and the calls end there but for the closing of the connection; 1 is
    returned when every one of them, from [getuid] to the addresses of the interface, was made
    and was successful.  Then the netlink queue 0 is served by [manage_packet], the descriptor
    set holds exactly the three descriptors of the main loop, [maxfd], which bounds them, is
    below FD_SETSIZE, and the state is an initial one of the daemon.  The sockets' part of
    [msh_data_shutdown] closes both sockets, gives up the queue and closes the connection;
    when the kernel agrees to give up the queue its handle is freed, when the connection can
    be closed its handle is freed.  The code looks neither at the second result of [malloc]
    nor at the size of a descriptor; a null result and a descriptor of FD_SETSIZE or more,
    after successful calls up to there, are the only causes of a fault ([crash]). *)
Theorem start_and_end_of_the_daemon argc b :
  bt_world b = blank_world →
  wpf (λ fault, ∃ tr e, performed (lb_ext (su_lib (bt_start b))) tr e ∧ crash fault tr)
    (msh_data_init_main argc) (start_ended argc b) b.
Proof.
  intros Hw. unfold msh_data_init_main. wpf_steps. apply wpf_on_world, wp_modify. rewrite Hw.
  wpf_steps. apply wpf_on_start. eapply wpf_mono.
  { apply (msh_data_init_sockets_wp _ (lb_ext (su_lib (bt_start b))) argc
      (lb_handles (su_lib (bt_start b))) (lb_queues (su_lib (bt_start b))) []); [done|].
    intros e tr fault He Hc. by exists tr, e. }
  intros r s (n & ssh & h & daemon_fd & comm_fd & tr & Htr & Hpost). simpl in Htr.
  destruct r as [c|r|]; wpf_steps.
  { exists n, ssh, h, daemon_fd, comm_fd, 0, tr. by split. }
  { exists n, ssh, h, daemon_fd, comm_fd, 0, tr. split; [done|]. destruct Hpost as (? & ? & ?).
    split; [done|]. left. split; [done|]. by apply refused_longer. }
  destruct Hpost as (Hargc & Hm & Hl). apply wpf_on_start.
  eapply wpf_os; [apply sy_link|apply same_but_ext_refl|exact Htr|]. intros link s1 _ Hs1 Htr1.
  destruct link as [net_iface|]; wpf_steps.
  2:{ eexists n, ssh, h, daemon_fd, comm_fd, 0, _. split; [exact Htr1|]. split; [done|]. left. split; [done|].
    by apply link_refused. }
  apply wpf_on_start. eapply wpf_os; [apply sy_addresses|exact Hs1|exact Htr1|].
  intros addresses s2 _ [e2 ->] Htr2. destruct (interface_address addresses) as [local broadcast]. wpf_steps.
  apply wpf_on_world. change (wp (msh_data_init net_iface local broadcast) ?Q _) with
    (Q 1 (initial_world net_iface local broadcast)). cbv beta. wpf_steps. simpl in *.
  set (s' := set_lib _ s) in *.
  assert (listening (lb_handles (su_lib (bt_start b))) (lb_queues (su_lib (bt_start b))) n ssh h daemon_fd comm_fd s')
    as Hl' by (destruct Hl as [[q []] ????]; split; [exists q; by split|done..]).
  eexists n, ssh, h, daemon_fd, comm_fd, net_iface, _. split; [exact Htr2|]. split; [done|]. right. split; [done|].
  split; [by apply links_made|]. split.
  - destruct (listening_serves _ _ _ _ _ _ _ _ Hl') as (q & Hq). split; simpl.
    + by exists net_iface, local, broadcast.
    + by exists h, q.
    + exact (listening_fds _ _ _ _ _ _ _ _ Hl').
  - apply wpf_no_fault. by eapply msh_data_shutdown_sockets_wp.
Qed.
End start.

(** ** Witness *)

(** A system in which everything succeeds; its state is the next descriptor. *)
#[local] Instance friendly_nfnetlink : Nfnetlink Z := {|
  malloc_ok := mret true;
  nfnl_open := mret (Some 1%positive);
  nfnl_close := λ _, mret 0;
  nfnl_subsys_open := λ _ _ _ _, mret (Some 2%positive);
  nfnl_subsys_close := λ _, mret tt;
  nfnl_callback_register := λ _ _ _, mret 0;
  nfnl_talk := λ _ _, mret 0;
  nfnl_sendiov := λ _ _, mret 0;
  nfnl_fd := λ _, 3;
  nfnl_handle_packet := λ _ _, mret 0 |}.
#[local] Instance friendly_os : Os Z := {|
  os_getuid := mret 0;
  os_calloc := mret true;
  os_socket := λ _ _ e, Ok (4 + e mod 1000) (e + 1);
  os_setsockopt := λ _ _ _, mret 0;
  os_bind := λ _ _ _, mret 0;
  os_listen := λ _ _, mret 0;
  os_close := λ _, mret 0 |}.

(** An interface 7 with one address. *)
#[local] Instance friendly_rtnl : Rtnl Z := {|
  rtnl_link_get_by_name := mret (Some 7);
  rtnl_addresses := λ _, mret [(htonl 167772161, htonl 167772415)] |}.

#[local] Instance friendly_system : System Z.
Proof.
  split; try (by intros; eexists _, _; split; [reflexivity|]).
  - intros n. unfold is_descriptor. simpl. lia.
  - intros f t e. eexists _, _. split; [reflexivity|]. right. unfold is_descriptor.
    pose proof (Z.mod_pos_bound e 1000). lia.
Qed.

Definition not_started : boot Z :=
  Boot (Startup 0 None None None 0 0 None (NfqLib ∅ ∅ None 0 0)) blank_world.

(** The descriptors are 3, 4 and 5. *)
Lemma start_and_end_of_the_daemon_witness :
  wpf (λ _, False) (msh_data_init_main 2) (λ r b', r = Returns 1 ∧ maxfd <$> su_fds (bt_start b') = Some 5) not_started ∧
  wpf (λ fault, ∃ tr e, performed 0 tr e ∧ crash fault tr) (msh_data_init_main 2) (start_ended 2 not_started) not_started.
Proof.
  split; [by vm_compute|]. exact (start_and_end_of_the_daemon 2 not_started eq_refl).
Defined.

(** ** The client *)

(** C34. A session of the client: on lines that hold words ([is_word]) up to a word that
    quits, with a connection for each word that names a command of the daemon, whose answer
    arrives in pieces ([recv]) of any number and length.  When every piece is shorter than
    the client's buffer of 1024 bytes, the client ends with status 0 and has sent one text
    for each word that names a command, in order; words that name no command are turned down
    and help is answered locally.  The daemon reacts to each text as to the plain name of the
    command ([comm_interface_receive_packets]), although the words may carry anything behind
    the name or the number they start with.  When a piece fills the buffer, as the daemon's
    own pieces of 1024 bytes do when they are read whole, the client writes behind its buffer
    instead. *)
Theorem session_reaches_the_daemon `{E : Env} argv0 ws ms c :
  cl_stdin c = typed ws → Forall (λ w, is_word w = true) ws → requests ws = Some ms →
  (length ms ≤ length (cl_net c))%nat →
  (Forall good_connection (take (length ms) (cl_net c)) →
   wp (client_main 2 argv0 true) (λ r c', r = 0 ∧ ∃ ts, cl_sent c' = cl_sent c ++ ts ∧
     Forall2 same_reaction ts ms) c) ∧
  (∀ before k after, cl_net c = before ++ k :: after → (length before < length ms)%nat →
   Forall good_connection before → full_connection k →
   fails (client_main 2 argv0 true) OutOfBounds c).
Proof.
  intros Hin Hws Hreq Hlen. unfold client_main, input_rounds. change (negb (2 =? 2)) with false. cbn [negb].
  assert (length ws < S (String.length (cl_stdin c)))%nat as Hfuel
    by (rewrite Hin; pose proof (typed_length ws); lia). split.
  - intros Hnet. wp_steps. eapply wp_mono; [by eapply client_loop_spec|]. intros u c' Hts. by wp_steps.
  - intros before k after Hnet Hb Hgood Hfull. apply fails_bind. wp_steps. apply fails_first.
    by eapply client_loop_overflows.
Qed.

(** ** Witness *)

(** Help, a word that is no command, showroutes by number and kill by name, each with a tail,
    and quit. *)
Definition words : list string := ["help"; "routes"; "4please"; "killer"; "1"; "2"].
Definition terminal : client := Client (typed words) [Answers ["10#32"]; Answers []] [] [].

(** The same session against a daemon that answers in one piece of 1024 bytes. *)
Definition full_piece : string := String.string_of_list_ascii (repeat "0"%char 1024).
Definition flooded : client := Client (typed words) [Answers [full_piece]; Answers []] [] [].

Lemma session_reaches_the_daemon_witness :
  requests words = Some [MSG_SHOW_ROUTES; MSG_KILL] ∧
  wp (client_main 2 "client" true) (λ r c', r = 0 ∧ ∃ ts, cl_sent c' = ts ∧
    Forall2 same_reaction ts [MSG_SHOW_ROUTES; MSG_KILL]) terminal ∧
  fails (client_main 2 "client" true) OutOfBounds flooded.
Proof.
  assert (Forall (λ w, is_word w = true) words) as Hws by (by repeat constructor).
  split; [reflexivity|]. split.
  - apply (session_reaches_the_daemon "client" words [MSG_SHOW_ROUTES; MSG_KILL] terminal); [reflexivity|done|reflexivity|simpl; lia|].
    repeat constructor; [by exists ["10#32"]; repeat constructor|by exists []].
  - refine (proj2 (session_reaches_the_daemon "client" words [MSG_SHOW_ROUTES; MSG_KILL] flooded eq_refl Hws eq_refl _)
      [] (Answers [full_piece]) [Answers []] eq_refl _ (Forall_nil_2 _) _); [simpl; lia..|].
    exists [], full_piece, []. split; [reflexivity|]. split; [constructor|by vm_compute].
Defined.
